(* ===== verification/_CoqProject ===== *)
-Q . S2P
Prelude.v
Frame.v
Machine.v
Cstring.v
Spinlock.v
Kalloc.v
Vm.v
VmMap.v
VmSpec.v
VmRefs.v
Cow.v
VmAlloc.v
VmCopy.v
VmDemo.v
Kvm.v
Sleeplock.v
Blocks.v
Bio.v
Log.v
LogSpec.v
UserMem.v
Ring.v
Pipe.v
Printf.v
Uart.v
Console.v
Proc.v
Sched.v
SchedSpec.v
Wakeup.v
Syscall.v
Trap.v
Fs.v
FsFrame.v
FsSpec.v
FsInode.v
FsFile.v
FsWrite.v
FsDir.v
Mkfs.v
MkfsSpec.v
MkfsImage.v
Mount.v
File.v
FileSpec.v
FileWrite.v
KProc.v
Sysfile.v
Exec.v
ExecSpec.v
Grep.v
Ulib.v
Umalloc.v
Virtio.v
VirtioSpec.v
VirtioInit.v
Asm.v
UserRet.v
Start.v
Sh.v
ShSpec.v
ShRun.v
ShMain.v
