(* ===== verification/Prelude.v ===== *)
(** * Verification of xv6-riscv2

    A verification library for the teaching operating system in [src/]: the
    kernel (with copy-on-write memory, five schedulers, alarms and system call
    traces), its boot code and assembly, the program that makes its disk image,
    and parts of its user programs.

    ** The program

    A hart enters at [_entry] ([kernel/entry.S]), [start] puts it in supervisor
    mode, and [main] initialises memory, devices and the first process.  User
    code enters the kernel through the trampoline; [usertrap] dispatches system
    calls, page faults and interrupts.  System calls work on processes
    ([kernel/proc.c]) and files ([kernel/sysfile.c]); files lead to pipes, to
    devices and to the file system, which runs on a log of disk blocks, a cache
    of buffers and the virtio disk; the disk starts as an image of [mkfs].  User
    memory is reached through page tables in memory of the page allocator.

    ** Conventions

    Integers are [Z] with the wrap-around of their C width written out ([u32],
    [i32], ...).  A C function on a state [S] is a value of [M S A], a function
    from a state to an outcome and a state; the outcome is a result, a panic, or
    a sleep on a channel.  [zoom] runs a function of a component on its part of a
    larger state.  A thread that gives up the CPU stops there; what follows is a
    definition of its own, or the call goes on after an arbitrary action of the
    other threads.  [wp] is total correctness.  Structures are records, updated
    with [x <| field := v |>]; tables are named by index.  Addresses of the linker
    script, hardware and the device switch are arguments, with their documented
    behaviour as named hypotheses, and each theorem with such a hypothesis has a
    concrete instance.

    ** Files

    - Prelude: integers, the monad, [wp], lenses, record updates, shared lemmas.
      Frame: what a function leaves alone.
    - Machine, Cstring: [kernel/riscv.h], [memlayout.h], [param.h]; byte memory
      and [kernel/string.c].
    - Spinlock, Sleeplock, Wakeup: [spinlock.c], [sleeplock.c], and the
      interleaved [sleep] and [wakeup] of [proc.c].
    - Kalloc, Vm, VmMap, VmSpec, VmRefs, Cow, VmAlloc, VmCopy, VmDemo, Kvm:
      [kalloc.c], [vm.c] and [handleCOW] of [trap.c]; page tables as bytes, as
      maps, with reference counts; the page table of the kernel.
    - Blocks, Bio, Log, LogSpec: [fs.h], [bio.c], [log.c].
    - Fs, FsFrame, FsSpec, FsInode, FsFile, FsWrite, FsDir: [fs.c]; the free
      map, inodes, reading, writing with allocation, directories.
    - Mkfs, MkfsSpec, MkfsImage, Mount: [mkfs/mkfs.c], the image it makes, and
      [fsinit] on it.
    - UserMem, KProc: the interface of drivers and files to the memory of a
      process, and its implementation by page tables.
    - Ring, Pipe, Printf, Uart, Console: ring buffers, [pipe.c], the two
      [printf.c], [uart.c], [console.c].
    - Proc, Sched, SchedSpec, Syscall, Trap: [proc.c], [random.c], [syscall.c],
      [sysproc.c], [trap.c], [plic.c].
    - File, FileSpec, FileWrite, Sysfile, Exec, ExecSpec: [file.c], [sysfile.c],
      [exec.c]; FileWrite has [filewrite] through all layers to the disk.
    - Virtio, VirtioSpec, VirtioInit: [virtio_disk.c], [virtio.h].
    - Asm, UserRet, Start: [trampoline.S], [swtch.S], [kernelvec.S], [entry.S],
      [start.c]; UserRet joins the trampoline with [usertrapret] of [trap.c].
    - Grep, Ulib, Umalloc, Sh, ShSpec, ShRun, ShMain: [user/grep.c], [ulib.c],
      [wc.c], [cat.c], [ls.c], [umalloc.c], [sh.c].

    ** What is proved

    - Memory: the allocator implements a stack of free pages with reference
      counts; [mappages], [uvmalloc] and [uvmunmap] change exactly the mappings
      they are asked to; [fork] shares pages and a write fault gives the writer a
      private copy; the page tables implement the partial map of bytes the rest
      of the kernel is verified against; at boot the kernel gets exactly its
      direct map, with guarded stacks and no page writable and executable.
    - Concurrency: mutual exclusion of the spin lock, no lost wakeup, and a disk
      driver that, interleaved with processes, interrupts and the device,
      implements a disk of blocks.
    - Storage: a crash at any write of a commit leaves all of a transaction or
      nothing; a committed transaction is on disk; the cache recycles the least
      recently used buffer; the free map, inodes and the inode table behave as
      their specification.  [readi] and [writei] read and write the contents of a
      file through direct and indirect blocks, a directory is a map from names to
      inodes for [dirlookup] and [dirlink], and [write] of an open file puts the
      bytes of the process on the disk in committed transactions that fit in the
      log.  [mkfs] makes an image that [fsinit] mounts unchanged, with the given
      files and names, in the state these theorems start from.
    - Control: the C code and the assembly of traps restore the process exactly,
      and context switches restore what they save; registers stay words; system
      calls are dispatched and traced; the schedulers choose by their policy;
      [exec] and [pipealloc] do all or nothing; alarms are transparent; each
      hart arrives at [main] as [main] expects it; the walk along a path ends.
    - User programs: the shell's parser accepts exactly its grammar, its
      pipelines are wired as written, and a session handles the lines of its
      input in order; [grep] prints the lines its pattern
      matches; [malloc] and [free] keep their list of free blocks; the library
      copies and compares strings, [wc] counts and [cat] copies whatever way the
      input is cut into reads.

    ** Bounds and fuel

    Loops over a range run over the list of its elements.  A loop without such a
    bound has fuel that the caller computes from the data: the number of pages of
    a range, the bytes of a path or of a transfer, the fill level of a ring; the
    theorems about these functions show that it is enough, since running out of
    fuel is an outcome of its own or a panic that they exclude.  Where a call can
    sleep any number of times, fuel bounds how often it does, and running out
    means that it is still asleep.  [iappend] of [mkfs] has one round per byte.
    The searches for a NUL in the user library have any fuel above the length of
    the string.  [parsecmd] needs four calls per character of
    the line and four more; the theorem is for any larger fuel;
    the shell uses it with the length of its buffer.

    ** Not modelled

    - [user/usertests.c], [grind.c], [forktest.c], [stressfs.c],
      [alarmtest.c], [schedulertest.c], [vnnm.c], [zombie.c]: tests of the kernel,
      sequences of system calls without a contract of their own.
    - [echo.c], [kill.c], [ln.c], [mkdir.c], [rm.c], [time.c], [setpriority.c],
      [strace.c], [init.c], and [main] of the programs that only open the files of
      their arguments: system calls and messages.  Of [ls.c] only the formatting
      of names.
    - The rest of [kernel/main.c], the order of the initialisations.
    - [kernel/ramdisk.c], which the build does not use; prototypes ([defs.h],
      [user.h]); the linker scripts; [usys.pl], which generates stubs;
      [initcode.S], which is the byte array [initcode] of [proc.c].
    - Timing, caches and the memory model of the hardware: memory accesses are
      sequentially consistent. *)
From stdpp Require Export base tactics list numbers strings gmap fin_maps relations.
From Stdlib Require Export ZArith Lia.

#[global] Open Scope Z_scope.
#[global] Arguments Z.add : simpl never.
#[global] Arguments Z.mul : simpl never.

(** ** C integer types

    [uchar], [ushort], [uint], [uint64] are the residues of an integer modulo
    their width; [int] and [short] are the two's complement readings. *)

Definition u8 (x : Z) : Z := x mod 2 ^ 8.
Definition u16 (x : Z) : Z := x mod 2 ^ 16.
Definition u32 (x : Z) : Z := x mod 2 ^ 32.
Definition u64 (x : Z) : Z := x mod 2 ^ 64.
Definition i16 (x : Z) : Z := (x + 2 ^ 15) mod 2 ^ 16 - 2 ^ 15.
Definition i32 (x : Z) : Z := (x + 2 ^ 31) mod 2 ^ 32 - 2 ^ 31.

Lemma i32_id x : - 2 ^ 31 <= x < 2 ^ 31 → i32 x = x.
Proof. intros Hx. unfold i32. rewrite Z.mod_small; lia. Qed.
Lemma u32_id x : 0 <= x < 2 ^ 32 → u32 x = x.
Proof. intros Hx. by apply Z.mod_small. Qed.
Lemma u64_range x : 0 <= u64 x < 2 ^ 64.
Proof. by apply Z.mod_pos_bound. Qed.
Lemma u64_id x : 0 <= x < 2 ^ 64 → u64 x = x.
Proof. intros Hx. by apply Z.mod_small. Qed.

(** A C condition: any non-zero value is true. *)
Definition truth (x : Z) : bool := negb (x =? 0).

(** [~ x] at 64 bits. *)
Definition not64 (x : Z) : Z := u64 (Z.lnot x).

(** ** Updates of functions: arrays and the memory of structures *)

Definition upd {A B} `{!EqDecision A} (f : A → B) (a : A) (b : B) : A → B :=
  λ x, if decide (x = a) then b else f x.

Lemma upd_eq {A B} `{!EqDecision A} (f : A → B) a b : upd f a b a = b.
Proof. unfold upd. by rewrite decide_True. Qed.
Lemma upd_ne {A B} `{!EqDecision A} (f : A → B) a b x : x ≠ a → upd f a b x = f x.
Proof. intros. unfold upd. by rewrite decide_False. Qed.

(** ** Outcomes

    A kernel function returns, panics ([panic] never returns), or gives up the
    CPU in [sleep] or spins on a lock.  The sequential model stops at a
    [Blocked] outcome; the components whose progress depends on other
    processes resume from there in a step relation. *)

(** The sleep locks: one per buffer and one per in-memory inode. *)
Inductive sleepid : Type := SlBuf (b : nat) | SlInode (i : nat).

(** The spin locks of the kernel, by the object they protect. *)
Inductive lockid : Type :=
| LkKmem | LkMemref | LkPid | LkWait | LkProc (i : nat) | LkTicks
| LkBcache | LkLog | LkItable | LkFtable | LkPipe (pi : Z)
| LkCons | LkUart | LkDisk | LkPr | LkSleep (l : sleepid).

(** The addresses processes sleep on. *)
Inductive channel : Type :=
| ChTicks
| ChLog
| ChProc (i : nat)
| ChPipeRead (pi : Z)
| ChPipeWrite (pi : Z)
| ChCons
| ChUartTx
| ChDiskFree
| ChBuf (b : nat)
| ChSleepLock (l : sleepid)
| ChSpin (l : lockid).

#[global] Instance sleepid_eq_dec : EqDecision sleepid.
Proof. solve_decision. Defined.
#[global] Instance lockid_eq_dec : EqDecision lockid.
Proof. solve_decision. Defined.
#[global] Instance channel_eq_dec : EqDecision channel.
Proof. solve_decision. Defined.

Inductive outcome (A : Type) : Type :=
| Ret (a : A)
| Panic (msg : string)
| Blocked (c : channel).
Arguments Ret {A} a.
Arguments Panic {A} msg.
Arguments Blocked {A} c.

(** ** The kernel monad: explicit state passing with outcomes *)

Definition M (S A : Type) : Type := S → outcome A * S.

Section monad.
Context {S : Type}.

Definition ret {A} (a : A) : M S A := λ s, (Ret a, s).
Definition bind {A B} (m : M S A) (k : A → M S B) : M S B := λ s,
  match m s with
  | (Ret a, s') => k a s'
  | (Panic e, s') => (Panic e, s')
  | (Blocked c, s') => (Blocked c, s')
  end.
Definition get : M S S := λ s, (Ret s, s).
Definition gets {A} (f : S → A) : M S A := λ s, (Ret (f s), s).
Definition modify (f : S → S) : M S unit := λ s, (Ret tt, f s).
Definition panic {A} (msg : string) : M S A := λ s, (Panic msg, s).
Definition block {A} (c : channel) : M S A := λ s, (Blocked c, s).
Definition when (b : bool) (m : M S unit) : M S unit := if b then m else ret tt.

(** [for (x in l) body]: a body that yields [Some r] leaves the loop with
    [r] ([break] or [return]); [None] goes on. *)
Fixpoint for_each {B R} (l : list B) (body : B → M S (option R)) : M S (option R) :=
  match l with
  | [] => ret None
  | x :: l' => bind (body x) (λ r,
      match r with Some r => ret (Some r) | None => for_each l' body end)
  end.

(** A loop without an early exit. *)
Fixpoint for_all {B} (l : list B) (body : B → M S unit) : M S unit :=
  match l with
  | [] => ret tt
  | x :: l' => bind (body x) (λ _, for_all l' body)
  end.
End monad.

Declare Scope kernel_scope.
Delimit Scope kernel_scope with kernel.
Notation "x <- m ;; k" := (bind m (λ x, k))
  (at level 100, m at next level, right associativity) : kernel_scope.
Notation "'let*' ' p := m 'in' k" := (bind m (λ x, match x with p => k end))
  (at level 10, p pattern, m at level 100, k at level 200,
   format "'let*'  ' p  :=  m  'in' '//' k") : kernel_scope.
Notation "m ;;; k" := (bind m (λ _, k))
  (at level 100, right associativity) : kernel_scope.
#[global] Open Scope kernel_scope.

(** Running a sequence whose first part is known. *)
Lemma bind_Ret {S A B} (m : M S A) (k : A → M S B) s a s' :
  m s = (Ret a, s') → bind m k s = k a s'.
Proof. unfold bind. by intros ->. Qed.
Lemma bind_Panic {S A B} (m : M S A) (k : A → M S B) s e s' :
  m s = (Panic e, s') → bind m k s = (Panic e, s').
Proof. unfold bind. by intros ->. Qed.
Lemma bind_Blocked {S A B} (m : M S A) (k : A → M S B) s c s' :
  m s = (Blocked c, s') → bind m k s = (Blocked c, s').
Proof. unfold bind. by intros ->. Qed.

Lemma bind_assoc {S A B C} (m : M S A) (k : A → M S B) (k' : B → M S C) s :
  bind (bind m k) k' s = bind m (λ a, bind (k a) k') s.
Proof. unfold bind. by destruct (m s) as [[a|e|c] s']. Qed.

(** ** Weakest preconditions (total correctness)

    [wp m Q s]: from [s] the function returns, without a panic and without
    blocking, in a state and with a value that satisfy [Q]. *)

Definition wp {S A} (m : M S A) (Q : A → S → Prop) (s : S) : Prop :=
  match m s with (Ret a, s') => Q a s' | _ => False end.

Section wp.
Context {S : Type}.

Lemma wp_ret {A} (a : A) (Q : A → S → Prop) s : Q a s → wp (ret a) Q s.
Proof. done. Qed.

Lemma wp_bind {A B} (m : M S A) (k : A → M S B) Q s :
  wp m (λ a s', wp (k a) Q s') s → wp (bind m k) Q s.
Proof. unfold wp, bind. by destruct (m s) as [[a|e|c] s']. Qed.

Lemma wp_bind_inv {A B} (m : M S A) (k : A → M S B) Q s :
  wp (bind m k) Q s → wp m (λ a s', wp (k a) Q s') s.
Proof. unfold wp, bind. by destruct (m s) as [[a|e|c] s']. Qed.

Lemma wp_mono {A} (m : M S A) (Q Q' : A → S → Prop) s :
  wp m Q s → (∀ a s', Q a s' → Q' a s') → wp m Q' s.
Proof. unfold wp. destruct (m s) as [[a|e|c] s']; eauto. Qed.

Lemma wp_and {A} (m : M S A) (Q Q' : A → S → Prop) s :
  wp m Q s → wp m Q' s → wp m (λ a s', Q a s' ∧ Q' a s') s.
Proof. unfold wp. destruct (m s) as [[a|e|c] s']; eauto. Qed.

Lemma wp_get (Q : S → S → Prop) s : Q s s → wp get Q s.
Proof. done. Qed.

Lemma wp_gets {A} (f : S → A) (Q : A → S → Prop) s : Q (f s) s → wp (gets f) Q s.
Proof. done. Qed.

Lemma wp_modify (f : S → S) (Q : unit → S → Prop) s : Q tt (f s) → wp (modify f) Q s.
Proof. done. Qed.

Lemma wp_run {A} (m : M S A) (Q : A → S → Prop) s :
  wp m Q s ↔ ∃ a s', m s = (Ret a, s') ∧ Q a s'.
Proof.
  unfold wp. destruct (m s) as [[a|e|c] s']; split;
    [eauto|intros (?&?&?&?); by simplify_eq|done|by intros (?&?&?&?)|done|by intros (?&?&?&?)].
Qed.

Lemma wp_intro {A} (m : M S A) (Q : A → S → Prop) s a s' :
  m s = (Ret a, s') → Q a s' → wp m Q s.
Proof. intros E H. apply wp_run. eauto. Qed.

Lemma wp_snd {A} (m : M S A) (P : S → Prop) s : wp m (λ _ t, P t) s → P (snd (m s)).
Proof. unfold wp. by destruct (m s) as [[a|e|c] s']. Qed.

Lemma wp_reaches {A} (m : M S A) (P : S → Prop) s : wp m (λ _ t, P t) s → ∃ t, P t.
Proof. intros Hw%wp_snd. eauto. Qed.

Lemma wp_eq {A} (m : M S A) s a s' :
  wp m (λ x t, x = a ∧ t = s') s → m s = (Ret a, s').
Proof. rewrite wp_run. by intros (?&?&?&->&->). Qed.

(** Loop rules: [I done s] holds after the elements of [done]. *)
Lemma wp_for_all {B} (l : list B) (body : B → M S unit) (I : list B → S → Prop) s :
  I [] s →
  (∀ pre x suf s, l = pre ++ x :: suf → I pre s →
     wp (body x) (λ _ s', I (pre ++ [x]) s') s) →
  wp (for_all l body) (λ _ s', I l s') s.
Proof.
  intros H0 Hstep.
  cut (∀ suf pre s, l = pre ++ suf → I pre s →
    wp (for_all suf body) (λ _ s', I l s') s).
  { intros Hc. by apply (Hc l []). }
  clear s H0. induction suf as [|x suf IH]; intros pre s Hl Hpre; simpl.
  - rewrite app_nil_r in Hl. subst. by apply wp_ret.
  - apply wp_bind. eapply wp_mono; [by eapply Hstep|].
    intros [] s' Hs'. apply (IH (pre ++ [x])); [|done].
    by rewrite <-app_assoc.
Qed.

Lemma wp_for_seq (n : nat) (body : nat → M S unit) (I : nat → S → Prop) s :
  I O s → (∀ k s, (k < n)%nat → I k s → wp (body k) (λ _ s', I (1 + k)%nat s') s) →
  wp (for_all (seq 0 n) body) (λ _ s', I n s') s.
Proof.
  intros H0 Hstep. cut (∀ m k s, (k + m = n)%nat → I k s → wp (for_all (seq k m) body) (λ _ s', I n s') s).
  { intros Hc. by apply Hc. }
  clear s H0. induction m as [|m IH]; intros k s Hk Hi; simpl.
  - apply wp_ret. by replace n with k by lia.
  - apply wp_bind. eapply wp_mono; [apply Hstep; [lia|done]|]. intros [] s' Hs'. apply IH; [lia|done].
Qed.

(** The exit value either comes from the first element whose body yields
    one, or the loop ran to its end. *)
Lemma wp_for_each {B R} (l : list B) (body : B → M S (option R))
    (I : list B → S → Prop) (Q : option R → S → Prop) s :
  I [] s →
  (∀ pre x suf s, l = pre ++ x :: suf → I pre s →
     wp (body x) (λ r s', match r with
                          | Some r => Q (Some r) s'
                          | None => I (pre ++ [x]) s' end) s) →
  (∀ s, I l s → Q None s) →
  wp (for_each l body) Q s.
Proof.
  intros H0 Hstep Hend.
  cut (∀ suf pre s, l = pre ++ suf → I pre s → wp (for_each suf body) Q s).
  { intros Hc. by apply (Hc l []). }
  clear s H0. induction suf as [|x suf IH]; intros pre s Hl Hpre; simpl.
  - rewrite app_nil_r in Hl. subst. apply wp_ret. by apply Hend.
  - apply wp_bind. eapply wp_mono; [by eapply Hstep|].
    intros [r|] s' Hs'; [by apply wp_ret|].
    apply (IH (pre ++ [x])); [|done]. by rewrite <-app_assoc.
Qed.
End wp.

(** ** Views: a component of a larger state *)

Record lens (S T : Type) := Lens { lget : S → T; lset : T → S → S }.
Arguments Lens {S T} _ _.
Arguments lget {S T} _ _.
Arguments lset {S T} _ _ _.

(** The lens laws. *)
Class LensLaws {S T} (L : lens S T) : Prop := {
  lget_lset : ∀ t s, lget L (lset L t s) = t;
  lset_lget : ∀ s, lset L (lget L s) s = s;
  lset_lset : ∀ t t' s, lset L t (lset L t' s) = lset L t s;
}.

(** Run a component's function on its part of the state. *)
Definition zoom {S T A} (L : lens S T) (m : M T A) : M S A := λ s,
  match m (lget L s) with (o, t) => (o, lset L t s) end.

Lemma wp_zoom {S T A} (L : lens S T) (m : M T A) Q s :
  wp m (λ a t, Q a (lset L t s)) (lget L s) → wp (zoom L m) Q s.
Proof. unfold wp, zoom. by destruct (m (lget L s)) as [[a|e|c] t]. Qed.

Lemma zoom_run {S T A} (L : lens S T) (m : M T A) s o t :
  m (lget L s) = (o, t) → zoom L m s = (o, lset L t s).
Proof. unfold zoom. by intros ->. Qed.

(** ** Record updates: [x <| field := v |>] and [x <| field ::= f |>]

    A record declares its eta expansion as an instance of [Eta]; the update of
    a field is derived from it by abstracting the projection. *)
Class Eta (R : Type) := eta : R → R.
Class Setter {R T : Type} (proj : R → T) := field_upd : (T → T) → R → R.
#[global] Arguments field_upd {R T} proj {_} _ _ /.

Ltac solve_setter :=
  lazymatch goal with
  | |- @Setter ?R ?T ?proj =>
      let i := constr:(_ : Eta R) in
      let e := eval red in i in
      lazymatch eval pattern proj in e with
      | ?F _ => let r := eval cbv beta in (λ (f : T → T), F (λ x : R, f (proj x))) in exact r
      end
  end.
#[global] Hint Extern 0 (Setter _) => solve_setter : typeclass_instances.

Notation "x <| f := v |>" := (field_upd f (λ _, v) x)
  (at level 1, f at level 200, v at level 200, left associativity) : kernel_scope.
Notation "x <| f ::= g |>" := (field_upd f g x)
  (at level 1, f at level 200, g at level 200, left associativity) : kernel_scope.

(** One step of symbolic execution of a goal [wp m Q s]. *)
Ltac wp_step :=
  match goal with
  | |- wp (bind _ _) _ _ => apply wp_bind
  | |- wp (ret _) _ _ => apply wp_ret
  | |- wp get _ _ => apply wp_get
  | |- wp (gets _) _ _ => apply wp_gets
  | |- wp (modify _) _ _ => apply wp_modify
  | |- wp (when ?b _) _ _ => unfold when
  | |- wp (λ _, _) _ _ => cbv beta
  end.
Ltac wp_steps := repeat (wp_step; cbv beta).

(** Arithmetic with [/] and [mod]. *)
Ltac zdiv := Z.div_mod_to_equations; lia.

(** Case analysis on every integer comparison of the goal. *)
Ltac zbool :=
  repeat match goal with
  | |- context [Z.leb ?a ?b] => destruct (Z.leb_spec a b)
  | |- context [Z.ltb ?a ?b] => destruct (Z.ltb_spec a b)
  | |- context [Z.eqb ?a ?b] => destruct (Z.eqb_spec a b)
  end; cbn [andb orb negb].
Ltac zcases := zbool; first [done | lia | f_equal; lia | idtac].

Lemma list_cases {A} (l : list A) : l = [] ∨ ∃ x l', l = x :: l'.
Proof. destruct l; eauto. Qed.

Create HintDb kernel discriminated.
