(* ===== verification/Frame.v ===== *)
(** * What a function leaves alone

    [keeps f m]: however [m] ends, the part [f] of the state is what it was.
    The rules follow the structure of the program, so that the tactic [frame]
    proves it for a function from the lemmas about the functions it calls,
    which the hint database [frame] collects.  [post] describes a run by its
    outcome, whichever it is. *)
From S2P Require Import Prelude.

Definition keeps {S X A} (f : S → X) (m : M S A) : Prop := ∀ s, f (snd (m s)) = f s.

Section keeps.
Context {S X : Type} {f : S → X}.

Lemma keeps_ret {A} (a : A) : keeps f (ret a).
Proof. done. Qed.
Lemma keeps_panic {A} e : keeps f (panic (A := A) e).
Proof. done. Qed.
Lemma keeps_block {A} c : keeps f (block (A := A) c).
Proof. done. Qed.
Lemma keeps_get : keeps f get.
Proof. done. Qed.
Lemma keeps_gets {A} (g : S → A) : keeps f (gets g).
Proof. done. Qed.
Lemma keeps_modify g : (∀ s, f (g s) = f s) → keeps f (modify g).
Proof. intros Hg s. apply Hg. Qed.

Lemma keeps_bind {A B} (m : M S A) (k : A → M S B) : keeps f m → (∀ a, keeps f (k a)) → keeps f (bind m k).
Proof.
  intros Hm Hk s. unfold bind. specialize (Hm s). destruct (m s) as [[a|e|c] s']; [|done..].
  simpl in Hm. rewrite <-Hm. apply Hk.
Qed.

Lemma keeps_when b m : keeps f m → keeps f (when b m).
Proof. intros Hm. destruct b; [done|apply keeps_ret]. Qed.

Lemma keeps_for_each {B R} (l : list B) (body : B → M S (option R)) : (∀ x, keeps f (body x)) → keeps f (for_each l body).
Proof.
  intros Hb. induction l as [|x l IH]; [apply keeps_ret|]. apply keeps_bind; [done|].
  intros [r|]; [apply keeps_ret|done].
Qed.

Lemma keeps_for_all {B} (l : list B) (body : B → M S unit) : (∀ x, keeps f (body x)) → keeps f (for_all l body).
Proof. intros Hb. induction l as [|x l IH]; [apply keeps_ret|]. by apply keeps_bind. Qed.

(** A component that the projection does not see, and one that it looks into. *)
Lemma keeps_zoom_out {T A} (l : lens S T) (m : M T A) : (∀ t s, f (lset l t s) = f s) → keeps f (zoom l m).
Proof. intros Hl s. unfold zoom. destruct (m (lget l s)) as [o t]. apply Hl. Qed.

Lemma keeps_zoom_in {T A} (l : lens S T) (h : T → X) (m : M T A) : (∀ t s, f (lset l t s) = h t) → (∀ s, f s = h (lget l s)) →
  keeps h m → keeps f (zoom l m).
Proof.
  intros Hs Hg Hm s. specialize (Hm (lget l s)). unfold zoom. destruct (m (lget l s)) as [o t].
  simpl in *. by rewrite Hs, Hm, Hg.
Qed.
End keeps.

Create HintDb frame discriminated.
#[export] Hint Resolve keeps_ret keeps_panic keeps_block keeps_get keeps_gets : frame.

(** One function: its body must be unfolded. *)
Ltac frame_step :=
  lazymatch goal with
  | |- keeps _ (bind _ _) => apply keeps_bind
  | |- keeps _ (when _ _) => apply keeps_when
  | |- keeps _ (for_each _ _) => apply keeps_for_each
  | |- keeps _ (for_all _ _) => apply keeps_for_all
  | |- keeps _ (modify _) => apply keeps_modify; intros; reflexivity
  | |- keeps _ (match ?x with _ => _ end) => destruct x
  | |- keeps _ (let _ := _ in _) => cbv zeta
  | |- keeps _ _ => solve [eauto 3 with frame nocore]
  | |- ∀ _, _ => intros
  end.
Ltac frame := intros; repeat frame_step.

(** ** Every way to end *)

(** [post m Q s]: [Q] holds of the outcome and the final state, also when [m] panics or blocks. *)
Definition post {S A} (m : M S A) (Q : outcome A → S → Prop) (s : S) : Prop := Q (fst (m s)) (snd (m s)).

Section post.
Context {S : Type}.

Lemma post_ret {A} (a : A) (Q : outcome A → S → Prop) s : Q (Ret a) s → post (ret a) Q s.
Proof. done. Qed.

Lemma post_modify {A} g (k : M S A) Q s : post k Q (g s) → post (modify g ;;; k) Q s.
Proof. done. Qed.
Lemma post_gets {A B} (g : S → A) (k : A → M S B) Q s : post (k (g s)) Q s → post (bind (gets g) k) Q s.
Proof. done. Qed.

(** A first part that leaves [f] alone. *)
Lemma post_keeps {A B X} (f : S → X) (m : M S A) (k : A → M S B) (Q : outcome B → S → Prop) s : keeps f m →
  (∀ a s', f s' = f s → post (k a) Q s') → (∀ o s', f s' = f s → (∀ b, o ≠ Ret b) → Q o s') → post (bind m k) Q s.
Proof.
  intros Hm Hk Ho. specialize (Hm s). unfold post, bind. destruct (m s) as [[a|e|c] s']; simpl in *;
    [by apply Hk|by apply Ho|by apply Ho].
Qed.
End post.
