(* ===== verification/Machine.v ===== *)
(** * Machine layer: [kernel/riscv.h], [kernel/memlayout.h], [kernel/param.h]

    The constants and macros of the headers, at their C widths, with the
    arithmetic facts the rest of the development uses: page rounding, page
    table entries (Sv39) and the three-level index split of a virtual
    address. *)
From S2P Require Import Prelude.

(** ** kernel/param.h *)
Definition NPROC : nat := 64.
Definition NPR : nat := 5.
Definition NCPU : nat := 8.
Definition NOFILE : nat := 16.
Definition NFILE : nat := 100.
Definition NINODE : nat := 50.
Definition NDEV : Z := 10.
Definition ROOTDEV : Z := 1.
Definition MAXARG : nat := 32.
Definition MAXOPBLOCKS : Z := 10.
Definition LOGSIZE : Z := MAXOPBLOCKS * 3.
Definition NBUF : nat := 30.
Definition FSSIZE : Z := 2000.
Definition MAXPATH : Z := 128.

(** ** kernel/riscv.h: pages and page table entries *)
Definition PGSIZE : Z := 4096.
Definition PGSHIFT : Z := 12.
Definition PGROUNDUP (sz : Z) : Z := Z.land (u64 (sz + PGSIZE - 1)) (not64 (PGSIZE - 1)).
Definition PGROUNDDOWN (a : Z) : Z := Z.land a (not64 (PGSIZE - 1)).

Definition PTE_V : Z := Z.shiftl 1 0.
Definition PTE_R : Z := Z.shiftl 1 1.
Definition PTE_W : Z := Z.shiftl 1 2.
Definition PTE_X : Z := Z.shiftl 1 3.
Definition PTE_U : Z := Z.shiftl 1 4.
Definition PTE_COW : Z := Z.shiftl 1 9.

Definition PA2PTE (pa : Z) : Z := u64 (Z.shiftl (Z.shiftr pa 12) 10).
Definition PTE2PA (pte : Z) : Z := u64 (Z.shiftl (Z.shiftr pte 10) 12).
Definition PTE_FLAGS (pte : Z) : Z := Z.land pte 0x3FF.

Definition PXMASK : Z := 0x1FF.
Definition PXSHIFT (level : Z) : Z := PGSHIFT + 9 * level.
Definition PX (level va : Z) : Z := Z.land (Z.shiftr va (PXSHIFT level)) PXMASK.
Definition MAXVA : Z := Z.shiftl 1 (9 + 9 + 9 + 12 - 1).

Definition SATP_SV39 : Z := u64 (Z.shiftl 8 60).
Definition MAKE_SATP (pagetable : Z) : Z := Z.lor SATP_SV39 (Z.shiftr pagetable 12).

(** ** kernel/memlayout.h *)
Definition UART0 : Z := 0x10000000.
Definition UART0_IRQ : Z := 10.
Definition VIRTIO0 : Z := 0x10001000.
Definition VIRTIO0_IRQ : Z := 1.
Definition PLIC : Z := 0x0c000000.
Definition KERNBASE : Z := 0x80000000.
Definition PHYSTOP : Z := KERNBASE + 128 * 1024 * 1024.
Definition TRAMPOLINE : Z := MAXVA - PGSIZE.
Definition KSTACK (p : Z) : Z := TRAMPOLINE - (p + 1) * 2 * PGSIZE.
Definition TRAPFRAME : Z := TRAMPOLINE - PGSIZE.

(** ** Bits *)

Lemma land_pow2_testbit x k : 0 <= k → (Z.land x (2 ^ k) =? 0) = negb (Z.testbit x k).
Proof.
  intros Hk. assert (Z.land x (2 ^ k) = if Z.testbit x k then 2 ^ k else 0) as ->.
  { apply Z.bits_inj'. intros n Hn. rewrite Z.land_spec, Z.pow2_bits_eqb by done.
    destruct (Z.eqb_spec k n) as [<-|Hne].
    - destruct (Z.testbit x k) eqn:E; simpl.
      + by rewrite Z.pow2_bits_true.
      + by rewrite Z.bits_0.
    - rewrite andb_false_r. destruct (Z.testbit x k).
      + by rewrite Z.pow2_bits_false.
      + by rewrite Z.bits_0. }
  destruct (Z.testbit x k); simpl; [|done].
  apply Z.eqb_neq. pose proof (Z.pow_pos_nonneg 2 k). lia.
Qed.

Lemma land_not64 a b : 0 <= a < 2 ^ 64 → Z.land a (not64 b) = Z.ldiff a b.
Proof.
  intros Ha. unfold not64, u64. rewrite <-Z.land_ones by lia.
  rewrite Z.land_assoc, (Z.land_comm (Z.land a _)), Z.land_assoc,
    (Z.land_comm (Z.ones 64)), Z.land_ones, (Z.mod_small a) by lia.
  by rewrite Z.ldiff_land.
Qed.

Lemma lor_range x y n : 0 <= n → 0 <= x < 2 ^ n → 0 <= y < 2 ^ n → 0 <= Z.lor x y < 2 ^ n.
Proof.
  intros Hn Hx Hy. split; [apply Z.lor_nonneg; lia|].
  destruct (Z.eq_dec (Z.lor x y) 0) as [->|H0]; [lia|].
  apply Z.log2_lt_pow2; [pose proof (Z.lor_nonneg x y); lia|]. rewrite Z.log2_lor by lia.
  destruct (Z.eq_dec x 0) as [->|], (Z.eq_dec y 0) as [->|]; try done;
    apply Z.max_lub_lt; try (change (Z.log2 0) with 0; destruct (Z.eq_dec n 0) as [->|]; lia);
    apply Z.log2_lt_pow2; lia.
Qed.

Lemma lor_shift_add x f n : 0 <= n → 0 <= f < 2 ^ n → Z.lor (x * 2 ^ n) f = x * 2 ^ n + f.
Proof.
  intros Hn Hf. symmetry. apply Z.add_nocarry_lor.
  apply Z.bits_inj'. intros i Hi. rewrite Z.land_spec, Z.bits_0.
  destruct (Z.lt_ge_cases i n).
  - by rewrite Z.mul_pow2_bits_low.
  - destruct (Z.eq_dec f 0) as [->|]; [by rewrite Z.bits_0, andb_false_r|].
    rewrite (Z.bits_above_log2 f), andb_false_r; [done|lia|].
    apply Z.log2_lt_pow2; [lia|]. eapply Z.lt_le_trans; [apply Hf|].
    by apply Z.pow_le_mono_r.
Qed.

(** ** Page rounding *)

Lemma PGROUNDDOWN_spec a : 0 <= a < 2 ^ 64 → PGROUNDDOWN a = 4096 * (a / 4096).
Proof.
  intros Ha. unfold PGROUNDDOWN, PGSIZE. rewrite land_not64 by done.
  change (4096 - 1) with (Z.ones 12). rewrite Z.ldiff_ones_r by lia.
  rewrite Z.shiftl_mul_pow2, Z.shiftr_div_pow2 by lia. apply Z.mul_comm.
Qed.

Lemma PGROUNDUP_spec a :
  0 <= a → a + 4095 < 2 ^ 64 → PGROUNDUP a = 4096 * ((a + 4095) / 4096).
Proof.
  intros Ha Ha'. unfold PGROUNDUP, PGSIZE. unfold u64. rewrite Z.mod_small by lia.
  replace (a + 4096 - 1) with (a + 4095) by lia.
  apply (PGROUNDDOWN_spec (a + 4095)). lia.
Qed.

(** A page address: aligned, and within the 56-bit physical space. *)
Definition is_page (pa : Z) : Prop := 0 <= pa < 2 ^ 56 ∧ pa mod PGSIZE = 0.

Lemma PTE2PA_mk pa f : is_page pa → 0 <= f < 1024 → PTE2PA (Z.lor (PA2PTE pa) f) = pa.
Proof.
  intros [Hr Hal] Hf. unfold PTE2PA, PA2PTE, PGSIZE in *.
  rewrite !Z.shiftl_mul_pow2, !Z.shiftr_div_pow2 by lia. unfold u64.
  rewrite (Z.mod_small (pa / 2 ^ 12 * 2 ^ 10)) by zdiv.
  rewrite lor_shift_add by lia. rewrite Z.mod_small; zdiv.
Qed.

Lemma PTE_FLAGS_mk pa f : is_page pa → 0 <= f < 1024 → PTE_FLAGS (Z.lor (PA2PTE pa) f) = f.
Proof.
  intros [Hr Hal] Hf. unfold PTE_FLAGS, PA2PTE, PGSIZE in *.
  change 0x3FF with (Z.ones 10). rewrite Z.land_ones by lia.
  rewrite !Z.shiftl_mul_pow2, !Z.shiftr_div_pow2 by lia. unfold u64.
  rewrite (Z.mod_small (pa / 2 ^ 12 * 2 ^ 10)) by zdiv.
  rewrite lor_shift_add by lia. zdiv.
Qed.

Lemma PTE_mk_range pa f : is_page pa → 0 <= f < 1024 → 0 <= Z.lor (PA2PTE pa) f < 2 ^ 64.
Proof.
  intros [Hr Hal] Hf. unfold PA2PTE, PGSIZE in *.
  rewrite !Z.shiftl_mul_pow2, !Z.shiftr_div_pow2 by lia. unfold u64.
  rewrite (Z.mod_small (pa / 2 ^ 12 * 2 ^ 10)) by zdiv.
  rewrite lor_shift_add by lia. zdiv.
Qed.

(** A flag bit below bit 10 is read through [PTE_FLAGS]. *)
Lemma testbit_flags pte k : 0 <= k < 10 → Z.testbit (PTE_FLAGS pte) k = Z.testbit pte k.
Proof.
  intros Hk. unfold PTE_FLAGS. change 0x3FF with (Z.ones 10).
  rewrite Z.land_spec, Z.ones_spec_low by lia. apply andb_true_r.
Qed.

(** The physical page is in the bits from 10 up. *)
Lemma PTE2PA_ext p q : (∀ k, 10 <= k → Z.testbit p k = Z.testbit q k) → PTE2PA p = PTE2PA q.
Proof.
  intros H. unfold PTE2PA. do 2 f_equal. apply Z.bits_inj'. intros k Hk.
  rewrite !Z.shiftr_spec by lia. apply H. lia.
Qed.

(** [(pte & ~clear) | set], bit by bit. *)
Lemma testbit_clear_set p c s k : 0 <= p < 2 ^ 64 →
  Z.testbit (Z.lor (Z.land p (not64 c)) s) k = Z.testbit p k && negb (Z.testbit c k) || Z.testbit s k.
Proof. intros Hp. by rewrite Z.lor_spec, land_not64, Z.ldiff_spec. Qed.

Lemma clear_set_range p c s : 0 <= p < 2 ^ 64 → 0 <= s < 2 ^ 64 →
  0 <= Z.lor (Z.land p (not64 c)) s < 2 ^ 64.
Proof.
  intros Hp Hs. apply lor_range; [done| |done]. rewrite land_not64 by done.
  replace (Z.ldiff p c) with (Z.ldiff p c mod 2 ^ 64); [apply Z.mod_pos_bound; lia|].
  apply Z.bits_inj'. intros k Hk. destruct (Z.lt_ge_cases k 64).
  - by rewrite Z.mod_pow2_bits_low.
  - rewrite Z.mod_pow2_bits_high, Z.ldiff_spec by lia.
    by rewrite <-(Z.mod_small p (2 ^ 64)), Z.mod_pow2_bits_high by lia.
Qed.

(** ** The Sv39 index split *)

Lemma PX_spec l va : 0 <= l → PX l va = va / 2 ^ (12 + 9 * l) mod 512.
Proof.
  intros Hl. unfold PX, PXMASK, PXSHIFT, PGSHIFT. change 0x1FF with (Z.ones 9).
  by rewrite Z.land_ones, Z.shiftr_div_pow2 by lia.
Qed.

Lemma PX_bound l va : 0 <= l → 0 <= PX l va < 512.
Proof. intros Hl. rewrite PX_spec by done. by apply Z.mod_pos_bound. Qed.

(** The page number of an address below [MAXVA] is its three indices. *)
Lemma PX_split va : 0 <= va < MAXVA →
  va / 4096 = PX 2 va * 2 ^ 18 + PX 1 va * 2 ^ 9 + PX 0 va.
Proof. intros Hva. change MAXVA with (2 ^ 38) in Hva. rewrite !PX_spec by lia. zdiv. Qed.

Lemma PX_inj va va' : 0 <= va < MAXVA → 0 <= va' < MAXVA →
  PX 2 va = PX 2 va' → PX 1 va = PX 1 va' → PX 0 va = PX 0 va' →
  va / 4096 = va' / 4096.
Proof. intros ?? E2 E1 E0. rewrite !PX_split by done. by rewrite E2, E1, E0. Qed.
