(* ===== verification/Cstring.v ===== *)
(** * Byte memory and [kernel/string.c]

    Memory is a total map from addresses to bytes.  [load]/[store] are the
    little-endian accesses the hardware makes for a [uint], a [uint64] or a
    pointer; the functions of [kernel/string.c] are translated loop by loop,
    and each is proved against a loop-free description of its result. *)
From S2P Require Import Prelude Machine.

Definition mem : Type := Z → Z.

(** A byte store. *)
Definition wr (m : mem) (a v : Z) : mem := λ x, if x =? a then v else m x.

(** Little-endian load and store of [n] bytes. *)
Fixpoint load (n : nat) (m : mem) (a : Z) : Z :=
  match n with O => 0 | S n' => m a + 256 * load n' m (a + 1) end.

Fixpoint store (n : nat) (m : mem) (a v : Z) : mem :=
  match n with O => m | S n' => store n' (wr m a (v mod 256)) (a + 1) (v / 256) end.

Definition load32 := load 4.
Definition store32 := store 4.
Definition load64 := load 8.
Definition store64 := store 8.

(** The bytes of an object that is not in the shared memory (a local array). *)
Definition lmem (l : list Z) : mem := λ a, default 0 (l !! Z.to_nat a).

(** The [n] bytes at [a]. *)
Definition bytes (m : mem) (a : Z) (n : nat) : list Z := (λ i, m (a + Z.of_nat i)) <$> seq 0 n.

(** Memory holds bytes. *)
Definition byte_mem (m : mem) : Prop := ∀ a, 0 <= m a < 256.

(** ** kernel/string.c *)

(** [cdst[i] = c] for [i = 0 .. n-1]; the value is converted to [char]. *)
Fixpoint memset_loop (k : nat) (m : mem) (cdst i c : Z) : mem :=
  match k with
  | O => m
  | S k' => memset_loop k' (wr m (cdst + i) (u8 c)) cdst (i + 1) c
  end.
Definition memset (m : mem) (dst c n : Z) : mem := memset_loop (Z.to_nat n) m dst 0 c.

Fixpoint memcmp_loop (k : nat) (m : mem) (s1 s2 : Z) : Z :=
  match k with
  | O => 0
  | S k' => if negb (m s1 =? m s2) then m s1 - m s2 else memcmp_loop k' m (s1 + 1) (s2 + 1)
  end.
Definition memcmp (m : mem) (v1 v2 n : Z) : Z := memcmp_loop (Z.to_nat n) m v1 v2.

(** [*d++ = *s++] *)
Fixpoint copy_fwd (k : nat) (m : mem) (d s : Z) : mem :=
  match k with O => m | S k' => copy_fwd k' (wr m d (m s)) (d + 1) (s + 1) end.
(** [*--d = *--s] *)
Fixpoint copy_bwd (k : nat) (m : mem) (d s : Z) : mem :=
  match k with O => m | S k' => copy_bwd k' (wr m (d - 1) (m (s - 1))) (d - 1) (s - 1) end.

Definition memmove (m : mem) (dst src n : Z) : mem :=
  if n =? 0 then m
  else if (src <? dst) && (dst <? src + n)
  then copy_bwd (Z.to_nat n) m (dst + n) (src + n)
  else copy_fwd (Z.to_nat n) m dst src.

Definition memcpy (m : mem) (dst src n : Z) : mem := memmove m dst src n.

(** The two strings may live in different objects, hence two memories. *)
Fixpoint strncmp_loop (k : nat) (mp mq : mem) (p q : Z) : Z :=
  match k with
  | O => 0
  | S k' => if truth (mp p) && (mp p =? mq q)
            then strncmp_loop k' mp mq (p + 1) (q + 1)
            else mp p - mq q
  end.
Definition strncmp (mp mq : mem) (p q n : Z) : Z := strncmp_loop (Z.to_nat n) mp mq p q.

Fixpoint zero_fill (k : nat) (m : mem) (s : Z) : mem :=
  match k with O => m | S k' => zero_fill k' (wr m s 0) (s + 1) end.

Fixpoint strncpy_loop (k : nat) (m : mem) (s t : Z) : mem :=
  match k with
  | O => m
  | S k' => let m' := wr m s (m t) in
            if truth (m t) then strncpy_loop k' m' (s + 1) (t + 1)
            else zero_fill k' m' (s + 1)
  end.
Definition strncpy (m : mem) (s t n : Z) : mem := strncpy_loop (Z.to_nat n) m s t.

Fixpoint safestrcpy_loop (k : nat) (m : mem) (s t : Z) : mem :=
  match k with
  | O => wr m s 0
  | S k' => let m' := wr m s (m t) in
            if truth (m t) then safestrcpy_loop k' m' (s + 1) (t + 1)
            else wr m' (s + 1) 0
  end.
Definition safestrcpy (m : mem) (s t n : Z) : mem :=
  if n <=? 0 then m else safestrcpy_loop (Z.to_nat (n - 1)) m s t.

(** [for(n = 0; s[n]; n++)]: the fuel bounds the search for the NUL. *)
Fixpoint strlen_loop (fuel : nat) (m : mem) (s n : Z) : option Z :=
  match fuel with
  | O => None
  | S f => if truth (m (s + n)) then strlen_loop f m s (n + 1) else Some n
  end.
Definition strlen (fuel : nat) (m : mem) (s : Z) : option Z := strlen_loop fuel m s 0.

(** ** Loads and stores *)

Lemma wr_eq m a v : wr m a v a = v.
Proof. unfold wr. by rewrite Z.eqb_refl. Qed.
Lemma wr_ne m a v x : x ≠ a → wr m a v x = m x.
Proof. intros. unfold wr. by rewrite (proj2 (Z.eqb_neq x a)). Qed.

Lemma store_other n m a v x : ¬ (a <= x < a + Z.of_nat n) → store n m a v x = m x.
Proof.
  revert m a v. induction n as [|n IH]; intros m a v Hx; simpl; [done|].
  rewrite IH by lia. apply wr_ne. lia.
Qed.

Lemma load_ext n m m' a :
  (∀ x, a <= x < a + Z.of_nat n → m x = m' x) → load n m a = load n m' a.
Proof.
  revert a. induction n as [|n IH]; intros a H; simpl; [done|].
  rewrite (H a) by lia. f_equal. f_equal. apply IH. intros. apply H. lia.
Qed.

Lemma load_shift n m m' a b : (∀ k, 0 <= k < Z.of_nat n → m (a + k) = m' (b + k)) → load n m a = load n m' b.
Proof.
  revert a b. induction n as [|n IH]; intros a b Hm; simpl; [done|]. f_equal.
  - specialize (Hm 0). rewrite !Z.add_0_r in Hm. apply Hm. lia.
  - f_equal. apply IH. intros k Hk. rewrite <-!Z.add_assoc. apply Hm. lia.
Qed.

Lemma load_store_ne n k m a b v :
  a + Z.of_nat n <= b ∨ b + Z.of_nat k <= a → load n (store k m b v) a = load n m a.
Proof. intros H. apply load_ext. intros x Hx. apply store_other. lia. Qed.

Lemma load_store_eq n m a v : load n (store n m a v) a = v mod 256 ^ Z.of_nat n.
Proof.
  revert m a v. induction n as [|n IH]; intros m a v; simpl; [by rewrite Z.mod_1_r|].
  rewrite store_other by lia. rewrite wr_eq, IH.
  rewrite Nat2Z.inj_succ, Z.pow_succ_r by lia.
  rewrite Z.rem_mul_r by (try apply Z.pow_nonzero; lia). done.
Qed.

Lemma load64_store64 m a v : 0 <= v < 2 ^ 64 → load64 (store64 m a v) a = v.
Proof.
  intros Hv. unfold load64, store64. rewrite load_store_eq.
  change (256 ^ Z.of_nat 8) with (2 ^ 64). by apply Z.mod_small.
Qed.

Lemma load64_store64_ne m a b v : a + 8 <= b ∨ b + 8 <= a →
  load64 (store64 m b v) a = load64 m a.
Proof. intros H. apply load_store_ne. lia. Qed.

Lemma load_bound n m a : byte_mem m → 0 <= load n m a < 256 ^ Z.of_nat n.
Proof.
  intros Hb. revert a. induction n as [|n IH]; intros a; [simpl; lia|].
  rewrite Nat2Z.inj_succ, Z.pow_succ_r by lia. simpl.
  specialize (IH (a + 1)). specialize (Hb a). nia.
Qed.

Lemma wr_byte m a v : byte_mem m → 0 <= v < 256 → byte_mem (wr m a v).
Proof. intros Hb Hv x. unfold wr. by destruct (x =? a). Qed.

Lemma store_byte n m a v : byte_mem m → byte_mem (store n m a v).
Proof.
  revert m a v. induction n as [|n IH]; intros m a v Hb; simpl; [done|].
  apply IH, wr_byte; [done|]. by apply Z.mod_pos_bound.
Qed.

(** ** memset, memmove *)

Lemma memset_loop_spec k m d i c x :
  memset_loop k m d i c x = if (d + i <=? x) && (x <? d + i + Z.of_nat k) then u8 c else m x.
Proof.
  revert m i. induction k as [|k IH]; intros m i; simpl.
  - zcases.
  - rewrite IH. unfold wr. zcases.
Qed.

Lemma memset_spec m d c n x : 0 <= n →
  memset m d c n x = if (d <=? x) && (x <? d + n) then u8 c else m x.
Proof.
  intros Hn. unfold memset. rewrite memset_loop_spec.
  by rewrite !Z.add_0_r, Z2Nat.id by done.
Qed.

Lemma memset_other m d c n x : ¬ (d <= x < d + n) → memset m d c n x = m x.
Proof.
  intros Hx. destruct (Z.le_gt_cases 0 n).
  - rewrite memset_spec by done. zcases.
  - unfold memset. by rewrite (Z2Nat.nonpos n) by lia.
Qed.

Lemma memset_in m d c n x : d <= x < d + n → memset m d c n x = u8 c.
Proof.
  intros Hx. rewrite memset_spec by lia. zcases.
Qed.

Lemma memset_byte m d c n : byte_mem m → byte_mem (memset m d c n).
Proof.
  intros Hb x. destruct (decide (d <= x < d + n)).
  - rewrite memset_in by done. by apply Z.mod_pos_bound.
  - by rewrite memset_other.
Qed.

Lemma load_zero n m a : (∀ x, a <= x < a + Z.of_nat n → m x = 0) → load n m a = 0.
Proof.
  revert a. induction n as [|n IH]; intros a H; simpl; [done|].
  rewrite (H a), IH by (lia || (intros; apply H; lia)). done.
Qed.

Lemma load_memset0 n m d c k a :
  d <= a → a + Z.of_nat n <= d + k → u8 c = 0 → load n (memset m d c k) a = 0.
Proof. intros ?? Hc. apply load_zero. intros x Hx. rewrite memset_in; [done|lia]. Qed.

Lemma copy_fwd_spec k m d s x : d <= s ∨ s + Z.of_nat k <= d →
  copy_fwd k m d s x = if (d <=? x) && (x <? d + Z.of_nat k) then m (s + (x - d)) else m x.
Proof.
  revert m d s. induction k as [|k IH]; intros m d s Hov; simpl.
  - zcases.
  - rewrite IH by lia. unfold wr. zcases.
Qed.

Lemma copy_bwd_spec k m d s x : s <= d →
  copy_bwd k m d s x
  = if (d - Z.of_nat k <=? x) && (x <? d) then m (s + (x - d)) else m x.
Proof.
  revert m d s. induction k as [|k IH]; intros m d s Hov; simpl.
  - zcases.
  - rewrite IH by lia. unfold wr. zcases.
Qed.

Lemma memmove_lookup m dst src n x : 0 <= n →
  memmove m dst src n x
  = if (dst <=? x) && (x <? dst + n) then m (src + (x - dst)) else m x.
Proof.
  intros Hn. unfold memmove. destruct (Z.eqb_spec n 0) as [->|Hn0].
  - zcases.
  - destruct (Z.ltb_spec src dst), (Z.ltb_spec dst (src + n)); simpl;
      try (rewrite copy_fwd_spec by lia; by rewrite Z2Nat.id by done).
    rewrite copy_bwd_spec by lia. rewrite Z2Nat.id by done.
    zcases.
Qed.

Lemma memmove_byte m d s n : 0 <= n → byte_mem m → byte_mem (memmove m d s n).
Proof. intros Hn Hb x. rewrite memmove_lookup by done. destruct (_ && _); apply Hb. Qed.

(** *** Bounded strings *)

Lemma safestrcpy_loop_spec k m s t : s + Z.of_nat k < t ∨ t + Z.of_nat k <= s →
  ∃ j, 0 <= j <= Z.of_nat k ∧ (m (t + j) = 0 ∨ j = Z.of_nat k) ∧
    (∀ i, 0 <= i < j → m (t + i) ≠ 0 ∧ safestrcpy_loop k m s t (s + i) = m (t + i)) ∧
    safestrcpy_loop k m s t (s + j) = 0 ∧
    ∀ x, ¬ (s <= x <= s + Z.of_nat k) → safestrcpy_loop k m s t x = m x.
Proof.
  revert m s t. induction k as [|k IH]; intros m s t Hov; cbn [safestrcpy_loop].
  - exists 0. rewrite !Z.add_0_r, wr_eq. split_and!; try lia. intros x Hx. apply wr_ne. lia.
  - unfold truth. destruct (Z.eqb_spec (m t) 0) as [E|E]; cbn [negb].
    + exists 0. rewrite !Z.add_0_r. split_and!; try lia.
      * rewrite wr_ne, wr_eq by lia. done.
      * intros x Hx. rewrite !wr_ne by lia. done.
    + destruct (IH (wr m s (m t)) (s + 1) (t + 1)) as (j & Hj & Hend & Hin & Hz & Hout); [lia|].
      exists (j + 1). replace (s + (j + 1)) with (s + 1 + j) by lia. replace (t + (j + 1)) with (t + 1 + j) by lia.
      split_and!; try lia; try done.
      * destruct (Z.eq_dec j (Z.of_nat k)) as [->|Hjk]; [right; lia|]. rewrite wr_ne in Hend by lia. lia.
      * intros i Hi. destruct (Z.eq_dec i 0) as [->|Hi0].
        { rewrite !Z.add_0_r, Hout, wr_eq by lia. done. }
        replace (s + i) with (s + 1 + (i - 1)) by lia. replace (t + i) with (t + 1 + (i - 1)) by lia.
        destruct (Hin (i - 1)) as [H1 H2]; [lia|]. rewrite wr_ne in H1, H2 by lia. done.
      * intros x Hx. rewrite Hout, wr_ne by lia. done.
Qed.

(** [memmove] copies [n] bytes also when the ranges overlap, in either
    direction: every byte of the destination is the byte the source had before
    the call, and no other byte changes. *)
Lemma memmove_copies m dst src n : 0 <= n →
  (∀ i, 0 <= i < n → memmove m dst src n (dst + i) = m (src + i)) ∧
  (∀ x, ¬ (dst <= x < dst + n) → memmove m dst src n x = m x).
Proof.
  intros Hn. split; intros; rewrite memmove_lookup by done; zbool; try lia; try done. f_equal. lia.
Qed.

(** [safestrcpy] always leaves a NUL-terminated string: the longest prefix
    of the source without a NUL that fits in [n - 1] bytes, and it writes
    nothing outside the [n] bytes of the destination. *)
Lemma safestrcpy_terminates m s t n : 0 < n → s + n <= t ∨ t + n <= s →
  ∃ k, 0 <= k < n ∧ (m (t + k) = 0 ∨ k = n - 1) ∧
    (∀ i, 0 <= i < k → m (t + i) ≠ 0 ∧ safestrcpy m s t n (s + i) = m (t + i)) ∧
    safestrcpy m s t n (s + k) = 0 ∧
    ∀ x, ¬ (s <= x < s + n) → safestrcpy m s t n x = m x.
Proof.
  intros Hn Hov. unfold safestrcpy. rewrite (proj2 (Z.leb_gt n 0)) by lia.
  destruct (safestrcpy_loop_spec (Z.to_nat (n - 1)) m s t) as (k & Hk & Hend & Hin & Hz & Hout); [lia|].
  rewrite Z2Nat.id in * by lia. exists k. split_and!; try lia; try done. intros x Hx. apply Hout. lia.
Qed.

(** Pages have 4096 bytes: conversion must not unroll the loops over them. *)
#[global] Opaque memset memmove.
