(* ===== verification/Spinlock.v ===== *)
(** * Spin locks: [kernel/spinlock.c]

    [Module Word] translates the file with the lock words shared by all CPUs;
    the plain names are the same operations as one CPU sees them (which locks
    it holds, its interrupt state), the form the other components use.
    [Module Race] interleaves the individual memory accesses of [acquire] and
    [release] on several CPUs and proves mutual exclusion. *)
From S2P Require Import Prelude Machine.

(** ** One CPU's view *)

(** [struct cpu] ([noff], [intena]), the [SIE] bit of [sstatus], and the locks
    whose words name this CPU. *)
Record hart := Hart {
  h_noff : Z;
  h_intena : bool;
  h_sie : bool;
  h_held : list lockid;
}.

Definition holding (l : lockid) : M hart bool := gets (λ h, bool_decide (l ∈ h_held h)).

Definition intr_get : M hart bool := gets h_sie.
Definition intr_on : M hart unit :=
  modify (λ h, Hart (h_noff h) (h_intena h) true (h_held h)).
Definition intr_off : M hart unit :=
  modify (λ h, Hart (h_noff h) (h_intena h) false (h_held h)).

Definition push_off : M hart unit :=
  old <- intr_get ;;
  intr_off ;;;
  h <- get ;;
  when (h_noff h =? 0) (modify (λ h, Hart (h_noff h) old (h_sie h) (h_held h))) ;;;
  modify (λ h, Hart (h_noff h + 1) (h_intena h) (h_sie h) (h_held h)).

Definition pop_off : M hart unit :=
  on <- intr_get ;;
  if on then panic "pop_off - interruptible" else
  h <- get ;;
  if h_noff h <? 1 then panic "pop_off" else
  modify (λ h, Hart (h_noff h - 1) (h_intena h) (h_sie h) (h_held h)) ;;;
  h <- get ;;
  when ((h_noff h =? 0) && h_intena h) intr_on.

Definition acquire (l : lockid) : M hart unit :=
  push_off ;;;
  b <- holding l ;;
  if b then panic "acquire" else
  modify (λ h, Hart (h_noff h) (h_intena h) (h_sie h) (l :: h_held h)).

Definition release (l : lockid) : M hart unit :=
  b <- holding l ;;
  if negb b then panic "release" else
  modify (λ h, Hart (h_noff h) (h_intena h) (h_sie h) (List.remove lockid_eq_dec l (h_held h))) ;;;
  pop_off.

(** Interrupt state at rest: [intena] records the interrupt state outside
    every critical section, and interrupts are off inside. *)
Definition hart_ok (h : hart) : Prop :=
  0 <= h_noff h ∧ NoDup (h_held h) ∧
  (h_noff h = 0 → h_intena h = h_sie h) ∧ (0 < h_noff h → h_sie h = false).

(** The state of a CPU that took [l] in state [h]. *)
Definition taken (l : lockid) (h : hart) : hart :=
  Hart (h_noff h + 1) (h_intena h) false (l :: h_held h).

Lemma acquire_run l h : hart_ok h → l ∉ h_held h → acquire l h = (Ret tt, taken l h).
Proof.
  intros (Hn & Hd & H0 & H1) Hl.
  unfold acquire, push_off, holding, intr_get, intr_off, bind, get, gets, modify, when. simpl.
  destruct (Z.eqb_spec (h_noff h) 0) as [E|E]; simpl;
    rewrite bool_decide_eq_false_2 by done; unfold taken; simpl; [|done].
  by rewrite <-H0.
Qed.

Lemma acquire_held l h : l ∈ h_held h → ∃ h', acquire l h = (Panic "acquire", h').
Proof.
  intros Hl. unfold acquire, push_off, holding, intr_get, intr_off, bind, get, gets,
    modify, when. simpl.
  destruct (Z.eqb_spec (h_noff h) 0) as [E|E]; simpl;
    rewrite bool_decide_eq_true_2 by done; eauto.
Qed.

Lemma taken_ok l h : hart_ok h → l ∉ h_held h → hart_ok (taken l h).
Proof.
  intros (Hn & Hd & H0 & H1) Hl. unfold taken. split_and!; simpl.
  - lia. - by apply NoDup_cons. - lia. - done.
Qed.

Lemma remove_head (hd : list lockid) l : l ∉ hd → List.remove lockid_eq_dec l (l :: hd) = hd.
Proof.
  intros Hl. simpl. destruct (lockid_eq_dec l l); [|done].
  apply notin_remove. by rewrite <-list_elem_of_In.
Qed.

Lemma elem_of_remove_lock (hd : list lockid) l x :
  x ∈ List.remove lockid_eq_dec l hd ↔ x ∈ hd ∧ x ≠ l.
Proof.
  rewrite !list_elem_of_In. split; [apply in_remove|intros [??]; by apply in_in_remove].
Qed.

Lemma NoDup_remove_lock (hd : list lockid) l : NoDup hd → NoDup (List.remove lockid_eq_dec l hd).
Proof.
  induction 1 as [|x hd Hx Hd IH]; simpl; [constructor|].
  destruct (lockid_eq_dec l x); [done|]. constructor; [|done].
  by rewrite elem_of_remove_lock; intros [? _].
Qed.

Lemma release_run l h : hart_ok h → l ∉ h_held h → release l (taken l h) = (Ret tt, h).
Proof.
  intros (Hn & Hd & H0 & H1) Hl.
  unfold release, holding, pop_off, intr_get, intr_on, bind, get, gets, modify, when, taken.
  cbn [h_held]. rewrite bool_decide_eq_true_2 by apply list_elem_of_here.
  cbn -[List.remove]. rewrite remove_head by done. cbn -[Z.ltb Z.add Z.sub].
  destruct (Z.ltb_spec (h_noff h + 1) 1); [lia|]. simpl.
  replace (h_noff h + 1 - 1) with (h_noff h) by lia.
  destruct h as [n ia sie hd]; simpl in *.
  destruct (Z.eqb_spec n 0) as [->|E]; simpl.
  - specialize (H0 eq_refl) as ->. by destruct sie.
  - by rewrite H1 by lia.
Qed.

(** Interrupts off and back on. *)
Lemma push_pop_run h : hart_ok h → ∃ h', push_off h = (Ret tt, h') ∧ pop_off h' = (Ret tt, h).
Proof.
  intros (Hn & Hd & H0 & H1). exists (Hart (h_noff h + 1) (h_intena h) false (h_held h)).
  unfold push_off, pop_off, intr_get, intr_off, intr_on, bind, get, gets, modify, when. simpl. split.
  - destruct (Z.eqb_spec (h_noff h) 0) as [E|E]; simpl; [by rewrite H0|done].
  - destruct (Z.ltb_spec (h_noff h + 1) 1); [lia|]. simpl. replace (h_noff h + 1 - 1) with (h_noff h) by lia.
    destruct h as [n ia sie hd]; simpl in *. destruct (Z.eqb_spec n 0) as [->|E]; simpl.
    + specialize (H0 eq_refl) as ->. by destruct sie.
    + by rewrite H1 by lia.
Qed.

Lemma release_not_held l h : l ∉ h_held h → release l h = (Panic "release", h).
Proof. intros Hl. unfold release, holding, bind, gets. by rewrite bool_decide_eq_false_2. Qed.

(** ** Locks inside a larger state *)
Section clients.
Context {S : Type} (L : lens S hart) `{!LensLaws L}.

Lemma wp_acquire l (Q : unit → S → Prop) s :
  hart_ok (lget L s) → l ∉ h_held (lget L s) →
  Q tt (lset L (taken l (lget L s)) s) → wp (zoom L (acquire l)) Q s.
Proof. intros ???. apply wp_zoom. by eapply wp_intro; [apply acquire_run|]. Qed.

(** Releasing in a state whose CPU part is still the one [acquire] left. *)
Lemma wp_release l h (Q : unit → S → Prop) s :
  hart_ok h → l ∉ h_held h → lget L s = taken l h →
  Q tt (lset L h s) → wp (zoom L (release l)) Q s.
Proof.
  intros ?? E ?. apply wp_zoom. rewrite E. by eapply wp_intro; [apply release_run|].
Qed.
End clients.

(** ** The lock words, shared by all CPUs *)
Module Word.
(** [struct spinlock]: the word and, for [holding], the CPU that set it. *)
Record spinlock := Spin { locked : Z; cpu : option nat }.

Record machine := Mach {
  locks : lockid → spinlock;
  noff : nat → Z;
  intena : nat → bool;
  sie : nat → bool;
}.

Section cpu.
Context (me : nat).

Definition set_lock (l : lockid) (w : spinlock) : M machine unit :=
  modify (λ σ, Mach (upd (locks σ) l w) (noff σ) (intena σ) (sie σ)).
Definition set_noff (n : Z) : M machine unit :=
  modify (λ σ, Mach (locks σ) (upd (noff σ) me n) (intena σ) (sie σ)).
Definition set_intena (b : bool) : M machine unit :=
  modify (λ σ, Mach (locks σ) (noff σ) (upd (intena σ) me b) (sie σ)).
Definition set_sie (b : bool) : M machine unit :=
  modify (λ σ, Mach (locks σ) (noff σ) (intena σ) (upd (sie σ) me b)).

Definition initlock (l : lockid) : M machine unit := set_lock l (Spin 0 None).

Definition holding (l : lockid) : M machine bool :=
  σ <- get ;;
  ret (truth (locked (locks σ l)) && bool_decide (cpu (locks σ l) = Some me)).

Definition push_off : M machine unit :=
  old <- gets (λ σ, sie σ me) ;;
  set_sie false ;;;
  σ <- get ;;
  when (noff σ me =? 0) (set_intena old) ;;;
  σ <- get ;;
  set_noff (noff σ me + 1).

Definition pop_off : M machine unit :=
  σ <- get ;;
  if sie σ me then panic "pop_off - interruptible" else
  if noff σ me <? 1 then panic "pop_off" else
  set_noff (noff σ me - 1) ;;;
  σ <- get ;;
  when ((noff σ me =? 0) && intena σ me) (set_sie true).

(** A word that is already set makes the CPU spin. *)
Definition acquire (l : lockid) : M machine unit :=
  push_off ;;;
  b <- holding l ;;
  if b then panic "acquire" else
  σ <- get ;;
  if negb (locked (locks σ l) =? 0) then block (ChSpin l) else
  set_lock l (Spin 1 (cpu (locks σ l))) ;;;
  set_lock l (Spin 1 (Some me)).

Definition release (l : lockid) : M machine unit :=
  b <- holding l ;;
  if negb b then panic "release" else
  σ <- get ;;
  set_lock l (Spin (locked (locks σ l)) None) ;;;
  set_lock l (Spin 0 None) ;;;
  pop_off.
End cpu.

(** What CPU [me] can tell of the machine. *)
Definition view (me : nat) (σ : machine) (h : hart) : Prop :=
  h_noff h = noff σ me ∧ h_intena h = intena σ me ∧ h_sie h = sie σ me ∧
  NoDup (h_held h) ∧
  (∀ l, l ∈ h_held h ↔ locked (locks σ l) ≠ 0 ∧ cpu (locks σ l) = Some me).

(** A word is set exactly when it names a CPU. *)
Definition words_ok (σ : machine) : Prop :=
  ∀ l, locked (locks σ l) = 0 ↔ cpu (locks σ l) = None.

Lemma holding_view me l σ h :
  view me σ h → holding me l σ = (Ret (bool_decide (l ∈ h_held h)), σ).
Proof.
  intros (_ & _ & _ & _ & Hl). unfold holding, bind, get, ret, truth.
  do 2 f_equal. specialize (Hl l).
  destruct (Z.eqb_spec (locked (locks σ l)) 0); simpl;
    [rewrite bool_decide_eq_false_2; [done|by intros [??]%Hl]|].
  apply bool_decide_ext. rewrite Hl. tauto.
Qed.

(** The step of one CPU leaves the CPU-local state of the others alone. *)
Definition others_same (me : nat) (σ σ' : machine) : Prop :=
  ∀ j, j ≠ me → noff σ' j = noff σ j ∧ intena σ' j = intena σ j ∧ sie σ' j = sie σ j.

Lemma push_off_view me σ h : view me σ h →
  ∃ σ' h', push_off me σ = (Ret tt, σ') ∧ Spinlock.push_off h = (Ret tt, h') ∧
    view me σ' h' ∧ locks σ' = locks σ ∧ h_held h' = h_held h ∧ others_same me σ σ'.
Proof.
  intros (E1 & E2 & E3 & Hd & Hl).
  unfold push_off, Spinlock.push_off, intr_get, intr_off, set_sie, set_intena, set_noff,
    bind, get, gets, modify, when. simpl. rewrite <-E1.
  destruct (h_noff h =? 0); simpl; (eexists _, _; split_and!; [done|done|..|done|done|]);
    try (split_and!; simpl; rewrite ?upd_eq; congruence || done);
    intros j Hj; simpl; by rewrite ?upd_ne.
Qed.

Lemma pop_off_view me σ h : view me σ h →
  ∃ o σ' h', pop_off me σ = (o, σ') ∧ Spinlock.pop_off h = (o, h') ∧
    view me σ' h' ∧ locks σ' = locks σ ∧ h_held h' = h_held h ∧ others_same me σ σ'.
Proof.
  intros Hv. pose proof Hv as (E1 & E2 & E3 & Hd & Hl).
  unfold pop_off, Spinlock.pop_off, intr_get, intr_on, set_sie, set_noff,
    bind, get, gets, modify, when, panic. simpl. rewrite <-E3, <-E1.
  destruct (h_sie h) eqn:Es; [by eexists _, σ, h|].
  destruct (Z.ltb_spec (h_noff h) 1); [by eexists _, σ, h|]. simpl.
  rewrite upd_eq, <-E2.
  destruct ((h_noff h - 1 =? 0) && h_intena h); simpl;
    (eexists _, _, _; split_and!; [done|done|..|done|done|]);
    try (split_and!; simpl; rewrite ?upd_eq; congruence || done);
    intros j Hj; simpl; by rewrite ?upd_ne.
Qed.

Lemma view_other me j σ σ' h :
  j ≠ me → others_same me σ σ' →
  (∀ l, cpu (locks σ l) = Some j ∨ cpu (locks σ' l) = Some j → locks σ' l = locks σ l) →
  view j σ h → view j σ' h.
Proof.
  intros Hj Ho Hl (E1 & E2 & E3 & Hd & Hh).
  destruct (Ho j Hj) as (F1 & F2 & F3).
  split_and!; [congruence..|done|]. intros l. rewrite Hh.
  split; intros [Ha Hb]; [rewrite Hl by auto|rewrite <-Hl by auto]; done.
Qed.

(** [acquire] on the lock words either spins because another CPU holds the
    lock, or does to this CPU's view what [Spinlock.acquire] does; the views
    of the other CPUs do not change. *)
Lemma acquire_word_refines me l σ h : words_ok σ → view me σ h →
  ∃ o σ', acquire me l σ = (o, σ') ∧ words_ok σ' ∧
    (∀ j hj, j ≠ me → view j σ hj → view j σ' hj) ∧
    ((∃ j, j ≠ me ∧ cpu (locks σ l) = Some j ∧ o = Blocked (ChSpin l)) ∨
     (∃ h', Spinlock.acquire l h = (o, h') ∧ view me σ' h')).
Proof.
  intros Hw Hv. destruct (push_off_view _ _ _ Hv) as (σ1 & h1 & R1 & R2 & Hv1 & El & Eh & Ho).
  assert (∀ j hj, j ≠ me → view j σ hj → view j σ1 hj) as Hoth.
  { intros j hj Hj. eapply view_other; [done..|]. by rewrite El. }
  assert (words_ok σ1) as Hw1 by (by unfold words_ok; rewrite El).
  unfold acquire, Spinlock.acquire. rewrite (bind_Ret _ _ _ _ _ R1), (bind_Ret _ _ _ _ _ R2).
  rewrite (bind_Ret _ _ _ _ _ (holding_view _ l _ _ Hv1)).
  unfold Spinlock.holding. rewrite (bind_Ret (gets _) _ h1 _ _ eq_refl).
  destruct (bool_decide_reflect (l ∈ h_held h1)) as [Hin|Hin]; [by eauto 10|].
  rewrite (bind_Ret get _ σ1 _ _ eq_refl).
  destruct (Z.eqb_spec (locked (locks σ1 l)) 0) as [E0|E0]; simpl.
  - pose proof (proj1 (Hw1 l) E0) as Ecpu.
    unfold set_lock, bind, modify. simpl.
    eexists _, _; split_and!; [done|..|right; eexists; split; [done|]].
    + intros l'. simpl. unfold upd. by repeat case_decide.
    + intros j hj Hj Hvj. eapply (view_other me j σ1); [done|done| |by auto].
      intros l'. simpl. unfold upd.
      repeat case_decide; subst; simpl; [|done..]. rewrite Ecpu. by intros [?|[= ->]].
    + destruct Hv1 as (F1 & F2 & F3 & F4 & F5). split_and!; simpl; try done.
      { by apply NoDup_cons. }
      intros l'. unfold upd. rewrite elem_of_cons.
      repeat case_decide; subst; simpl; [by split; auto|]. rewrite F5. tauto.
  - eexists _, σ1. split_and!; [done..|left].
    destruct (cpu (locks σ l)) as [j|] eqn:Ej; [|by rewrite <-El in Ej; apply Hw1 in Ej].
    exists j. split_and!; [|done..]. intros ->. apply Hin, Hv1. by rewrite El in *.
Qed.

Definition m0 : machine := Mach (λ _, Spin 0 None) (λ _, 0) (λ _, true) (λ _, true).
Lemma view_m0 me : view me m0 (Hart 0 true true []).
Proof. split_and!; try done; [constructor|]. intros l. split; [by intros ?%elem_of_nil|by intros []]. Qed.

(** [release] on the lock words does to this CPU's view what
    [Spinlock.release] does (a panic included), keeps a set word and its
    owner in step, and leaves the views of the other CPUs unchanged. *)
Theorem release_word_refines me l σ h : words_ok σ → view me σ h →
  ∃ o σ', release me l σ = (o, σ') ∧ words_ok σ' ∧
    (∀ j hj, j ≠ me → view j σ hj → view j σ' hj) ∧
    ∃ h', Spinlock.release l h = (o, h') ∧ view me σ' h'.
Proof.
  intros Hw Hv. unfold release, Spinlock.release.
  rewrite (bind_Ret _ _ _ _ _ (holding_view _ l _ _ Hv)).
  unfold Spinlock.holding. rewrite (bind_Ret (gets _) _ h _ _ eq_refl).
  destruct (bool_decide_reflect (l ∈ h_held h)) as [Hin|Hin]; simpl;
    [|by eexists _, σ; split_and!; eauto].
  rewrite (bind_Ret get _ σ _ _ eq_refl).
  rewrite (bind_Ret (set_lock _ _) _ σ _ _ eq_refl), (bind_Ret (set_lock _ _) _ _ _ _ eq_refl),
    (bind_Ret (modify _) _ h _ _ eq_refl).
  set (σ1 := Mach _ _ _ _). set (h1 := Hart _ _ _ _).
  assert (∀ l', locks σ1 l' = if decide (l' = l) then Spin 0 None else locks σ l') as El.
  { intros l'. simpl. unfold upd. by repeat case_decide. }
  assert (words_ok σ1) as Hw1.
  { intros l'. rewrite El. by case_decide. }
  assert (view me σ1 h1) as Hv1.
  { destruct Hv as (F1 & F2 & F3 & F4 & F5). split_and!; try done.
    - by apply NoDup_remove_lock.
    - intros l'. rewrite El. unfold h1; cbn [h_held]. rewrite elem_of_remove_lock, F5.
      case_decide; simpl; naive_solver. }
  destruct (pop_off_view _ _ _ Hv1) as (o & σ2 & h2 & R1 & R2 & Hv2 & El2 & _ & Ho2).
  exists o, σ2. split_and!; [done|by unfold words_ok; rewrite El2| |by eauto].
  intros j hj Hj Hvj. eapply (view_other me j σ); [done|by intros i Hi; apply Ho2| |done].
  intros l'. rewrite El2, El. destruct (proj1 (proj2 (proj2 (proj2 (proj2 Hv))) l) Hin).
  case_decide; subst; simpl; naive_solver.
Qed.
End Word.

(** ** Interleaving the memory accesses of several CPUs

    One lock, any number of CPUs.  [acquire] is the [holding] check, the
    atomic swap, and the store to [lk->cpu]; [release] is the [holding] check
    with the store that clears [lk->cpu], and the store that clears the word.
    A failed check is the corresponding [panic]. *)
Module Race.
Inductive pc := Idle | Spinning | Swapped | Critical | Clearing | Panicked.

Record state := State { word : Z; owner : option nat; at_ : nat → pc }.

Definition goto (s : state) (i : nat) (p : pc) : nat → pc :=
  λ j, if decide (j = i) then p else at_ s j.

(** The value [holding] returns on CPU [i]. *)
Definition holds (s : state) (i : nat) : bool :=
  truth (word s) && bool_decide (owner s = Some i).

Inductive step (s : state) : state → Prop :=
| acquire_check i : at_ s i = Idle →
    step s (State (word s) (owner s) (goto s i (if holds s i then Panicked else Spinning)))
| acquire_swap i : at_ s i = Spinning →
    step s (State 1 (owner s) (goto s i (if word s =? 0 then Swapped else Spinning)))
| acquire_owner i : at_ s i = Swapped →
    step s (State (word s) (Some i) (goto s i Critical))
| release_check i : at_ s i = Critical →
    step s (if holds s i then State (word s) None (goto s i Clearing)
            else State (word s) (owner s) (goto s i Panicked))
| release_clear i : at_ s i = Clearing →
    step s (State 0 (owner s) (goto s i Idle)).

(** After [initlock], no CPU in [acquire] or [release]. *)
Definition init : state := State 0 None (λ _, Idle).
Definition reachable (s : state) : Prop := rtc step init s.

Definition inside (p : pc) : Prop := p = Swapped ∨ p = Critical ∨ p = Clearing.

Definition inv (s : state) : Prop :=
  (∀ i j, inside (at_ s i) → inside (at_ s j) → i = j) ∧
  (∀ i, inside (at_ s i) → word s ≠ 0) ∧
  (∀ i, owner s = Some i ↔ at_ s i = Critical) ∧
  (∀ i, at_ s i ≠ Panicked).

Lemma holds_critical s i : inv s → holds s i = true ↔ at_ s i = Critical.
Proof.
  intros (_ & Hw & Ho & _). unfold holds, truth.
  rewrite andb_true_iff, negb_true_iff, Z.eqb_neq, bool_decide_eq_true, Ho.
  split; [by intros [_ ?]|]. intros Hc. split; [|done]. apply (Hw i). unfold inside. auto.
Qed.

(** Moving CPU [i] between two points outside the critical region. *)
Lemma inv_move s i p w : inv s → ¬ inside (at_ s i) → ¬ inside p → p ≠ Panicked →
  (w = word s ∨ w = 1) → inv (State w (owner s) (goto s i p)).
Proof.
  intros (H1 & H2 & H3 & H4) Hi Hp Hn Hw. unfold goto. split_and!; simpl.
  - intros j k Hj Hk. repeat case_decide; subst; try done. by apply H1.
  - intros j Hj. case_decide; [done|]. destruct Hw as [->| ->]; [by eapply H2|done].
  - intros j. rewrite H3. case_decide; [subst|done].
    split; intros E; exfalso; [apply Hi|apply Hp]; rewrite E; unfold inside; auto.
  - intros j. case_decide; auto.
Qed.

Lemma step_inv s s' : inv s → step s s' → inv s'.
Proof.
  intros Hinv Hs. pose proof (holds_critical s) as Hh. pose proof Hinv as (H1 & H2 & H3 & H4).
  inversion Hs as [i Hi|i Hi|i Hi|i Hi|i Hi]; subst; clear Hs.
  - destruct (holds s i) eqn:E; [apply Hh in E; congruence|].
    apply inv_move; auto; unfold inside; rewrite ?Hi; naive_solver.
  - destruct (Z.eqb_spec (word s) 0) as [E|E].
    + assert (∀ j, ¬ inside (at_ s j)) as Hout by (intros j Hj; by apply H2 in Hj).
      unfold goto. split_and!; simpl.
      * intros j k Hj Hk. repeat case_decide; subst; try done; exfalso; by eapply Hout.
      * done.
      * intros j. rewrite H3. case_decide; [subst; by rewrite Hi|done].
      * intros j. by case_decide.
    + apply inv_move; auto; unfold inside; rewrite ?Hi; naive_solver.
  - assert (inside (at_ s i)) as Hin by (unfold inside; auto).
    assert (∀ j, j ≠ i → ¬ inside (at_ s j)) as Hout by (intros j Hj Hj'; apply Hj; by apply H1).
    unfold goto. split_and!; simpl.
    + intros j k Hj Hk. repeat case_decide; subst; try done; exfalso; by eauto.
    + intros j _. by eapply H2.
    + intros j. case_decide; [by subst|]. split; [by intros [= ->]|].
      intros Hj. exfalso. apply (Hout j); [done|]. unfold inside. auto.
    + intros j. by case_decide.
  - assert (inside (at_ s i)) as Hin by (unfold inside; auto).
    rewrite (proj2 (Hh i Hinv) Hi). unfold goto. split_and!; simpl.
    + intros j k Hj Hk. repeat case_decide; subst; try done; by apply H1.
    + intros j _. by eapply H2.
    + intros j. case_decide; [by subst|]. split; [done|]. intros Hj.
      exfalso. by apply H3 in Hj; apply H3 in Hi; congruence.
    + intros j. by case_decide.
  - assert (inside (at_ s i)) as Hin by (unfold inside; auto).
    assert (∀ j, j ≠ i → ¬ inside (at_ s j)) as Hout by (intros j Hj Hj'; apply Hj; by apply H1).
    unfold goto. split_and!; simpl.
    + intros j k. unfold inside at 1. case_decide; [by intros [|[]]|]. intros Hj.
      exfalso. by eauto.
    + intros j. case_decide; [unfold inside; by intros [|[]]|]. intros Hj. exfalso. by eauto.
    + intros j. rewrite H3. case_decide; [by subst; rewrite Hi|done].
    + intros j. by case_decide.
Qed.

(** C10: mutual exclusion.  Whatever the interleaving of the CPUs' accesses,
    two CPUs are never both between [acquire] and [release]; [holding]
    answers true exactly on the CPU that is inside; and neither the
    [panic("acquire")] nor the [panic("release")] check ever fires. *)
Theorem mutual_exclusion s : reachable s →
  (∀ i j, at_ s i = Critical → at_ s j = Critical → i = j) ∧
  (∀ i, holds s i = true ↔ at_ s i = Critical) ∧
  (∀ i, at_ s i ≠ Panicked).
Proof.
  intros Hr. assert (inv s) as Hinv.
  { unfold reachable in Hr. revert Hr. apply rtc_ind_r; [|by intros; eapply step_inv].
    unfold inv, inside. split_and!; simpl; try done; [by intros i j [|[]]|by intros i [|[]]]. }
  pose proof Hinv as (H1 & H2 & H3 & H4). split_and!; [|by intros; apply holds_critical|done].
  intros i j Hi Hj. apply H1; unfold inside; auto.
Qed.

(** Two CPUs racing for the lock: the loser is left spinning. *)
Definition race_trace : state :=
  State 1 (Some 0%nat)
    (goto (State 1 None (goto (State 1 None (goto (State 0 None (goto
      (State 0 None (goto init 0 Spinning)) 1 Spinning)) 0 Swapped)) 1 Spinning)) 0 Critical).

Lemma mutual_exclusion_witness : reachable race_trace ∧
  at_ race_trace 0 = Critical ∧ at_ race_trace 1 = Spinning ∧
  (∀ i, at_ race_trace i ≠ Panicked).
Proof.
  assert (reachable race_trace) as Hr.
  { eapply rtc_l; [apply (acquire_check _ 0); reflexivity|].
    eapply rtc_l; [apply (acquire_check _ 1); reflexivity|].
    eapply rtc_l; [apply (acquire_swap _ 0); reflexivity|].
    eapply rtc_l; [apply (acquire_swap _ 1); reflexivity|].
    eapply rtc_l; [apply (acquire_owner _ 0); reflexivity|]. apply rtc_refl. }
  split_and!; [done|done|done|apply (mutual_exclusion race_trace Hr)].
Defined.
End Race.
