(* ===== verification/Kalloc.v ===== *)
(** * Physical page allocator: [kernel/kalloc.c]

    Free pages are linked through their first eight bytes in the byte memory
    itself; [memref.fr] counts the references to each page (copy-on-write).
    [Module Spec] is the abstract allocator (a stack of free pages and a
    reference count), which [kalloc] and [kfree] are proved to implement. *)
From S2P Require Import Prelude Machine Cstring Spinlock.

(** The allocator's globals, the memory it hands out, and the CPU. *)
Record kstate := KState {
  k_hart : hart;
  k_mem : mem;
  freelist : Z;        (** [kmem.freelist] *)
  fr : Z → Z;          (** [memref.fr] *)
  lock_kalloc : Z;     (** [memref.lock_kalloc] *)
}.

Definition set_hart (h : hart) (s : kstate) : kstate :=
  KState h (k_mem s) (freelist s) (fr s) (lock_kalloc s).
Definition set_mem (m : mem) (s : kstate) : kstate :=
  KState (k_hart s) m (freelist s) (fr s) (lock_kalloc s).
Definition set_freelist (r : Z) (s : kstate) : kstate :=
  KState (k_hart s) (k_mem s) r (fr s) (lock_kalloc s).
Definition set_fr (f : Z → Z) (s : kstate) : kstate :=
  KState (k_hart s) (k_mem s) (freelist s) f (lock_kalloc s).
Definition set_lock_kalloc (b : Z) (s : kstate) : kstate :=
  KState (k_hart s) (k_mem s) (freelist s) (fr s) b.

Definition hartL : lens kstate hart := Lens k_hart set_hart.
#[global] Instance hartL_laws : LensLaws hartL.
Proof. by split; intros *; destruct s. Qed.

(** [#define fn(X) ((uint64)X - KERNBASE) / PGSIZE] *)
Definition fn (pa : Z) : Z := u64 (pa - KERNBASE) / PGSIZE.

Definition fupd (f : Z → Z) (i v : Z) : Z → Z := λ j, if j =? i then v else f j.

Definition memref_lock : M kstate unit := zoom hartL (acquire LkMemref).
Definition memref_unlock : M kstate unit := zoom hartL (release LkMemref).
Definition memref_get (pa : Z) : M kstate Z := gets (λ s, fr s (fn pa)).
Definition memref_set (pa fq : Z) : M kstate unit := modify (λ s, set_fr (fupd (fr s) (fn pa) fq) s).
Definition memref_lock_kalloc : M kstate unit := modify (set_lock_kalloc 1).
Definition memref_unlock_kalloc : M kstate unit := modify (set_lock_kalloc 0).

Section kalloc.
(** [end]: the first address after the kernel, set by kernel.ld. *)
Context (kend : Z).

Definition kfree (pa : Z) : M kstate unit :=
  if negb (pa mod PGSIZE =? 0) || (pa <? kend) || (PHYSTOP <=? pa) then panic "kfree" else
  memref_lock ;;;
  n <- memref_get pa ;;
  if 1 <? n then
    memref_set pa (i32 (n - 1)) ;;;
    memref_unlock
  else
    memref_set pa 0 ;;;
    memref_unlock ;;;
    (* Fill with junk to catch dangling refs. *)
    modify (λ s, set_mem (memset (k_mem s) pa 1 PGSIZE) s) ;;;
    zoom hartL (acquire LkKmem) ;;;
    modify (λ s, set_mem (store64 (k_mem s) pa (freelist s)) s) ;;;
    modify (set_freelist pa) ;;;
    zoom hartL (release LkKmem).

Definition kalloc : M kstate Z :=
  zoom hartL (acquire LkKmem) ;;;
  r <- gets freelist ;;
  when (truth r) (modify (λ s, set_freelist (load64 (k_mem s) r) s)) ;;;
  zoom hartL (release LkKmem) ;;;
  (if truth r then
     lk <- gets lock_kalloc ;;
     (if truth lk then memref_lock ;;; memref_set r 1 ;;; memref_unlock
      else memref_set r 1) ;;;
     modify (λ s, set_mem (memset (k_mem s) r 5 PGSIZE) s)
   else ret tt) ;;;
  ret r.

(** [for(; p + PGSIZE <= pa_end; p += PGSIZE) kfree(p)] *)
Fixpoint freerange_loop (fuel : nat) (p pa_end : Z) : M kstate unit :=
  match fuel with
  | O => ret tt
  | S f => if p + PGSIZE <=? pa_end
           then (kfree p ;;; freerange_loop f (p + PGSIZE) pa_end)
           else ret tt
  end.
Definition freerange (pa_start pa_end : Z) : M kstate unit :=
  let p := PGROUNDUP pa_start in
  freerange_loop (Z.to_nat ((pa_end - p) / PGSIZE) + 1) p pa_end.

(** [memset] over the first [n] bytes of the array of 4-byte counters. *)
Definition memset_fr (n : Z) (f : Z → Z) : Z → Z := λ i,
  if 4 * i + 4 <=? n then 0
  else if n <=? 4 * i then f i
  else i32 (u32 (f i) / 256 ^ (n - 4 * i) * 256 ^ (n - 4 * i)).

Definition kinit : M kstate unit :=
  freerange kend PHYSTOP ;;;
  modify (set_lock_kalloc 1) ;;;
  modify (λ s, set_fr (memset_fr (fn PHYSTOP + 1) (fr s)) s).

(** ** Invariant *)

(** A page [kalloc] can hand out. *)
Definition ram_page (p : Z) : Prop := kend <= p < PHYSTOP ∧ p mod PGSIZE = 0.

(** The free list threaded through memory, from [head]. *)
Fixpoint free_chain (m : mem) (head : Z) (free : list Z) : Prop :=
  match free with
  | [] => head = 0
  | p :: free' => head = p ∧ free_chain m (load64 m p) free'
  end.

Record kmem_inv (free : list Z) (s : kstate) : Prop := {
  inv_chain : free_chain (k_mem s) (freelist s) free;
  inv_nodup : NoDup free;
  inv_ram : ∀ p, p ∈ free → ram_page p;
  inv_fr : ∀ p, p ∈ free → fr s (fn p) = 0;
}.

(** No allocator lock is held, and the CPU is in a consistent state. *)
Definition unlocked (s : kstate) : Prop :=
  hart_ok (k_hart s) ∧ (LkKmem ∉ h_held (k_hart s)) ∧ LkMemref ∉ h_held (k_hart s).
End kalloc.

(** The bytes of the page [p] are the same in both memories. *)
Definition same_page (m m' : mem) (p : Z) : Prop := ∀ a, p <= a < p + PGSIZE → m' a = m a.
(** The memories agree outside the page [p]. *)
Definition same_but (m m' : mem) (p : Z) : Prop := ∀ a, ¬ (p <= a < p + PGSIZE) → m' a = m a.

(** ** Pages *)
Section pages.
Context {kend : Z} (Hk : KERNBASE <= kend).

Lemma ram_page_range p : ram_page kend p → KERNBASE <= p ∧ p + PGSIZE <= PHYSTOP.
Proof. intros [Hr Ha]. unfold PHYSTOP, KERNBASE, PGSIZE in *. zdiv. Qed.

Lemma ram_page_nonzero p : ram_page kend p → p ≠ 0.
Proof. intros Hp%ram_page_range ->. unfold KERNBASE in *. lia. Qed.

Lemma ram_page_is_page p : ram_page kend p → is_page p.
Proof. intros [Hr Ha]. unfold is_page, PHYSTOP, KERNBASE in *. lia. Qed.

(** Two pages are the same or do not overlap. *)
Lemma page_disjoint p q : p mod PGSIZE = 0 → q mod PGSIZE = 0 → p ≠ q →
  p + PGSIZE <= q ∨ q + PGSIZE <= p.
Proof. unfold PGSIZE. zdiv. Qed.

Lemma fn_page p : ram_page kend p → fn p = (p - KERNBASE) / PGSIZE.
Proof.
  intros Hp%ram_page_range. unfold fn, u64. rewrite Z.mod_small; [done|].
  unfold PHYSTOP, KERNBASE, PGSIZE in *. lia.
Qed.

Lemma fn_inj p q : ram_page kend p → ram_page kend q → fn p = fn q → p = q.
Proof.
  intros Hp Hq. rewrite !fn_page by done. destruct Hp as [? Hp], Hq as [? Hq].
  unfold PGSIZE, KERNBASE in *. zdiv.
Qed.
End pages.

Lemma fupd_eq f i v : fupd f i v i = v.
Proof. unfold fupd. by rewrite Z.eqb_refl. Qed.
Lemma fupd_ne f i v j : j ≠ i → fupd f i v j = f j.
Proof. intros. unfold fupd. by rewrite (proj2 (Z.eqb_neq j i)). Qed.

Lemma free_chain_ext m m' head free :
  (∀ p, p ∈ free → load64 m' p = load64 m p) → free_chain m head free → free_chain m' head free.
Proof.
  revert head. induction free as [|p free IH]; intros head Hm; simpl; [done|].
  intros [-> Hc]. split; [done|]. rewrite Hm by apply list_elem_of_here.
  apply IH; [|done]. intros q Hq. apply Hm. by apply list_elem_of_further.
Qed.

Lemma same_but_load64 m m' p q :
  same_but m m' p → p mod PGSIZE = 0 → q mod PGSIZE = 0 → p ≠ q → load64 m' q = load64 m q.
Proof.
  intros Hs Hp Hq Hne. apply load_ext. intros x Hx. apply Hs.
  destruct (page_disjoint p q Hp Hq Hne); unfold PGSIZE in *; lia.
Qed.

Lemma same_but_memset m p c : same_but m (memset m p c PGSIZE) p.
Proof. intros a Ha. by apply memset_other. Qed.

Lemma same_but_store64 m p v : same_but m (store64 m p v) p.
Proof. intros a Ha. apply store_other. unfold PGSIZE in *. lia. Qed.

Lemma same_but_trans m1 m2 m3 p : same_but m1 m2 p → same_but m2 m3 p → same_but m1 m3 p.
Proof. intros H1 H2 a Ha. by rewrite H2, H1. Qed.

(** ** What the operations do *)
Section run.
Context (kend : Z) (Hk : KERNBASE <= kend).

(** The state [kalloc] leaves when it hands out [p]. *)
Definition allocated (p : Z) (s : kstate) : kstate :=
  KState (k_hart s) (memset (k_mem s) p 5 PGSIZE) (load64 (k_mem s) p)
    (fupd (fr s) (fn p) 1) (lock_kalloc s).

(** The state [kfree] leaves when it puts [p] on the free list. *)
Definition freed (p : Z) (s : kstate) : kstate :=
  KState (k_hart s) (store64 (memset (k_mem s) p 1 PGSIZE) p (freelist s)) p
    (fupd (fr s) (fn p) 0) (lock_kalloc s).

(** [kalloc] may be called with [memref.lock] held when [lock_kalloc] is 0. *)
Definition can_kalloc (s : kstate) : Prop :=
  hart_ok (k_hart s) ∧ (LkKmem ∉ h_held (k_hart s)) ∧
  (lock_kalloc s ≠ 0 → LkMemref ∉ h_held (k_hart s)).

Lemma unlocked_can_kalloc s : unlocked s → can_kalloc s.
Proof. intros (?&?&?). by split_and!. Qed.

Lemma kalloc_empty s : can_kalloc s → freelist s = 0 → kalloc s = (Ret 0, s).
Proof.
  intros (Ho & H1 & H2) Hf. apply wp_eq. unfold kalloc.
  wp_step. apply (wp_acquire hartL); [done..|]. wp_steps. simpl. rewrite Hf. simpl. wp_steps.
  eapply (wp_release hartL); [done..|]. wp_steps. by destruct s.
Qed.

Lemma kalloc_some s p : can_kalloc s → freelist s = p → p ≠ 0 →
  kalloc s = (Ret p, allocated p s).
Proof.
  intros (Ho & H1 & H2) Hf Hp. apply wp_eq. unfold kalloc.
  assert (truth p = true) as Ht by (unfold truth; by rewrite (proj2 (Z.eqb_neq p 0))).
  wp_step. apply (wp_acquire hartL); [done..|]. wp_steps. simpl. rewrite Hf, Ht. wp_steps.
  eapply (wp_release hartL); [done..|]. wp_steps. simpl.
  unfold truth. destruct (Z.eqb_spec (lock_kalloc s) 0) as [E|E]; simpl.
  - wp_steps. by destruct s; simplify_eq/=.
  - unfold memref_lock, memref_unlock, memref_set. specialize (H2 E).
    wp_step. apply (wp_acquire hartL); [done..|]. wp_steps.
    eapply (wp_release hartL); [done..|]. wp_steps. by destruct s; simplify_eq/=.
Qed.

Lemma kfree_last s p : unlocked s → ram_page kend p → fr s (fn p) <= 1 →
  kfree kend p s = (Ret tt, freed p s).
Proof.
  intros (Ho & H1 & H2) [Hr Ha] Hf. apply wp_eq. unfold kfree.
  rewrite Ha, (proj2 (Z.ltb_ge p kend)), (proj2 (Z.leb_gt PHYSTOP p)) by lia. simpl.
  unfold memref_lock, memref_unlock, memref_set, memref_get.
  wp_step. apply (wp_acquire hartL); [done..|]. wp_steps. simpl.
  rewrite (proj2 (Z.ltb_ge _ _)) by done. wp_steps.
  eapply (wp_release hartL); [done..|]. wp_steps.
  apply (wp_acquire hartL); [done..|]. wp_steps.
  eapply (wp_release hartL); [done..|]. by destruct s.
Qed.

Lemma kfree_shared s p : unlocked s → ram_page kend p → 1 < fr s (fn p) < 2 ^ 31 →
  kfree kend p s = (Ret tt, set_fr (fupd (fr s) (fn p) (fr s (fn p) - 1)) s).
Proof.
  intros (Ho & H1 & H2) [Hr Ha] Hf. apply wp_eq. unfold kfree.
  rewrite Ha, (proj2 (Z.ltb_ge p kend)), (proj2 (Z.leb_gt PHYSTOP p)) by lia. simpl.
  unfold memref_lock, memref_unlock, memref_set, memref_get.
  wp_step. apply (wp_acquire hartL); [done..|]. wp_steps. simpl.
  rewrite (proj2 (Z.ltb_lt _ _)) by lia. wp_steps.
  eapply (wp_release hartL); [done..|]. split; [done|].
  rewrite i32_id by lia. by destruct s.
Qed.
End run.

(** ** Abstract allocator *)
Module Spec.
Record t := T { free : list Z; refs : Z → Z }.

Definition alloc (a : t) : Z * t :=
  match free a with
  | [] => (0, a)
  | p :: ps => (p, T ps (fupd (refs a) (fn p) 1))
  end.

Definition free_page (p : Z) (a : t) : t :=
  if 1 <? refs a (fn p)
  then T (free a) (fupd (refs a) (fn p) (refs a (fn p) - 1))
  else T (p :: free a) (fupd (refs a) (fn p) 0).
End Spec.

Section theorems.
Context (kend : Z).
Hypothesis Hk : KERNBASE <= kend.

Lemma inv_alloc p free s : kmem_inv kend (p :: free) s → kmem_inv kend free (allocated p s).
Proof.
  intros [Hc Hd Hr Hf]. destruct Hc as [Hh Hc]. apply NoDup_cons in Hd as [Hp Hd].
  assert (∀ q, q ∈ free → q ≠ p ∧ ram_page kend q) as Hq.
  { intros q Hq. split; [by intros ->|]. apply Hr. by apply list_elem_of_further. }
  split; simpl; [|done|by intros; apply Hq|].
  - eapply free_chain_ext; [|done]. intros q [Hne [_ Ha]]%Hq.
    eapply same_but_load64; [apply same_but_memset|apply Hr, list_elem_of_here|done|done].
  - intros q Hin. destruct (Hq q Hin) as [Hne Hrq].
    rewrite fupd_ne; [apply Hf; by apply list_elem_of_further|].
    intros E. apply Hne. eapply (fn_inj Hk); [done| |done]. apply Hr, list_elem_of_here.
Qed.

Lemma freelist_bound free s : kmem_inv kend free s → 0 <= freelist s < 2 ^ 64.
Proof.
  intros [Hc _ Hr _]. destruct free as [|p free]; [by simpl in Hc; rewrite Hc|].
  destruct Hc as [-> _]. destruct (Hr p (list_elem_of_here _ _)) as [Hp _].
  unfold PHYSTOP, KERNBASE in *. lia.
Qed.

Lemma inv_free p free s : kmem_inv kend free s → ram_page kend p → p ∉ free →
  kmem_inv kend (p :: free) (freed p s).
Proof.
  intros Hinv Hp Hni. pose proof Hinv as [Hc Hd Hr Hf]. split; simpl.
  - split; [done|]. rewrite load64_store64 by by eapply freelist_bound.
    eapply free_chain_ext; [|done]. intros q Hq.
    eapply same_but_load64; [|apply Hp|by apply Hr|by intros ->].
    eapply same_but_trans; [apply same_but_memset|apply same_but_store64].
  - by apply NoDup_cons.
  - intros q [->|Hq]%elem_of_cons; [done|by apply Hr].
  - intros q [->|Hq]%elem_of_cons; [by rewrite fupd_eq|].
    rewrite fupd_ne; [by apply Hf|]. intros E%(fn_inj Hk); [by subst|by apply Hr|done].
Qed.

(** The concrete allocator stands for the abstract one. *)
Definition represents (a : Spec.t) (s : kstate) : Prop :=
  kmem_inv kend (Spec.free a) s ∧ Spec.refs a = fr s.

(** C8: [kalloc] implements the abstract allocator: it returns the page on top
    of the free stack, with one reference and filled with junk, or 0 when
    there is none; no other byte of memory changes, and the CPU's lock and
    interrupt state is what it was. *)
Theorem kalloc_refines a s : represents a s → can_kalloc s →
  ∃ s', kalloc s = (Ret (Spec.alloc a).1, s') ∧ represents (Spec.alloc a).2 s' ∧
    k_hart s' = k_hart s ∧ lock_kalloc s' = lock_kalloc s ∧
    same_but (k_mem s) (k_mem s') (Spec.alloc a).1 ∧
    ((Spec.alloc a).1 = 0 → s' = s) ∧
    ((Spec.alloc a).1 ≠ 0 →
       ram_page kend (Spec.alloc a).1 ∧
       ∀ x, (Spec.alloc a).1 <= x < (Spec.alloc a).1 + PGSIZE → k_mem s' x = 5).
Proof.
  intros [Hinv Href] Hcan. destruct a as [free refs]; simpl in *.
  destruct free as [|p free]; unfold Spec.alloc; simpl.
  - exists s. split_and!; try done. apply kalloc_empty; [done|]. apply Hinv.
  - assert (ram_page kend p) as Hp by apply Hinv, list_elem_of_here.
    pose proof (ram_page_nonzero Hk p Hp) as Hp0.
    exists (allocated p s). split_and!; try done.
    + by apply kalloc_some; [|apply Hinv|].
    + split; simpl; [by apply inv_alloc|by rewrite Href].
    + apply same_but_memset.
    + intros _. split; [done|]. intros x Hx. simpl. by rewrite memset_in.
Qed.

(** C12: [kfree] implements the abstract allocator: while other references
    remain it only drops the count; the last reference puts the page on top
    of the free stack.  It does not panic on a page of RAM that is not free
    already, and changes no byte outside the page. *)
Theorem kfree_refines a s p : represents a s → unlocked s → ram_page kend p →
  p ∉ Spec.free a → Spec.refs a (fn p) < 2 ^ 31 →
  ∃ s', kfree kend p s = (Ret tt, s') ∧ represents (Spec.free_page p a) s' ∧
    k_hart s' = k_hart s ∧ lock_kalloc s' = lock_kalloc s ∧
    same_but (k_mem s) (k_mem s') p ∧
    (1 < Spec.refs a (fn p) → k_mem s' = k_mem s).
Proof.
  intros [Hinv Href] Hu Hp Hni Hlt. unfold Spec.free_page. rewrite Href in *.
  destruct (Z.ltb_spec 1 (fr s (fn p))) as [H1|H1].
  - eexists. split_and!; [apply kfree_shared; [done..|lia]| |done..].
    split; [|done]. destruct Hinv as [Hc Hd Hr Hf]. split; simpl; try done.
    intros q Hq. rewrite fupd_ne; [by apply Hf|].
    intros E%(fn_inj Hk); [by subst|by apply Hr|done].
  - eexists. split_and!; [by apply kfree_last| |done|done| |lia].
    + split; [by apply inv_free|done].
    + simpl. eapply same_but_trans; [apply same_but_memset|apply same_but_store64].
Qed.

(** A page freed by its last owner is the next page [kalloc] returns. *)
Lemma kfree_kalloc_roundtrip free s p : kmem_inv kend free s → unlocked s →
  ram_page kend p → fr s (fn p) <= 1 →
  ∃ s', bind (kfree kend p) (λ _, kalloc) s = (Ret p, s').
Proof.
  intros Hinv Hu Hp Hf. erewrite bind_Ret by by apply kfree_last.
  eexists. apply kalloc_some; [by apply (unlocked_can_kalloc (freed p s))|done|].
  by apply (ram_page_nonzero Hk).
Qed.

(** The [n] pages from [p] upwards. *)
Definition page_range (p : Z) (n : nat) : list Z := (λ i, p + PGSIZE * Z.of_nat i) <$> seq 0 n.

Lemma page_range_S p n : page_range p (S n) = p :: page_range (p + PGSIZE) n.
Proof.
  unfold page_range. simpl. f_equal; [lia|].
  rewrite <-fmap_S_seq, <-list_fmap_compose. apply list_fmap_ext. intros i x _. simpl. lia.
Qed.

Lemma elem_of_page_range p n q :
  q ∈ page_range p n → p <= q < p + PGSIZE * Z.of_nat n ∧ q mod PGSIZE = p mod PGSIZE.
Proof.
  unfold page_range. intros (i & -> & Hi%elem_of_seq)%list_elem_of_fmap.
  unfold PGSIZE. split; [lia|]. by rewrite Z.mul_comm, Z_mod_plus_full.
Qed.

Lemma freerange_loop_run n fuel p pa_end free s :
  (n < fuel)%nat → PGSIZE * Z.of_nat n <= pa_end - p < PGSIZE * (Z.of_nat n + 1) →
  p mod PGSIZE = 0 → kend <= p → pa_end <= PHYSTOP →
  (∀ q, q ∈ free → q < p) → kmem_inv kend free s → unlocked s → (∀ i, fr s i = 0) →
  ∃ s', freerange_loop kend fuel p pa_end s = (Ret tt, s') ∧
    kmem_inv kend (reverse (page_range p n) ++ free) s' ∧
    k_hart s' = k_hart s ∧ (∀ i, fr s' i = 0).
Proof.
  revert fuel p free s. induction n as [|n IH]; intros [|fuel] p free s Hfu Hn Hal Hke Hpe
    Hlt Hinv Hu Hfr; try lia; simpl.
  - rewrite (proj2 (Z.leb_gt (p + PGSIZE) pa_end)) by (unfold PGSIZE in *; lia). by exists s.
  - assert (ram_page kend p) as Hp by (split; [unfold PGSIZE in *; lia|done]).
    rewrite (proj2 (Z.leb_le (p + PGSIZE) pa_end)) by (unfold PGSIZE in *; lia).
    erewrite bind_Ret by (apply kfree_last; [done|done|by rewrite Hfr]).
    destruct (IH fuel (p + PGSIZE) (p :: free) (freed p s)) as (s' & R & Hi & Hh & Hf').
    + lia. + unfold PGSIZE in *. lia. + unfold PGSIZE in *. zdiv. + unfold PGSIZE; lia. + done.
    + intros q [->|Hq]%elem_of_cons; [|apply Hlt in Hq]; unfold PGSIZE; lia.
    + apply inv_free; [done..|]. intros Hin%Hlt. lia.
    + done.
    + intros i. simpl. unfold fupd. by destruct (i =? fn p).
    + exists s'. split_and!; [done| |done|done].
      by rewrite page_range_S, reverse_cons, <-app_assoc.
Qed.

(** [kinit] puts every whole page between the end of the kernel and
    [PHYSTOP] on the free list, each once, with no reference, in descending
    address order. *)
Lemma kinit_frees_ram s : kend <= PHYSTOP → unlocked s → freelist s = 0 → (∀ i, fr s i = 0) →
  ∃ s', kinit kend s = (Ret tt, s') ∧
    kmem_inv kend (reverse (page_range (PGROUNDUP kend)
                     (Z.to_nat ((PHYSTOP - PGROUNDUP kend) / PGSIZE)))) s' ∧
    unlocked s' ∧ lock_kalloc s' = 1 ∧ (∀ i, fr s' i = 0).
Proof.
  intros Hke Hu Hf0 Hfr.
  assert (PGROUNDUP kend = 4096 * ((kend + 4095) / 4096)) as Hup.
  { apply PGROUNDUP_spec; unfold PHYSTOP, KERNBASE in *; lia. }
  unfold kinit, freerange. set (p := PGROUNDUP kend) in *.
  set (n := Z.to_nat ((PHYSTOP - p) / PGSIZE)).
  destruct (freerange_loop_run n (n + 1) p PHYSTOP [] s) as (s' & R & Hi & Hh & Hf').
  - lia.
  - unfold n, PGSIZE, PHYSTOP, KERNBASE in *. rewrite Z2Nat.id by zdiv. zdiv.
  - unfold PGSIZE. rewrite Hup. zdiv.
  - zdiv.
  - done.
  - by intros q ?%elem_of_nil.
  - split; [done|constructor|by intros q ?%elem_of_nil|by intros q ?%elem_of_nil].
  - done.
  - done.
  - rewrite (bind_Ret _ _ _ _ _ R). unfold bind, modify.
    rewrite app_nil_r in Hi. eexists. split; [reflexivity|]. simpl.
    assert (∀ i, memset_fr (fn PHYSTOP + 1) (fr s') i = 0) as Hz.
    { intros i. unfold memset_fr. rewrite Hf'.
      destruct (_ <=? _); [done|]. by destruct (_ <=? _). }
    split_and!; simpl; [|by unfold unlocked; simpl; rewrite Hh|done|done].
    destruct Hi as [Hc Hd Hr _]. split; simpl; [done..|]. intros q _. apply Hz.
Qed.
End theorems.

(** ** Witnesses: a machine with two free pages at the top of RAM *)
Definition kend0 : Z := PHYSTOP - 2 * PGSIZE.
Definition page0 : Z := PHYSTOP - PGSIZE.
Definition boot : kstate := KState (Hart 0 false false []) (λ _, 0) 0 (λ _, 0) 0.

Lemma boot_unlocked : unlocked boot.
Proof.
  split_and!; [split_and!; simpl; try done; constructor|..]; by intros ?%elem_of_nil.
Qed.

(** One free page; the other page allocated once. *)
Definition one_free : kstate :=
  KState (Hart 0 false false []) (λ _, 0) page0 (fupd (λ _, 0) (fn kend0) 1) 1.

Lemma one_free_unlocked : unlocked one_free.
Proof.
  split_and!; [split_and!; simpl; try done; constructor|..]; by intros ?%elem_of_nil.
Qed.

Lemma one_free_represents : represents kend0 (Spec.T [page0] (fr one_free)) one_free.
Proof.
  split; [|done]. split; simpl.
  - done.
  - apply NoDup_singleton.
  - intros p ->%list_elem_of_singleton. by split.
  - by intros p ->%list_elem_of_singleton.
Qed.

Lemma kalloc_refines_witness : ∃ s', kalloc one_free = (Ret page0, s') ∧
  represents kend0 (Spec.alloc (Spec.T [page0] (fr one_free))).2 s' ∧
  k_hart s' = k_hart one_free.
Proof.
  destruct (kalloc_refines kend0 ltac:(vm_compute; discriminate)
    (Spec.T [page0] (fr one_free)) one_free one_free_represents
    (unlocked_can_kalloc _ one_free_unlocked)) as (s' & R & Hr & Hh & _).
  exists s'. auto.
Defined.

Lemma kfree_refines_witness : ∃ s', kfree kend0 kend0 one_free = (Ret tt, s') ∧
  represents kend0 (Spec.free_page kend0 (Spec.T [page0] (fr one_free))) s'.
Proof.
  destruct (kfree_refines kend0 ltac:(vm_compute; discriminate)
    (Spec.T [page0] (fr one_free)) one_free kend0 one_free_represents one_free_unlocked
    ltac:(by split) ltac:(by intros ?%list_elem_of_singleton) eq_refl) as (s' & R & Hr & _).
  exists s'. auto.
Defined.
