(* ===== verification/Vm.v ===== *)
(** * Virtual memory: [kernel/vm.c]

    Page tables live in the byte memory of the allocator, as the hardware sees
    them: 512 eight-byte entries per page, three levels.  Every function of the
    file works on that memory; a page table is named by its physical address. *)
From S2P Require Import Prelude Machine Cstring Spinlock Kalloc.

(** [*pte] and [*pte = v] *)
Definition rd64 (a : Z) : M kstate Z := gets (λ s, load64 (k_mem s) a).
Definition wr64 (a v : Z) : M kstate unit := modify (λ s, set_mem (store64 (k_mem s) a v) s).
Definition fill (a c n : Z) : M kstate unit := modify (λ s, set_mem (memset (k_mem s) a c n) s).

(** [memmove] from an object outside the modelled memory: the bytes [l] to [a]. *)
Fixpoint wr_bytes (m : mem) (a : Z) (l : list Z) : mem :=
  match l with [] => m | b :: l' => wr_bytes (wr m a b) (a + 1) l' end.

(** The test [x & bit] of a C condition. *)
Definition has (x bit : Z) : bool := truth (Z.land x bit).

Section vm.
Context (kend : Z).

(** One iteration of the loop of [walk]: the next page-table page, or [None]
    for [return 0]. *)
Definition walk_level (pagetable va level : Z) (alloc : bool) : M kstate (option Z) :=
  let pte := pagetable + 8 * PX level va in
  v <- rd64 pte ;;
  if has v PTE_V then ret (Some (PTE2PA v))
  else if negb alloc then ret None
  else
    pt <- kalloc ;;
    if pt =? 0 then ret None
    else
      fill pt 0 PGSIZE ;;;
      wr64 pte (Z.lor (PA2PTE pt) PTE_V) ;;;
      ret (Some pt).

(** The address of the PTE, 0 if there is none. *)
Definition walk (pagetable va : Z) (alloc : bool) : M kstate Z :=
  if MAXVA <=? va then panic "walk" else
  t1 <- walk_level pagetable va 2 alloc ;;
  match t1 with
  | None => ret 0
  | Some t1 =>
      t0 <- walk_level t1 va 1 alloc ;;
      match t0 with
      | None => ret 0
      | Some t0 => ret (t0 + 8 * PX 0 va)
      end
  end.

Definition walkaddr (pagetable va : Z) : M kstate Z :=
  if MAXVA <=? va then ret 0 else
  pte <- walk pagetable va false ;;
  if pte =? 0 then ret 0 else
  v <- rd64 pte ;;
  if negb (has v PTE_V) then ret 0 else
  if negb (has v PTE_U) then ret 0 else
  ret (PTE2PA v).

(** The [for(;;)] loop of [mappages]: it ends at [last], or in the panic of
    [walk] at [MAXVA]; [mappages] gives it fuel for the longer of the two. *)
Fixpoint mappages_loop (fuel : nat) (pagetable a last pa perm : Z) : M kstate Z :=
  match fuel with
  | O => panic "mappages: fuel"
  | S f =>
      pte <- walk pagetable a true ;;
      if pte =? 0 then ret (-1) else
      v <- rd64 pte ;;
      if has v PTE_V then panic "mappages: remap" else
      wr64 pte (Z.lor (Z.lor (PA2PTE pa) perm) PTE_V) ;;;
      if a =? last then ret 0
      else mappages_loop f pagetable (u64 (a + PGSIZE)) last (u64 (pa + PGSIZE)) perm
  end.

Definition mappages (pagetable va size pa perm : Z) : M kstate Z :=
  if size =? 0 then panic "mappages: size" else
  let a := PGROUNDDOWN va in
  let last := PGROUNDDOWN (u64 (va + size - 1)) in
  let stop := if a <=? last then last else MAXVA in
  mappages_loop (S (Z.to_nat ((stop - a) / PGSIZE + 1))) pagetable a last pa perm.

Definition kvmmap (kpgtbl va pa sz perm : Z) : M kstate unit :=
  r <- mappages kpgtbl va sz pa perm ;;
  if negb (r =? 0) then panic "kvmmap" else ret tt.

Fixpoint uvmunmap_loop (fuel : nat) (pagetable a bound : Z) (do_free : bool) : M kstate unit :=
  match fuel with
  | O => ret tt
  | S f =>
      if a <? bound then
        pte <- walk pagetable a false ;;
        if pte =? 0 then panic "uvmunmap: walk" else
        v <- rd64 pte ;;
        if negb (has v PTE_V) then panic "uvmunmap: not mapped" else
        if PTE_FLAGS v =? PTE_V then panic "uvmunmap: not a leaf" else
        when do_free (kfree kend (PTE2PA v)) ;;;
        wr64 pte 0 ;;;
        uvmunmap_loop f pagetable (u64 (a + PGSIZE)) bound do_free
      else ret tt
  end.

Definition uvmunmap (pagetable va npages : Z) (do_free : bool) : M kstate unit :=
  if negb (va mod PGSIZE =? 0) then panic "uvmunmap: not aligned" else
  uvmunmap_loop (Z.to_nat npages) pagetable va (u64 (va + npages * PGSIZE)) do_free.

Definition uvmcreate : M kstate Z :=
  pagetable <- kalloc ;;
  if pagetable =? 0 then ret 0 else
  fill pagetable 0 PGSIZE ;;;
  ret pagetable.

Definition uvmfirst (pagetable : Z) (src : list Z) (sz : Z) : M kstate unit :=
  if PGSIZE <=? sz then panic "uvmfirst: more than a page" else
  mem <- kalloc ;;
  fill mem 0 PGSIZE ;;;
  mappages pagetable 0 PGSIZE mem (Z.lor (Z.lor (Z.lor PTE_W PTE_R) PTE_X) PTE_U) ;;;
  modify (λ s, set_mem (wr_bytes (k_mem s) mem (take (Z.to_nat sz) src)) s).

Definition uvmdealloc (pagetable oldsz newsz : Z) : M kstate Z :=
  if oldsz <=? newsz then ret oldsz else
  (if PGROUNDUP newsz <? PGROUNDUP oldsz then
     let npages := i32 ((PGROUNDUP oldsz - PGROUNDUP newsz) / PGSIZE) in
     uvmunmap pagetable (PGROUNDUP newsz) (u64 npages) true
   else ret tt) ;;;
  ret newsz.

(** The loop of [uvmalloc]; [oldsz] is already rounded up. *)
Fixpoint uvmalloc_loop (fuel : nat) (pagetable a oldsz newsz xperm : Z) : M kstate Z :=
  match fuel with
  | O => ret newsz
  | S f =>
      if a <? newsz then
        mem <- kalloc ;;
        if mem =? 0 then
          uvmdealloc pagetable a oldsz ;;;
          ret 0
        else
          fill mem 0 PGSIZE ;;;
          r <- mappages pagetable a PGSIZE mem (Z.lor (Z.lor PTE_R PTE_U) xperm) ;;
          if negb (r =? 0) then
            kfree kend mem ;;;
            uvmdealloc pagetable a oldsz ;;;
            ret 0
          else uvmalloc_loop f pagetable (a + PGSIZE) oldsz newsz xperm
      else ret newsz
  end.

Definition uvmalloc (pagetable oldsz newsz xperm : Z) : M kstate Z :=
  if newsz <? oldsz then ret oldsz else
  let oldsz := PGROUNDUP oldsz in
  uvmalloc_loop (Z.to_nat ((newsz - oldsz) / PGSIZE + 1)) pagetable oldsz oldsz newsz xperm.

(** [depth] bounds the recursion: a Sv39 table has three levels. *)
Fixpoint freewalk (depth : nat) (pagetable : Z) : M kstate unit :=
  match depth with
  | O => panic "freewalk: depth"
  | S d =>
      for_all (seq 0 512) (λ i,
        let slot := pagetable + 8 * Z.of_nat i in
        pte <- rd64 slot ;;
        if has pte PTE_V && (Z.land pte (Z.lor (Z.lor PTE_R PTE_W) PTE_X) =? 0) then
          freewalk d (PTE2PA pte) ;;;
          wr64 slot 0
        else if has pte PTE_V then panic "freewalk: leaf"
        else ret tt) ;;;
      kfree kend pagetable
  end.

Definition uvmfree (pagetable sz : Z) : M kstate unit :=
  when (0 <? sz) (uvmunmap pagetable 0 (PGROUNDUP sz / PGSIZE) true) ;;;
  freewalk 3 pagetable.

(** The loop of [uvmcopy] from page address [i], with its [err] exit. *)
Fixpoint uvmcopy_loop (fuel : nat) (old new sz i : Z) : M kstate Z :=
  match fuel with
  | O => ret 0
  | S f =>
      if i <? sz then
        pte <- walk old i false ;;
        if pte =? 0 then panic "uvmcopy: pte should exist" else
        v <- rd64 pte ;;
        if negb (has v PTE_V) then panic "uvmcopy: page not present" else
        let pa := PTE2PA v in
        let flags := PTE_FLAGS v in
        wr64 pte (Z.lor (Z.land v (not64 PTE_W)) PTE_COW) ;;;
        let flags := Z.lor (Z.land flags (not64 PTE_W)) PTE_COW in
        r <- mappages new i PGSIZE pa flags ;;
        if negb (r =? 0) then
          uvmunmap new 0 (i / PGSIZE) true ;;;
          ret (-1)
        else
          memref_lock ;;;
          fq <- memref_get pa ;;
          memref_set pa (i32 (fq + 1)) ;;;
          memref_unlock ;;;
          uvmcopy_loop f old new sz (i + PGSIZE)
      else ret 0
  end.

Definition uvmcopy (old new sz : Z) : M kstate Z :=
  uvmcopy_loop (Z.to_nat ((sz + PGSIZE - 1) / PGSIZE)) old new sz 0.

Definition uvmclear (pagetable va : Z) : M kstate unit :=
  pte <- walk pagetable va false ;;
  if pte =? 0 then panic "uvmclear" else
  v <- rd64 pte ;;
  wr64 pte (Z.land v (not64 PTE_U)).

(** [src] is the kernel buffer's contents; a page at a time. *)
Fixpoint copyout_loop (fuel : nat) (pagetable dstva : Z) (src : list Z) : M kstate Z :=
  match fuel with
  | O => ret 0
  | S f =>
      if bool_decide (src = []) then ret 0 else
      let va0 := PGROUNDDOWN dstva in
      pa0 <- walkaddr pagetable va0 ;;
      if pa0 =? 0 then ret (-1) else
      let n := Z.min (PGSIZE - (dstva - va0)) (Z.of_nat (length src)) in
      modify (λ s, set_mem (wr_bytes (k_mem s) (pa0 + (dstva - va0)) (take (Z.to_nat n) src)) s) ;;;
      copyout_loop f pagetable (u64 (va0 + PGSIZE)) (drop (Z.to_nat n) src)
  end.
Definition copyout (pagetable dstva : Z) (src : list Z) : M kstate Z :=
  copyout_loop (length src) pagetable dstva src.

(** Returns the code and the bytes stored at [dst]. *)
Fixpoint copyin_loop (fuel : nat) (pagetable srcva len : Z) (dst : list Z) : M kstate (Z * list Z) :=
  match fuel with
  | O => ret (0, dst)
  | S f =>
      if len <=? 0 then ret (0, dst) else
      let va0 := PGROUNDDOWN srcva in
      pa0 <- walkaddr pagetable va0 ;;
      if pa0 =? 0 then ret (-1, dst) else
      let n := Z.min (PGSIZE - (srcva - va0)) len in
      l <- gets (λ s, bytes (k_mem s) (pa0 + (srcva - va0)) (Z.to_nat n)) ;;
      copyin_loop f pagetable (u64 (va0 + PGSIZE)) (len - n) (dst ++ l)
  end.
Definition copyin (pagetable srcva len : Z) : M kstate (Z * list Z) :=
  copyin_loop (Z.to_nat len) pagetable srcva len [].

(** The inner loop of [copyinstr]: up to [n] bytes of one page; returns
    whether the NUL was found and the bytes copied. *)
Fixpoint copystr_page (n : nat) (m : mem) (p : Z) (dst : list Z) : bool * list Z :=
  match n with
  | O => (false, dst)
  | S n' => if m p =? 0 then (true, dst ++ [0]) else copystr_page n' m (p + 1) (dst ++ [m p])
  end.
Fixpoint copyinstr_loop (fuel : nat) (pagetable srcva max : Z) (dst : list Z)
    : M kstate (Z * list Z) :=
  match fuel with
  | O => ret (-1, dst)
  | S f =>
      if max <=? 0 then ret (-1, dst) else
      let va0 := PGROUNDDOWN srcva in
      pa0 <- walkaddr pagetable va0 ;;
      if pa0 =? 0 then ret (-1, dst) else
      let n := Z.min (PGSIZE - (srcva - va0)) max in
      r <- gets (λ s, copystr_page (Z.to_nat n) (k_mem s) (pa0 + (srcva - va0)) dst) ;;
      match r with
      | (true, dst) => ret (0, dst)
      | (false, dst) => copyinstr_loop f pagetable (u64 (va0 + PGSIZE)) (max - n) dst
      end
  end.
Definition copyinstr (pagetable srcva max : Z) : M kstate (Z * list Z) :=
  copyinstr_loop (Z.to_nat max + 1) pagetable srcva max [].
End vm.
