(* ===== verification/VmMap.v ===== *)
(** * Page tables as maps

    The three-level table at [root] is read as a function [leaf] from virtual
    addresses to leaf PTEs (0 when nothing is mapped).  [pt_inv] says that the
    pages of all page tables are distinct RAM pages outside the free list; under
    it, [walk], [mappages] and [uvmunmap] change exactly the leaf they are asked
    to change, in that table and in no other. *)
From S2P Require Import Prelude Machine Cstring Spinlock Kalloc Vm.

Definition idx (i : Z) : Prop := 0 <= i < 512.

(** The table that entry [i] of table [t] points to. *)
Definition nxt (m : mem) (t i : Z) : option Z :=
  let v := load64 m (t + 8 * i) in if has v PTE_V then Some (PTE2PA v) else None.

(** The table reached from [t] along a path of indices. *)
Fixpoint tbl (m : mem) (t : Z) (path : list Z) : option Z :=
  match path with
  | [] => Some t
  | i :: p => match nxt m t i with Some t' => tbl m t' p | None => None end
  end.

Definition path_of (va : Z) : list Z := [PX 2 va; PX 1 va].

(** Where the leaf PTE of [va] is stored. *)
Definition slot (m : mem) (root va : Z) : option Z :=
  match tbl m root (path_of va) with Some t => Some (t + 8 * PX 0 va) | None => None end.

(** The leaf PTE of [va], 0 if there is no page for it. *)
Definition leaf (m : mem) (root va : Z) : Z :=
  match slot m root va with Some a => load64 m a | None => 0 end.

(** [t] is the page reached from root [r] by path [p] ([p = []]: the root). *)
Definition table_of (m : mem) (roots : list Z) (r : Z) (p : list Z) (t : Z) : Prop :=
  r ∈ roots ∧ Forall idx p ∧ (length p <= 2)%nat ∧ tbl m r p = Some t.

Record pt_inv (kend : Z) (free roots : list Z) (m : mem) : Prop := {
  pt_ram : ∀ r p t, table_of m roots r p t → ram_page kend t ∧ t ∉ free;
  pt_inj : ∀ r p t r' p', table_of m roots r p t → table_of m roots r' p' t → r = r' ∧ p = p';
}.

Definition is_table (m : mem) (roots : list Z) (t : Z) : Prop := ∃ r p, table_of m roots r p t.

Lemma idx_PX l va : 0 <= l → idx (PX l va).
Proof. intros. by apply PX_bound. Qed.
#[export] Hint Resolve idx_PX : kernel.

Lemma path_of_ok va : Forall idx (path_of va).
Proof. repeat constructor; apply PX_bound; lia. Qed.

Lemma has_testbit x k : 0 <= k → has x (Z.shiftl 1 k) = Z.testbit x k.
Proof.
  intros Hk. unfold has, truth. rewrite Z.shiftl_1_l, land_pow2_testbit by done.
  apply negb_involutive.
Qed.

Lemma has_V x : has x PTE_V = Z.testbit x 0.
Proof. by apply (has_testbit x 0). Qed.

(** ** Walking without allocation reads [slot] and changes nothing *)

Lemma walk_level_false t va l s :
  walk_level t va l false s = (Ret (nxt (k_mem s) t (PX l va)), s).
Proof.
  unfold walk_level, rd64, nxt, bind, gets. simpl.
  by destruct (has (load64 (k_mem s) (t + 8 * PX l va)) PTE_V).
Qed.

Lemma walk_false root va s : va < MAXVA →
  walk root va false s = (Ret (default 0 (slot (k_mem s) root va)), s).
Proof.
  intros Hva. unfold walk. rewrite (proj2 (Z.leb_gt MAXVA va)) by done.
  rewrite (bind_Ret _ _ _ _ _ (walk_level_false root va 2 s)). unfold slot, path_of. simpl.
  destruct (nxt (k_mem s) root (PX 2 va)) as [t1|]; [|done].
  rewrite (bind_Ret _ _ _ _ _ (walk_level_false t1 va 1 s)).
  by destruct (nxt (k_mem s) t1 (PX 1 va)).
Qed.

(** ** Tables depend only on their own pages *)

Lemma tbl_app m t p q : tbl m t (p ++ q) = tbl m t p ≫= λ t', tbl m t' q.
Proof.
  revert t. induction p as [|i p IH]; intros t; simpl; [done|].
  destruct (nxt m t i); [apply IH|done].
Qed.

Lemma tbl_ext m m' t p :
  (∀ q t' i rest, p = q ++ i :: rest → tbl m t q = Some t' → nxt m' t' i = nxt m t' i) →
  tbl m' t p = tbl m t p.
Proof.
  revert t. induction p as [|i p IH]; intros t H; simpl; [done|].
  rewrite (H [] t i p) by done. destruct (nxt m t i) as [t'|] eqn:E; [|done].
  apply IH. intros q t'' j rest -> Hq. apply (H (i :: q) t'' j rest); [done|].
  simpl. by rewrite E.
Qed.

Lemma nxt_ext m m' t i : load64 m' (t + 8 * i) = load64 m (t + 8 * i) → nxt m' t i = nxt m t i.
Proof. unfold nxt. by intros ->. Qed.

(** An entry of one page is not touched by a write to another page. *)
Lemma entry_ext m m' t p i : same_but m m' p → p mod PGSIZE = 0 → t mod PGSIZE = 0 → p ≠ t →
  idx i → load64 m' (t + 8 * i) = load64 m (t + 8 * i).
Proof.
  intros Hs Hp Ht Hne Hi. unfold idx in Hi. apply load_ext. intros x Hx. apply Hs.
  destruct (page_disjoint p t Hp Ht Hne); unfold PGSIZE in *; lia.
Qed.

Section inv.
Context {kend : Z} (Hk : KERNBASE <= kend).
Context {free roots : list Z} {m : mem} (Hinv : pt_inv kend free roots m).

Lemma table_prefix r q i rest t' : r ∈ roots → Forall idx (q ++ i :: rest) →
  (length (q ++ i :: rest) <= 2)%nat → tbl m r q = Some t' →
  table_of m roots r q t' ∧ idx i ∧ (length q <= 1)%nat.
Proof.
  intros Hr Hf Hl Ht. apply Forall_app in Hf as [Hq Hi]. rewrite length_app in Hl. simpl in Hl.
  inversion Hi; subst. split_and!; try done; try lia. split_and!; try done. lia.
Qed.

(** A write to a page that is not an inner table leaves every table in place. *)
Lemma tbl_frame m' pg r p :
  same_but m m' pg → pg mod PGSIZE = 0 →
  (∀ r q t, (length q <= 1)%nat → table_of m roots r q t → t ≠ pg) →
  r ∈ roots → Forall idx p → (length p <= 2)%nat → tbl m' r p = tbl m r p.
Proof.
  intros Hs Hpg Hno Hr Hf Hl. apply tbl_ext. intros q t' i rest -> Ht.
  destruct (table_prefix r q i rest t') as (Htb & Hi & Hq); try done.
  apply nxt_ext. eapply entry_ext; [done|done| |by intros ->; eapply Hno|done].
  by apply (pt_ram _ _ _ _ Hinv) in Htb as [[??] _].
Qed.

Lemma slot_frame m' pg r va :
  same_but m m' pg → pg mod PGSIZE = 0 →
  (∀ r q t, (length q <= 1)%nat → table_of m roots r q t → t ≠ pg) →
  r ∈ roots → slot m' r va = slot m r va.
Proof.
  intros. unfold slot. erewrite tbl_frame; [done|done..|apply path_of_ok|simpl; lia].
Qed.

(** The slot of an address is an entry of a last-level table. *)
Lemma slot_table r va a : r ∈ roots → slot m r va = Some a →
  ∃ t, table_of m roots r (path_of va) t ∧ a = t + 8 * PX 0 va.
Proof.
  intros Hr. unfold slot. destruct (tbl m r (path_of va)) as [t|] eqn:E; [|done].
  intros [= <-]. exists t. split; [|done]. split_and!; [done|apply path_of_ok|simpl; lia|done].
Qed.

(** A write to a page that is no table at all leaves every mapping in place. *)
Lemma leaf_frame m' pg r va :
  same_but m m' pg → pg mod PGSIZE = 0 → ¬ is_table m roots pg →
  r ∈ roots → leaf m' r va = leaf m r va.
Proof.
  intros Hs Hpg Hno Hr. unfold leaf. erewrite slot_frame; [|done|done| |done].
  2:{ intros r' q t _ Ht ->. apply Hno. by exists r', q. }
  destruct (slot m r va) as [a|] eqn:E; [|done].
  apply slot_table in E as (t & Ht & ->); [|done].
  eapply entry_ext; [done|done| |intros ->; apply Hno; by exists r, (path_of va)|apply PX_bound; lia].
  by apply (pt_ram _ _ _ _ Hinv) in Ht as [[??] _].
Qed.

Lemma pt_inv_frame m' pg :
  same_but m m' pg → pg mod PGSIZE = 0 → ¬ is_table m roots pg → pt_inv kend free roots m'.
Proof.
  intros Hs Hpg Hno.
  assert (∀ r p t, table_of m' roots r p t → table_of m roots r p t) as Hb.
  { intros r p t (Hr & Hf & Hl & Ht). split_and!; try done. rewrite <-Ht. symmetry.
    eapply tbl_frame; try done. intros r' q t' _ Ht' ->. apply Hno. by exists r', q. }
  split.
  - intros r p t Ht%Hb. by eapply pt_ram.
  - intros r p t r' p' Ht%Hb Ht'%Hb. by eapply pt_inj.
Qed.

(** ** Storing into a last-level slot *)
Context {r0 p0 t0 : _} (Ht0 : table_of m roots r0 p0 t0).

Lemma store_same_but i v : idx i → same_but m (store64 m (t0 + 8 * i) v) t0.
Proof. intros Hi a Ha. apply store_other. unfold idx, PGSIZE in *. lia. Qed.

Lemma tbl_store i v r p : length p0 = 2%nat → idx i →
  r ∈ roots → Forall idx p → (length p <= 2)%nat →
  tbl (store64 m (t0 + 8 * i) v) r p = tbl m r p.
Proof.
  intros Hl0 Hi Hr Hf Hl. eapply tbl_frame; [by apply store_same_but| |..]; try done.
  - by apply (pt_ram _ _ _ _ Hinv) in Ht0 as [[??] _].
  - intros r' q t Hq Ht ->. destruct (pt_inj _ _ _ _ Hinv _ _ _ _ _ Ht Ht0) as [_ ->]. lia.
Qed.
End inv.

(** Virtual addresses the tables can translate. *)
Definition va_ok (va : Z) : Prop := 0 <= va < MAXVA.
(** The same page of the same address space. *)
Definition same_va (r va r' va' : Z) : Prop := r = r' ∧ va / PGSIZE = va' / PGSIZE.

Lemma path_slot_inj va va' : va_ok va → va_ok va' → path_of va = path_of va' →
  PX 0 va = PX 0 va' → va / PGSIZE = va' / PGSIZE.
Proof. intros H H' [= E2 E1] E0. by apply PX_inj. Qed.

Lemma PX_page va va' l : 0 <= l → va / PGSIZE = va' / PGSIZE → PX l va = PX l va'.
Proof.
  intros Hl E. unfold PGSIZE in E. rewrite !PX_spec by done.
  rewrite Z.pow_add_r by lia. rewrite <-!Z.div_div by lia.
  change (2 ^ 12) with 4096. by rewrite E.
Qed.

(** The slot of an address depends on its page only. *)
Lemma slot_page m r va va' : va / PGSIZE = va' / PGSIZE → slot m r va = slot m r va'.
Proof.
  intros E. unfold slot, path_of.
  by rewrite (PX_page va va' 2), (PX_page va va' 1), (PX_page va va' 0) by done || lia.
Qed.

Lemma leaf_page m r va va' : va / PGSIZE = va' / PGSIZE → leaf m r va = leaf m r va'.
Proof. intros E. unfold leaf. by rewrite (slot_page m r va va'). Qed.

Section store.
Context {kend : Z} {free roots : list Z} {m : mem} (Hinv : pt_inv kend free roots m).
Context {r va a : Z} (Hr : r ∈ roots) (Hva : va_ok va) (Hslot : slot m r va = Some a).

Lemma slot_store v r' va' : r' ∈ roots → slot (store64 m a v) r' va' = slot m r' va'.
Proof.
  intros Hr'. destruct (slot_table r va a Hr Hslot) as (t & Ht & ->).
  unfold slot. rewrite (tbl_store Hinv Ht); try done; [apply PX_bound; lia|apply path_of_ok].
Qed.

Lemma leaf_store_eq v : 0 <= v < 2 ^ 64 → leaf (store64 m a v) r va = v.
Proof. intros Hv. unfold leaf. rewrite slot_store, Hslot by done. by apply load64_store64. Qed.

Lemma leaf_store_ne v r' va' : r' ∈ roots → va_ok va' → ¬ same_va r va r' va' →
  leaf (store64 m a v) r' va' = leaf m r' va'.
Proof.
  intros Hr' Hva' Hne. unfold leaf. rewrite slot_store by done.
  destruct (slot m r' va') as [a'|] eqn:E'; [|done].
  destruct (slot_table r va a Hr Hslot) as (t & Ht & ->).
  destruct (slot_table r' va' a' Hr' E') as (t' & Ht' & ->).
  pose proof (PX_bound 0 va) as B. pose proof (PX_bound 0 va') as B'.
  destruct (decide (t = t')) as [<-|Htt].
  - destruct (pt_inj _ _ _ _ Hinv _ _ _ _ _ Ht Ht') as [<- Ep].
    apply load64_store64_ne.
    assert (PX 0 va ≠ PX 0 va'); [|lia]. intros E0. apply Hne. split; [done|].
    by apply path_slot_inj.
  - apply (pt_ram _ _ _ _ Hinv) in Ht as [[_ Ha] _], Ht' as [[_ Ha'] _].
    apply load64_store64_ne.
    destruct (page_disjoint t t' Ha Ha' Htt); unfold PGSIZE in *; lia.
Qed.

Lemma pt_inv_store v : pt_inv kend free roots (store64 m a v).
Proof.
  destruct (slot_table r va a Hr Hslot) as (t & Ht & ->).
  assert (∀ r p t', table_of (store64 m (t + 8 * PX 0 va) v) roots r p t' →
                    table_of m roots r p t') as Hb.
  { intros r' p t' (Hr' & Hf & Hl & E). split_and!; try done.
    rewrite (tbl_store Hinv Ht) in E; try done. apply PX_bound. lia. }
  split.
  - intros r' p t' Ht'%Hb. by eapply pt_ram.
  - intros r1 p t' r2 p' Ht1%Hb Ht2%Hb. by eapply pt_inj.
Qed.

(** The slot is inside a table page. *)
Lemma slot_in_table : ∃ t, is_table m roots t ∧ t <= a ∧ a + 8 <= t + PGSIZE.
Proof.
  destruct (slot_table r va a Hr Hslot) as (t & Ht & ->). exists t. pose proof (PX_bound 0 va).
  split; [by eexists _, _|]. unfold PGSIZE. lia.
Qed.

Lemma slot_nonzero : KERNBASE <= kend → a ≠ 0.
Proof.
  intros Hk. destruct (slot_table r va a Hr Hslot) as (t & Ht & ->).
  apply (pt_ram _ _ _ _ Hinv) in Ht as [Ht _].
  pose proof (ram_page_range Hk t Ht). pose proof (PX_bound 0 va). unfold KERNBASE in *. lia.
Qed.
End store.

(** ** Adding a page-table page *)
Section add_table.
Context {kend : Z} (Hk : KERNBASE <= kend).
Context {free roots : list Z} {m : mem} (Hinv : pt_inv kend free roots m).
Context {n : Z} (Hn : ram_page kend n) (Hnt : ¬ is_table m roots n).
Context {r : Z} {p : list Z} {t i : Z} (Ht : table_of m roots r p t) (Hi : idx i).
Context (Hp : (length p <= 1)%nat) (Hnone : nxt m t i = None).

(** The memory after [kalloc], [memset] and the store of the new PTE. *)
Definition with_table : mem :=
  store64 (memset (memset m n 5 PGSIZE) n 0 PGSIZE) (t + 8 * i) (Z.lor (PA2PTE n) PTE_V).

Let Hne : t ≠ n.
Proof. intros ->. apply Hnt. by exists r, p. Qed.

Lemma table_aligned r' p' t' : table_of m roots r' p' t' → t' mod PGSIZE = 0.
Proof. by intros [[??] _]%(pt_ram _ _ _ _ Hinv). Qed.

Lemma zeroed_same_but : same_but m (memset (memset m n 5 PGSIZE) n 0 PGSIZE) n.
Proof. eapply same_but_trans; apply same_but_memset. Qed.

(** Entries of the other tables, and the other entries of [t]. *)
Lemma with_table_entry r' p' t' j : table_of m roots r' p' t' → idx j → (t' ≠ t ∨ j ≠ i) →
  load64 with_table (t' + 8 * j) = load64 m (t' + 8 * j).
Proof.
  intros Ht' Hj Hd. unfold with_table.
  assert (t' ≠ n) as Hn' by (intros ->; apply Hnt; by exists r', p').
  pose proof (table_aligned _ _ _ Ht) as At. pose proof (table_aligned _ _ _ Ht') as At'.
  rewrite load64_store64_ne.
  - eapply entry_ext; [apply zeroed_same_but|apply Hn|done|done|done].
  - unfold idx in *. destruct (decide (t' = t)) as [->|Htt]; [destruct Hd; [done|]; lia|].
    destruct (page_disjoint t' t At' At Htt); unfold PGSIZE in *; lia.
Qed.

Lemma with_table_new : nxt with_table t i = Some n.
Proof.
  unfold nxt, with_table. pose proof (ram_page_is_page Hk n Hn) as Hpg.
  rewrite load64_store64 by (apply PTE_mk_range; [done|by vm_compute]).
  rewrite has_V, Z.lor_spec. change (Z.testbit PTE_V 0) with true. rewrite orb_true_r.
  by rewrite PTE2PA_mk.
Qed.

Lemma with_table_zero j : idx j → load64 with_table (n + 8 * j) = 0.
Proof.
  intros Hj. unfold with_table. unfold idx in *.
  pose proof (table_aligned _ _ _ Ht) as At. destruct Hn as [_ An].
  rewrite load64_store64_ne.
  - apply load_memset0; [lia|unfold PGSIZE; lia|done].
  - destruct (page_disjoint t n At An Hne); unfold PGSIZE in *; lia.
Qed.

Lemma with_table_nxt_none j : idx j → nxt with_table n j = None.
Proof. intros Hj. unfold nxt. by rewrite with_table_zero. Qed.

(** The tables after the addition: the new one at [p ++ [i]], nothing below
    it, and the old ones. *)
Lemma tbl_with_table_below q : Forall idx q →
  tbl with_table n q = if decide (q = []) then Some n else None.
Proof.
  intros Hq. destruct q as [|j q]; [done|]. simpl.
  inversion Hq; subst. by rewrite with_table_nxt_none.
Qed.

Lemma tbl_with_table_other r' q : r' ∈ roots → Forall idx q → (length q <= 2)%nat →
  (r' = r → ∀ q', q ≠ p ++ i :: q') → tbl with_table r' q = tbl m r' q.
Proof.
  intros Hr' Hf Hl Hno. apply tbl_ext. intros q1 t' j rest -> Hq1.
  destruct (table_prefix (m := m) (roots := roots) r' q1 j rest t') as (Ht' & Hj & Hl1); try done.
  apply nxt_ext. eapply with_table_entry; [done|done|].
  destruct (decide (t' = t)) as [->|]; [|by left]. right. intros ->.
  destruct (pt_inj _ _ _ _ Hinv _ _ _ _ _ Ht' Ht) as [-> ->]. by apply (Hno eq_refl rest).
Qed.

Lemma tbl_with_table_here q : Forall idx q → (length (p ++ i :: q) <= 2)%nat →
  tbl with_table r (p ++ i :: q) = if decide (q = []) then Some n else None.
Proof.
  intros Hq Hl. rewrite tbl_app.
  destruct Ht as (Hr & Hf & Hlp & Et).
  assert (tbl with_table r p = Some t) as ->.
  { rewrite <-Et. apply tbl_with_table_other; [done|done|lia|].
    intros _ q' E. apply (f_equal length) in E. rewrite length_app in E. simpl in E. lia. }
  simpl. rewrite with_table_new. by apply tbl_with_table_below.
Qed.

Lemma tbl_old_here q : tbl m r (p ++ i :: q) = None.
Proof. rewrite tbl_app. destruct Ht as (_ & _ & _ & ->). simpl. by rewrite Hnone. Qed.

(** Every table of the new memory is the new page or an old table. *)
Lemma table_of_with_table r' q t' : table_of with_table roots r' q t' →
  (r' = r ∧ q = p ++ [i] ∧ t' = n) ∨ table_of m roots r' q t'.
Proof.
  intros (Hr' & Hf & Hl & E).
  destruct (decide (r' = r ∧ p ++ [i] `prefix_of` q)) as [[-> [q' ->]]|Hno].
  - left. rewrite <-app_assoc in *. simpl in *.
    apply Forall_app in Hf as [_ Hf]. inversion Hf as [|?? _ Hf']; subst.
    rewrite tbl_with_table_here in E by done. case_decide as D; [|done]. simplify_eq.
    done.
  - right. split_and!; try done. rewrite <-E. symmetry. apply tbl_with_table_other; try done.
    intros -> q' ->. apply Hno. split; [done|]. exists q'. by rewrite <-app_assoc.
Qed.

Lemma pt_inv_with_table : pt_inv kend (filter (λ q, q ≠ n) free) roots with_table.
Proof.
  split.
  - intros r' q t' [(-> & -> & ->)|H]%table_of_with_table.
    + split; [done|]. by intros [??]%list_elem_of_filter.
    + apply (pt_ram _ _ _ _ Hinv) in H as [? Hf]. split; [done|].
      by intros [_ ?]%list_elem_of_filter.
  - intros r1 q1 t1 r2 q2 [(E1 & E2 & E3)|H1]%table_of_with_table
      [(E1' & E2' & E3')|H2]%table_of_with_table; subst; try done.
    + exfalso. apply Hnt. by exists r2, q2.
    + exfalso. apply Hnt. by exists r1, q1.
    + by eapply pt_inj.
Qed.

(** No leaf changes: the new table is empty, and was unreachable. *)
Lemma slot_with_table r' va : r' ∈ roots →
  slot with_table r' va = slot m r' va ∨
  (r' = r ∧ p ++ [i] = path_of va ∧ slot m r' va = None ∧
   slot with_table r' va = Some (n + 8 * PX 0 va)).
Proof.
  intros Hr'. unfold slot. pose proof (path_of_ok va) as Hpo.
  destruct (decide (r' = r ∧ p ++ [i] `prefix_of` path_of va)) as [[-> [q E]]|Hno].
  - rewrite <-app_assoc in E. simpl in E. rewrite E in *. rewrite tbl_old_here.
    apply Forall_app in Hpo as [_ Hpo]. inversion Hpo; subst.
    rewrite tbl_with_table_here; [|done|].
    + case_decide as D; [right; by rewrite D|by left].
    + by rewrite <-E.
  - left. rewrite tbl_with_table_other; [done|done|done|simpl; lia|].
    intros -> q' E. apply Hno. split; [done|]. exists q'. by rewrite <-app_assoc.
Qed.

Lemma leaf_with_table r' va : r' ∈ roots → leaf with_table r' va = leaf m r' va.
Proof.
  intros Hr'. unfold leaf.
  destruct (slot_with_table r' va Hr') as [->|(_ & _ & -> & ->)].
  - destruct (slot m r' va) as [a|] eqn:E; [|done].
    destruct (slot_table r' va a Hr' E) as (t' & Ht' & ->).
    eapply with_table_entry; [done|apply PX_bound; lia|].
    left. intros ->. destruct (pt_inj _ _ _ _ Hinv _ _ _ _ _ Ht Ht') as [_ ->].
    simpl in Hp. lia.
  - by apply with_table_zero, PX_bound.
Qed.
End add_table.
