(* ===== verification/VmSpec.v ===== *)
(** * What the page-table operations of [kernel/vm.c] do

    [walk], [mappages], [uvmunmap] and [uvmcopy] described on [leaf], the map
    from virtual pages to PTEs: which leaf each of them changes, that it leaves
    all other mappings of all address spaces alone, and that the pages of the
    tables and of the free list stay apart. *)
From S2P Require Import Prelude Machine Cstring Spinlock Kalloc Vm VmMap.

(** The allocator and the page tables, together. *)
Record vm_ok (kend : Z) (free roots : list Z) (s : kstate) : Prop := {
  vm_kmem : kmem_inv kend free s;
  vm_pt : pt_inv kend free roots (k_mem s);
}.

(** From [s] to [s'] only page tables changed: pages of the free list may have
    become page-table pages, no table was dropped, and every other page of
    memory and the CPU are what they were. *)
Record touches (roots free free' : list Z) (s s' : kstate) : Prop := {
  tc_hart : k_hart s' = k_hart s;
  tc_lock : lock_kalloc s' = lock_kalloc s;
  tc_free : ∃ used, free = used ++ free';
  tc_slot : ∀ r va a, r ∈ roots → slot (k_mem s) r va = Some a → slot (k_mem s') r va = Some a;
  tc_table : ∀ t, is_table (k_mem s') roots t → is_table (k_mem s) roots t ∨ t ∈ free;
  tc_page : ∀ pg, pg mod PGSIZE = 0 → ¬ is_table (k_mem s) roots pg → pg ∉ free →
    same_page (k_mem s) (k_mem s') pg;
  tc_fr : ∀ i, i ∉ (fn <$> free) → fr s' i = fr s i;
}.

(** ... and every mapping of every table is what it was. *)
Definition grows (roots free free' : list Z) (s s' : kstate) : Prop :=
  touches roots free free' s s' ∧
  ∀ r va, r ∈ roots → leaf (k_mem s') r va = leaf (k_mem s) r va.

Lemma touches_refl roots free s : touches roots free free s s.
Proof. split; try done; [by exists []|by left]. Qed.

Lemma touches_trans roots f1 f2 f3 s1 s2 s3 :
  touches roots f1 f2 s1 s2 → touches roots f2 f3 s2 s3 → touches roots f1 f3 s1 s3.
Proof.
  intros G1 G2. destruct (tc_free _ _ _ _ _ G1) as [u1 ->], (tc_free _ _ _ _ _ G2) as [u2 ->].
  split.
  - by rewrite (tc_hart _ _ _ _ _ G2), (tc_hart _ _ _ _ _ G1).
  - by rewrite (tc_lock _ _ _ _ _ G2), (tc_lock _ _ _ _ _ G1).
  - exists (u1 ++ u2). by rewrite app_assoc.
  - intros r va a Hr Ha. eapply tc_slot; [done|done|]. by eapply tc_slot.
  - intros t [Ht|Ht]%(tc_table _ _ _ _ _ G2); [by apply (tc_table _ _ _ _ _ G1)|].
    right. set_solver.
  - intros pg Hpg Hnt Hnf a Ha.
    rewrite (tc_page _ _ _ _ _ G2 pg); [|done| |set_solver|done].
    + by apply (tc_page _ _ _ _ _ G1 pg).
    + by intros [?|?]%(tc_table _ _ _ _ _ G1).
  - intros i Hi. rewrite (tc_fr _ _ _ _ _ G2), (tc_fr _ _ _ _ _ G1); [done|set_solver|].
    rewrite fmap_app in Hi. set_solver.
Qed.

Lemma grows_refl roots free s : grows roots free free s s.
Proof. split; [apply touches_refl|done]. Qed.

Lemma grows_trans roots f1 f2 f3 s1 s2 s3 :
  grows roots f1 f2 s1 s2 → grows roots f2 f3 s2 s3 → grows roots f1 f3 s1 s3.
Proof.
  intros [T1 L1] [T2 L2]. split; [by eapply touches_trans|].
  intros r va Hr. by rewrite L2, L1.
Qed.

Lemma filter_head (n : Z) free : NoDup (n :: free) → filter (λ q, q ≠ n) (n :: free) = free.
Proof.
  intros [Hn Hd]%NoDup_cons. rewrite filter_cons_False by (intros H; by apply H).
  clear Hd. induction free as [|q free IH]; [done|].
  apply not_elem_of_cons in Hn as [? ?]. rewrite filter_cons_True by done. by rewrite IH.
Qed.

Section walk.
Context {kend : Z} (Hk : KERNBASE <= kend) {roots : list Z}.

(** Turning the first free page into the missing table. *)
Section add.
Context {n : Z} {free : list Z} {s : kstate} (Hok : vm_ok kend (n :: free) roots s).
Context {r : Z} {p : list Z} {t i : Z} (Ht : table_of (k_mem s) roots r p t) (Hi : idx i).
Context (Hp : (length p <= 1)%nat) (Hnone : nxt (k_mem s) t i = None).

Definition added : kstate := set_mem (with_table (m := k_mem s) (n := n) (t := t) (i := i)) (allocated n s).

Lemma added_facts : ram_page kend n ∧ (¬ is_table (k_mem s) roots n) ∧ n ∉ free.
Proof.
  split_and!.
  - apply (vm_kmem _ _ _ _ Hok), list_elem_of_here.
  - intros (r' & p' & Ht'). apply (pt_ram _ _ _ _ (vm_pt _ _ _ _ Hok)) in Ht' as [_ []].
    apply list_elem_of_here.
  - pose proof (inv_nodup _ _ _ (vm_kmem _ _ _ _ Hok)) as Hd. by apply NoDup_cons in Hd as [? _].
Qed.

Lemma added_other pg : pg mod PGSIZE = 0 → ¬ is_table (k_mem s) roots pg → pg ≠ n →
  same_page (k_mem s) (k_mem added) pg.
Proof.
  intros Hpg Hnt Hne a Ha. unfold added, with_table. simpl.
  destruct added_facts as ([_ An] & Hn & _).
  assert (pg ≠ t) as Hpt by (intros ->; apply Hnt; by exists r, p).
  pose proof (table_aligned (vm_pt _ _ _ _ Hok) r p t Ht) as At.
  pose proof (page_disjoint pg n Hpg An Hne). pose proof (page_disjoint pg t Hpg At Hpt).
  unfold idx, store64, PGSIZE in *.
  rewrite store_other by lia. by rewrite !memset_other by lia.
Qed.

Lemma added_ok : vm_ok kend free roots added.
Proof.
  destruct added_facts as (Hn & Hnt & Hf).
  assert (NoDup (n :: free)) as Hd by apply (vm_kmem _ _ _ _ Hok).
  split.
  - pose proof (inv_alloc kend Hk n free s (vm_kmem _ _ _ _ Hok)) as [Hc Hd' Hr Hfr].
    split; [|done..]. simpl. eapply free_chain_ext; [|exact Hc].
    intros q Hq. apply load_ext. intros x Hx.
    assert (q ≠ n) as Hqn by (by intros ->).
    assert (¬ is_table (k_mem s) roots q) as Hqt.
    { intros (r' & p' & Ht'). apply (pt_ram _ _ _ _ (vm_pt _ _ _ _ Hok)) in Ht' as [_ []].
      by apply list_elem_of_further. }
    destruct (Hr q Hq) as [_ Aq]. destruct Hn as [_ An].
    trans (k_mem s x); [apply (added_other q Aq Hqt Hqn x); unfold PGSIZE; lia|].
    simpl. symmetry. apply memset_other. destruct (page_disjoint q n Aq An Hqn); unfold PGSIZE in *; lia.
  - rewrite <-(filter_head n free) by done.
    by apply (pt_inv_with_table Hk (vm_pt _ _ _ _ Hok) Hn Hnt Ht).
Qed.

Lemma added_grows : grows roots (n :: free) free s added.
Proof.
  destruct added_facts as (Hn & Hnt & Hf). pose proof (vm_pt _ _ _ _ Hok) as Hpt.
  split; [split; try done|].
  6:{ intros r' va Hr'. by apply (leaf_with_table Hk Hpt Hn Hnt Ht). }
  - by exists [n].
  - intros r' va a Hr' Ha. simpl.
    by destruct (slot_with_table Hk Hpt Hn Hnt Ht Hi Hp Hnone r' va Hr') as [->|(_ & _ & E & _)];
      [|congruence].
  - intros t' (r' & p' & Ht'). simpl in Ht'.
    apply (table_of_with_table Hk Hpt Hn Hnt Ht) in Ht' as [(_ & _ & ->)|Ht']; try done.
    + right. apply list_elem_of_here.
    + left. by exists r', p'.
  - intros pg Hpg Hnt' Hnf. apply added_other; [done..|]. set_solver.
  - intros j Hj. simpl. rewrite fupd_ne; [done|]. set_solver.
Qed.

Lemma added_table : table_of (k_mem added) roots r (p ++ [i]) n.
Proof.
  destruct added_facts as (Hn & Hnt & Hf). pose proof (vm_pt _ _ _ _ Hok) as Hpt.
  pose proof Ht as (Hr & Hfp & Hlp & _). split_and!; [done| | |].
  - apply Forall_app_2; [done|by apply Forall_singleton].
  - rewrite length_app. simpl. lia.
  - apply (tbl_with_table_here Hk Hpt Hn Hnt Ht Hi Hp Hnone []); [apply Forall_nil_2|].
    rewrite length_app. simpl. lia.
Qed.
End add.

Lemma can_kalloc_touches free free' s s' : touches roots free free' s s' → can_kalloc s → can_kalloc s'.
Proof. intros G. unfold can_kalloc. by rewrite (tc_hart _ _ _ _ _ G), (tc_lock _ _ _ _ _ G). Qed.

(** One level of an allocating walk: the next table, old or new, or [None]
    when memory has run out. *)
Lemma walk_level_alloc free s r p t va l :
  vm_ok kend free roots s → can_kalloc s → table_of (k_mem s) roots r p t →
  (length p <= 1)%nat → 0 <= l →
  ∃ o s' free', walk_level t va l true s = (Ret o, s') ∧
    vm_ok kend free' roots s' ∧ grows roots free free' s s' ∧
    match o with
    | Some t' => table_of (k_mem s') roots r (p ++ [PX l va]) t' ∧ (length free <= length free' + 1)%nat
    | None => free = []
    end.
Proof.
  intros Hok Hc Ht Hp Hl. pose proof (PX_bound l va Hl) as Hi. fold (idx (PX l va)) in Hi.
  unfold walk_level, bind at 1, rd64, gets.
  destruct (nxt (k_mem s) t (PX l va)) as [t'|] eqn:E.
  - exists (Some t'), s, free. pose proof E as E'. unfold nxt in E.
    destruct (has _ PTE_V); [|done]. simplify_eq.
    split_and!; [done|done|apply grows_refl| |lia].
    destruct Ht as (Hr & Hfp & Hlp & Et). split_and!; [done| | |].
    + apply Forall_app_2; [done|by apply Forall_singleton].
    + rewrite length_app. simpl. lia.
    + rewrite tbl_app, Et. simpl. by rewrite E'.
  - pose proof E as E'. unfold nxt in E. destruct (has _ PTE_V); [done|]. simpl.
    destruct free as [|n free].
    + exists None, s, []. split_and!; [|done|apply grows_refl|done].
      erewrite bind_Ret; [|apply kalloc_empty; [done|apply Hok]]. done.
    + destruct (added_facts Hok) as (Hn & _ & _).
      pose proof (ram_page_nonzero Hk n Hn) as Hn0.
      exists (Some n), (added (n := n) (s := s) (t := t) (i := PX l va)), free.
      split_and!; [|by eapply added_ok|by eapply added_grows|by eapply added_table|simpl; lia].
      erewrite bind_Ret; [|apply kalloc_some; [done|apply Hok|done]].
      rewrite (proj2 (Z.eqb_neq n 0)) by done.
      unfold bind, fill, wr64, modify, ret, added, with_table, allocated, set_mem. simpl. reflexivity.
Qed.

Lemma slot_of_table m r va t : tbl m r (path_of va) = Some t → slot m r va = Some (t + 8 * PX 0 va).
Proof. unfold slot. by intros ->. Qed.

(** [walk] with allocation: the slot of [va], in tables that may have grown;
    0 only when no free page is left. *)
Lemma walk_alloc free s r va :
  vm_ok kend free roots s → can_kalloc s → r ∈ roots → va_ok va →
  ∃ v s' free', walk r va true s = (Ret v, s') ∧
    vm_ok kend free' roots s' ∧ grows roots free free' s s' ∧
    ((v = 0 ∧ (length free <= 1)%nat) ∨
     (v ≠ 0 ∧ slot (k_mem s') r va = Some v ∧ (length free <= length free' + 2)%nat)).
Proof.
  intros Hok Hc Hr Hva. unfold walk. rewrite (proj2 (Z.leb_gt MAXVA va)) by apply Hva.
  assert (table_of (k_mem s) roots r [] r) as H0 by (split_and!; [done|constructor|simpl; lia|done]).
  destruct (walk_level_alloc free s r [] r va 2 Hok Hc H0) as (o1 & s1 & f1 & R1 & K1 & G1 & O1);
    [simpl; lia|lia|]. rewrite (bind_Ret _ _ _ _ _ R1).
  destruct o1 as [t1|]; [|exists 0, s1, f1; split_and!; try done; left; subst; simpl; split; [done|lia]].
  destruct O1 as [T1 L1].
  destruct (walk_level_alloc f1 s1 r _ t1 va 1 K1 (can_kalloc_touches _ _ _ _ (proj1 G1) Hc) T1)
    as (o2 & s2 & f2 & R2 & K2 & G2 & O2); [simpl; lia|lia|]. rewrite (bind_Ret _ _ _ _ _ R2).
  pose proof (grows_trans _ _ _ _ _ _ _ G1 G2) as G.
  destruct o2 as [t2|].
  - destruct O2 as [T2 L2]. assert (slot (k_mem s2) r va = Some (t2 + 8 * PX 0 va)) as Es.
    { apply slot_of_table, T2. }
    exists (t2 + 8 * PX 0 va), s2, f2. split_and!; try done. right. split_and!; [|done|lia].
    by eapply (slot_nonzero (vm_pt _ _ _ _ K2) (r := r)).
  - exists 0, s2, f2. split_and!; try done. left. subst. simpl in L1. split; [done|lia].
Qed.

(** An address that has a slot needs no allocation. *)
Lemma walk_slot s r va a alloc : va < MAXVA → slot (k_mem s) r va = Some a →
  walk r va alloc s = (Ret a, s).
Proof.
  intros Hva Ha. assert (∀ t l t', nxt (k_mem s) t (PX l va) = Some t' →
    walk_level t va l alloc s = (Ret (Some t'), s)) as HL.
  { intros t l t'. unfold walk_level, bind at 1, rd64, gets, nxt. by case_match; intros [= <-]. }
  unfold walk. rewrite (proj2 (Z.leb_gt MAXVA va)) by done.
  unfold slot, path_of in Ha. simpl in Ha.
  destruct (nxt (k_mem s) r (PX 2 va)) as [t1|] eqn:E1; [|done].
  rewrite (bind_Ret _ _ _ _ _ (HL _ _ _ E1)).
  destruct (nxt (k_mem s) t1 (PX 1 va)) as [t0|] eqn:E0; [|done].
  rewrite (bind_Ret _ _ _ _ _ (HL _ _ _ E0)). by simplify_eq.
Qed.
End walk.

(** ** Writing a leaf *)
Section write_leaf.
Context {kend : Z} (Hk : KERNBASE <= kend) {free roots : list Z} {s : kstate}.
Context (Hok : vm_ok kend free roots s).
Context {r va a : Z} (Hr : r ∈ roots) (Hva : va_ok va) (Hslot : slot (k_mem s) r va = Some a).

Definition wrote (v : Z) : kstate := set_mem (store64 (k_mem s) a v) s.

(** The slot is not in a free page. *)
Lemma slot_not_free q x : q ∈ free → q <= x < q + PGSIZE → ¬ (a <= x < a + 8).
Proof.
  intros Hq Hx Hax. destruct (slot_in_table Hr Hslot) as (t & (r' & p' & Ht') & H1 & H2).
  apply (pt_ram _ _ _ _ (vm_pt _ _ _ _ Hok)) in Ht' as [[_ At] Hnf].
  destruct (inv_ram _ _ _ (vm_kmem _ _ _ _ Hok) q Hq) as [_ Aq].
  destruct (decide (q = t)) as [->|Hne]; [done|].
  destruct (page_disjoint q t Aq At Hne); lia.
Qed.

Lemma wrote_ok v : vm_ok kend free roots (wrote v).
Proof.
  split; [|exact (pt_inv_store (vm_pt _ _ _ _ Hok) Hr Hslot v)].
  destruct (vm_kmem _ _ _ _ Hok) as [Hc Hd Hr' Hf]. split; try done. simpl.
  eapply free_chain_ext; [|done]. intros q Hq. apply load_ext. intros x Hx.
  apply store_other. apply (slot_not_free q); [done|unfold PGSIZE; lia].
Qed.

Lemma wrote_slot v r' va' : r' ∈ roots → slot (k_mem (wrote v)) r' va' = slot (k_mem s) r' va'.
Proof. exact (slot_store (vm_pt _ _ _ _ Hok) Hr Hslot v r' va'). Qed.

Lemma wrote_table v t : is_table (k_mem (wrote v)) roots t → is_table (k_mem s) roots t.
Proof.
  intros (r' & p' & Hr' & Hf & Hl & E). exists r', p'. split_and!; try done.
  destruct (slot_table r va a Hr Hslot) as (t0 & Ht0 & Ea). simpl in E. rewrite Ea in E.
  rewrite (tbl_store (vm_pt _ _ _ _ Hok) Ht0) in E; try done. apply PX_bound. lia.
Qed.

Lemma wrote_touches v : touches roots free free s (wrote v).
Proof.
  split; try done.
  - by exists [].
  - intros r' va' a' Hr' Ha'. by rewrite wrote_slot.
  - intros t Ht. left. by eapply wrote_table.
  - intros pg Hpg Hnt _ x Hx. simpl. apply store_other.
    destruct (slot_in_table Hr Hslot) as (t & Ht & H1 & H2). intros Hax.
    assert (pg ≠ t) as Hne by by intros ->.
    assert (t mod PGSIZE = 0) as At.
    { destruct Ht as (r' & p' & Ht'). by apply (pt_ram _ _ _ _ (vm_pt _ _ _ _ Hok)) in Ht' as [[??] _]. }
    destruct (page_disjoint pg t Hpg At Hne); simpl in *; lia.
Qed.

Lemma wrote_leaf v r' va' : 0 <= v < 2 ^ 64 → r' ∈ roots → va_ok va' →
  leaf (k_mem (wrote v)) r' va' =
  if decide (r' = r ∧ va' / PGSIZE = va / PGSIZE) then v else leaf (k_mem s) r' va'.
Proof.
  intros Hv Hr' Hva'. case_decide as D.
  - destruct D as [-> E]. rewrite (leaf_page _ _ _ _ E).
    by apply (leaf_store_eq (vm_pt _ _ _ _ Hok) Hr Hslot).
  - apply (leaf_store_ne (vm_pt _ _ _ _ Hok) Hr Hva Hslot); [done..|]. intros [E1 E2]. apply D. by split.
Qed.
End write_leaf.

(** ** [mappages] *)

(** The PTE [mappages] stores for the page [va] of a range from [a]. *)
Definition mk_pte (pa perm : Z) : Z := Z.lor (Z.lor (PA2PTE pa) perm) PTE_V.

(** The mappings [L], with [k] pages from [a] mapped to the pages from [pa]. *)
Definition map_range (L : Z → Z → Z) (r a : Z) (k : nat) (pa perm : Z) (r' va : Z) : Z :=
  if decide (r' = r ∧ a <= va < a + PGSIZE * Z.of_nat k)
  then mk_pte (pa + (va / PGSIZE * PGSIZE - a)) perm else L r' va.

Lemma mk_pte_range pa perm : is_page pa → 0 <= perm < 1024 → 0 <= mk_pte pa perm < 2 ^ 64.
Proof.
  intros Hpa Hp. unfold mk_pte. rewrite <-Z.lor_assoc. apply PTE_mk_range; [done|].
  change 1024 with (2 ^ 10). apply lor_range; [done|done|by vm_compute].
Qed.

Section mappages.
Context {kend : Z} (Hk : KERNBASE <= kend) {roots : list Z}.
Context {r : Z} (Hr : r ∈ roots).

(** A page whose slot is there. *)
Lemma map_here free s a v pa perm : vm_ok kend free roots s → va_ok a → a mod PGSIZE = 0 → is_page pa → 0 <= perm < 1024 →
  slot (k_mem s) r a = Some v →
  let s' := set_mem (store64 (k_mem s) v (mk_pte pa perm)) s in
  touches roots free free s s' ∧ vm_ok kend free roots s' ∧
  ∀ r' va, r' ∈ roots → va_ok va → leaf (k_mem s') r' va = map_range (leaf (k_mem s)) r a 1 pa perm r' va.
Proof.
  intros Hok Hva Ha Hpa Hperm Hs. cbv zeta. fold (wrote (s := s) (a := v) (mk_pte pa perm)). split_and!.
  - by apply (wrote_touches Hok Hr Hs).
  - by apply (wrote_ok Hok Hr Hs).
  - intros r' va Hr' Hva'. rewrite (wrote_leaf Hok Hr Hva Hs) by (auto using mk_pte_range).
    unfold map_range. unfold PGSIZE in *.
    assert (va / 4096 = a / 4096 ↔ a <= va < a + 4096 * Z.of_nat 1) as Heq by (split; zdiv).
    destruct (decide (r' = r ∧ va / 4096 = a / 4096)) as [[-> D]|D].
    + rewrite decide_True by (split; [done|by apply Heq]). f_equal. zdiv.
    + rewrite decide_False; [done|]. intros [? ?]. apply D. split; [done|by apply Heq].
Qed.

(** One page. *)
Lemma map_one free s a pa perm : vm_ok kend free roots s → can_kalloc s → va_ok a →
  a mod PGSIZE = 0 → is_page pa → 0 <= perm < 1024 → has (leaf (k_mem s) r a) PTE_V = false →
  ∃ pte s' free', walk r a true s = (Ret pte, s') ∧ touches roots free free' s s' ∧
    vm_ok kend free' roots s' ∧
    ((pte = 0 ∧ (length free <= 1)%nat ∧
      ∀ r' va, r' ∈ roots → va_ok va → leaf (k_mem s') r' va = leaf (k_mem s) r' va) ∨
     (pte ≠ 0 ∧ (length free <= length free' + 2)%nat ∧
      has (load64 (k_mem s') pte) PTE_V = false ∧
      let s'' := set_mem (store64 (k_mem s') pte (mk_pte pa perm)) s' in
      touches roots free free' s s'' ∧ vm_ok kend free' roots s'' ∧
      ∀ r' va, r' ∈ roots → va_ok va →
        leaf (k_mem s'') r' va = map_range (leaf (k_mem s)) r a 1 pa perm r' va)).
Proof.
  intros Hok Hc Hva Ha Hpa Hperm Hnew.
  destruct (walk_alloc Hk free s r a Hok Hc Hr Hva) as (v & s' & free' & R & Hok' & [T L] & H).
  exists v, s', free'. split_and!; try done.
  destruct H as [[-> Hf]|(Hv & Hs & Hf)]; [left; split_and!; auto|right].
  assert (load64 (k_mem s') v = leaf (k_mem s) r a) as E.
  { rewrite <-L by done. unfold leaf. by rewrite Hs. }
  rewrite E. do 3 (split; [done|]). destruct (map_here free' s' a v pa perm) as (T' & K' & L'); try done.
  split_and!; [by eapply touches_trans|done|].
  intros r' va Hr' Hva'. rewrite L' by done. unfold map_range. by rewrite L.
Qed.

Lemma map_range_S (L L1 : Z → Z → Z) a k pa perm r' va : a mod PGSIZE = 0 →
  L1 r' va = map_range L r a 1 pa perm r' va →
  map_range L1 r (a + PGSIZE) k (pa + PGSIZE) perm r' va = map_range L r a (S k) pa perm r' va.
Proof.
  intros Ha E. unfold map_range in *. unfold PGSIZE in *.
  destruct (decide (r' = r)) as [->|Hne]; [|by rewrite E, !decide_False by naive_solver].
  destruct (decide (a <= va < a + 4096 * Z.of_nat (S k))) as [D|D].
  - rewrite (decide_True (P := r = r ∧ a <= va < _)) by done.
    destruct (decide (a + 4096 <= va)) as [D'|D'].
    + rewrite decide_True by lia. f_equal. lia.
    + rewrite decide_False by lia. rewrite E, decide_True by lia. done.
  - rewrite !decide_False by lia. rewrite E, decide_False by lia. done.
Qed.

(** The loop over [S n] pages maps a prefix of them: all of them, or those
    before the page for which no table could be allocated. *)
Lemma mappages_loop_run perm n : 0 <= perm < 1024 →
  ∀ fuel free s a pa, (n < fuel)%nat →
  vm_ok kend free roots s → can_kalloc s →
  a mod PGSIZE = 0 → 0 <= a → a + PGSIZE * Z.of_nat (S n) <= MAXVA →
  is_page pa → pa + PGSIZE * Z.of_nat (S n) <= 2 ^ 56 →
  (∀ va, a <= va < a + PGSIZE * Z.of_nat (S n) → has (leaf (k_mem s) r va) PTE_V = false) →
  ∃ k s' free', mappages_loop fuel r a (a + PGSIZE * Z.of_nat n) pa perm s =
      (Ret (if decide (k = S n) then 0 else -1), s') ∧
    (k <= S n)%nat ∧ vm_ok kend free' roots s' ∧ touches roots free free' s s' ∧
    (∀ r' va, r' ∈ roots → va_ok va →
       leaf (k_mem s') r' va = map_range (leaf (k_mem s)) r a k pa perm r' va) ∧
    ((2 * S n <= length free)%nat → k = S n).
Proof.
  intros Hperm. induction n as [|n IH]; intros [|fuel] free s a pa Hfu Hok Hc Ha Ha0 Hlt Hpa Hpl Hnew;
    try lia; simpl.
  all: assert (va_ok a) as Hva by (unfold va_ok, PGSIZE in *; lia).
  all: destruct (map_one free s a pa perm Hok Hc Hva Ha Hpa Hperm) as (v & s1 & f1 & R & T & K & H);
    [apply Hnew; unfold PGSIZE; lia|]; rewrite (bind_Ret _ _ _ _ _ R).
  all: destruct H as [(-> & Hf & HL)|(Hv & Hf & Hn & T' & K' & HL)].
  1, 3: exists 0%nat, s1, f1; rewrite decide_False by lia; split_and!; try done; try lia;
    intros r' va Hr' Hva'; rewrite HL by done; unfold map_range; rewrite decide_False; [done|unfold PGSIZE; lia].
  all: rewrite (proj2 (Z.eqb_neq v 0)) by done; unfold rd64, bind, gets, wr64, modify;
    rewrite Hn; fold (mk_pte pa perm).
  - rewrite (proj2 (Z.eqb_eq _ _)) by (unfold PGSIZE; lia). eexists 1%nat, _, f1. by split_and!.
  - rewrite (proj2 (Z.eqb_neq _ _)) by (unfold PGSIZE; lia).
    rewrite !u64_id by (change MAXVA with 274877906944 in *; unfold PGSIZE in *; destruct Hpa; lia).
    set (s1' := set_mem _ s1) in *.
    destruct (IH fuel f1 s1' (a + PGSIZE) (pa + PGSIZE)) as (k & s2 & f2 & R2 & Hk2 & K2 & T2 & L2 & F2);
      [lia|exact K'|by eapply can_kalloc_touches|unfold PGSIZE in *; zdiv|unfold PGSIZE in *; lia..
      |destruct Hpa as [? Hm]; split; unfold PGSIZE in *; [lia|zdiv]|unfold PGSIZE in *; lia| |].
    { intros va Hin. rewrite HL by (done || unfold va_ok, PGSIZE in *; lia).
      unfold map_range. rewrite decide_False by lia. apply Hnew. unfold PGSIZE in *; lia. }
    exists (S k), s2, f2.
    replace (a + PGSIZE * Z.of_nat (S n)) with (a + PGSIZE + PGSIZE * Z.of_nat n) by lia.
    rewrite R2. split_and!; [|lia|done|by eapply touches_trans| |lia].
    + by destruct (decide (k = S n)), (decide (S k = S (S n))); try lia.
    + intros r' va Hr' Hva'. rewrite L2 by done. apply map_range_S; [done|]. by apply HL.
Qed.

(** The pages the range [va, va + size) touches. *)
Definition npages_of (va size : Z) : nat :=
  Z.to_nat ((va + size - 1) / PGSIZE - va / PGSIZE + 1).

(** C14: [mappages] installs a PTE for every page of [va, va + size), in order,
    pointing at consecutive physical pages from [pa] with the given permissions,
    and changes no other mapping of this or any other page table; it returns 0
    when all pages were mapped and -1, with a proper prefix mapped, only when
    page-table memory ran out.  All other pages of memory keep their contents. *)
Theorem mappages_maps free s va size pa perm :
  vm_ok kend free roots s → can_kalloc s → 0 <= va → 0 < size → va + size <= MAXVA →
  is_page pa → pa + PGSIZE * Z.of_nat (npages_of va size) <= 2 ^ 56 → 0 <= perm < 1024 →
  (∀ v, va / PGSIZE <= v / PGSIZE <= (va + size - 1) / PGSIZE → has (leaf (k_mem s) r v) PTE_V = false) →
  ∃ k s' free', mappages r va size pa perm s =
      (Ret (if decide (k = npages_of va size) then 0 else -1), s') ∧
    (k <= npages_of va size)%nat ∧ vm_ok kend free' roots s' ∧ touches roots free free' s s' ∧
    (∀ r' v, r' ∈ roots → va_ok v →
       leaf (k_mem s') r' v =
       map_range (leaf (k_mem s)) r (va / PGSIZE * PGSIZE) k pa perm r' v) ∧
    ((2 * npages_of va size <= length free)%nat → k = npages_of va size).
Proof.
  intros Hok Hc Hva Hsz Hmax Hpa Hpl Hperm Hnew.
  unfold mappages. rewrite (proj2 (Z.eqb_neq size 0)) by lia.
  assert (∃ n, npages_of va size = S n) as [n En].
  { exists (pred (npages_of va size)). unfold npages_of, PGSIZE in *. zdiv. }
  assert (Z.of_nat (S n) = (va + size - 1) / PGSIZE - va / PGSIZE + 1) as Ez.
  { rewrite <-En. unfold npages_of, PGSIZE. zdiv. }
  assert (PGROUNDDOWN va = va / PGSIZE * PGSIZE) as ->.
  { rewrite PGROUNDDOWN_spec by (change MAXVA with 274877906944 in *; lia). unfold PGSIZE. lia. }
  rewrite u64_id by (change MAXVA with 274877906944 in *; lia).
  rewrite PGROUNDDOWN_spec by (change MAXVA with 274877906944 in *; lia).
  replace (4096 * ((va + size - 1) / 4096)) with (va / PGSIZE * PGSIZE + PGSIZE * Z.of_nat n)
    by (unfold PGSIZE in *; lia).
  rewrite En in *. apply mappages_loop_run; try done; unfold PGSIZE in *.
  - rewrite (proj2 (Z.leb_le _ _)) by lia. zdiv.
  - zdiv.
  - zdiv.
  - change MAXVA with 274877906944 in *. zdiv.
  - intros v Hv. apply Hnew. zdiv.
Qed.
End mappages.
