(* ===== verification/VmRefs.v ===== *)
(** * Reference counts of copy-on-write pages

    [memref.fr] of [kernel/kalloc.c] is meant to count the user mappings of each
    physical page.  The ghost map [Mp] lists the counted mappings, from an
    address space and a virtual page number to a physical page; [refs_inv] says
    that [fr] is exactly the number of entries for the page.  [uvmunmap],
    [uvmalloc] and [uvmcopy] keep it, so a page is freed with its last mapping
    and never before. *)
From S2P Require Import Prelude Machine Cstring Spinlock Kalloc Vm VmMap VmSpec.

Abbreviation mappings := (gmap (Z * Z) Z).

(** The number of mappings of the page [pa]. *)
Definition counted (Mp : mappings) (pa : Z) : nat := size (filter (λ kv, kv.2 = pa) Mp).

Lemma counted_insert (Mp : mappings) k pa pa' : Mp !! k = None →
  counted (<[k := pa]> Mp) pa' = (counted Mp pa' + if decide (pa = pa') then 1 else 0)%nat.
Proof.
  intros Hk. unfold counted. case_decide as D.
  - rewrite map_filter_insert_True by done. rewrite map_size_insert_None; [lia|].
    apply map_lookup_filter_None. by left.
  - rewrite map_filter_insert_False by done. rewrite delete_id by done. lia.
Qed.

Lemma counted_delete (Mp : mappings) k pa pa' : Mp !! k = Some pa →
  counted Mp pa' = (counted (delete k Mp) pa' + if decide (pa = pa') then 1 else 0)%nat.
Proof.
  intros Hk. rewrite <-(insert_id Mp k pa) at 1 by done. rewrite <-insert_delete_eq.
  apply counted_insert, lookup_delete_eq.
Qed.

Lemma counted_le (Mp : mappings) pa : (counted Mp pa <= size Mp)%nat.
Proof. unfold counted. apply map_size_filter. Qed.

Lemma counted_pos (Mp : mappings) k pa : Mp !! k = Some pa → (1 <= counted Mp pa)%nat.
Proof. intros Hk. rewrite (counted_delete Mp k pa) by done. rewrite decide_True by done. lia. Qed.

Lemma counted_zero (Mp : mappings) pa : (∀ k, Mp !! k ≠ Some pa) → counted Mp pa = 0%nat.
Proof.
  intros H. unfold counted. apply map_size_empty_iff, map_empty. intros k.
  apply map_lookup_filter_None. right. intros x Hx E. simpl in E. subst. by apply (H k).
Qed.

(** The mapping [k] of the page [pa], as the page tables have it. *)
Record entry_ok (m : mem) (roots : list Z) (k : Z * Z) (pa : Z) : Prop := {
  en_root : k.1 ∈ roots;
  en_va : va_ok (k.2 * PGSIZE);
  en_range : 0 <= leaf m k.1 (k.2 * PGSIZE) < 2 ^ 64;
  en_V : has (leaf m k.1 (k.2 * PGSIZE)) PTE_V = true;
  en_leaf : PTE_FLAGS (leaf m k.1 (k.2 * PGSIZE)) ≠ PTE_V;
  en_pa : PTE2PA (leaf m k.1 (k.2 * PGSIZE)) = pa;
}.

(** A page that holds user data. *)
Definition user_page (kend : Z) (free roots : list Z) (m : mem) (pa : Z) : Prop :=
  ram_page kend pa ∧ (pa ∉ free) ∧ ¬ is_table m roots pa.

Record refs_inv (kend : Z) (free roots : list Z) (Mp : mappings) (s : kstate) : Prop := {
  rf_entry : ∀ k pa, Mp !! k = Some pa → entry_ok (k_mem s) roots k pa;
  rf_page : ∀ k pa, Mp !! k = Some pa → user_page kend free roots (k_mem s) pa;
  rf_count : ∀ k pa, Mp !! k = Some pa → fr s (fn pa) = Z.of_nat (counted Mp pa);
}.

Section freeing.
Context {kend : Z} (Hk : KERNBASE <= kend) {free roots : list Z} {s : kstate}.
Context (Hok : vm_ok kend free roots s).

(** Writing to a page that is no table changes no table. *)
Lemma is_table_frame m' pg t : same_but (k_mem s) m' pg → pg mod PGSIZE = 0 →
  ¬ is_table (k_mem s) roots pg → is_table m' roots t → is_table (k_mem s) roots t.
Proof.
  intros Hs Hpg Hno (r & p & Hr & Hf & Hl & Ht). exists r, p. split_and!; try done.
  rewrite <-Ht. symmetry. eapply tbl_frame; [apply Hok|done..| |done|done|done].
  intros r' q t' _ Ht' ->. apply Hno. by exists r', q.
Qed.

Lemma freed_same_but pa : same_but (k_mem s) (k_mem (freed pa s)) pa.
Proof. eapply same_but_trans; [apply same_but_memset|apply same_but_store64]. Qed.

Context {pa : Z} (Hpa : user_page kend free roots (k_mem s) pa).

Lemma freed_ok : vm_ok kend (pa :: free) roots (freed pa s).
Proof.
  destruct Hpa as (Hram & Hnf & Hnt). split.
  - apply inv_free; try done. apply Hok.
  - destruct (pt_inv_frame (vm_pt _ _ _ _ Hok) _ pa (freed_same_but pa)) as [Hr Hi];
      [apply Hram|done|]. split; [|done].
    intros r p t Ht. destruct (Hr _ _ _ Ht) as [? ?]. split; [done|].
    intros [->|?]%elem_of_cons; [|done]. apply Hnt.
    eapply is_table_frame; [apply freed_same_but|apply Hram|done|]. by exists r, p.
Qed.

Lemma freed_slot r va : r ∈ roots → slot (k_mem (freed pa s)) r va = slot (k_mem s) r va.
Proof.
  destruct Hpa as (Hram & Hnf & Hnt). intros Hr.
  eapply slot_frame; [apply Hok|apply freed_same_but|apply Hram| |done].
  intros r' q t _ Ht ->. apply Hnt. by exists r', q.
Qed.

Lemma freed_leaf r va : r ∈ roots → leaf (k_mem (freed pa s)) r va = leaf (k_mem s) r va.
Proof.
  destruct Hpa as (Hram & Hnf & Hnt). intros Hr.
  by eapply leaf_frame; [apply Hok|apply freed_same_but|apply Hram|..].
Qed.

Lemma freed_page pg : pg mod PGSIZE = 0 → pg ≠ pa → same_page (k_mem s) (k_mem (freed pa s)) pg.
Proof.
  intros Hpg Hne a Ha. apply freed_same_but. destruct Hpa as ([_ Ap] & _).
  destruct (page_disjoint pg pa Hpg Ap Hne); lia.
Qed.
End freeing.

(** ** Keeping the counts *)
Section keep.
Context {kend : Z} (Hk : KERNBASE <= kend) {free roots : list Z} {s : kstate}.
Context (Hok : vm_ok kend free roots s).

Lemma fn_not_free pa : ram_page kend pa → pa ∉ free → fn pa ∉ (fn <$> free).
Proof.
  intros Hpa Hnf (q & E & Hq)%list_elem_of_fmap. apply Hnf.
  rewrite (fn_inj Hk pa q); try done. by apply (vm_kmem _ _ _ _ Hok).
Qed.

(** A change of the tables keeps the counts if the counted mappings stay. *)
Lemma refs_touch free' Mp s' : refs_inv kend free roots Mp s → touches roots free free' s s' →
  (∀ k pa, Mp !! k = Some pa → entry_ok (k_mem s') roots k pa) →
  refs_inv kend free' roots Mp s'.
Proof.
  intros [He Hp Hc] T He'. destruct (tc_free _ _ _ _ _ T) as [used Hu]. split; [done|..].
  - intros k pa Hin. destruct (Hp k pa Hin) as (Hr & Hnf & Hnt). split_and!; [done|set_solver|].
    by intros [?|?]%(tc_table _ _ _ _ _ T).
  - intros k pa Hin. destruct (Hp k pa Hin) as (Hr & Hnf & Hnt).
    rewrite (tc_fr _ _ _ _ _ T); [by eapply Hc|by apply fn_not_free].
Qed.

(** The mapping is the same if its leaf is. *)
Lemma entry_leaf m m' k pa : entry_ok m roots k pa →
  leaf m' k.1 (k.2 * PGSIZE) = leaf m k.1 (k.2 * PGSIZE) → entry_ok m' roots k pa.
Proof. intros [H1 H2 H3 H4 H5 H6] E. by split; rewrite ?E. Qed.

(** Dropping one of several references. *)
Lemma dropped_ok pa : user_page kend free roots (k_mem s) pa → ∀ n,
  vm_ok kend free roots (set_fr (fupd (fr s) (fn pa) n) s).
Proof.
  intros (Hr & Hnf & Hnt) n. destruct Hok as [[Hc Hd Hra Hf] Hpt]. split; [|done].
  split; simpl; try done. intros q Hq. rewrite fupd_ne; [by apply Hf|].
  intros E%(fn_inj Hk); [by subst|by apply Hra|done].
Qed.
End keep.

(** What unmapping the page [k] of [Mp] with [do_free] leads to. *)
Record unmapped (kend : Z) (free free' roots : list Z) (Mp : mappings) (k : Z * Z) (pa : Z)
    (s s' : kstate) : Prop := {
  um_ok : vm_ok kend free' roots s';
  um_refs : refs_inv kend free' roots (delete k Mp) s';
  um_hart : k_hart s' = k_hart s;
  um_lock : lock_kalloc s' = lock_kalloc s;
  um_free : free' = if decide (counted (delete k Mp) pa = 0%nat) then pa :: free else free;
  um_leaf : ∀ r va, r ∈ roots → va_ok va → leaf (k_mem s') r va =
    if decide (r = k.1 ∧ va / PGSIZE = k.2) then 0 else leaf (k_mem s) r va;
  um_slot : ∀ r va, r ∈ roots → slot (k_mem s') r va = slot (k_mem s) r va;
  um_table : ∀ t, is_table (k_mem s') roots t → is_table (k_mem s) roots t;
  um_page : ∀ pg, pg mod PGSIZE = 0 → ¬ is_table (k_mem s) roots pg → pg ∉ free' →
    same_page (k_mem s) (k_mem s') pg;
}.

Section unmap.
Context {kend : Z} (Hk : KERNBASE <= kend) {roots : list Z}.

(** The state in which the page has lost its reference, before the PTE is cleared. *)
Definition unref (pa : Z) (s : kstate) : kstate :=
  if 1 <? fr s (fn pa) then set_fr (fupd (fr s) (fn pa) (fr s (fn pa) - 1)) s else freed pa s.

Lemma kfree_unref s pa : unlocked s → ram_page kend pa → fr s (fn pa) < 2 ^ 31 →
  kfree kend pa s = (Ret tt, unref pa s).
Proof.
  intros Hu Hp Hlt. unfold unref. destruct (Z.ltb_spec 1 (fr s (fn pa))).
  - by apply kfree_shared; [..|lia].
  - by apply kfree_last.
Qed.

Context {free : list Z} {s : kstate} {Mp : mappings} {k : Z * Z} {pa a : Z}.
Context (Hok : vm_ok kend free roots s) (Hrf : refs_inv kend free roots Mp s).
Context (Hin : Mp !! k = Some pa) (Hslot : slot (k_mem s) k.1 (k.2 * PGSIZE) = Some a).

Let free' := if decide (counted (delete k Mp) pa = 0%nat) then pa :: free else free.
Let Huser : user_page kend free roots (k_mem s) pa := rf_page _ _ _ _ _ Hrf k pa Hin.
Let Hent : entry_ok (k_mem s) roots k pa := rf_entry _ _ _ _ _ Hrf k pa Hin.

Lemma unref_cases :
  (counted (delete k Mp) pa = 0%nat ∧ unref pa s = freed pa s ∧ free' = pa :: free) ∨
  ((0 < counted (delete k Mp) pa)%nat ∧
   unref pa s = set_fr (fupd (fr s) (fn pa) (fr s (fn pa) - 1)) s ∧ free' = free).
Proof.
  unfold unref, free'. rewrite (rf_count _ _ _ _ _ Hrf k pa Hin).
  rewrite (counted_delete Mp k pa) by done. rewrite decide_True by done.
  destruct (decide _) as [E|E]; [left|right].
  - rewrite E. by rewrite (proj2 (Z.ltb_ge _ _)) by lia.
  - split_and!; [lia| |done]. by rewrite (proj2 (Z.ltb_lt _ _)) by lia.
Qed.

Lemma unref_ok : vm_ok kend free' roots (unref pa s) ∧
  (∀ r va, r ∈ roots → slot (k_mem (unref pa s)) r va = slot (k_mem s) r va) ∧
  (∀ r va, r ∈ roots → leaf (k_mem (unref pa s)) r va = leaf (k_mem s) r va) ∧
  (∀ t, is_table (k_mem (unref pa s)) roots t → is_table (k_mem s) roots t) ∧
  (∀ pg, pg mod PGSIZE = 0 → pg ∉ free' → same_page (k_mem s) (k_mem (unref pa s)) pg) ∧
  k_hart (unref pa s) = k_hart s ∧ lock_kalloc (unref pa s) = lock_kalloc s.
Proof.
  destruct unref_cases as [(E & -> & Ef)|(E & -> & Ef)]; rewrite Ef.
  - split_and!; [by apply freed_ok|by intros; apply (freed_slot Hok Huser)
      |by intros; apply (freed_leaf Hok Huser)| | |done|done].
    + intros t. eapply is_table_frame; [done|apply freed_same_but|apply Huser|apply Huser].
    + intros pg Hpg Hnf. eapply freed_page; [done|done|set_solver].
  - split_and!; try done. by apply dropped_ok.
Qed.

(** The other counted mappings are of other pages, or of [pa] with one less. *)
Lemma unref_count k' pa' : delete k Mp !! k' = Some pa' →
  fr (unref pa s) (fn pa') = Z.of_nat (counted (delete k Mp) pa') ∧ pa' ∉ free'.
Proof.
  intros Hk'. pose proof Hk' as [Hne Hk'']%lookup_delete_Some.
  pose proof (rf_count _ _ _ _ _ Hrf k' pa' Hk'') as Hc.
  destruct (rf_page _ _ _ _ _ Hrf k' pa' Hk'') as (Hr' & Hnf & _).
  rewrite (counted_delete Mp k pa) in Hc by done.
  destruct (decide (pa = pa')) as [<-|Hpa].
  - destruct unref_cases as [(E & _)|(E & -> & ->)]; [apply counted_pos in Hk'; lia|].
    simpl. rewrite fupd_eq, Hc. split; [lia|done].
  - assert (fn pa' ≠ fn pa) as Hfn.
    { intros E%(fn_inj Hk); [by subst|done|apply Huser]. }
    destruct unref_cases as [(E & -> & ->)|(E & -> & ->)]; simpl; rewrite fupd_ne by done;
      (split; [lia|set_solver]).
Qed.

Lemma vpn_page va : va / PGSIZE = (k.2 * PGSIZE) / PGSIZE ↔ va / PGSIZE = k.2.
Proof. unfold PGSIZE. by rewrite Z.div_mul by done. Qed.

Lemma unmapped_step : unmapped kend free free' roots Mp k pa s (wrote (s := unref pa s) (a := a) 0).
Proof.
  destruct unref_ok as (Hok' & Hs & HL & Ht & Hpg & Hh & Hlk).
  pose proof (en_root _ _ _ _ Hent) as Hr. pose proof (en_va _ _ _ _ Hent) as Hva.
  assert (slot (k_mem (unref pa s)) k.1 (k.2 * PGSIZE) = Some a) as Hsl by (by rewrite Hs).
  assert (∀ r va, r ∈ roots → va_ok va → leaf (k_mem (wrote (s := unref pa s) (a := a) 0)) r va =
    if decide (r = k.1 ∧ va / PGSIZE = k.2) then 0 else leaf (k_mem s) r va) as HLw.
  { intros r va Hr' Hva'. rewrite (wrote_leaf Hok' Hr Hva Hsl) by done. rewrite HL by done.
    apply decide_ext. by rewrite vpn_page. }
  split; try done.
  - by eapply wrote_ok.
  - split.
    + intros k' pa' Hk'. pose proof Hk' as [Hne Hk'']%lookup_delete_Some.
      pose proof (rf_entry _ _ _ _ _ Hrf k' pa' Hk'') as He.
      eapply entry_leaf; [done|]. rewrite HLw by apply He. apply decide_False.
      unfold PGSIZE. rewrite Z.div_mul by done. intros [E1 E2]. apply Hne.
      rewrite (surjective_pairing k), (surjective_pairing k'). by f_equal.
    + intros k' pa' Hk'. pose proof Hk' as [Hne Hk'']%lookup_delete_Some.
      destruct (rf_page _ _ _ _ _ Hrf k' pa' Hk'') as (Hram & Hnf & Hnt).
      split_and!; [done|by eapply unref_count|].
      intros Htb%(wrote_table Hok' Hr Hsl). by apply Hnt, Ht.
    + intros k' pa' Hk'. by apply unref_count with k'.
  - intros r va Hr'. rewrite (wrote_slot Hok' Hr Hsl) by done. by apply Hs.
  - intros t Htb%(wrote_table Hok' Hr Hsl). by apply Ht.
  - intros pg Hpg' Hnt Hnf x Hx.
    rewrite (tc_page _ _ _ _ _ (wrote_touches Hok' Hr Hsl 0) pg); try done; [by apply (Hpg pg)|].
    intros Htb. by apply Hnt, Ht.
Qed.

Lemma kfree_entry : unlocked s → Z.of_nat (size Mp) < 2 ^ 31 →
  kfree kend pa s = (Ret tt, unref pa s).
Proof.
  intros Hu Hsz. apply kfree_unref; [done|apply Huser|].
  rewrite (rf_count _ _ _ _ _ Hrf k pa Hin). pose proof (counted_le Mp pa). lia.
Qed.
End unmap.

(** The pages [v .. v + n) of the address space [r], as keys. *)
Definition vkeys (r v : Z) (n : nat) : list (Z * Z) := (λ i, (r, v + Z.of_nat i)) <$> seq 0 n.

Lemma vkeys_S r v n : vkeys r v (S n) = (r, v) :: vkeys r (v + 1) n.
Proof.
  unfold vkeys. simpl. f_equal; [f_equal; lia|].
  rewrite <-fmap_S_seq, <-list_fmap_compose. apply list_fmap_ext. intros i x _. simpl. f_equal. lia.
Qed.

Lemma elem_of_vkeys r v n k : k ∈ vkeys r v n ↔ k.1 = r ∧ v <= k.2 < v + Z.of_nat n.
Proof.
  unfold vkeys. rewrite list_elem_of_fmap. split.
  - intros (i & -> & Hi%elem_of_seq). simpl. lia.
  - intros [<- Hk]. exists (Z.to_nat (k.2 - v)). split; [|apply elem_of_seq; lia].
    rewrite (surjective_pairing k) at 1. f_equal. lia.
Qed.

(** [Mp] without the pages [ks]. *)
Definition delete_keys (ks : list (Z * Z)) (Mp : mappings) : mappings := foldl (λ M k, delete k M) Mp ks.

Lemma entry_slot m roots k pa : entry_ok m roots k pa → ∃ a, slot m k.1 (k.2 * PGSIZE) = Some a ∧
  load64 m a = leaf m k.1 (k.2 * PGSIZE).
Proof.
  intros [_ _ _ HV _ _]. unfold leaf in *.
  destruct (slot m k.1 (k.2 * PGSIZE)) as [a|]; [by exists a|]. by vm_compute in HV.
Qed.

Lemma delete_keys_lookup ks Mp k : delete_keys ks Mp !! k = if decide (k ∈ ks) then None else Mp !! k.
Proof.
  unfold delete_keys. revert Mp. induction ks as [|k' ks IH]; intros Mp.
  { by rewrite decide_False by apply not_elem_of_nil. }
  cbn [foldl]. rewrite IH. destruct (decide (k ∈ ks)) as [D|D].
  - by rewrite decide_True by (by apply list_elem_of_further).
  - destruct (decide (k = k')) as [->|Hne].
    + by rewrite lookup_delete_eq, decide_True by apply list_elem_of_here.
    + by rewrite lookup_delete_ne, decide_False by set_solver.
Qed.

Section uvmunmap.
Context {kend : Z} (Hk : KERNBASE <= kend) {roots : list Z}.

(** One round of the loop on a mapped page. *)
Lemma uvmunmap_loop_S fuel r va bound do_free s a pte : va < bound → va_ok va →
  slot (k_mem s) r va = Some a → a ≠ 0 → load64 (k_mem s) a = pte →
  has pte PTE_V = true → PTE_FLAGS pte ≠ PTE_V →
  uvmunmap_loop kend (S fuel) r va bound do_free s =
  (when do_free (kfree kend (PTE2PA pte)) ;;; wr64 a 0 ;;;
   uvmunmap_loop kend fuel r (u64 (va + PGSIZE)) bound do_free) s.
Proof.
  intros Hlt Hva Hs Ha Hp HV Hl. simpl. rewrite (proj2 (Z.ltb_lt _ _)) by done.
  rewrite (bind_Ret _ _ _ _ _ (walk_slot s r va a false (proj2 Hva) Hs)).
  rewrite (proj2 (Z.eqb_neq a 0)) by done. unfold bind at 1, rd64, gets. rewrite Hp, HV. simpl.
  by rewrite (proj2 (Z.eqb_neq _ _)) by done.
Qed.

Lemma uvmunmap_loop_free n : ∀ free s Mp r v,
  vm_ok kend free roots s → refs_inv kend free roots Mp s → unlocked s →
  Z.of_nat (size Mp) < 2 ^ 31 → 0 <= v → (v + Z.of_nat n) * PGSIZE <= MAXVA →
  (∀ k, k ∈ vkeys r v n → is_Some (Mp !! k)) →
  ∃ s' free', uvmunmap_loop kend n r (v * PGSIZE) ((v + Z.of_nat n) * PGSIZE) true s = (Ret tt, s') ∧
    vm_ok kend free' roots s' ∧ refs_inv kend free' roots (delete_keys (vkeys r v n) Mp) s' ∧
    k_hart s' = k_hart s ∧ lock_kalloc s' = lock_kalloc s ∧
    (∀ q, q ∈ free → q ∈ free') ∧
    (∀ r' va, r' ∈ roots → va_ok va → leaf (k_mem s') r' va =
       if decide (r' = r ∧ v <= va / PGSIZE < v + Z.of_nat n) then 0 else leaf (k_mem s) r' va) ∧
    (∀ pg, pg mod PGSIZE = 0 → ¬ is_table (k_mem s) roots pg → pg ∉ free' →
       same_page (k_mem s) (k_mem s') pg).
Proof.
  induction n as [|n IH]; intros free s Mp r v Hok Hrf Hu Hsz Hv Hmax Hall.
  { exists s, free. simpl. split_and!; try done.
    intros r' va _ _. by rewrite decide_False by lia. }
  rewrite vkeys_S in *. destruct (Hall (r, v)) as [pa Hin]; [apply list_elem_of_here|].
  pose proof (rf_entry _ _ _ _ _ Hrf _ _ Hin) as He.
  destruct (entry_slot _ _ _ _ He) as (a & Hs & Hld).
  assert (a ≠ 0) as Ha0.
  { exact (slot_nonzero (vm_pt _ _ _ _ Hok) (en_root _ _ _ _ He) Hs Hk). }
  pose proof (unmapped_step Hk Hok Hrf Hin Hs) as U. simpl in Hs, Hld.
  set (s1 := wrote 0) in U. set (f1 := if decide _ then _ else _) in U.
  destruct (IH f1 s1 (delete (r, v) Mp) r (v + 1)) as (s' & free' & R & Hok' & Hrf' & Hh & Hl & Hf & HL & Hp).
  - apply U. - apply U.
  - unfold unlocked. by rewrite (um_hart _ _ _ _ _ _ _ _ _ U).
  - rewrite map_size_delete_Some by done. lia.
  - lia. - unfold PGSIZE in *. lia.
  - intros k Hk'. rewrite lookup_delete_ne; [by apply Hall, list_elem_of_further|].
    intros <-. apply elem_of_vkeys in Hk'. simpl in Hk'. lia.
  - exists s', free'. split_and!; try done.
    + erewrite uvmunmap_loop_S; [|unfold PGSIZE; lia|apply He|done|done|exact Hld|apply He|apply He].
      rewrite (en_pa _ _ _ _ He : PTE2PA (leaf (k_mem s) r (v * PGSIZE)) = pa). simpl.
      rewrite (bind_Ret _ _ _ _ _ (kfree_entry Hrf Hin Hu Hsz)).
      rewrite (bind_Ret _ _ _ _ _ (eq_refl : wr64 a 0 (unref pa s) = (Ret tt, s1))).
      rewrite u64_id by (change MAXVA with 274877906944 in *; unfold PGSIZE in *; lia).
      replace (v * PGSIZE + PGSIZE) with ((v + 1) * PGSIZE) by lia.
      by replace (v + Z.of_nat (S n)) with (v + 1 + Z.of_nat n) by lia.
    + by rewrite Hh, (um_hart _ _ _ _ _ _ _ _ _ U).
    + by rewrite Hl, (um_lock _ _ _ _ _ _ _ _ _ U).
    + intros q Hq. apply Hf. unfold f1. case_decide; set_solver.
    + intros r' va Hr' Hva. rewrite HL, (um_leaf _ _ _ _ _ _ _ _ _ U) by done. simpl.
      destruct (decide (r' = r)) as [->|]; [|by rewrite !decide_False by naive_solver].
      repeat case_decide; try done; lia.
    + intros pg Hpg Hnt Hnf x Hx. rewrite (Hp pg); [|done| |done|done].
      * apply (um_page _ _ _ _ _ _ _ _ _ U pg); [done|done| |done].
        intros ?. by apply Hnf, Hf.
      * intros Ht%(um_table _ _ _ _ _ _ _ _ _ U). done.
Qed.

Lemma uvmunmap_pages r v n do_free s : 0 <= v → (v + Z.of_nat n) * PGSIZE <= MAXVA →
  uvmunmap kend r (v * PGSIZE) (Z.of_nat n) do_free s =
  uvmunmap_loop kend n r (v * PGSIZE) ((v + Z.of_nat n) * PGSIZE) do_free s.
Proof.
  intros Hv Hmax. unfold uvmunmap. unfold PGSIZE at 1. rewrite Z.mod_mul by done. simpl.
  rewrite Nat2Z.id, u64_id by (change MAXVA with 274877906944 in *; unfold PGSIZE in *; lia).
  by rewrite <-Z.mul_add_distr_r.
Qed.

End uvmunmap.
