(* ===== verification/Cow.v ===== *)
(** * Copy-on-write: [uvmcopy] of [kernel/vm.c] and [handleCOW] of [kernel/trap.c]

    [fork] shares the parent's pages through [uvmcopy]: both PTEs lose [PTE_W]
    and get [PTE_COW], and the page gains a reference.  The store page fault of
    [usertrap] goes to [handleCOW], which gives the faulting process its own
    writable page.  The theorems say who sees which page, and that the reference
    counts stay those of the mappings. *)
From S2P Require Import Prelude Machine Cstring Spinlock Kalloc Vm VmMap VmSpec VmRefs.

(** ** [handleCOW]

    [*pte] is read before [pte == 0] is tested: the kernel maps nothing at
    address 0, so a missing PTE ends in the panic of [kerneltrap]. *)
Section handleCOW.
Context (kend : Z).

Definition handleCOW (pagetable va : Z) : M kstate Z :=
  if MAXVA <=? va then ret 1 else
  let va := PGROUNDDOWN va in
  pte <- walk pagetable va false ;;
  if pte =? 0 then panic "kerneltrap" else
  v <- rd64 pte ;;
  let pa := PTE2PA v in
  let flags := PTE_FLAGS v in
  if (va =? 0) || negb (has flags PTE_COW) || (pte =? 0) ||
     negb (has flags PTE_V) || negb (has flags PTE_U) then ret 1 else
  memref_lock ;;;
  memref_unlock_kalloc ;;;
  let flags := Z.lor (Z.land flags (not64 PTE_COW)) PTE_W in
  fq <- memref_get pa ;;
  if fq =? 1 then
    v <- rd64 pte ;;
    wr64 pte (Z.lor (Z.land v (not64 PTE_COW)) PTE_W) ;;;
    memref_lock_kalloc ;;;
    memref_unlock ;;;
    ret 0
  else
    mem <- kalloc ;;
    if mem =? 0 then memref_unlock ;;; ret 1
    else
      modify (λ s, set_mem (memmove (k_mem s) mem pa PGSIZE) s) ;;;
      uvmunmap kend pagetable va 1 false ;;;
      r <- mappages pagetable va PGSIZE mem flags ;;
      if negb (r =? 0) then
        kfree kend mem ;;;
        memref_unlock ;;;
        ret 1
      else
        memref_set pa (i32 (fq - 1)) ;;;
        memref_lock_kalloc ;;;
        memref_unlock ;;;
        ret 0.
End handleCOW.

(** ** Bits of shared PTEs *)

(** What [uvmcopy] makes of a PTE, and of its flags. *)
Definition cow_pte (p : Z) : Z := Z.lor (Z.land p (not64 PTE_W)) PTE_COW.
(** What [handleCOW] makes of a PTE, and of its flags. *)
Definition own_pte (p : Z) : Z := Z.lor (Z.land p (not64 PTE_COW)) PTE_W.

Lemma pow2_testbit j k : 0 <= j → Z.testbit (Z.shiftl 1 j) k = bool_decide (j = k).
Proof.
  intros Hj. rewrite Z.shiftl_1_l, Z.pow2_bits_eqb by done.
  destruct (Z.eqb_spec j k); [by rewrite bool_decide_true|by rewrite bool_decide_false].
Qed.

Lemma testbit_cow p k : 0 <= p < 2 ^ 64 →
  Z.testbit (cow_pte p) k = Z.testbit p k && negb (bool_decide (2 = k)) || bool_decide (9 = k).
Proof.
  intros Hp. unfold cow_pte, PTE_W, PTE_COW. by rewrite testbit_clear_set, !pow2_testbit by done.
Qed.

Lemma testbit_own p k : 0 <= p < 2 ^ 64 →
  Z.testbit (own_pte p) k = Z.testbit p k && negb (bool_decide (9 = k)) || bool_decide (2 = k).
Proof.
  intros Hp. unfold own_pte, PTE_W, PTE_COW. by rewrite testbit_clear_set, !pow2_testbit by done.
Qed.

Lemma flags_range p : 0 <= PTE_FLAGS p < 1024.
Proof.
  unfold PTE_FLAGS. change 0x3FF with (Z.ones 10). rewrite Z.land_ones by done.
  by apply Z.mod_pos_bound.
Qed.
Lemma flags_range64 p : 0 <= PTE_FLAGS p < 2 ^ 64.
Proof. pose proof (flags_range p). lia. Qed.

(** Flags below bit 10 stay below bit 10. *)
Lemma clear_set_flags f c s : 0 <= f < 1024 → 0 <= s < 1024 →
  0 <= Z.lor (Z.land f (not64 c)) s < 1024.
Proof.
  intros Hf Hs. change 1024 with (2 ^ 10) in *. apply lor_range; [done| |done].
  rewrite land_not64 by lia.
  replace (Z.ldiff f c) with (Z.ldiff f c mod 2 ^ 10); [by apply Z.mod_pos_bound|].
  apply Z.bits_inj'. intros k Hk. destruct (Z.lt_ge_cases k 10).
  - by rewrite Z.mod_pow2_bits_low.
  - rewrite Z.mod_pow2_bits_high, Z.ldiff_spec by lia.
    by rewrite <-(Z.mod_small f (2 ^ 10)), Z.mod_pow2_bits_high by lia.
Qed.

Section bits.
Context (p : Z) (Hp : 0 <= p < 2 ^ 64).

Lemma cow_V : has (cow_pte p) PTE_V = has p PTE_V.
Proof. rewrite !has_V, testbit_cow by done. by rewrite andb_true_r, orb_false_r. Qed.
Lemma cow_pa : PTE2PA (cow_pte p) = PTE2PA p.
Proof.
  apply PTE2PA_ext. intros k Hk. rewrite testbit_cow by done.
  rewrite !bool_decide_false by lia. by rewrite andb_true_r, orb_false_r.
Qed.
Lemma cow_not_V : PTE_FLAGS (cow_pte p) ≠ PTE_V.
Proof.
  intros E. apply (f_equal (λ x, Z.testbit x 9)) in E. rewrite testbit_flags, testbit_cow in E by done.
  by rewrite orb_true_r in E.
Qed.
Lemma cow_range : 0 <= cow_pte p < 2 ^ 64.
Proof. by apply clear_set_range. Qed.
End bits.

(** Reading back a PTE made by [mappages]. *)
Section mk_pte.
Context {pa f : Z} (Hpa : is_page pa) (Hf : 0 <= f < 1024).

Lemma mk_pte_flags_range : 0 <= Z.lor f PTE_V < 1024.
Proof. by apply (lor_range _ _ 10). Qed.
Lemma mk_pte_pa : PTE2PA (mk_pte pa f) = pa.
Proof. unfold mk_pte. rewrite <-Z.lor_assoc. apply PTE2PA_mk; [done|apply mk_pte_flags_range]. Qed.
Lemma mk_pte_flags : PTE_FLAGS (mk_pte pa f) = Z.lor f PTE_V.
Proof. unfold mk_pte. rewrite <-Z.lor_assoc. apply PTE_FLAGS_mk; [done|apply mk_pte_flags_range]. Qed.
Lemma mk_pte_V : has (mk_pte pa f) PTE_V = true.
Proof. rewrite has_V. unfold mk_pte. by rewrite Z.lor_spec, orb_true_r. Qed.
Lemma mk_pte_bit k : 0 <= k < 10 → Z.testbit (mk_pte pa f) k = Z.testbit f k || bool_decide (0 = k).
Proof.
  intros Hk. rewrite <-testbit_flags, mk_pte_flags, Z.lor_spec by done.
  by unfold PTE_V; rewrite pow2_testbit.
Qed.
Lemma mk_pte_not_V k : 0 < k < 10 → Z.testbit f k = true → PTE_FLAGS (mk_pte pa f) ≠ PTE_V.
Proof.
  intros Hk Hb E. apply (f_equal (λ x, Z.testbit x k)) in E.
  rewrite mk_pte_flags, Z.lor_spec, Hb in E. unfold PTE_V in E.
  rewrite pow2_testbit, bool_decide_false in E by lia. done.
Qed.
End mk_pte.

Lemma map_range_0 L r a pa perm r' va : map_range L r a 0 pa perm r' va = L r' va.
Proof. unfold map_range. by rewrite decide_False by lia. Qed.

(** A new mapping of the page [pa], counted. *)
Lemma count_entry {kend free roots} (Hk : KERNBASE <= kend) Mp s k pa q :
  refs_inv kend free roots Mp s → user_page kend free roots (k_mem s) pa →
  Mp !! k = None → entry_ok (k_mem s) roots k pa →
  fr s (fn pa) = Z.of_nat (counted Mp pa) → q = fr s (fn pa) + 1 →
  refs_inv kend free roots (<[k := pa]> Mp) (set_fr (fupd (fr s) (fn pa) q) s).
Proof.
  intros Hrf Hpg Hnew He Hc ->. split; simpl.
  - intros k' pa' [[<- <-]|[_ Hk']]%lookup_insert_Some; [done|by apply Hrf].
  - intros k' pa' [[<- <-]|[_ Hk']]%lookup_insert_Some; [done|].
    by apply (rf_page _ _ _ _ _ Hrf _ _ Hk').
  - intros k' pa' Hk'. rewrite counted_insert by done.
    destruct (decide (pa = pa')) as [<-|Hne]; [rewrite fupd_eq; lia|].
    apply lookup_insert_Some in Hk' as [[_ ?]|[_ Hk']]; [done|].
    rewrite fupd_ne, (rf_count _ _ _ _ _ Hrf _ _ Hk'); [lia|].
    intros E%(fn_inj Hk); [by subst|by apply (rf_page _ _ _ _ _ Hrf _ _ Hk')|apply Hpg].
Qed.

(** ** Sharing one page *)
Section share_one.
Context {kend : Z} (Hk : KERNBASE <= kend) {roots : list Z}.

(** A one-page [mappages] is one round of its loop. *)
Lemma mappages_single r a pa perm s : va_ok a → a mod PGSIZE = 0 →
  mappages r a PGSIZE pa perm s = mappages_loop 2 r a a pa perm s.
Proof.
  unfold mappages, va_ok in *. change MAXVA with 274877906944 in *. unfold PGSIZE in *. intros Hva Ha.
  change (4096 =? 0) with false. cbv zeta iota. rewrite u64_id by lia. rewrite !PGROUNDDOWN_spec by lia.
  replace (4096 * (a / 4096)) with a by zdiv. replace (4096 * ((a + 4096 - 1) / 4096)) with a by zdiv.
  rewrite Z.leb_refl. by rewrite Z.sub_diag.
Qed.

Lemma mappages_slot r va a pa perm s : va_ok va → va mod PGSIZE = 0 →
  slot (k_mem s) r va = Some a → a ≠ 0 → has (load64 (k_mem s) a) PTE_V = false →
  mappages r va PGSIZE pa perm s = (Ret 0, wrote (s := s) (a := a) (mk_pte pa perm)).
Proof.
  intros Hva Ha Hs Ha0 Hn. rewrite mappages_single by done. cbn [mappages_loop].
  rewrite (bind_Ret _ _ _ _ _ (walk_slot s r va a true (proj2 Hva) Hs)).
  rewrite (proj2 (Z.eqb_neq a 0)) by done. unfold rd64, bind, gets, wr64, modify.
  by rewrite Hn, Z.eqb_refl.
Qed.

(** [mappages] of a single page. *)
Lemma mappages_page free s r a pa perm : r ∈ roots → vm_ok kend free roots s → can_kalloc s →
  va_ok a → a mod PGSIZE = 0 → is_page pa → 0 <= perm < 1024 →
  has (leaf (k_mem s) r a) PTE_V = false →
  ∃ ok s' free', mappages r a PGSIZE pa perm s = (Ret (if ok : bool then 0 else -1), s') ∧
    touches roots free free' s s' ∧ vm_ok kend free' roots s' ∧
    (∀ r' va, r' ∈ roots → va_ok va → leaf (k_mem s') r' va =
       map_range (leaf (k_mem s)) r a (if ok then 1 else 0) pa perm r' va) ∧
    ((2 <= length free)%nat → ok = true) ∧ (length free <= length free' + 2)%nat.
Proof.
  intros Hr Hok Hc Hva Ha Hpa Hp Hn.
  destruct (map_one Hk Hr free s a pa perm Hok Hc Hva Ha Hpa Hp Hn) as (v & s1 & f1 & R & T & K & H).
  rewrite mappages_single by done.
  cbn [mappages_loop]. rewrite (bind_Ret _ _ _ _ _ R).
  destruct H as [(-> & Hf & HL)|(Hv & Hf & Hnv & T' & K' & HL)].
  - exists false, s1, f1. split_and!; try done; [|lia..].
    intros r' va Hr' Hva'. rewrite HL by done. unfold map_range. by rewrite decide_False by lia.
  - rewrite (proj2 (Z.eqb_neq v 0)) by done. unfold rd64, bind, gets, wr64, modify.
    rewrite Hnv, Z.eqb_refl. fold (mk_pte pa perm). by eexists true, _, f1.
Qed.

Context {free : list Z} {s : kstate} {Mp : mappings} {old v pa a : Z}.
Context (Hok : vm_ok kend free roots s) (Hrf : refs_inv kend free roots Mp s).
Context (Hin : Mp !! (old, v) = Some pa) (Hslot : slot (k_mem s) old (v * PGSIZE) = Some a).

Let Hent : entry_ok (k_mem s) roots (old, v) pa := rf_entry _ _ _ _ _ Hrf (old, v) pa Hin.
Let p := leaf (k_mem s) old (v * PGSIZE).

(** A write to the PTE of a counted mapping that keeps the page keeps the counts. *)
Lemma rewrite_entry q : 0 <= q < 2 ^ 64 → has q PTE_V = true → PTE_FLAGS q ≠ PTE_V →
  PTE2PA q = pa → refs_inv kend free roots Mp (wrote (s := s) (a := a) q).
Proof.
  intros Hq HV Hl Hqa. pose proof (en_root _ _ _ _ Hent) as Hr. pose proof (en_va _ _ _ _ Hent) as Hva.
  eapply (refs_touch Hk Hok); [done|exact (wrote_touches Hok Hr Hslot q)|].
  intros k' pa' Hk'. pose proof (rf_entry _ _ _ _ _ Hrf k' pa' Hk') as He.
  pose proof (wrote_leaf Hok Hr Hva Hslot q k'.1 (k'.2 * PGSIZE) Hq (en_root _ _ _ _ He)
    (en_va _ _ _ _ He)) as HL. simpl in HL.
  case_decide as D; [|by eapply entry_leaf].
  destruct D as [D1 D2]. unfold PGSIZE in D2. rewrite !Z.div_mul in D2 by done.
  assert (k' = (old, v)) as -> by (rewrite (surjective_pairing k'); by f_equal). simplify_eq/=.
  by split; simpl; rewrite ?HL.
Qed.

(** The parent's PTE: shared from now on. *)
Lemma cow_parent : refs_inv kend free roots Mp (wrote (s := s) (a := a) (cow_pte p)).
Proof.
  pose proof (en_range _ _ _ _ Hent) as Hp. simpl in Hp. fold p in Hp.
  apply rewrite_entry.
  - by apply cow_range.
  - rewrite cow_V by done. apply (en_V _ _ _ _ Hent).
  - by apply cow_not_V.
  - rewrite cow_pa by done. apply (en_pa _ _ _ _ Hent).
Qed.

End share_one.

(** The counting of a new reference, as [uvmcopy] does it. *)
Lemma memref_incr {A} pa (k : M kstate A) s : unlocked s → fr s (fn pa) + 1 < 2 ^ 31 →
  0 <= fr s (fn pa) →
  (memref_lock ;;; fq <- memref_get pa ;; memref_set pa (i32 (fq + 1)) ;;; memref_unlock ;;; k) s =
  k (set_fr (fupd (fr s) (fn pa) (fr s (fn pa) + 1)) s).
Proof.
  intros (Ho & _ & Hm) Hlt H0.
  cut ((memref_lock ;;; fq <- memref_get pa ;; memref_set pa (i32 (fq + 1)) ;;; memref_unlock) s =
       (Ret tt, set_fr (fupd (fr s) (fn pa) (fr s (fn pa) + 1)) s)).
  { unfold bind. repeat case_match; intros; by simplify_eq. }
  apply wp_eq. unfold memref_lock, memref_unlock, memref_get, memref_set.
  wp_step. apply (wp_acquire hartL); [done..|]. wp_steps.
  eapply (wp_release hartL); [done..|]. split; [done|]. simpl. rewrite i32_id by lia. by destruct s.
Qed.

(** ** [uvmcopy] *)

(** The mappings with the pages [vs] of [old] also mapped in [new]. *)
Definition share (old new : Z) (vs : list Z) (Mp : mappings) : mappings :=
  foldl (λ M v, match M !! (old, v) with Some pa => <[(new, v) := pa]> M | None => M end) Mp vs.

(** The leaves after sharing the pages [v, v + m) of [old] with [new]. *)
Definition cow_leaf (L : Z → Z → Z) (old new v m r va : Z) : Z :=
  if decide (r = old ∧ v <= va / PGSIZE < v + m) then cow_pte (L old va)
  else if decide (r = new ∧ v <= va / PGSIZE < v + m)
  then mk_pte (PTE2PA (L old va)) (cow_pte (PTE_FLAGS (L old va)))
  else L r va.

Section uvmcopy.
Context {kend : Z} (Hk : KERNBASE <= kend) {roots : list Z} {old new : Z}.
Context (Hold : old ∈ roots) (Hnew : new ∈ roots) (Hne : old ≠ new).

(** One page shared, or [mappages] failing for lack of memory. *)
Record shared_one (free free' : list Z) (Mp : mappings) (v pa : Z) (ok : bool) (s s' : kstate) : Prop := {
  so_ok : vm_ok kend free' roots s';
  so_refs : refs_inv kend free' roots (if ok then <[(new, v) := pa]> Mp else Mp) s';
  so_hart : k_hart s' = k_hart s;
  so_lock : lock_kalloc s' = lock_kalloc s;
  so_free : ∃ used, free = used ++ free';
  so_leaf : ∀ r va, r ∈ roots → va_ok va → leaf (k_mem s') r va =
    if ok then cow_leaf (leaf (k_mem s)) old new v 1 r va
    else if decide (r = old ∧ va / PGSIZE = v) then cow_pte (leaf (k_mem s) old va)
    else leaf (k_mem s) r va;
  so_table : ∀ t, is_table (k_mem s') roots t → is_table (k_mem s) roots t ∨ t ∈ free;
  so_page : ∀ pg, pg mod PGSIZE = 0 → ¬ is_table (k_mem s) roots pg → pg ∉ free →
    same_page (k_mem s) (k_mem s') pg;
}.

Section step.
Context {free : list Z} {s : kstate} {Mp : mappings} {v pa : Z}.
Context (Hok : vm_ok kend free roots s) (Hrf : refs_inv kend free roots Mp s) (Hu : unlocked s).
Context (Hin : Mp !! (old, v) = Some pa) (Hunm : has (leaf (k_mem s) new (v * PGSIZE)) PTE_V = false).
Context (Hsz : Z.of_nat (size Mp) + 1 < 2 ^ 31).

Let p := leaf (k_mem s) old (v * PGSIZE).

Lemma new_not_counted : Mp !! (new, v) = None.
Proof.
  destruct (Mp !! (new, v)) as [pa'|] eqn:E; [|done].
  pose proof (en_V _ _ _ _ (rf_entry _ _ _ _ _ Hrf _ _ E)) as HV. simpl in HV. congruence.
Qed.

(** The body of the loop up to the count. *)
Definition share_body : M kstate Z :=
  pte <- walk old (v * PGSIZE) false ;;
  v' <- rd64 pte ;;
  wr64 pte (cow_pte v') ;;;
  mappages new (v * PGSIZE) PGSIZE (PTE2PA v') (cow_pte (PTE_FLAGS v')).

Lemma share_body_run : ∃ (ok : bool) s' free', share_body s = (Ret (if ok then 0 else -1), s') ∧
  touches roots free free' s s' ∧ vm_ok kend free' roots s' ∧ refs_inv kend free' roots Mp s' ∧
  (∀ r va, r ∈ roots → va_ok va → leaf (k_mem s') r va =
     map_range (λ r va, if decide (r = old ∧ va / PGSIZE = v) then cow_pte p else leaf (k_mem s) r va)
       new (v * PGSIZE) (if ok then 1 else 0) pa (cow_pte (PTE_FLAGS p)) r va).
Proof.
  pose proof (rf_entry _ _ _ _ _ Hrf _ _ Hin) as He. pose proof (en_va _ _ _ _ He) as Hva. simpl in Hva.
  pose proof (en_range _ _ _ _ He) as Hp. simpl in Hp. fold p in Hp.
  destruct (entry_slot _ _ _ _ He) as (a & Hs & Hld). simpl in Hs, Hld. fold p in Hld.
  unfold share_body. rewrite (bind_Ret _ _ _ _ _ (walk_slot s old _ a false (proj2 Hva) Hs)).
  unfold bind, rd64, gets, wr64, modify. rewrite Hld.
  set (s1 := set_mem _ s). pose proof (wrote_ok Hok Hold Hs (cow_pte p)) as Hok1.
  pose proof (wrote_touches Hok Hold Hs (cow_pte p)) as T1.
  pose proof (cow_parent Hk Hok Hrf Hin Hs) as Hrf1. fold p in Hrf1.
  pose proof (λ r va, wrote_leaf Hok Hold Hva Hs (cow_pte p) r va (cow_range p Hp)) as HL1.
  change (wrote (cow_pte p)) with s1 in *.
  rewrite (en_pa _ _ _ _ He : PTE2PA p = pa).
  destruct (mappages_page Hk (roots := roots) free s1 new (v * PGSIZE) pa (cow_pte (PTE_FLAGS p)))
    as (ok & s2 & f2 & R & T2 & Hok2 & HL2 & _); try done.
  - apply unlocked_can_kalloc. done.
  - unfold PGSIZE. by rewrite Z.mod_mul.
  - eapply ram_page_is_page; [done|]. by apply (rf_page _ _ _ _ _ Hrf _ _ Hin).
  - by apply clear_set_flags; [apply flags_range|].
  - rewrite HL1, decide_False by (done || naive_solver). done.
  - exists ok, s2, f2. split_and!; try done.
    + by eapply touches_trans.
    + eapply (refs_touch Hk Hok1); [done..|]. intros k pa' Hk'.
      pose proof (rf_entry _ _ _ _ _ Hrf1 k pa' Hk') as He'. eapply entry_leaf; [done|].
      rewrite HL2 by apply He'. unfold map_range. apply decide_False.
      intros [D1 D2]. pose proof new_not_counted as Hnn.
      rewrite (surjective_pairing k), D1 in Hk'. replace k.2 with v in Hk'; [congruence|].
      unfold PGSIZE in D2. destruct ok; lia.
    + intros r va Hr' Hva'. rewrite HL2 by done. unfold map_range. case_decide; [done|].
      rewrite HL1 by done. apply decide_ext. unfold PGSIZE. by rewrite Z.div_mul.
Qed.

(** A round of the loop of [uvmcopy]. *)
Lemma uvmcopy_loop_S f sz : v * PGSIZE < sz → uvmcopy_loop kend (S f) old new sz (v * PGSIZE) s =
  (r <- share_body ;;
   if negb (r =? 0) then uvmunmap kend new 0 v true ;;; ret (-1)
   else
     memref_lock ;;;
     fq <- memref_get pa ;;
     memref_set pa (i32 (fq + 1)) ;;;
     memref_unlock ;;;
     uvmcopy_loop kend f old new sz ((v + 1) * PGSIZE)) s.
Proof.
  intros Hlt. pose proof (rf_entry _ _ _ _ _ Hrf _ _ Hin) as He.
  pose proof (en_va _ _ _ _ He) as Hva. simpl in Hva.
  destruct (entry_slot _ _ _ _ He) as (a & Hs & Hld). simpl in Hs, Hld.
  pose proof (slot_nonzero (vm_pt _ _ _ _ Hok) Hold Hs Hk) as Ha0.
  pose proof (walk_slot s old _ a false (proj2 Hva) Hs) as Rw.
  cbn [uvmcopy_loop]. rewrite (proj2 (Z.ltb_lt _ _)) by done. rewrite (bind_Ret _ _ _ _ _ Rw).
  rewrite (proj2 (Z.eqb_neq a 0)) by done.
  unfold share_body. rewrite bind_assoc, (bind_Ret _ _ _ _ _ Rw), bind_assoc.
  rewrite !(bind_Ret _ _ s _ _ (eq_refl : rd64 a s = (Ret (load64 (k_mem s) a), s))).
  rewrite Hld, (en_V _ _ _ _ He : has (leaf (k_mem s) old (v * PGSIZE)) PTE_V = true).
  rewrite (en_pa _ _ _ _ He : PTE2PA (leaf (k_mem s) old (v * PGSIZE)) = pa), bind_assoc.
  replace (v * PGSIZE / PGSIZE) with v by (unfold PGSIZE; by rewrite Z.div_mul).
  by replace ((v + 1) * PGSIZE) with (v * PGSIZE + PGSIZE) by lia.
Qed.

(** The range of one page, by page number. *)
Lemma one_page va : v * PGSIZE <= va < v * PGSIZE + PGSIZE * Z.of_nat 1 ↔ va / PGSIZE = v.
Proof. unfold PGSIZE. split; zdiv. Qed.

Lemma leaf_vpn m r va : va / PGSIZE = v → leaf m r va = leaf m r (v * PGSIZE).
Proof. intros E. apply leaf_page. unfold PGSIZE in *. by rewrite Z.div_mul. Qed.

(** The leaves after the body, in terms of [cow_leaf]. *)
Lemma body_leaf r va :
  map_range (λ r va, if decide (r = old ∧ va / PGSIZE = v) then cow_pte p else leaf (k_mem s) r va)
    new (v * PGSIZE) 1 (PTE2PA p) (cow_pte (PTE_FLAGS p)) r va = cow_leaf (leaf (k_mem s)) old new v 1 r va.
Proof.
  unfold map_range, cow_leaf. rewrite (decide_ext _ (r = new ∧ va / PGSIZE = v)) by (by rewrite one_page).
  assert (∀ x, x <= va / PGSIZE < x + 1 ↔ va / PGSIZE = x) as H1 by (intros; lia).
  rewrite (decide_ext (r = old ∧ _ <= _ < _) (r = old ∧ va / PGSIZE = v)) by (by rewrite H1).
  rewrite (decide_ext (r = new ∧ _ <= _ < _) (r = new ∧ va / PGSIZE = v)) by (by rewrite H1).
  destruct (decide (va / PGSIZE = v)) as [E|E].
  - rewrite (leaf_vpn (k_mem s) old va E). fold p.
    destruct (decide (r = new)) as [->|]; [|by rewrite !(decide_False (P := r = new ∧ _)) by naive_solver].
    rewrite (decide_True (P := new = new ∧ _)) by done. rewrite decide_False by naive_solver.
    rewrite E, Z.sub_diag, Z.add_0_r. by rewrite decide_True.
  - by rewrite !decide_False by naive_solver.
Qed.

Lemma share_step : ∃ (ok : bool) s1 s' free',
  share_body s = (Ret (if ok then 0 else -1), s1) ∧ unlocked s1 ∧
  s' = (if ok then set_fr (fupd (fr s1) (fn pa) (fr s1 (fn pa) + 1)) s1 else s1) ∧
  0 <= fr s1 (fn pa) < 2 ^ 31 - 1 ∧ shared_one free free' Mp v pa ok s s'.
Proof.
  destruct share_body_run as (ok & s1 & f1 & R & T & Hok1 & Hrf1 & HL).
  pose proof (rf_entry _ _ _ _ _ Hrf _ _ Hin) as He.
  assert (unlocked s1) as Hu1 by (unfold unlocked; by rewrite (tc_hart _ _ _ _ _ T)).
  assert (PTE2PA p = pa) as Epa by apply (en_pa _ _ _ _ He). pose proof (rf_page _ _ _ _ _ Hrf1 _ _ Hin) as Hpg.
  eexists ok, s1, _, f1. split; [done|]. split; [done|]. split; [reflexivity|]. split.
  { rewrite (rf_count _ _ _ _ _ Hrf1 _ _ Hin). pose proof (counted_le Mp pa). lia. }
  assert (∀ r va, r ∈ roots → va_ok va → leaf (k_mem s1) r va =
    if ok then cow_leaf (leaf (k_mem s)) old new v 1 r va
    else if decide (r = old ∧ va / PGSIZE = v) then cow_pte (leaf (k_mem s) old va)
    else leaf (k_mem s) r va) as HL'.
  { intros r va Hr Hva. rewrite HL by done. destruct ok; [rewrite <-Epa; apply body_leaf|].
    rewrite map_range_0. case_decide as D; [|done]. by rewrite (leaf_vpn _ _ va (proj2 D)). }
  destruct ok; [|split; try done; apply T].
  split; simpl; try done; try apply T.
  - by eapply dropped_ok.
  - eapply (count_entry Hk); [done|done|by apply new_not_counted| |by eapply rf_count|done].
    pose proof (en_va _ _ _ _ He) as Hva. simpl in Hva.
    assert (leaf (k_mem s1) new (v * PGSIZE) = mk_pte pa (cow_pte (PTE_FLAGS p))) as E.
    { rewrite HL by done. unfold map_range. rewrite decide_True by (split; [done|by apply one_page; unfold PGSIZE; rewrite Z.div_mul]).
      f_equal. unfold PGSIZE at 1. rewrite Z.div_mul by done. by rewrite Z.sub_diag, Z.add_0_r. }
    assert (is_page pa) as Hpa by (eapply ram_page_is_page; [done|apply Hpg]).
    assert (0 <= cow_pte (PTE_FLAGS p) < 1024) as Hf by (by apply clear_set_flags; [apply flags_range|]).
    split; simpl; rewrite ?E; try done.
    + by apply mk_pte_range.
    + by apply mk_pte_V.
    + apply (mk_pte_not_V Hpa Hf 9); [done|]. rewrite testbit_cow by apply flags_range64. by rewrite orb_true_r.
    + by apply mk_pte_pa.
Qed.
End step.

(** The pages from [v] up, as the loop visits them. *)
Definition vpages (v : Z) (m : nat) : list Z := (λ i, v + Z.of_nat i) <$> seq 0 m.

Lemma vpages_S v m : vpages v (S m) = v :: vpages (v + 1) m.
Proof.
  unfold vpages. simpl. f_equal; [lia|].
  rewrite <-fmap_S_seq, <-list_fmap_compose. apply list_fmap_ext. intros i x _. simpl. lia.
Qed.

(** What the loop of [uvmcopy] leaves for the pages [v, v + m). *)
Record forked (v m : Z) (Mp Mp' : mappings) (free' : list Z) (ret : Z) (s s' : kstate) : Prop := {
  fk_ok : vm_ok kend free' roots s';
  fk_refs : refs_inv kend free' roots Mp' s';
  fk_hart : k_hart s' = k_hart s;
  fk_lock : lock_kalloc s' = lock_kalloc s;
  fk_page : ∀ k pa, Mp !! k = Some pa → ¬ (k.1 = new ∧ 0 <= k.2 < v + m) →
    same_page (k_mem s) (k_mem s') pa;
  fk_done : ret = 0 → ∀ r va, r ∈ roots → va_ok va →
    leaf (k_mem s') r va = cow_leaf (leaf (k_mem s)) old new v m r va;
  fk_undone : ret ≠ 0 →
    (∀ k, Mp' !! k = if decide (k.1 = new ∧ 0 <= k.2 < v + m) then None else Mp !! k) ∧
    (∀ va, va_ok va → va / PGSIZE < v + m → has (leaf (k_mem s') new va) PTE_V = false) ∧
    ∃ j, 0 <= j <= m ∧ ∀ r va, r ∈ roots → va_ok va → (r = new → v + m <= va / PGSIZE) →
      leaf (k_mem s') r va = if decide (r = old ∧ v <= va / PGSIZE < v + j)
        then cow_pte (leaf (k_mem s) old va) else leaf (k_mem s) r va;
}.

(** [mappages] failed at page [v]: the pages mapped so far are dropped again. *)
Lemma fork_undo m free f1 s s1 Mp v pa : shared_one free f1 Mp v pa false s s1 →
  refs_inv kend free roots Mp s → unlocked s1 → Z.of_nat (size Mp) < 2 ^ 31 → 0 <= v → 1 <= m →
  (v + m) * PGSIZE <= MAXVA →
  (∀ i, v <= i < v + m → has (leaf (k_mem s) new (i * PGSIZE)) PTE_V = false) →
  (∀ i, 0 <= i < v → is_Some (Mp !! (new, i))) →
  ∃ s' free' Mp', uvmunmap kend new 0 v true s1 = (Ret tt, s') ∧ forked v m Mp Mp' free' (-1) s s'.
Proof.
  intros S Hrf0 Hu Hsz Hv Hm Hmax Hnew0 Hall.
  pose proof (so_ok _ _ _ _ _ _ _ _ S) as Hok. pose proof (so_refs _ _ _ _ _ _ _ _ S) as Hrf.
  destruct (uvmunmap_loop_free Hk (roots := roots) (Z.to_nat v) f1 s1 Mp new 0)
    as (s' & f' & R & Hok' & Hrf' & Hh & Hl & Hf & HL & Hp); try done.
  { unfold PGSIZE in *. lia. }
  { intros k [E Hk2]%elem_of_vkeys. rewrite (surjective_pairing k), E. apply Hall. lia. }
  exists s', f', (delete_keys (vkeys new 0 (Z.to_nat v)) Mp). split.
  { pose proof (uvmunmap_pages (kend := kend) new 0 (Z.to_nat v) true s1) as E.
    rewrite Z2Nat.id in E by done. change (0 * PGSIZE) with 0 in E, R. rewrite E by (unfold PGSIZE in *; lia).
    rewrite Z2Nat.id in R by done. exact R. }
  assert (∀ i, v <= i < v + m → Mp !! (new, i) = None) as Hnone.
  { intros i Hi. destruct (Mp !! (new, i)) as [pa'|] eqn:E; [|done].
    pose proof (en_V _ _ _ _ (rf_entry _ _ _ _ _ Hrf0 _ _ E)) as HV. simpl in HV.
    rewrite Hnew0 in HV by done. done. }
  split; try done.
  - by rewrite Hh, (so_hart _ _ _ _ _ _ _ _ S).
  - by rewrite Hl, (so_lock _ _ _ _ _ _ _ _ S).
  - intros k pa' Hk' Hno. assert (delete_keys (vkeys new 0 (Z.to_nat v)) Mp !! k = Some pa') as Hk''.
    { rewrite delete_keys_lookup, decide_False; [done|]. rewrite elem_of_vkeys. lia. }
    destruct (rf_page _ _ _ _ _ Hrf0 k pa' Hk') as (Hram & Hnf & Hnt). intros x Hx.
    rewrite (Hp pa'); [apply (so_page _ _ _ _ _ _ _ _ S pa'); [apply Hram|done..]|apply Hram| | |done].
    + by apply (rf_page _ _ _ _ _ Hrf k pa' Hk').
    + by apply (rf_page _ _ _ _ _ Hrf' k pa' Hk'').
  - intros _. split_and!.
    + intros k. rewrite delete_keys_lookup.
      destruct (decide (k.1 = new ∧ 0 <= k.2 < v + m)) as [D|D].
      * destruct (decide (0 <= k.2 < v)); [by rewrite decide_True by (apply elem_of_vkeys; lia)|].
        case_decide; [done|]. rewrite (surjective_pairing k), (proj1 D). apply Hnone. lia.
      * rewrite decide_False; [done|]. rewrite elem_of_vkeys. lia.
    + intros va Hva Hlt. rewrite HL by done. case_decide as D; [done|].
      rewrite (so_leaf _ _ _ _ _ _ _ _ S) by done. rewrite decide_False by naive_solver.
      rewrite (leaf_page _ _ va (va / PGSIZE * PGSIZE)) by (unfold PGSIZE; by rewrite Z.div_mul).
      apply Hnew0. unfold va_ok, PGSIZE in *. assert (0 <= va / 4096) by zdiv. lia.
    + exists 1. split; [lia|]. intros r va Hr Hva Hrn. rewrite HL by done.
      rewrite decide_False by (intros [-> ?]; specialize (Hrn eq_refl); lia).
      rewrite (so_leaf _ _ _ _ _ _ _ _ S) by done. apply decide_ext. split; intros [??]; split; (done || lia).
Qed.

(** One more page in front. *)
Lemma fork_cons m free f1 f' s s1 s' Mp Mp' v pa ret : shared_one free f1 Mp v pa true s s1 →
  refs_inv kend free roots Mp s → 0 <= v → 0 <= m →
  forked (v + 1) m (<[(new, v) := pa]> Mp) Mp' f' ret s1 s' →
  forked v (1 + m) Mp Mp' f' ret s s'.
Proof.
  intros S Hrf Hv Hm F. pose proof (so_leaf _ _ _ _ _ _ _ _ S) as HL. unfold cow_leaf in HL.
  split; try apply F.
  - by rewrite (fk_hart _ _ _ _ _ _ _ _ F), (so_hart _ _ _ _ _ _ _ _ S).
  - by rewrite (fk_lock _ _ _ _ _ _ _ _ F), (so_lock _ _ _ _ _ _ _ _ S).
  - intros k pa' Hk' Hno x Hx. destruct (rf_page _ _ _ _ _ Hrf k pa' Hk') as (Hram & Hnf & Hnt).
    rewrite (fk_page _ _ _ _ _ _ _ _ F k pa'); [|rewrite lookup_insert_ne; [done|]| |done].
    + apply (so_page _ _ _ _ _ _ _ _ S pa'); [apply Hram|done..].
    + intros <-. apply Hno. simpl. split; [done|lia].
    + intros [? ?]. apply Hno. split; [done|lia].
  - intros E0 r va Hr Hva. rewrite (fk_done _ _ _ _ _ _ _ _ F E0) by done.
    unfold cow_leaf. rewrite !HL by done.
    repeat case_decide; done || lia.
  - intros E0. destruct (fk_undone _ _ _ _ _ _ _ _ F E0) as (H1 & H2 & j & Hj & H3). split_and!.
    + intros k. rewrite H1. rewrite (decide_ext _ (k.1 = new ∧ 0 <= k.2 < v + (1 + m))) by lia.
      case_decide as D; [done|]. rewrite lookup_insert_ne; [done|]. intros <-. simpl in D. lia.
    + intros va Hva Hlt. apply H2; [done|lia].
    + exists (1 + j). split; [lia|]. intros r va Hr Hva Hrn.
      rewrite H3 by (try done; intros ->; specialize (Hrn eq_refl); lia). rewrite !HL by done.
      rewrite !(decide_False (P := r = new ∧ _)) by (intros [-> ?]; specialize (Hrn eq_refl); lia).
      destruct (decide (r = old)) as [->|]; [|by rewrite !decide_False by naive_solver].
      rewrite !(decide_False (P := old = new ∧ _)) by naive_solver.
      repeat case_decide; done || lia.
Qed.

Lemma uvmcopy_loop_run m : ∀ free s Mp v sz,
  vm_ok kend free roots s → refs_inv kend free roots Mp s → unlocked s →
  Z.of_nat (size Mp) + Z.of_nat m < 2 ^ 31 → 0 <= v → (v + Z.of_nat m) * PGSIZE <= MAXVA →
  (∀ i, v <= i < v + Z.of_nat m → i * PGSIZE < sz ∧ is_Some (Mp !! (old, i)) ∧
     has (leaf (k_mem s) new (i * PGSIZE)) PTE_V = false) →
  (∀ i, 0 <= i < v → is_Some (Mp !! (new, i))) →
  ∃ ret s' free' Mp', uvmcopy_loop kend m old new sz (v * PGSIZE) s = (Ret ret, s') ∧
    forked v (Z.of_nat m) Mp Mp' free' ret s s' ∧
    (ret = 0 ∧ Mp' = share old new (vpages v m) Mp ∨ ret = -1).
Proof.
  induction m as [|m IH]; intros free s Mp v sz Hok Hrf Hu Hsz Hv Hmax Hall Hpre.
  { exists 0, s, free, Mp. split; [done|]. split; [|by left]. split; try done.
    intros _ r va Hr Hva. unfold cow_leaf. by rewrite !decide_False by lia. }
  destruct (Hall v) as (Hlt & [pa Hin] & Hunm); [lia|].
  destruct (share_step Hok Hrf Hu Hin Hunm) as (ok & s1 & s2 & f1 & R & Hu1 & E2 & Hfr & S); [lia|].
  rewrite (uvmcopy_loop_S Hok Hrf Hin m sz Hlt), (bind_Ret _ _ _ _ _ R).
  destruct ok; [change (negb (0 =? 0)) with false|change (negb (-1 =? 0)) with true]; cbv iota.
  - rewrite (memref_incr pa) by (done || lia). rewrite <-E2.
    destruct (IH f1 s2 (<[(new, v) := pa]> Mp) (v + 1) sz) as (ret & s' & f' & Mp' & R' & F & HR);
      try apply S.
    + unfold unlocked. rewrite (so_hart _ _ _ _ _ _ _ _ S). apply Hu.
    + rewrite map_size_insert_None by (by eapply new_not_counted). lia.
    + lia.
    + unfold PGSIZE in *. lia.
    + intros i Hi. destruct (Hall i) as (H1 & H2 & H3); [lia|].
      split_and!; [done| |].
      * rewrite lookup_insert_ne by (intros [= ? ?]; lia). done.
      * assert (va_ok (i * PGSIZE)) as Hva by (unfold va_ok, PGSIZE in *; lia).
        rewrite (so_leaf _ _ _ _ _ _ _ _ S) by done. unfold cow_leaf.
        rewrite !decide_False; [done|..]; unfold PGSIZE; rewrite Z.div_mul by done; intros [??]; lia.
    + intros i Hi. destruct (decide (i = v)) as [->|]; [by rewrite lookup_insert_eq|].
      rewrite lookup_insert_ne by congruence. apply Hpre. lia.
    + exists ret, s', f', Mp'. split; [done|]. rewrite Nat2Z.inj_succ, <-Z.add_1_l.
      split; [by eapply fork_cons; [..|lia|]|].
      destruct HR as [[-> ->]| ->]; [left|by right]. split; [done|].
      rewrite vpages_S. unfold share at 2. cbn [foldl]. by rewrite Hin.
  - simpl in E2. subst s2. destruct (fork_undo (Z.of_nat (Datatypes.S m)) free f1 s s1 Mp v pa S)
      as (s' & f' & Mp' & R' & F); try done; try lia.
    { intros i Hi. by apply Hall. }
    exists (-1), s', f', Mp'. rewrite (bind_Ret _ _ _ _ _ R'). split; [done|]. split; [done|by right].
Qed.

Lemma share_lookup m : ∀ Mp v k, share old new (vpages v m) Mp !! k =
  if decide (k.1 = new ∧ v <= k.2 < v + Z.of_nat m ∧ is_Some (Mp !! (old, k.2)))
  then Mp !! (old, k.2) else Mp !! k.
Proof.
  induction m as [|m IH]; intros Mp v k; [by rewrite decide_False by lia|].
  rewrite vpages_S. unfold share in *. cbn [foldl].
  destruct (Mp !! (old, v)) as [pa|] eqn:E; rewrite IH.
  - rewrite lookup_insert_ne by congruence.
    destruct (decide (k = (new, v))) as [->|Hk'].
    + rewrite lookup_insert_eq. cbn [fst snd]. rewrite decide_False by lia.
      rewrite decide_True; [done|]. rewrite E. split_and!; [done|lia..|done].
    + rewrite lookup_insert_ne by done. apply decide_ext.
      assert (k.1 = new → k.2 ≠ v) by (intros <- <-; by rewrite <-surjective_pairing in Hk').
      split; intros (?&?&?); split_and!; try done; lia.
  - apply decide_ext. split; intros (?&?&?); split_and!; try done; try lia.
    assert (k.2 ≠ v); [|lia]. intros <-. by rewrite E in *.
Qed.

(** The number of pages of an address space of [sz] bytes. *)
Definition pages_of (sz : Z) : Z := (sz + PGSIZE - 1) / PGSIZE.

End uvmcopy.

(** ** Fresh pages and writes to user pages *)
Section pages.
Context {kend : Z} (Hk : KERNBASE <= kend) {free roots : list Z} {s : kstate}.

(** Writing the bytes of a user page changes no mapping. *)
Lemma write_user_page pg m' : vm_ok kend free roots s → user_page kend free roots (k_mem s) pg →
  same_but (k_mem s) m' pg →
  vm_ok kend free roots (set_mem m' s) ∧
  (∀ r va, r ∈ roots → slot m' r va = slot (k_mem s) r va) ∧
  (∀ r va, r ∈ roots → leaf m' r va = leaf (k_mem s) r va) ∧
  (∀ t, is_table m' roots t → is_table (k_mem s) roots t).
Proof.
  intros Hok (Hram & Hnf & Hnt) Hs. pose proof (proj2 Hram) as Ha. split_and!.
  - split; [|by eapply pt_inv_frame; [apply Hok|..]].
    destruct (vm_kmem _ _ _ _ Hok) as [Hc Hd Hr Hf]. split; simpl; try done.
    eapply free_chain_ext; [|done]. intros q Hq.
    eapply same_but_load64; [done|done|by apply Hr|by intros ->].
  - intros r va Hr. eapply slot_frame; [apply Hok|done|done| |done].
    intros r' q t _ Ht ->. apply Hnt. by exists r', q.
  - intros r va Hr. by eapply leaf_frame; [apply Hok|..].
  - intros t. by eapply is_table_frame.
Qed.

(** The page [kalloc] hands out. *)
Lemma alloc_page n : vm_ok kend (n :: free) roots s →
  vm_ok kend free roots (allocated n s) ∧ user_page kend free roots (k_mem (allocated n s)) n ∧
  (∀ r va, r ∈ roots → slot (k_mem (allocated n s)) r va = slot (k_mem s) r va) ∧
  (∀ r va, r ∈ roots → leaf (k_mem (allocated n s)) r va = leaf (k_mem s) r va) ∧
  (∀ t, is_table (k_mem (allocated n s)) roots t → is_table (k_mem s) roots t).
Proof.
  intros Hok. destruct (added_facts Hok) as (Hram & Hnt & Hnf). pose proof (proj2 Hram) as Ha.
  assert (same_but (k_mem s) (k_mem (allocated n s)) n) as Hs by apply same_but_memset.
  assert (∀ t, is_table (k_mem (allocated n s)) roots t → is_table (k_mem s) roots t) as Ht.
  { intros t. by eapply is_table_frame. }
  split_and!; try done.
  - split; [by apply inv_alloc, Hok|].
    destruct (pt_inv_frame (vm_pt _ _ _ _ Hok) _ n Hs Ha Hnt) as [Hr Hi]. split; [|done].
    intros r p t Htb. destruct (Hr _ _ _ Htb) as [? ?]. split; [done|set_solver].
  - split_and!; [done..|]. by intros ?%Ht.
  - intros r va Hr. eapply slot_frame; [apply Hok|done|done| |done].
    intros r' q t _ Htb ->. apply Hnt. by exists r', q.
  - intros r va Hr. by eapply leaf_frame; [apply Hok|..].
Qed.
End pages.

(** ** The fault handler *)

Lemma vm_ok_ext kend free roots s s' : k_mem s' = k_mem s → freelist s' = freelist s → fr s' = fr s →
  vm_ok kend free roots s → vm_ok kend free roots s'.
Proof.
  intros E1 E2 E3 [[Hc Hd Hr Hf] Hp]. split; [|by rewrite E1]. split; rewrite ?E1, ?E2, ?E3; done.
Qed.

Lemma refs_inv_ext kend free roots Mp s s' : k_mem s' = k_mem s → fr s' = fr s →
  refs_inv kend free roots Mp s → refs_inv kend free roots Mp s'.
Proof. intros E1 E2 [He Hp Hc]. split; rewrite ?E1, ?E2; done. Qed.

Lemma counted_replace (Mp : mappings) k pa n x : Mp !! k = Some pa → n ≠ pa →
  counted (<[k := n]> Mp) x =
  (if decide (x = n) then 1 else if decide (x = pa) then counted Mp x - 1 else counted Mp x)%nat ∨ counted Mp n ≠ 0%nat.
Proof.
  intros Hk Hne. rewrite <-insert_delete_eq, counted_insert by apply lookup_delete_eq.
  pose proof (counted_delete Mp k pa x Hk) as E. pose proof (counted_delete Mp k pa n Hk) as E'.
  rewrite (decide_False (P := pa = n)) in E' by done.
  destruct (decide (counted Mp n = 0%nat)); [left|by right].
  repeat case_decide; subst; try done; lia.
Qed.

(** The bits of a PTE the owner gets. *)
Lemma own_bits q : 0 <= q < 2 ^ 64 → has q PTE_V = true → has q PTE_U = true →
  has (own_pte q) PTE_V = true ∧ has (own_pte q) PTE_W = true ∧ has (own_pte q) PTE_COW = false ∧
  has (own_pte q) PTE_U = true ∧ PTE2PA (own_pte q) = PTE2PA q ∧ PTE_FLAGS (own_pte q) ≠ PTE_V.
Proof.
  intros Hq HV' HU'. unfold PTE_V, PTE_W, PTE_COW, PTE_U in *. rewrite !has_testbit in * by done.
  rewrite !testbit_own by done. rewrite HV', HU'. split_and!; try done.
  - by destruct (Z.testbit q 2).
  - by destruct (Z.testbit q 9).
  - apply PTE2PA_ext. intros k Hk'. rewrite testbit_own by done. rewrite !bool_decide_false by lia.
    by rewrite andb_true_r, orb_false_r.
  - intros E. apply (f_equal (λ x, Z.testbit x 2)) in E. rewrite testbit_flags, testbit_own in E by done.
    by rewrite orb_true_r in E.
Qed.

Lemma has_flags q b k : b = Z.shiftl 1 k → 0 <= k < 10 → has (PTE_FLAGS q) b = has q b.
Proof. intros -> Hb. rewrite !has_testbit by lia. by apply testbit_flags. Qed.

Lemma same_but_memmove m n src : same_but m (memmove m n src PGSIZE) n.
Proof.
  intros x Hx. rewrite memmove_lookup by done.
  destruct (Z.leb_spec n x), (Z.ltb_spec x (n + PGSIZE)); done || lia.
Qed.

Section fault.
Context {kend : Z} (Hk : KERNBASE <= kend) {free roots : list Z} {s : kstate} {Mp : mappings}.
Context (Hok : vm_ok kend free roots s) (Hrf : refs_inv kend free roots Mp s) (Hu : unlocked s).
Context {r v pa va : Z} (Hin : Mp !! (r, v) = Some pa) (Hva : va / PGSIZE = v) (Hv0 : v ≠ 0).
Let p := leaf (k_mem s) r (v * PGSIZE).
Context (HC : has p PTE_COW = true) (HU : has p PTE_U = true).

(** The faulting state with [memref.lock] held, as [handleCOW] works on it. *)
Definition locked : kstate := set_lock_kalloc 0 (set_hart (taken LkMemref (k_hart s)) s).

Let Hent : entry_ok (k_mem s) roots (r, v) pa := rf_entry _ _ _ _ _ Hrf (r, v) pa Hin.
Let Hpage : user_page kend free roots (k_mem s) pa := rf_page _ _ _ _ _ Hrf (r, v) pa Hin.

Lemma fault_va : v * PGSIZE <= va < v * PGSIZE + PGSIZE ∧ va_ok va ∧ PGROUNDDOWN va = v * PGSIZE.
Proof.
  pose proof (en_va _ _ _ _ Hent) as [H0 H1]. simpl in H0, H1. change MAXVA with 274877906944 in *.
  unfold va_ok. change MAXVA with 274877906944. unfold PGSIZE in *.
  assert (v * 4096 <= va < v * 4096 + 4096) as H by zdiv. split; [done|].
  assert (v < 67108864) by lia.
  split; [lia|]. rewrite PGROUNDDOWN_spec by lia. zdiv.
Qed.

Lemma fault_slot : ∃ a, slot (k_mem s) r (v * PGSIZE) = Some a ∧ load64 (k_mem s) a = p ∧ a ≠ 0.
Proof.
  destruct (entry_slot _ _ _ _ Hent) as (a & Hs & Hld). exists a. split_and!; try done.
  exact (slot_nonzero (vm_pt _ _ _ _ Hok) (en_root _ _ _ _ Hent) Hs Hk).
Qed.

(** The handler up to the test of the reference count. *)
Lemma handleCOW_enter a : slot (k_mem s) r (v * PGSIZE) = Some a → load64 (k_mem s) a = p → a ≠ 0 →
  handleCOW kend r va s =
  (if fr s (fn pa) =? 1 then
    v <- rd64 a ;;
    wr64 a (own_pte v) ;;;
    memref_lock_kalloc ;;;
    memref_unlock ;;;
    ret 0
  else
    mem <- kalloc ;;
    if mem =? 0 then memref_unlock ;;; ret 1
    else
      modify (λ s, set_mem (memmove (k_mem s) mem pa PGSIZE) s) ;;;
      uvmunmap kend r (v * PGSIZE) 1 false ;;;
      r <- mappages r (v * PGSIZE) PGSIZE mem (own_pte (PTE_FLAGS p)) ;;
      if negb (r =? 0) then
        kfree kend mem ;;;
        memref_unlock ;;;
        ret 1
      else
        memref_set pa (i32 (fr s (fn pa) - 1)) ;;;
        memref_lock_kalloc ;;;
        memref_unlock ;;;
        ret 0) locked.
Proof.
  intros Hs Hld Ha. destruct fault_va as (H1 & H2 & H3). unfold handleCOW.
  rewrite (proj2 (Z.leb_gt MAXVA va)) by apply H2. rewrite H3.
  rewrite (bind_Ret _ _ _ _ _ (walk_slot s r (v * PGSIZE) a false (proj2 (en_va _ _ _ _ Hent)) Hs)).
  rewrite (proj2 (Z.eqb_neq a 0)) by done. unfold bind at 1, rd64, gets. rewrite Hld.
  rewrite (en_pa _ _ _ _ Hent : PTE2PA p = pa).
  rewrite (has_flags p PTE_COW 9), (has_flags p PTE_V 0), (has_flags p PTE_U 4) by done.
  rewrite HC, HU, (en_V _ _ _ _ Hent : has p PTE_V = true).
  rewrite (proj2 (Z.eqb_neq (v * PGSIZE) 0)) by (unfold PGSIZE; lia). cbn [negb orb].
  destruct Hu as (Ho & _ & Hm).
  assert (memref_lock s = (Ret tt, set_hart (taken LkMemref (k_hart s)) s)) as R.
  { apply zoom_run. by apply acquire_run. }
  rewrite (bind_Ret _ _ _ _ _ R). reflexivity.
Qed.

Lemma memref_unlock_run s' : k_hart s' = taken LkMemref (k_hart s) →
  memref_unlock s' = (Ret tt, set_hart (k_hart s) s').
Proof. intros E. apply zoom_run. simpl. rewrite E. by apply release_run; apply Hu. Qed.

(** The only mapping of the page gets it back, writable. *)
Definition reclaimed (a : Z) : kstate := set_lock_kalloc 1 (wrote (s := s) (a := a) (own_pte p)).

Lemma handleCOW_sole a : slot (k_mem s) r (v * PGSIZE) = Some a → load64 (k_mem s) a = p → a ≠ 0 →
  fr s (fn pa) = 1 → handleCOW kend r va s = (Ret 0, reclaimed a).
Proof.
  intros Hs Hld Ha E. rewrite (handleCOW_enter a) by done. rewrite E. cbn [Z.eqb Pos.eqb].
  apply wp_eq. unfold rd64, wr64, memref_lock_kalloc. wp_steps.
  eapply wp_intro; [by apply memref_unlock_run|]. wp_steps. unfold reclaimed, wrote. simpl. rewrite Hld.
  split; reflexivity.
Qed.

(** Out of memory: the fault fails, and [lock_kalloc] stays 0. *)
Lemma handleCOW_oom a : slot (k_mem s) r (v * PGSIZE) = Some a → load64 (k_mem s) a = p → a ≠ 0 →
  fr s (fn pa) ≠ 1 → free = [] → handleCOW kend r va s = (Ret 1, set_lock_kalloc 0 s).
Proof.
  intros Hs Hld Ha E Hf. rewrite (handleCOW_enter a) by done. rewrite (proj2 (Z.eqb_neq _ _)) by done.
  destruct Hu as (Ho & Hkm & Hm).
  erewrite bind_Ret; [|apply kalloc_empty; [|]].
  - rewrite Z.eqb_refl. erewrite bind_Ret by (by apply memref_unlock_run). reflexivity.
  - split_and!; simpl; [by apply taken_ok|set_solver|done].
  - pose proof (inv_chain _ _ _ (vm_kmem _ _ _ _ Hok)) as Hc. by rewrite Hf in Hc.
Qed.

(** The faulting mapping moves to the fresh page [n], a copy of [pa]. *)
Definition copied_mem (n : Z) : mem := memmove (memset (k_mem s) n 5 PGSIZE) n pa PGSIZE.
Definition copied (n a : Z) : kstate :=
  KState (k_hart s) (store64 (store64 (copied_mem n) a 0) a (mk_pte n (own_pte (PTE_FLAGS p))))
    (load64 (k_mem s) n) (fupd (fupd (fr s) (fn n) 1) (fn pa) (fr s (fn pa) - 1)) 1.

Section copy.
Context {n a : Z} {f : list Z} (Ef : free = n :: f) (Hs : slot (k_mem s) r (v * PGSIZE) = Some a).

Let Hokn : vm_ok kend (n :: f) roots s := eq_ind _ (λ l, vm_ok kend l roots s) Hok _ Ef.

(** [n] is not the page of any mapping. *)
Lemma fresh_ne k pa' : Mp !! k = Some pa' → pa' ≠ n.
Proof.
  intros Hk' ->. destruct (rf_page _ _ _ _ _ Hrf _ _ Hk') as (_ & Hnf & _). rewrite Ef in Hnf. set_solver.
Qed.

Let sB : kstate := set_mem (copied_mem n) (allocated n s).

Lemma copy_page : vm_ok kend f roots sB ∧ user_page kend f roots (k_mem sB) n ∧
  (∀ r va, r ∈ roots → slot (k_mem sB) r va = slot (k_mem s) r va) ∧
  (∀ r va, r ∈ roots → leaf (k_mem sB) r va = leaf (k_mem s) r va) ∧
  (∀ t, is_table (k_mem sB) roots t → is_table (k_mem s) roots t).
Proof.
  destruct (alloc_page Hk n Hokn) as (K1 & U1 & S1 & L1 & T1).
  destruct (write_user_page n (copied_mem n) K1 U1) as (K2 & S2 & L2 & T2); [apply same_but_memmove|].
  split_and!; [done| | | |].
  - destruct U1 as (? & ? & Hnt). split_and!; try done. by intros ?%T2.
  - intros. unfold sB. simpl. by rewrite S2, S1.
  - intros. unfold sB. simpl. by rewrite L2, L1.
  - intros t Ht. by apply T1, T2.
Qed.

Lemma copied_contents x : 0 <= x < PGSIZE → copied_mem n (n + x) = k_mem s (pa + x).
Proof.
  intros Hx. unfold copied_mem. rewrite memmove_lookup by done.
  rewrite (proj2 (Z.leb_le _ _)), (proj2 (Z.ltb_lt _ _)) by lia. cbn [andb].
  replace (pa + (n + x - n)) with (pa + x) by lia. apply memset_other.
  destruct Hpage as ([_ Ap] & _). destruct (added_facts Hokn) as ([_ An] & _).
  destruct (page_disjoint pa n Ap An (fresh_ne _ _ Hin)); lia.
Qed.

Let sC : kstate := wrote (s := sB) (a := a) 0.
Let sD : kstate := wrote (s := sC) (a := a) (mk_pte n (own_pte (PTE_FLAGS p))).

Lemma own_flags_range : 0 <= own_pte (PTE_FLAGS p) < 1024.
Proof. by apply clear_set_flags; [apply flags_range|]. Qed.

Lemma fresh_is_page : is_page n.
Proof. eapply ram_page_is_page; [done|]. by apply copy_page. Qed.

Lemma copy_tables : slot (k_mem sB) r (v * PGSIZE) = Some a ∧ slot (k_mem sC) r (v * PGSIZE) = Some a ∧
  vm_ok kend f roots sC ∧ vm_ok kend f roots sD ∧
  leaf (k_mem sC) r (v * PGSIZE) = 0 ∧
  (∀ r' va', r' ∈ roots → va_ok va' → leaf (k_mem sD) r' va' =
    if decide (r' = r ∧ va' / PGSIZE = v) then mk_pte n (own_pte (PTE_FLAGS p)) else leaf (k_mem s) r' va') ∧
  (∀ t, is_table (k_mem sD) roots t → is_table (k_mem s) roots t) ∧
  (∀ pg, pg mod PGSIZE = 0 → ¬ is_table (k_mem s) roots pg → pg ∉ f → same_page (k_mem sB) (k_mem sD) pg).
Proof.
  destruct copy_page as (KB & UB & SB & LB & TB).
  pose proof (en_root _ _ _ _ Hent) as Hr. pose proof (en_va _ _ _ _ Hent) as Hv. simpl in Hr, Hv.
  assert (slot (k_mem sB) r (v * PGSIZE) = Some a) as HsB by (by rewrite SB).
  pose proof (wrote_ok KB Hr HsB 0) as KC.
  assert (slot (k_mem sC) r (v * PGSIZE) = Some a) as HsC by (unfold sC; by rewrite (wrote_slot KB Hr HsB)).
  assert (v * PGSIZE / PGSIZE = v) as Ev by (unfold PGSIZE; by rewrite Z.div_mul).
  split_and!; try done.
  - by eapply (wrote_ok KC Hr HsC).
  - unfold sC. rewrite (wrote_leaf KB Hr Hv HsB) by done. by rewrite decide_True.
  - intros r' va' Hr' Hva'. unfold sD.
    rewrite (wrote_leaf KC Hr Hv HsC) by (auto using mk_pte_range, fresh_is_page, own_flags_range).
    rewrite Ev. case_decide; [done|]. unfold sC. rewrite (wrote_leaf KB Hr Hv HsB) by done.
    rewrite Ev, decide_False by done. by apply LB.
  - intros t Ht. apply TB, (wrote_table KB Hr HsB 0), (wrote_table KC Hr HsC _ _ Ht).
  - intros pg Hpg Hnt Hnf x Hx.
    assert (¬ is_table (k_mem sB) roots pg) as HtB by by intros ?%TB.
    assert (¬ is_table (k_mem sC) roots pg) as HtC by by intros ?%(wrote_table KB Hr HsB 0).
    unfold sD. rewrite (tc_page _ _ _ _ _ (wrote_touches KC Hr HsC _) pg Hpg HtC Hnf x Hx).
    by apply (tc_page _ _ _ _ _ (wrote_touches KB Hr HsB 0) pg Hpg HtB Hnf).
Qed.

Lemma copied_eq : copied n a = set_lock_kalloc 1 (set_fr (fupd (fr sD) (fn pa) (fr s (fn pa) - 1)) sD).
Proof. reflexivity. Qed.

Lemma copied_ok : vm_ok kend f roots (copied n a).
Proof.
  destruct copy_tables as (_ & _ & _ & KD & _ & _ & TD & _).
  assert (user_page kend f roots (k_mem sD) pa) as Hpg.
  { destruct Hpage as (? & Hnf & Hnt). rewrite Ef in Hnf. split_and!; [done|set_solver|].
    by intros ?%TD. }
  rewrite copied_eq. eapply vm_ok_ext; [..|by apply (dropped_ok Hk KD pa Hpg)]; done.
Qed.

(** The counts: one for the new page, one less for the old one. *)
Lemma copied_count k' pa' : <[(r, v) := n]> Mp !! k' = Some pa' →
  fr (copied n a) (fn pa') = Z.of_nat (counted (<[(r, v) := n]> Mp) pa').
Proof.
  intros Hk'. pose proof (fresh_ne _ _ Hin) as Hpn.
  assert (counted Mp n = 0%nat) as H0 by (apply counted_zero; intros k H; by apply (fresh_ne _ _ H)).
  destruct (counted_replace Mp (r, v) pa n pa' Hin) as [->|?]; [by symmetry|..|done].
  assert (ram_page kend n) as Hn by apply (added_facts Hokn).
  assert (ram_page kend pa) as Hp by apply Hpage.
  assert (fn pa ≠ fn n) as Hfn by (intros E%(fn_inj Hk); done).
  pose proof (counted_pos _ _ _ Hin) as Hpos. cbn [fr copied].
  destruct (decide (pa' = n)) as [->|Hne].
  { rewrite fupd_ne, fupd_eq by done. done. }
  apply lookup_insert_Some in Hk' as [[_ ?]|[_ Hk']]; [done|].
  pose proof (rf_count _ _ _ _ _ Hrf _ _ Hk') as Hc.
  destruct (rf_page _ _ _ _ _ Hrf _ _ Hk') as (Hp' & _).
  destruct (decide (pa' = pa)) as [->|Hne'].
  - rewrite fupd_eq, Hc. lia.
  - rewrite !fupd_ne; [done|..]; intros E%(fn_inj Hk); done.
Qed.

Lemma copied_refs : refs_inv kend f roots (<[(r, v) := n]> Mp) (copied n a).
Proof.
  destruct copy_tables as (_ & _ & _ & KD & _ & LD & TD & _). destruct copy_page as (_ & Un & _ & _ & TB).
  pose proof (en_root _ _ _ _ Hent) as Hr. pose proof (en_va _ _ _ _ Hent) as Hv. simpl in Hr, Hv.
  assert (v * PGSIZE / PGSIZE = v) as Ev by (unfold PGSIZE; by rewrite Z.div_mul).
  assert (leaf (k_mem sD) r (v * PGSIZE) = mk_pte n (own_pte (PTE_FLAGS p))) as En.
  { rewrite LD by done. by rewrite decide_True. }
  pose proof fresh_is_page as Hnp. pose proof own_flags_range as Hof.
  split.
  - intros k' pa' [[<- <-]|[Hne Hk']]%lookup_insert_Some; change (k_mem (copied n a)) with (k_mem sD).
    + split; cbn [fst snd]; rewrite ?En; auto using mk_pte_range, mk_pte_pa, mk_pte_V.
      apply (mk_pte_not_V Hnp Hof 2); [done|]. rewrite testbit_own by apply flags_range64. by rewrite orb_true_r.
    + pose proof (rf_entry _ _ _ _ _ Hrf _ _ Hk') as He. eapply entry_leaf; [done|].
      rewrite LD by apply He. apply decide_False. unfold PGSIZE. rewrite Z.div_mul by done.
      intros [D1 D2]. apply Hne. by rewrite (surjective_pairing k'), D1, D2.
  - intros k' pa' [[<- <-]|[Hne Hk']]%lookup_insert_Some; change (k_mem (copied n a)) with (k_mem sD).
    + destruct Un as (? & ? & _). split_and!; try done. intros ?%TD.
      destruct (added_facts Hokn) as (_ & Hnt & _). done.
    + destruct (rf_page _ _ _ _ _ Hrf _ _ Hk') as (? & Hnf & ?). rewrite Ef in Hnf.
      split_and!; [done|set_solver|]. by intros ?%TD.
  - intros k' pa' Hk'. apply copied_count with k'; done.
Qed.

Lemma handleCOW_copy : load64 (k_mem s) a = p → a ≠ 0 → fr s (fn pa) ≠ 1 →
  0 <= fr s (fn pa) < 2 ^ 31 → handleCOW kend r va s = (Ret 0, copied n a).
Proof.
  intros Hld Ha0 Hfr Hlt. rewrite (handleCOW_enter a) by done. rewrite (proj2 (Z.eqb_neq _ _)) by done.
  destruct copy_tables as (HsB & HsC & KC & _ & LC & _). destruct copy_page as (_ & _ & _ & LB & _).
  pose proof (en_root _ _ _ _ Hent) as Hr. pose proof (en_va _ _ _ _ Hent) as Hv. simpl in Hr, Hv.
  pose proof Hu as (Ho & Hkm & Hm).
  assert (n ≠ 0) as Hn0 by (apply (ram_page_nonzero Hk), (added_facts Hokn)).
  erewrite bind_Ret; [|apply (kalloc_some locked n); [|apply Hokn|done]].
  2:{ split_and!; simpl; [by apply taken_ok|set_solver|done]. }
  rewrite (proj2 (Z.eqb_neq n 0)) by done.
  set (sX := set_mem (copied_mem n) (allocated n locked)).
  erewrite bind_Ret; [|by instantiate (1 := sX)].
  assert (leaf (k_mem sX) r (v * PGSIZE) = p) as LX by (by apply LB).
  assert (load64 (k_mem sX) a = p) as HldX by (revert LX; unfold leaf; simpl in HsB; simpl; by rewrite HsB).
  pose proof (uvmunmap_pages (kend := kend) r v 1 false sX) as RU. change (Z.of_nat 1) with 1 in RU.
  rewrite (uvmunmap_loop_S 0 r (v * PGSIZE) _ false sX a p) in RU;
    try done; [|unfold PGSIZE; lia|apply (en_V _ _ _ _ Hent)|apply (en_leaf _ _ _ _ Hent)].
  unfold va_ok in Hv. erewrite bind_Ret; [|rewrite RU by (unfold PGSIZE in *; change MAXVA with 274877906944 in *; lia); reflexivity].
  set (sY := set_mem (store64 (k_mem sX) a 0) sX).
  assert (load64 (k_mem sY) a = 0) as HldY by (by apply load64_store64).
  erewrite bind_Ret; [|apply mappages_slot; [done|unfold PGSIZE; by rewrite Z.mod_mul|exact HsC|done|by rewrite HldY]].
  cbn [negb Z.eqb]. apply wp_eq. unfold memref_set, memref_lock_kalloc. wp_steps.
  eapply wp_intro; [by apply memref_unlock_run|]. wp_steps. rewrite i32_id by lia. split; reflexivity.
Qed.
End copy.

(** The handler's result: the faulting page is mapped writable, to a page no
    other mapping shares, with the contents it had. *)
Record owns (free' : list Z) (pg : Z) (s' : kstate) : Prop := {
  ow_ok : vm_ok kend free' roots s';
  ow_refs : refs_inv kend free' roots (<[(r, v) := pg]> Mp) s';
  ow_hart : k_hart s' = k_hart s;
  ow_lock : lock_kalloc s' = 1;
  ow_sole : counted (<[(r, v) := pg]> Mp) pg = 1%nat;
  ow_pte : has (leaf (k_mem s') r va) PTE_W = true ∧ has (leaf (k_mem s') r va) PTE_U = true ∧
    has (leaf (k_mem s') r va) PTE_COW = false ∧ PTE2PA (leaf (k_mem s') r va) = pg;
  ow_bytes : ∀ x, 0 <= x < PGSIZE → k_mem s' (pg + x) = k_mem s (pa + x);
  ow_others : ∀ k pa', k ≠ (r, v) → Mp !! k = Some pa' → same_page (k_mem s) (k_mem s') pa';
  ow_leaf : ∀ r' va', r' ∈ roots → va_ok va' → ¬ (r' = r ∧ va' / PGSIZE = v) →
    leaf (k_mem s') r' va' = leaf (k_mem s) r' va';
}.

Lemma reclaimed_owns a : slot (k_mem s) r (v * PGSIZE) = Some a → fr s (fn pa) = 1 →
  owns free pa (reclaimed a).
Proof.
  intros Hs Hfr. pose proof (en_range _ _ _ _ Hent) as Hp. pose proof (en_V _ _ _ _ Hent) as HV.
  pose proof (en_root _ _ _ _ Hent) as Hr. pose proof (en_va _ _ _ _ Hent) as Hv. simpl in Hp, HV, Hr, Hv. fold p in Hp, HV.
  destruct (own_bits p Hp HV HU) as (B1 & B2 & B3 & B4 & B5 & B6).
  assert (v * PGSIZE / PGSIZE = v) as Ev by (unfold PGSIZE; by rewrite Z.div_mul).
  assert (0 <= own_pte p < 2 ^ 64) as Ho by by apply clear_set_range.
  pose proof (wrote_leaf Hok Hr Hv Hs (own_pte p)) as HL. rewrite Ev in HL.
  assert (<[(r, v) := pa]> Mp = Mp) as EM by by apply insert_id.
  split; rewrite ?EM; try done.
  - eapply vm_ok_ext; [..|exact (wrote_ok Hok Hr Hs (own_pte p))]; done.
  - eapply refs_inv_ext; [..|apply (rewrite_entry Hk Hok Hrf Hin Hs (own_pte p))]; try done.
    rewrite B5. apply (en_pa _ _ _ _ Hent).
  - pose proof (rf_count _ _ _ _ _ Hrf _ _ Hin). lia.
  - change (k_mem (reclaimed a)) with (k_mem (wrote (s := s) (a := a) (own_pte p))).
    rewrite HL by (done || apply fault_va). rewrite decide_True by done. split_and!; try done.
    rewrite B5. apply (en_pa _ _ _ _ Hent).
  - intros x Hx. destruct Hpage as ([_ Ap] & Hnf & Hnt).
    apply (tc_page _ _ _ _ _ (wrote_touches Hok Hr Hs (own_pte p)) pa Ap Hnt Hnf). lia.
  - intros k pa' _ Hk'. destruct (rf_page _ _ _ _ _ Hrf _ _ Hk') as ([_ Ap] & Hnf & Hnt).
    apply (tc_page _ _ _ _ _ (wrote_touches Hok Hr Hs (own_pte p)) pa' Ap Hnt Hnf).
  - intros r' va' Hr' Hva' Hno. change (k_mem (reclaimed a)) with (k_mem (wrote (s := s) (a := a) (own_pte p))).
    rewrite HL by done. by rewrite decide_False.
Qed.

Lemma copied_owns n f a : free = n :: f → slot (k_mem s) r (v * PGSIZE) = Some a →
  owns f n (copied n a).
Proof.
  intros Ef Hs. pose proof (en_V _ _ _ _ Hent) as HV.
  pose proof (en_root _ _ _ _ Hent) as Hr. simpl in HV, Hr. fold p in HV.
  destruct (copy_tables Ef Hs) as (_ & _ & _ & _ & _ & LD & _ & PD).
  destruct (copy_page Ef) as (_ & (Hn & Hnf & Hnt) & _ & _ & TB).
  destruct (own_bits (PTE_FLAGS p)) as (B1 & B2 & B3 & B4 & _);
    [apply flags_range64|by rewrite (has_flags p PTE_V 0)|by rewrite (has_flags p PTE_U 4)|].
  pose proof (fresh_is_page Ef) as Hnp. pose proof own_flags_range as Hof.
  assert (vm_ok kend (n :: f) roots s) as Hokn by by rewrite <-Ef.
  assert (∀ k, 0 < k < 10 → has (mk_pte n (own_pte (PTE_FLAGS p))) (Z.shiftl 1 k) =
            has (own_pte (PTE_FLAGS p)) (Z.shiftl 1 k)) as Hb.
  { intros k Hk'. rewrite !has_testbit by lia. rewrite (mk_pte_bit Hnp Hof) by lia.
    rewrite bool_decide_false by lia. apply orb_false_r. }
  split; try done.
  - by apply copied_ok.
  - by apply copied_refs.
  - pose proof (copied_count Ef Hs (r, v) n (lookup_insert_eq _ _ _)) as E.
    change (fr (copied n a)) with (fupd (fupd (fr s) (fn n) 1) (fn pa) (fr s (fn pa) - 1)) in E.
    assert (fn n ≠ fn pa) as Hfn.
    { intros E'%(fn_inj Hk); [by eapply (fresh_ne Ef)|done|apply Hpage]. }
    rewrite fupd_ne, fupd_eq in E by done. lia.
  - change (k_mem (copied n a)) with (k_mem (wrote (s := wrote (s := set_mem (copied_mem n) (allocated n s)) (a := a) 0) (a := a) (mk_pte n (own_pte (PTE_FLAGS p))))).
    rewrite LD by (done || apply fault_va). rewrite decide_True by done.
    unfold PTE_W, PTE_U, PTE_COW in *. rewrite !Hb by done. split_and!; try done. by apply mk_pte_pa.
  - intros x Hx. trans (copied_mem n (n + x)); [|by eapply copied_contents].
    destruct (added_facts Hokn) as (_ & Hnts & _). apply (PD n); [apply Hn|done|done|lia].
  - intros k pa' _ Hk' x Hx. destruct (rf_page _ _ _ _ _ Hrf _ _ Hk') as ([_ Ap] & Hnf' & Hnt').
    rewrite Ef in Hnf'. trans (copied_mem n x); [apply (PD pa'); [done|done|set_solver|done]|].
    unfold copied_mem. rewrite same_but_memmove; [rewrite same_but_memset; [done|]|];
      destruct Hn as [_ An]; destruct (page_disjoint pa' n Ap An ltac:(by eapply (fresh_ne Ef))); lia.
  - intros r' va' Hr' Hva' Hno.
    change (k_mem (copied n a)) with (k_mem (wrote (s := wrote (s := set_mem (copied_mem n) (allocated n s)) (a := a) 0) (a := a) (mk_pte n (own_pte (PTE_FLAGS p))))).
    rewrite LD by done. by rewrite decide_False.
Qed.

(** C2: a store to a copy-on-write page is resolved by [handleCOW]: the faulting
    page is afterwards mapped writable and no longer copy-on-write, to a page
    with the same bytes that no other mapping shares; the bytes seen through
    every other mapping, and every other PTE, are untouched, and the reference
    counts are again exactly the numbers of mappings. *)
Theorem handleCOW_owns_page : fr s (fn pa) < 2 ^ 31 → (fr s (fn pa) = 1 ∨ free ≠ []) →
  ∃ s' free' pg, handleCOW kend r va s = (Ret 0, s') ∧ owns free' pg s'.
Proof.
  intros Hlt Hmem. destruct fault_slot as (a & Hs & Hld & Ha).
  destruct (decide (fr s (fn pa) = 1)) as [E|E].
  - exists (reclaimed a), free, pa. split; [by apply handleCOW_sole|by apply reclaimed_owns].
  - destruct (list_cases free) as [?|(n & f & Ef)]; [by destruct Hmem|].
    exists (copied n a), f, n. split; [|by apply copied_owns].
    apply (handleCOW_copy Ef Hs); try done. pose proof (rf_count _ _ _ _ _ Hrf _ _ Hin). lia.
Qed.

(** Without a free page a fault on a shared page is refused with 1 and no
    page or mapping changes; but [memref.lock_kalloc] is left at 0, so that
    later calls of [kalloc] write the counts without taking [memref.lock]. *)
Lemma handleCOW_out_of_memory : free = [] → fr s (fn pa) ≠ 1 →
  handleCOW kend r va s = (Ret 1, set_lock_kalloc 0 s).
Proof.
  intros Hf E. destruct fault_slot as (a & Hs & Hld & Ha). by eapply handleCOW_oom.
Qed.
End fault.

(** [handleCOW] refuses, without any change, every fault that is not on a
    valid user copy-on-write page above page 0; but an address with no PTE at
    all is dereferenced before it is tested, which ends in a kernel panic. *)
Lemma handleCOW_refuses kend r va s : 0 <= va →
  (MAXVA <= va ∨ va < PGSIZE ∨ has (leaf (k_mem s) r va) PTE_COW = false ∨
   has (leaf (k_mem s) r va) PTE_V = false ∨ has (leaf (k_mem s) r va) PTE_U = false) →
  handleCOW kend r va s =
    (if (va <? MAXVA) && (default 0 (slot (k_mem s) r va) =? 0) then Panic "kerneltrap" else Ret 1, s).
Proof.
  intros H0 H. unfold handleCOW.
  destruct (Z.leb_spec MAXVA va); [by rewrite (proj2 (Z.ltb_ge _ _))|].
  rewrite (proj2 (Z.ltb_lt _ _)) by done. change MAXVA with 274877906944 in *.
  assert (PGROUNDDOWN va = va / PGSIZE * PGSIZE) as ->.
  { rewrite PGROUNDDOWN_spec by lia. unfold PGSIZE. lia. }
  assert (slot (k_mem s) r va = slot (k_mem s) r (va / PGSIZE * PGSIZE)) as Es.
  { apply slot_page. unfold PGSIZE. by rewrite Z.div_mul. }
  rewrite (bind_Ret _ _ _ _ _ (walk_false r (va / PGSIZE * PGSIZE) s
    ltac:(change MAXVA with 274877906944; unfold PGSIZE; zdiv))).
  rewrite Es. cbn [andb]. destruct (Z.eqb_spec (default 0 (slot (k_mem s) r (va / PGSIZE * PGSIZE))) 0) as [E|E]; [done|].
  destruct (slot (k_mem s) r (va / PGSIZE * PGSIZE)) as [a|] eqn:Ea; [|done]. simpl in *.
  assert (load64 (k_mem s) a = leaf (k_mem s) r va) as Hl by (unfold leaf; by rewrite Es).
  unfold bind at 1, rd64, gets. rewrite Hl.
  rewrite (has_flags _ PTE_COW 9), (has_flags _ PTE_V 0), (has_flags _ PTE_U 4) by done.
  destruct H as [?|[Hp|[-> |[-> | ->]]]]; [lia|..]; cbn [negb]; rewrite ?orb_true_r; try done.
  by replace (va / PGSIZE * PGSIZE) with 0 by (unfold PGSIZE in *; zdiv).
Qed.
