(* ===== verification/VmAlloc.v ===== *)
(** * Growing an address space: [uvmalloc] of [kernel/vm.c]

    The pages [uvmalloc] adds are fresh: zeroed, mapped once, and not shared
    with any other mapping; if memory runs out everything is undone. *)
From S2P Require Import Prelude Machine Cstring Spinlock Kalloc Vm VmMap VmSpec VmRefs Cow.

Section grow.
Context {kend : Z} (Hk : KERNBASE <= kend) {roots : list Z} {r : Z} (Hr : r ∈ roots).

(** The state after [kalloc] and the zeroing of the page. *)
Definition zeroed (n : Z) (s : kstate) : kstate :=
  set_mem (memset (memset (k_mem s) n 5 PGSIZE) n 0 PGSIZE) (allocated n s).

Section fresh.
Context {n : Z} {free : list Z} {s : kstate} {Mp : mappings}.
Context (Hok : vm_ok kend (n :: free) roots s) (Hrf : refs_inv kend (n :: free) roots Mp s).

Lemma mapped_ne k pa : Mp !! k = Some pa → pa ≠ n.
Proof. intros Hin ->. destruct (rf_page _ _ _ _ _ Hrf _ _ Hin) as (_ & Hnf & _). apply Hnf, list_elem_of_here. Qed.

Lemma zeroed_page : vm_ok kend free roots (zeroed n s) ∧
  user_page kend free roots (k_mem (zeroed n s)) n ∧
  (∀ r va, r ∈ roots → leaf (k_mem (zeroed n s)) r va = leaf (k_mem s) r va) ∧
  (∀ t, is_table (k_mem (zeroed n s)) roots t → is_table (k_mem s) roots t) ∧
  same_but (k_mem s) (k_mem (zeroed n s)) n ∧
  (∀ x, n <= x < n + PGSIZE → k_mem (zeroed n s) x = 0).
Proof.
  destruct (alloc_page Hk n Hok) as (K1 & U1 & S1 & L1 & T1).
  destruct (write_user_page n (memset (k_mem (allocated n s)) n 0 PGSIZE) K1 U1) as (K2 & S2 & L2 & T2);
    [apply same_but_memset|].
  split_and!; [done| | | | |].
  - destruct U1 as (? & ? & Hnt). split_and!; [assumption|assumption|]. intros Ht. by apply Hnt, T2.
  - intros r' va Hr'. unfold zeroed. simpl. rewrite L2 by done. by apply L1.
  - intros t Ht. by apply T1, T2.
  - eapply same_but_trans; apply same_but_memset.
  - intros x Hx. simpl. by rewrite memset_in.
Qed.

Lemma zeroed_same pg : pg mod PGSIZE = 0 → pg ≠ n → same_page (k_mem s) (k_mem (zeroed n s)) pg.
Proof.
  intros Hpg Hne x Hx. destruct zeroed_page as (_ & ([_ An] & _) & _ & _ & Hs & _).
  apply Hs. destruct (page_disjoint pg n Hpg An Hne); lia.
Qed.

Lemma zeroed_refs : refs_inv kend free roots Mp (zeroed n s).
Proof.
  destruct zeroed_page as (K & (Hn & _) & L & T & _). split.
  - intros k pa Hin. pose proof (rf_entry _ _ _ _ _ Hrf _ _ Hin) as He. eapply entry_leaf; [done|].
    by apply L, He.
  - intros k pa Hin. destruct (rf_page _ _ _ _ _ Hrf _ _ Hin) as (? & Hnf & ?).
    split_and!; [done|set_solver|]. by intros ?%T.
  - intros k pa Hin. simpl. rewrite fupd_ne; [by eapply rf_count|].
    intros E%(fn_inj Hk); [by eapply mapped_ne|by apply (rf_page _ _ _ _ _ Hrf _ _ Hin)|done].
Qed.
End fresh.

(** A page with one reference and its first mapping. *)
Lemma first_entry free Mp s k pa : refs_inv kend free roots Mp s → user_page kend free roots (k_mem s) pa →
  Mp !! k = None → entry_ok (k_mem s) roots k pa → counted Mp pa = 0%nat → fr s (fn pa) = 1 →
  refs_inv kend free roots (<[k := pa]> Mp) s.
Proof.
  intros Hrf Hpg Hnew He Hc H1. split.
  - intros k' pa' [[<- <-]|[_ Hk']]%lookup_insert_Some; [done|by apply Hrf].
  - intros k' pa' [[<- <-]|[_ Hk']]%lookup_insert_Some; [done|].
    by apply (rf_page _ _ _ _ _ Hrf _ _ Hk').
  - intros k' pa' Hk'. rewrite counted_insert by done.
    destruct (decide (pa = pa')) as [<-|Hne]; [lia|].
    apply lookup_insert_Some in Hk' as [[_ ?]|[_ Hk']]; [done|].
    rewrite (rf_count _ _ _ _ _ Hrf _ _ Hk'). lia.
Qed.

(** Mapping the fresh page, or failing to. *)
Record mapped_fresh (free' : list Z) (Mp : mappings) (v n perm : Z) (ok : bool) (s s' : kstate) : Prop := {
  mf_ok : vm_ok kend free' roots s';
  mf_refs : refs_inv kend free' roots (if ok then <[(r, v) := n]> Mp else Mp) s';
  mf_hart : k_hart s' = k_hart s;
  mf_lock : lock_kalloc s' = lock_kalloc s;
  mf_page : user_page kend free' roots (k_mem s') n;
  mf_one : fr s' (fn n) = 1;
  mf_none : ∀ k pa, Mp !! k = Some pa → pa ≠ n;
  mf_leaf : ∀ r' va, r' ∈ roots → va_ok va → leaf (k_mem s') r' va =
    map_range (leaf (k_mem s)) r (v * PGSIZE) (if ok then 1 else 0) n perm r' va;
  mf_zero : ∀ x, n <= x < n + PGSIZE → k_mem s' x = 0;
  mf_same : ∀ k pa, Mp !! k = Some pa → same_page (k_mem s) (k_mem s') pa;
}.

Lemma map_fresh n free s Mp v perm j : vm_ok kend (n :: free) roots s →
  refs_inv kend (n :: free) roots Mp s → unlocked s → va_ok (v * PGSIZE) →
  0 <= perm < 1024 → 0 < j < 10 → Z.testbit perm j = true →
  has (leaf (k_mem s) r (v * PGSIZE)) PTE_V = false →
  ∃ ok s' free', mappages r (v * PGSIZE) PGSIZE n perm (zeroed n s) =
    (Ret (if ok : bool then 0 else -1), s') ∧ mapped_fresh free' Mp v n perm ok s s'.
Proof.
  intros Hok Hrf Hu Hva Hperm Hj Hbit Hnv.
  destruct (zeroed_page Hok) as (K & U & L & T & Hsb & Hz). pose proof (zeroed_refs Hok Hrf) as Hrf1.
  assert (is_page n) as Hpg by (eapply ram_page_is_page; [done|apply U]).
  destruct (mappages_page Hk (roots := roots) free (zeroed n s) r (v * PGSIZE) n perm)
    as (ok & s' & f' & R & Tc & K' & HL & _); try done.
  { by apply unlocked_can_kalloc. } { unfold PGSIZE. by rewrite Z.mod_mul. } { by rewrite L. }
  exists ok, s', f'. split; [done|].
  assert (user_page kend f' roots (k_mem s') n) as U'.
  { destruct U as (? & Hnf & Hnt), (tc_free _ _ _ _ _ Tc) as [used ->].
    split_and!; [done|set_solver|]. by intros [?|?]%(tc_table _ _ _ _ _ Tc). }
  assert (∀ r' va, r' ∈ roots → va_ok va → leaf (k_mem s') r' va =
    map_range (leaf (k_mem s)) r (v * PGSIZE) (if ok then 1 else 0) n perm r' va) as HL'.
  { intros r' va Hr' Hva'. rewrite HL by done. unfold map_range. case_decide; [done|]. by apply L. }
  assert (∀ k pa, Mp !! k = Some pa → k ≠ (r, v)) as Hkne.
  { intros k pa Hin ->. pose proof (en_V _ _ _ _ (rf_entry _ _ _ _ _ Hrf _ _ Hin)) as HV.
    simpl in HV. congruence. }
  assert (refs_inv kend f' roots Mp s') as Hrf'.
  { eapply (refs_touch Hk K); [done|done|]. intros k pa Hin.
    pose proof (rf_entry _ _ _ _ _ Hrf _ _ Hin) as He. eapply entry_leaf; [done|].
    rewrite HL' by apply He. apply decide_False. intros [D1 D2]. apply (Hkne _ _ Hin).
    rewrite (surjective_pairing k). f_equal; [done|]. unfold PGSIZE in D2. destruct ok; lia. }
  assert (fr s' (fn n) = 1) as H1.
  { rewrite (tc_fr _ _ _ _ _ Tc); [simpl; apply fupd_eq|]. apply (fn_not_free Hk K); apply U. }
  split; try done.
  - destruct ok; [|done]. apply first_entry; try done.
    + destruct (Mp !! (r, v)) eqn:E; [|done]. by apply Hkne in E.
    + assert (leaf (k_mem s') r (v * PGSIZE) = mk_pte n perm) as E.
      { rewrite HL' by done. unfold map_range. rewrite decide_True by (unfold PGSIZE; lia).
        unfold PGSIZE. rewrite Z.div_mul by done. by rewrite Z.sub_diag, Z.add_0_r. }
      split; simpl; rewrite ?E; auto using mk_pte_range, mk_pte_V, mk_pte_pa.
      by eapply mk_pte_not_V.
    + apply counted_zero. intros k Hin. by apply (mapped_ne Hrf _ _ Hin).
  - by rewrite (tc_hart _ _ _ _ _ Tc).
  - by rewrite (tc_lock _ _ _ _ _ Tc).
  - intros k pa Hin. by apply (mapped_ne Hrf k).
  - intros x Hx. rewrite (tc_page _ _ _ _ _ Tc n); [by apply Hz|apply U..|done].
  - intros k pa Hin x Hx. destruct (rf_page _ _ _ _ _ Hrf1 _ _ Hin) as ([_ Ap] & Hnf & Hnt).
    rewrite (tc_page _ _ _ _ _ Tc pa Ap Hnt Hnf x Hx).
    by apply (zeroed_same Hok pa Ap (mapped_ne Hrf _ _ Hin)).
Qed.

(** What the loop of [uvmalloc] leaves for the pages [v, v + m), the pages from
    [v0] being those of the whole call. *)
Record grown (v0 v m perm : Z) (Mp Mp' : mappings) (free' : list Z) (ok : bool) (s s' : kstate) : Prop := {
  gw_ok : vm_ok kend free' roots s';
  gw_refs : refs_inv kend free' roots Mp' s';
  gw_hart : k_hart s' = k_hart s;
  gw_lock : lock_kalloc s' = lock_kalloc s;
  gw_keys : ∀ k, ¬ (k.1 = r ∧ v0 <= k.2 < v + m) ∨ ok = true ∧ ¬ (k.1 = r ∧ v <= k.2 < v + m) →
    Mp' !! k = Mp !! k;
  gw_same : ∀ k pa, Mp !! k = Some pa → is_Some (Mp' !! k) →
    same_page (k_mem s) (k_mem s') pa ∧ (ok = true → counted Mp' pa = counted Mp pa);
  gw_leaf : ∀ r' va, r' ∈ roots → va_ok va →
    ¬ (r' = r ∧ v0 <= va / PGSIZE < v + m) ∨ ok = true ∧ ¬ (r' = r ∧ v <= va / PGSIZE < v + m) →
    leaf (k_mem s') r' va = leaf (k_mem s) r' va;
  gw_new : ∀ i, v <= i < v + m → ok = true → ∃ pg, Mp' !! (r, i) = Some pg ∧ counted Mp' pg = 1%nat ∧
    leaf (k_mem s') r (i * PGSIZE) = mk_pte pg perm ∧ (∀ x, pg <= x < pg + PGSIZE → k_mem s' x = 0);
  gw_undo : ok = false → ∀ i, v0 <= i < v + m → Mp' !! (r, i) = None ∧
    has (leaf (k_mem s') r (i * PGSIZE)) PTE_V = false;
}.

(** Pages fit in [int] counts. *)
Lemma vpn_small v : v * PGSIZE <= MAXVA → v <= 67108864.
Proof. change MAXVA with 274877906944. unfold PGSIZE. lia. Qed.

Lemma PGROUNDUP_page v : 0 <= v → v * PGSIZE <= MAXVA → PGROUNDUP (v * PGSIZE) = v * PGSIZE.
Proof.
  intros H0 H%vpn_small. rewrite PGROUNDUP_spec by (unfold PGSIZE; lia). unfold PGSIZE. zdiv.
Qed.

(** [uvmdealloc] of whole pages. *)
Lemma uvmdealloc_pages v0 v s : 0 <= v0 <= v → v * PGSIZE <= MAXVA →
  uvmdealloc kend r (v * PGSIZE) (v0 * PGSIZE) s =
  (uvmunmap_loop kend (Z.to_nat (v - v0)) r (v0 * PGSIZE) ((v0 + Z.of_nat (Z.to_nat (v - v0))) * PGSIZE) true ;;;
   ret (v0 * PGSIZE)) s.
Proof.
  intros Hv Hmax. pose proof (vpn_small v Hmax). unfold uvmdealloc.
  destruct (Z.leb_spec (v * PGSIZE) (v0 * PGSIZE)) as [Hle|Hlt].
  { assert (v = v0) as -> by (unfold PGSIZE in *; lia). by rewrite Z.sub_diag. }
  assert (v0 * PGSIZE <= MAXVA) by (unfold PGSIZE in *; lia).
  rewrite !PGROUNDUP_page by lia. rewrite (proj2 (Z.ltb_lt _ _)) by done.
  replace ((v * PGSIZE - v0 * PGSIZE) / PGSIZE) with (v - v0)
    by (rewrite <-Z.mul_sub_distr_r; unfold PGSIZE; by rewrite Z.div_mul).
  rewrite i32_id, u64_id by lia. unfold bind.
  rewrite <-(Z2Nat.id (v - v0)) at 1 by lia.
  rewrite (uvmunmap_pages (kend := kend)); [done|lia|].
  rewrite Z2Nat.id by lia. unfold PGSIZE in *. lia.
Qed.

(** Undoing the pages [v0, v). *)
Lemma grow_undo v0 v m perm free s s1 Mp : vm_ok kend free roots s1 → refs_inv kend free roots Mp s1 →
  unlocked s1 → k_hart s1 = k_hart s → lock_kalloc s1 = lock_kalloc s →
  Z.of_nat (size Mp) < 2 ^ 31 → 0 <= v0 <= v → 1 <= m → (v + m) * PGSIZE <= MAXVA →
  (∀ r' va, r' ∈ roots → va_ok va → leaf (k_mem s1) r' va = leaf (k_mem s) r' va) →
  (∀ k pa, Mp !! k = Some pa → same_page (k_mem s) (k_mem s1) pa) →
  (∀ i, v <= i < v + m → has (leaf (k_mem s) r (i * PGSIZE)) PTE_V = false) →
  (∀ i, v0 <= i < v → is_Some (Mp !! (r, i))) →
  ∃ s' free' Mp', uvmdealloc kend r (v * PGSIZE) (v0 * PGSIZE) s1 = (Ret (v0 * PGSIZE), s') ∧
    grown v0 v m perm Mp Mp' free' false s s'.
Proof.
  intros Hok Hrf Hu Hh Hl Hsz Hv Hm Hmax HL Hsm Hnv Hall.
  assert (v * PGSIZE <= MAXVA) as Hmax' by (unfold PGSIZE in *; lia).
  destruct (uvmunmap_loop_free Hk (roots := roots) (Z.to_nat (v - v0)) free s1 Mp r v0)
    as (s' & f' & R & Hok' & Hrf' & Hh' & Hl' & Hf & HL' & Hp); try done; try lia.
  { rewrite Z2Nat.id by lia. unfold PGSIZE in *. lia. }
  { intros k [E Hk2]%elem_of_vkeys. rewrite (surjective_pairing k), E. apply Hall. lia. }
  exists s', f', (delete_keys (vkeys r v0 (Z.to_nat (v - v0))) Mp). split.
  { by rewrite uvmdealloc_pages, (bind_Ret _ _ _ _ _ R). }
  rewrite Z2Nat.id in HL' by lia.
  assert (∀ i, v <= i < v + m → Mp !! (r, i) = None) as Hnone.
  { intros i Hi. destruct (Mp !! (r, i)) as [pa'|] eqn:E; [|done].
    pose proof (rf_entry _ _ _ _ _ Hrf _ _ E) as He. pose proof (en_V _ _ _ _ He) as HV. simpl in HV.
    rewrite HL in HV by apply He. rewrite Hnv in HV by done. done. }
  split; try done.
  - congruence.
  - congruence.
  - intros k [Hno|[? _]]; [|done]. rewrite delete_keys_lookup, decide_False; [done|]. rewrite elem_of_vkeys. lia.
  - intros k pa Hin [x Hk'].
    rewrite delete_keys_lookup in Hk'. case_decide as D; [done|]. split; [|done].
    intros y Hy. destruct (rf_page _ _ _ _ _ Hrf _ _ Hin) as (Ap & _ & Hnt).
    rewrite (Hp pa); [by apply (Hsm _ _ Hin)|apply Ap|done| |done].
    apply (rf_page _ _ _ _ _ Hrf' k pa). by rewrite delete_keys_lookup, decide_False.
  - intros r' va Hr' Hva [Hno|[? _]]; [|done]. rewrite HL' by done.
    rewrite decide_False by lia. by apply HL.
  - intros _ i Hi. split.
    + rewrite delete_keys_lookup. case_decide as D; [done|]. apply Hnone.
      rewrite elem_of_vkeys in D. simpl in D. lia.
    + assert (va_ok (i * PGSIZE)) as Hva by (unfold va_ok, PGSIZE in *; lia).
      rewrite HL' by done. case_decide as D; [done|]. rewrite HL by done. apply Hnv.
      unfold PGSIZE in D. rewrite Z.div_mul in D by done. lia.
Qed.

(** One more page in front. *)
Lemma grown_cons v0 v m perm free1 Mp Mp' n f' ok s s1 s' : mapped_fresh free1 Mp v n perm true s s1 →
  v0 <= v → 0 <= m → (v + m + 1) * PGSIZE <= MAXVA → 0 <= v →
  grown v0 (v + 1) m perm (<[(r, v) := n]> Mp) Mp' f' ok s1 s' →
  Mp !! (r, v) = None → grown v0 v (m + 1) perm Mp Mp' f' ok s s'.
Proof.
  intros F Hv Hm Hmax Hv' G Hnone. pose proof (mf_leaf _ _ _ _ _ _ _ _ F) as HL.
  assert (∀ k, k ≠ (r, v) → <[(r, v) := n]> Mp !! k = Mp !! k) as Hins by (intros; by apply lookup_insert_ne).
  assert (∀ k, ¬ (k.1 = r ∧ v <= k.2 < v + (m + 1)) → k ≠ (r, v)) as Hkne by (intros k D ->; simpl in D; lia).
  split; try apply G.
  - by rewrite (gw_hart _ _ _ _ _ _ _ _ _ _ G), (mf_hart _ _ _ _ _ _ _ _ F).
  - by rewrite (gw_lock _ _ _ _ _ _ _ _ _ _ G), (mf_lock _ _ _ _ _ _ _ _ F).
  - intros k D. rewrite (gw_keys _ _ _ _ _ _ _ _ _ _ G) by (destruct D as [?|[??]]; [left; lia|right; split; [done|lia]]).
    apply Hins, Hkne. destruct D as [?|[??]]; lia.
  - intros k pa Hin Hk'. assert (k ≠ (r, v)) as Hne by (intros ->; congruence).
    assert (<[(r, v) := n]> Mp !! k = Some pa) as Hin' by (by rewrite Hins).
    destruct (gw_same _ _ _ _ _ _ _ _ _ _ G _ _ Hin' Hk') as [Hs Hc]. split.
    + intros x Hx. rewrite Hs by done. by apply (mf_same _ _ _ _ _ _ _ _ F k pa).
    + intros Eo. rewrite Hc, counted_insert by done.
      rewrite decide_False by (intros ->; by apply (mf_none _ _ _ _ _ _ _ _ F _ _ Hin)). lia.
  - intros r' va Hr' Hva D.
    rewrite (gw_leaf _ _ _ _ _ _ _ _ _ _ G r' va Hr' Hva) by (destruct D as [?|[??]]; [left; lia|right; split; [done|lia]]).
    rewrite HL by done. apply decide_False. unfold PGSIZE in *. intros [? ?].
    destruct D as [D|[? D]]; apply D; split; try done; zdiv.
  - intros i Hi Eo. destruct (decide (i = v)) as [->|Hne].
    + assert (Mp' !! (r, v) = Some n) as E.
      { rewrite (gw_keys _ _ _ _ _ _ _ _ _ _ G); [apply lookup_insert_eq|]. right. split; [done|simpl; lia]. }
      exists n. assert (<[(r, v) := n]> Mp !! (r, v) = Some n) as E' by apply lookup_insert_eq.
      destruct (gw_same _ _ _ _ _ _ _ _ _ _ G _ _ E') as [Hs Hc]; [by rewrite E|].
      split_and!; [done| | |].
      * rewrite Hc, counted_insert, decide_True by done.
        rewrite counted_zero; [done|]. intros k Hin. by apply (mf_none _ _ _ _ _ _ _ _ F _ _ Hin).
      * assert (va_ok (v * PGSIZE)) as Hva by (unfold va_ok, PGSIZE in *; lia).
        assert (v * PGSIZE / PGSIZE = v) as Ev by (unfold PGSIZE; by rewrite Z.div_mul).
        rewrite (gw_leaf _ _ _ _ _ _ _ _ _ _ G r _ Hr Hva) by (right; split; [done|rewrite Ev; lia]).
        rewrite HL by done. unfold map_range. rewrite decide_True by (unfold PGSIZE; lia).
        rewrite Ev. by rewrite Z.sub_diag, Z.add_0_r.
      * intros x Hx. rewrite Hs by done. by apply F.
    + apply (gw_new _ _ _ _ _ _ _ _ _ _ G); [lia|done].
  - intros Eo i Hi. apply (gw_undo _ _ _ _ _ _ _ _ _ _ G); [done|lia].
Qed.

(** Putting the page back when it could not be mapped. *)
Lemma put_back free' Mp v n perm s s1 : mapped_fresh free' Mp v n perm false s s1 → unlocked s →
  kfree kend n s1 = (Ret tt, freed n s1) ∧ vm_ok kend (n :: free') roots (freed n s1) ∧
  refs_inv kend (n :: free') roots Mp (freed n s1) ∧ unlocked (freed n s1) ∧
  (∀ r' va, r' ∈ roots → va_ok va → leaf (k_mem (freed n s1)) r' va = leaf (k_mem s) r' va) ∧
  (∀ k pa, Mp !! k = Some pa → same_page (k_mem s) (k_mem (freed n s1)) pa).
Proof.
  intros F Hu. pose proof (mf_ok _ _ _ _ _ _ _ _ F) as K. pose proof (mf_page _ _ _ _ _ _ _ _ F) as U.
  pose proof (mf_refs _ _ _ _ _ _ _ _ F) as Hrf.
  assert (unlocked s1) as Hu1 by (unfold unlocked; by rewrite (mf_hart _ _ _ _ _ _ _ _ F)).
  assert (∀ r' va, r' ∈ roots → va_ok va → leaf (k_mem (freed n s1)) r' va = leaf (k_mem s) r' va) as HL.
  { intros r' va Hr' Hva. rewrite (freed_leaf K U) by done. rewrite (mf_leaf _ _ _ _ _ _ _ _ F) by done.
    apply map_range_0. }
  assert (∀ k pa, Mp !! k = Some pa → pa ≠ n) as Hne by apply F.
  split_and!; try done.
  - apply kfree_last; [done|apply U|]. by rewrite (mf_one _ _ _ _ _ _ _ _ F).
  - by apply freed_ok.
  - split.
    + intros k pa Hin. pose proof (rf_entry _ _ _ _ _ Hrf _ _ Hin) as He. eapply entry_leaf; [done|].
      by apply (freed_leaf K U), He.
    + intros k pa Hin. destruct (rf_page _ _ _ _ _ Hrf _ _ Hin) as (? & ? & Hnt). pose proof (Hne _ _ Hin).
      split_and!; [done|set_solver|]. intros Ht. apply Hnt.
      eapply is_table_frame; [done|apply freed_same_but|apply U|apply U|done].
    + intros k pa Hin. simpl. rewrite fupd_ne; [by eapply rf_count|].
      intros E%(fn_inj Hk); [by eapply Hne|by apply (rf_page _ _ _ _ _ Hrf _ _ Hin)|apply U].
  - intros k pa Hin x Hx. destruct (rf_page _ _ _ _ _ Hrf _ _ Hin) as ([_ Ap] & _).
    rewrite (freed_page U pa Ap (Hne _ _ Hin) x Hx). by apply (mf_same _ _ _ _ _ _ _ _ F k pa).
Qed.

(** The permissions of [uvmalloc]'s mappings. *)
Definition uperm (xperm : Z) : Z := Z.lor (Z.lor PTE_R PTE_U) xperm.

Lemma uperm_range xperm : 0 <= xperm < 1024 → 0 <= uperm xperm < 1024.
Proof. intros H. by apply (lor_range _ _ 10). Qed.

Lemma uvmalloc_loop_run xperm newsz m : 0 <= xperm < 1024 → ∀ fuel free s Mp v0 v,
  (m <= fuel)%nat → vm_ok kend free roots s → refs_inv kend free roots Mp s → unlocked s →
  Z.of_nat (size Mp) + Z.of_nat m < 2 ^ 31 → 0 <= v0 <= v → (v + Z.of_nat m) * PGSIZE <= MAXVA →
  (v + Z.of_nat m - 1) * PGSIZE < newsz <= (v + Z.of_nat m) * PGSIZE →
  (∀ i, v <= i < v + Z.of_nat m → has (leaf (k_mem s) r (i * PGSIZE)) PTE_V = false) →
  (∀ i, v0 <= i < v → is_Some (Mp !! (r, i))) →
  ∃ ok s' free' Mp', uvmalloc_loop kend fuel r (v * PGSIZE) (v0 * PGSIZE) newsz xperm s =
      (Ret (if ok : bool then newsz else 0), s') ∧
    grown v0 v (Z.of_nat m) (uperm xperm) Mp Mp' free' ok s s'.
Proof.
  intros Hx. induction m as [|m IH]; intros fuel free s Mp v0 v Hfu Hok Hrf Hu Hsz Hv Hmax Hnew Hnv Hall.
  { exists true, s, free, Mp. split; [|split; try done; lia].
    destruct fuel; simpl; [done|]. by rewrite (proj2 (Z.ltb_ge _ _)) by (unfold PGSIZE in *; lia). }
  destruct fuel as [|fuel]; [lia|]. cbn [uvmalloc_loop].
  rewrite (proj2 (Z.ltb_lt _ _)) by (unfold PGSIZE in *; lia).
  destruct (list_cases free) as [->|(n & f & ->)].
  { erewrite bind_Ret; [|apply kalloc_empty; [by apply unlocked_can_kalloc|apply Hok]].
    rewrite Z.eqb_refl.
    destruct (grow_undo v0 v (Z.of_nat (S m)) (uperm xperm) [] s s Mp) as (s' & f' & Mp' & R & G);
      try done; try lia.
    exists false, s', f', Mp'. by rewrite (bind_Ret _ _ _ _ _ R). }
  assert (n ≠ 0) as Hn0 by (apply (ram_page_nonzero Hk), (added_facts Hok)).
  erewrite bind_Ret; [|apply (kalloc_some _ n); [by apply unlocked_can_kalloc|apply Hok|done]].
  rewrite (proj2 (Z.eqb_neq n 0)) by done.
  rewrite (bind_Ret _ _ _ _ _ (eq_refl : fill n 0 PGSIZE (allocated n s) = (Ret tt, zeroed n s))).
  fold (uperm xperm).
  destruct (map_fresh n f s Mp v (uperm xperm) 1) as (ok & s1 & f1 & R & F); try done.
  { unfold va_ok, PGSIZE in *. lia. } { by apply uperm_range. }
  { unfold uperm. by rewrite Z.lor_spec. } { apply Hnv. lia. }
  rewrite (bind_Ret _ _ _ _ _ R). destruct ok.
  - change (negb (0 =? 0)) with false. cbv iota.
    replace (v * PGSIZE + PGSIZE) with ((v + 1) * PGSIZE) by lia.
    assert (Mp !! (r, v) = None) as Hnone.
    { destruct (Mp !! (r, v)) eqn:E; [|done].
      pose proof (en_V _ _ _ _ (rf_entry _ _ _ _ _ Hrf _ _ E)) as HV. simpl in HV.
      rewrite Hnv in HV by lia. done. }
    destruct (IH fuel f1 s1 (<[(r, v) := n]> Mp) v0 (v + 1)) as (ok & s' & f' & Mp' & R' & G);
      try apply F; try lia.
    + unfold unlocked. rewrite (mf_hart _ _ _ _ _ _ _ _ F). apply Hu.
    + rewrite map_size_insert_None by done. lia.
    + intros i Hi. assert (va_ok (i * PGSIZE)) as Hva by (unfold va_ok, PGSIZE in *; lia).
      rewrite (mf_leaf _ _ _ _ _ _ _ _ F) by done. unfold map_range.
      rewrite decide_False by (unfold PGSIZE; lia). apply Hnv. lia.
    + intros i Hi. destruct (decide (i = v)) as [->|]; [by rewrite lookup_insert_eq|].
      rewrite lookup_insert_ne by congruence. apply Hall. lia.
    + exists ok, s', f', Mp'. split; [done|]. rewrite Nat2Z.inj_succ, <-Z.add_1_r.
      eapply grown_cons; [done|lia|lia|unfold PGSIZE in *; lia|lia|done|done].
  - change (negb (-1 =? 0)) with true. cbv iota.
    destruct (put_back _ _ _ _ _ _ _ F Hu) as (Rk & K1 & Rf1 & U1 & L1 & S1).
    rewrite (bind_Ret _ _ _ _ _ Rk).
    destruct (grow_undo v0 v (Z.of_nat (S m)) (uperm xperm) (n :: f1) s (freed n s1) Mp)
      as (s' & f' & Mp' & R' & G); try done; try lia; try apply F.
    exists false, s', f', Mp'. by rewrite (bind_Ret _ _ _ _ _ R').
Qed.

(** C16: [uvmalloc] from [oldsz] to [newsz] either returns [newsz] and maps every
    page of the new part, with the given permissions, to a zeroed page that no
    other mapping shares; or returns 0 and leaves no page of the new part
    mapped.  In both cases all other mappings, their pages' contents and
    reference counts are what they were, and the counts stay exact. *)
Theorem uvmalloc_grows free s Mp oldsz newsz xperm :
  vm_ok kend free roots s → refs_inv kend free roots Mp s → unlocked s →
  let v := pages_of oldsz in let v' := pages_of newsz in
  Z.of_nat (size Mp) + (v' - v) < 2 ^ 31 → 0 <= oldsz <= newsz → v < v' → v' * PGSIZE <= MAXVA →
  0 <= xperm < 1024 →
  (∀ i, v <= i < v' → has (leaf (k_mem s) r (i * PGSIZE)) PTE_V = false) →
  ∃ ok s' free' Mp', uvmalloc kend r oldsz newsz xperm s = (Ret (if ok : bool then newsz else 0), s') ∧
    grown v v (v' - v) (uperm xperm) Mp Mp' free' ok s s' ∧ unlocked s'.
Proof.
  intros Hok Hrf Hu v v' Hsz Hold Hlt Hmax Hx Hnv.
  assert (0 <= v) as Hv0 by (unfold v, pages_of, PGSIZE; zdiv).
  assert ((v' - 1) * PGSIZE < newsz <= v' * PGSIZE) as Hn by (unfold v', pages_of, PGSIZE; zdiv).
  unfold uvmalloc. rewrite (proj2 (Z.ltb_ge _ _)) by lia.
  assert (PGROUNDUP oldsz = v * PGSIZE) as ->.
  { pose proof (vpn_small v' Hmax). rewrite PGROUNDUP_spec by (unfold PGSIZE in *; lia).
    unfold v, pages_of, PGSIZE. replace (oldsz + 4096 - 1) with (oldsz + 4095) by lia. lia. }
  destruct (uvmalloc_loop_run xperm newsz (Z.to_nat (v' - v)) Hx
    (Z.to_nat ((newsz - v * PGSIZE) / PGSIZE + 1)) free s Mp v v) as (ok & s' & f' & Mp' & R & G); try done.
  all: rewrite ?Z2Nat.id by lia; rewrite ?Zplus_minus; try done; try lia.
  - unfold PGSIZE in *. apply Z2Nat.inj_le; zdiv.
  - rewrite Z2Nat.id in G by lia. exists ok, s', f', Mp'. split_and!; try done.
    unfold unlocked. by rewrite (gw_hart _ _ _ _ _ _ _ _ _ _ G).
Qed.
End grow.
