(* ===== verification/VmCopy.v ===== *)
(** * Copying between kernel and user memory: [copyin] and [copyout]

    A byte of user memory is the byte of physical memory its page table leads
    to.  [copyin] returns the bytes of a range, [copyout] replaces them; both
    go page by page and stop with -1 at the first page that is not mapped for
    the user.  [copyout] does not look at [PTE_W] or [PTE_COW], so it writes
    through to every process that shares the page. *)
From S2P Require Import Prelude Machine Cstring Spinlock Kalloc Vm VmMap VmSpec VmRefs Cow.

(** The physical page of a user address, 0 if it is not mapped. *)
Definition upa (m : mem) (r va : Z) : Z :=
  if bool_decide (va < MAXVA) && has (leaf m r va) PTE_V && has (leaf m r va) PTE_U
  then PTE2PA (leaf m r va) else 0.

(** The physical address of the byte at [va]. *)
Definition ubyte (m : mem) (r va : Z) : Z := upa m r va + va mod PGSIZE.

(** The [k] bytes at [va], as the process sees them. *)
Definition vbytes (m : mem) (r va : Z) (k : nat) : list Z := (λ i, m (ubyte m r (va + Z.of_nat i))) <$> seq 0 k.

Lemma upa_page m r va va' : va / PGSIZE = va' / PGSIZE → upa m r va = upa m r va'.
Proof.
  intros E. unfold upa. rewrite (leaf_page m r va va' E).
  assert (va < MAXVA ↔ va' < MAXVA) as Hi.
  { change MAXVA with 274877906944. unfold PGSIZE in E. split; zdiv. }
  by rewrite (bool_decide_ext _ _ Hi).
Qed.

Lemma bytes_app m a k l : bytes m a (k + l) = bytes m a k ++ bytes m (a + Z.of_nat k) l.
Proof.
  unfold bytes. rewrite seq_app, fmap_app. f_equal.
  replace (seq (0 + k) l) with (Nat.add k <$> seq 0 l) by (rewrite fmap_add_seq; f_equal; lia).
  rewrite <-list_fmap_compose.
  apply list_fmap_ext. intros i x _. simpl. f_equal. lia.
Qed.

Lemma vbytes_app m r va k l : vbytes m r va (k + l) = vbytes m r va k ++ vbytes m r (va + Z.of_nat k) l.
Proof.
  unfold vbytes. rewrite seq_app, fmap_app. f_equal.
  replace (seq (0 + k) l) with (Nat.add k <$> seq 0 l) by (rewrite fmap_add_seq; f_equal; lia).
  rewrite <-list_fmap_compose.
  apply list_fmap_ext. intros i x _. simpl. do 2 f_equal. lia.
Qed.

(** Within a page the bytes are consecutive. *)
Lemma ubyte_page m r va i : 0 <= i → va mod PGSIZE + i < PGSIZE →
  ubyte m r (va + i) = ubyte m r va + i.
Proof.
  intros Hi Hlt. unfold ubyte. unfold PGSIZE in *.
  rewrite (upa_page m r (va + i) va) by (unfold PGSIZE; zdiv). zdiv.
Qed.

Lemma vbytes_page m r va k : va mod PGSIZE + Z.of_nat k <= PGSIZE → vbytes m r va k = bytes m (ubyte m r va) k.
Proof.
  intros Hk. unfold vbytes, bytes. apply list_fmap_ext. intros i x Hx%lookup_seq.
  by rewrite ubyte_page by lia.
Qed.

Section copy.
Context {kend : Z} (Hk : KERNBASE <= kend) {roots : list Z} {r : Z} (Hr : r ∈ roots).

Lemma walkaddr_run free s va : vm_ok kend free roots s → walkaddr r va s = (Ret (upa (k_mem s) r va), s).
Proof.
  intros Hok. unfold walkaddr, upa. destruct (Z.leb_spec MAXVA va) as [H|H].
  { by rewrite bool_decide_false by lia. }
  rewrite bool_decide_true by done. rewrite (bind_Ret _ _ _ _ _ (walk_false r va s H)). cbn [andb].
  unfold leaf. destruct (slot (k_mem s) r va) as [a|] eqn:E; simpl; [|done].
  rewrite (proj2 (Z.eqb_neq a 0)) by exact (slot_nonzero (vm_pt _ _ _ _ Hok) Hr E Hk).
  unfold bind, rd64, gets. by destruct (has _ PTE_V), (has _ PTE_U).
Qed.

(** The part of a range that lies in its first page. *)
Definition chunk (va len : Z) : Z := Z.min (PGSIZE - va mod PGSIZE) len.

Lemma chunk_spec va len : 0 <= va < MAXVA → 0 < len →
  PGSIZE - (va - PGROUNDDOWN va) = PGSIZE - va mod PGSIZE ∧ 0 < chunk va len <= len ∧
  va mod PGSIZE + chunk va len <= PGSIZE ∧
  (chunk va len < len → u64 (PGROUNDDOWN va + PGSIZE) = va + chunk va len ∧ (va + chunk va len) mod PGSIZE = 0) ∧
  PGROUNDDOWN va / PGSIZE = va / PGSIZE.
Proof.
  intros Hva Hl. change MAXVA with 274877906944 in *. unfold chunk.
  rewrite PGROUNDDOWN_spec by lia. unfold PGSIZE. split_and!; try zdiv.
  intros Hlt. rewrite u64_id by zdiv. zdiv.
Qed.

Lemma copyin_loop_S fuel va len dst free s : vm_ok kend free roots s → 0 <= va < MAXVA → 0 < len →
  copyin_loop (S fuel) r va len dst s =
  if upa (k_mem s) r va =? 0 then (Ret (-1, dst), s)
  else copyin_loop fuel r (u64 (PGROUNDDOWN va + PGSIZE)) (len - chunk va len)
         (dst ++ vbytes (k_mem s) r va (Z.to_nat (chunk va len))) s.
Proof.
  intros Hok Hva Hl. destruct (chunk_spec va len Hva Hl) as (E1 & Hc & Hp & _ & E2).
  cbn [copyin_loop]. rewrite (proj2 (Z.leb_gt _ _)) by done.
  rewrite (bind_Ret _ _ _ _ _ (walkaddr_run free s _ Hok)). rewrite (upa_page _ _ _ _ E2).
  destruct (upa (k_mem s) r va =? 0) eqn:E; [done|]. unfold bind, gets. rewrite E1.
  fold (chunk va len). rewrite vbytes_page by (rewrite Z2Nat.id; lia).
  unfold ubyte. replace (va - PGROUNDDOWN va) with (va mod PGSIZE) by lia. done.
Qed.

(** Beyond [MAXVA] nothing is mapped. *)
Lemma walkaddr_big free s va : vm_ok kend free roots s → MAXVA <= va < 2 ^ 64 → walkaddr r (PGROUNDDOWN va) s = (Ret 0, s).
Proof.
  intros Hok Hva. rewrite (walkaddr_run free s _ Hok). unfold upa. rewrite bool_decide_false; [done|].
  change MAXVA with 274877906944 in *. rewrite PGROUNDDOWN_spec by lia. unfold PGSIZE. zdiv.
Qed.
Lemma upa_big m va : MAXVA <= va → upa m r va = 0.
Proof. intros Hva. unfold upa. by rewrite bool_decide_false by lia. Qed.

Lemma copyin_loop_run fuel : ∀ free s va len dst, vm_ok kend free roots s →
  0 <= len <= Z.of_nat fuel → 0 <= va → va + len <= 2 ^ 64 →
  ((∀ i, 0 <= i < len → upa (k_mem s) r (va + i) ≠ 0) →
   copyin_loop fuel r va len dst s = (Ret (0, dst ++ vbytes (k_mem s) r va (Z.to_nat len)), s)) ∧
  ((∃ i, 0 <= i < len ∧ upa (k_mem s) r (va + i) = 0) →
   ∃ l, copyin_loop fuel r va len dst s = (Ret (-1, l), s)).
Proof.
  induction fuel as [|fuel IH]; intros free s va len dst Hok Hl Hva Hmax.
  { assert (len = 0) as -> by lia. simpl. split; [by rewrite app_nil_r|intros (?&?&?); lia]. }
  destruct (Z.eq_dec len 0) as [->|Hl0].
  { simpl. split; [by rewrite app_nil_r|intros (?&?&?); lia]. }
  destruct (Z.le_gt_cases MAXVA va) as [Hbig|Hsmall].
  { cbn [copyin_loop]. rewrite (proj2 (Z.leb_gt _ _)) by lia.
    rewrite (bind_Ret _ _ _ _ _ (walkaddr_big free s va Hok ltac:(lia))). split; [|eauto].
    intros H. exfalso. apply (H 0); [lia|]. apply upa_big. lia. }
  rewrite (copyin_loop_S fuel va len dst free s) by (done || lia).
  destruct (chunk_spec va len) as (E1 & Hc & Hp & Hnext & E2); [lia..|].
  destruct (Z.eqb_spec (upa (k_mem s) r va) 0) as [E0|E0].
  { split; [|eauto]. intros H. exfalso. apply (H 0); [lia|]. by rewrite Z.add_0_r. }
  set (c := chunk va len) in *.
  destruct (Z.eq_dec c len) as [Ec|Ec].
  { rewrite Ec, Z.sub_diag. split.
    - intros _. by destruct fuel.
    - intros (i & Hi & E). exfalso. rewrite (upa_page _ _ (va + i) va) in E; [done|].
      unfold PGSIZE in *. zdiv. }
  destruct Hnext as [-> Hal]; [lia|].
  destruct (IH free s (va + c) (len - c) (dst ++ vbytes (k_mem s) r va (Z.to_nat c))) as [H1 H2]; try done; try lia.
  split.
  - intros H. rewrite H1.
    + rewrite <-app_assoc. do 4 f_equal.
      replace (va + c) with (va + Z.of_nat (Z.to_nat c)) by lia. rewrite <-vbytes_app. f_equal. lia.
    + intros i Hi. replace (va + c + i) with (va + (c + i)) by lia. apply H. lia.
  - intros (i & Hi & E). apply H2. destruct (Z.lt_ge_cases i c).
    + exfalso. rewrite (upa_page _ _ (va + i) va) in E; [done|]. unfold PGSIZE in *. zdiv.
    + exists (i - c). split; [lia|]. by replace (va + c + (i - c)) with (va + i) by lia.
Qed.

(** [copyin] returns 0 and exactly the bytes the process has at
    [srcva .. srcva + len), across page boundaries, when every one of them is on
    a page mapped for the user; it returns -1 when any is not; it changes
    nothing. *)
Lemma copyin_reads free s va len : vm_ok kend free roots s → 0 <= len → 0 <= va → va + len <= 2 ^ 64 →
  ((∀ i, 0 <= i < len → upa (k_mem s) r (va + i) ≠ 0) →
   copyin r va len s = (Ret (0, vbytes (k_mem s) r va (Z.to_nat len)), s)) ∧
  ((∃ i, 0 <= i < len ∧ upa (k_mem s) r (va + i) = 0) → ∃ l, copyin r va len s = (Ret (-1, l), s)).
Proof. intros. apply (copyin_loop_run _ free); [done|lia..]. Qed.

Lemma wr_bytes_lookup l : ∀ m a x,
  wr_bytes m a l x = if decide (a <= x) then default (m x) (l !! Z.to_nat (x - a)) else m x.
Proof.
  induction l as [|b l IH]; intros m a x; simpl.
  { by case_decide. }
  rewrite IH. unfold wr. destruct (Z.eqb_spec x a) as [->|Hne].
  - rewrite decide_False by lia. rewrite decide_True by lia. by rewrite Z.sub_diag.
  - repeat case_decide; try lia; try done.
    replace (Z.to_nat (x - a)) with (S (Z.to_nat (x - (a + 1)))) by lia. done.
Qed.

Lemma copyout_loop_S fuel va src free s : vm_ok kend free roots s → 0 <= va < MAXVA → src ≠ [] →
  let c := chunk va (Z.of_nat (length src)) in
  copyout_loop (S fuel) r va src s =
  if upa (k_mem s) r va =? 0 then (Ret (-1), s)
  else copyout_loop fuel r (u64 (PGROUNDDOWN va + PGSIZE)) (drop (Z.to_nat c) src)
         (set_mem (wr_bytes (k_mem s) (ubyte (k_mem s) r va) (take (Z.to_nat c) src)) s).
Proof.
  intros Hok Hva Hl c. assert (0 < Z.of_nat (length src)) as Hlen by (destruct src; [done|simpl; lia]).
  destruct (chunk_spec va _ Hva Hlen) as (E1 & Hc & Hp & _ & E2).
  cbn [copyout_loop]. rewrite bool_decide_false by done.
  rewrite (bind_Ret _ _ _ _ _ (walkaddr_run free s _ Hok)). rewrite (upa_page _ _ _ _ E2).
  destruct (upa (k_mem s) r va =? 0) eqn:E; [done|]. unfold bind, modify. rewrite E1.
  unfold ubyte. by replace (va - PGROUNDDOWN va) with (va mod PGSIZE) by lia.
Qed.

(** The pages of a range can be written: user pages, none of them twice. *)
Definition writable (free : list Z) (m : mem) (va len : Z) : Prop :=
  (∀ i, 0 <= i < len → user_page kend free roots m (upa m r (va + i))) ∧
  (∀ i j, 0 <= i < len → 0 <= j < len → upa m r (va + i) = upa m r (va + j) →
     (va + i) / PGSIZE = (va + j) / PGSIZE).

Lemma ubyte_inj free m va len i j : writable free m va len → 0 <= i < len → 0 <= j < len →
  ubyte m r (va + i) = ubyte m r (va + j) → i = j.
Proof.
  intros [Hu Hi] Hii Hjj E. unfold ubyte in E.
  destruct (Hu i Hii) as ([_ Ai] & _), (Hu j Hjj) as ([_ Aj] & _).
  assert (upa m r (va + i) = upa m r (va + j)) as Ep by (unfold PGSIZE in *; zdiv).
  pose proof (Hi i j Hii Hjj Ep). unfold PGSIZE in *. zdiv.
Qed.

(** Writing one chunk: bytes of one user page. *)
Lemma chunk_write free s va l : vm_ok kend free roots s → user_page kend free roots (k_mem s) (upa (k_mem s) r va) →
  va mod PGSIZE + Z.of_nat (length l) <= PGSIZE →
  let m' := wr_bytes (k_mem s) (ubyte (k_mem s) r va) l in
  vm_ok kend free roots (set_mem m' s) ∧
  (∀ r' va', r' ∈ roots → leaf m' r' va' = leaf (k_mem s) r' va') ∧
  (∀ t, is_table m' roots t → is_table (k_mem s) roots t) ∧
  (∀ i, 0 <= i < Z.of_nat (length l) → m' (ubyte (k_mem s) r va + i) = default 0 (l !! Z.to_nat i)) ∧
  (∀ x, ¬ (ubyte (k_mem s) r va <= x < ubyte (k_mem s) r va + Z.of_nat (length l)) → m' x = k_mem s x).
Proof.
  intros Hok Hu Hl m'. set (a := ubyte (k_mem s) r va) in *.
  assert (∀ x, ¬ (a <= x < a + Z.of_nat (length l)) → m' x = k_mem s x) as Hout.
  { intros x Hx. unfold m'. rewrite wr_bytes_lookup. case_decide; [|done].
    by rewrite lookup_ge_None_2 by lia. }
  assert (same_but (k_mem s) m' (upa (k_mem s) r va)) as Hs.
  { intros x Hx. apply Hout. unfold a, ubyte. unfold PGSIZE in *. assert (0 <= va mod 4096) by zdiv. lia. }
  destruct (write_user_page (upa (k_mem s) r va) m' Hok Hu Hs) as (K & _ & L & T).
  split_and!; try done. intros i Hi. unfold m'. rewrite wr_bytes_lookup, decide_True by lia.
  replace (a + i - a) with i by lia.
  destruct (lookup_lt_is_Some_2 l (Z.to_nat i)) as [x ->]; [lia|done].
Qed.

(** What a complete [copyout] does to memory. *)
Record written (free : list Z) (va : Z) (src : list Z) (s s' : kstate) : Prop := {
  wt_ok : vm_ok kend free roots s';
  wt_leaf : ∀ r' va', r' ∈ roots → leaf (k_mem s') r' va' = leaf (k_mem s) r' va';
  wt_table : ∀ t, is_table (k_mem s') roots t → is_table (k_mem s) roots t;
  wt_in : ∀ i, 0 <= i < Z.of_nat (length src) →
    k_mem s' (ubyte (k_mem s) r (va + i)) = default 0 (src !! Z.to_nat i);
  wt_out : ∀ x, (∀ i, 0 <= i < Z.of_nat (length src) → x ≠ ubyte (k_mem s) r (va + i)) →
    k_mem s' x = k_mem s x;
  wt_rest : k_hart s' = k_hart s ∧ freelist s' = freelist s ∧ fr s' = fr s ∧ lock_kalloc s' = lock_kalloc s;
}.

Lemma upa_leaf m m' r' va : leaf m' r' va = leaf m r' va → upa m' r' va = upa m r' va.
Proof. unfold upa. by intros ->. Qed.

(** The first chunk and the rest. *)
Lemma written_app free va l1 l2 s s1 s' : vm_ok kend free roots s →
  writable free (k_mem s) va (Z.of_nat (length (l1 ++ l2))) →
  written free va l1 s s1 → written free (va + Z.of_nat (length l1)) l2 s1 s' →
  written free va (l1 ++ l2) s s'.
Proof.
  intros Hok Hw W1 W2.
  assert (∀ v, ubyte (k_mem s1) r v = ubyte (k_mem s) r v) as Hub.
  { intros v. unfold ubyte. by rewrite (upa_leaf _ _ _ _ (wt_leaf _ _ _ _ _ W1 r v Hr)). }
  rewrite length_app, Nat2Z.inj_add in Hw. split; [apply W2|..].
  - intros r' va' Hr'. by rewrite (wt_leaf _ _ _ _ _ W2), (wt_leaf _ _ _ _ _ W1).
  - intros t Ht. by apply (wt_table _ _ _ _ _ W1), (wt_table _ _ _ _ _ W2).
  - intros i Hi. rewrite length_app in Hi.
    destruct (Z.lt_ge_cases i (Z.of_nat (length l1))) as [Hlt|Hge].
    + rewrite (wt_out _ _ _ _ _ W2).
      * rewrite (wt_in _ _ _ _ _ W1) by lia. by rewrite lookup_app_l by lia.
      * intros j Hj. rewrite Hub, <-Z.add_assoc. intros E.
        apply (ubyte_inj _ _ _ _ _ _ Hw) in E; lia.
    + pose proof (wt_in _ _ _ _ _ W2 (i - Z.of_nat (length l1))) as E. rewrite Hub in E.
      replace (va + Z.of_nat (length l1) + (i - Z.of_nat (length l1))) with (va + i) in E by lia.
      rewrite E by lia. rewrite lookup_app_r by lia. do 2 f_equal. lia.
  - intros x Hx. rewrite length_app in Hx. rewrite (wt_out _ _ _ _ _ W2), (wt_out _ _ _ _ _ W1); [done|..].
    + intros i Hi. apply Hx. lia.
    + intros i Hi. rewrite Hub, <-Z.add_assoc. apply Hx. lia.
  - destruct (wt_rest _ _ _ _ _ W1) as (?&?&?&?), (wt_rest _ _ _ _ _ W2) as (?&?&?&?).
    split_and!; congruence.
Qed.

Lemma chunk_written free s va l : vm_ok kend free roots s →
  user_page kend free roots (k_mem s) (upa (k_mem s) r va) →
  va mod PGSIZE + Z.of_nat (length l) <= PGSIZE →
  written free va l s (set_mem (wr_bytes (k_mem s) (ubyte (k_mem s) r va) l) s).
Proof.
  intros Hok Hu Hl. destruct (chunk_write free s va l Hok Hu Hl) as (K & L & T & Hin & Hout).
  split; try done.
  - intros i Hi. rewrite ubyte_page by lia. by apply Hin.
  - intros x Hx. apply Hout. intros Hr'. apply (Hx (x - ubyte (k_mem s) r va)); [lia|].
    rewrite ubyte_page by lia. lia.
Qed.

Lemma copyout_loop_run fuel : ∀ free s va src, vm_ok kend free roots s → (length src <= fuel)%nat →
  0 <= va → va + Z.of_nat (length src) <= MAXVA →
  writable free (k_mem s) va (Z.of_nat (length src)) →
  ∃ s', copyout_loop fuel r va src s = (Ret 0, s') ∧ written free va src s s'.
Proof.
  induction fuel as [|fuel IH]; intros free s va src Hok Hl Hva Hmax Hw.
  { destruct src; [|simpl in Hl; lia]. exists s. split; [done|]. split; done || (simpl; lia). }
  destruct (decide (src = [])) as [->|Hne].
  { exists s. split; [done|]. split; done || (simpl; lia). }
  assert (0 < Z.of_nat (length src)) as Hlen by (destruct src; [done|simpl; lia]).
  rewrite (copyout_loop_S fuel va src free s) by (done || lia).
  destruct (chunk_spec va (Z.of_nat (length src))) as (E1 & Hc & Hp & Hnext & E2); [lia..|].
  set (c := chunk va _) in *. pose proof (proj1 Hw 0 ltac:(lia)) as Hu. rewrite Z.add_0_r in Hu.
  rewrite (proj2 (Z.eqb_neq _ _)) by (apply (ram_page_nonzero Hk), Hu).
  assert (length (take (Z.to_nat c) src) = Z.to_nat c) as Elen by (rewrite length_take; lia).
  pose proof (chunk_written free s va (take (Z.to_nat c) src) Hok Hu) as W.
  rewrite Elen in W. specialize (W ltac:(lia)). set (s1 := set_mem _ s) in *.
  assert (∀ v, upa (k_mem s1) r v = upa (k_mem s) r v) as Hup.
  { intros v. by apply upa_leaf, W. }
  assert (Z.of_nat (length (drop (Z.to_nat c) src)) = Z.of_nat (length src) - c) as Ed by (rewrite length_drop; lia).
  destruct (Z.eq_dec c (Z.of_nat (length src))) as [Ec|Ec].
  { rewrite drop_ge, take_ge in * by lia. exists s1. split; [by destruct fuel|done]. }
  destruct Hnext as [-> Hal]; [lia|].
  destruct (IH free s1 (va + c) (drop (Z.to_nat c) src)) as (s' & R & W'); try apply W; try lia.
  - rewrite Ed. split.
    + intros i Hi. rewrite Hup, <-Z.add_assoc. destruct (proj1 Hw (c + i)) as (? & ? & Hnt); [lia|].
      split_and!; try done. intros Ht. by apply Hnt, (wt_table _ _ _ _ _ W).
    + intros i j Hi Hj. rewrite !Hup, <-!Z.add_assoc. apply Hw; lia.
  - exists s'. split; [done|]. rewrite <-(take_drop (Z.to_nat c) src).
    eapply written_app; [done|by rewrite take_drop|done|]. rewrite Elen. by replace (Z.of_nat (Z.to_nat c)) with c by lia.
Qed.

(** What [copyout] stores, [copyin] of the same range reads back, wherever
    the page boundaries are, when the range is mapped to user pages none of
    which appears twice in it; every byte of memory outside the range, all page
    tables and the CPU are unchanged. *)
Lemma copyout_copyin_roundtrip free s va src :
  vm_ok kend free roots s → 0 <= va → va + Z.of_nat (length src) <= MAXVA →
  writable free (k_mem s) va (Z.of_nat (length src)) →
  ∃ s', bind (copyout r va src) (λ rc, bind (copyin r va (Z.of_nat (length src))) (λ x, ret (rc, x))) s =
      (Ret (0, (0, src)), s') ∧ written free va src s s'.
Proof.
  intros Hok Hva Hmax Hw. assert (va + Z.of_nat (length src) <= 2 ^ 64) as Hmax64 by (change MAXVA with 274877906944 in Hmax; lia).
  destruct (copyout_loop_run (length src) free s va src) as (s' & R & W); try done.
  exists s'. split; [|done]. unfold copyout. rewrite (bind_Ret _ _ _ _ _ R).
  assert (∀ v, upa (k_mem s') r v = upa (k_mem s) r v) as Hup by (intros v; by apply upa_leaf, W).
  destruct (copyin_loop_run (Z.to_nat (Z.of_nat (length src))) free s' va (Z.of_nat (length src)) [])
    as [H _]; try apply W; try lia.
  unfold copyin. erewrite bind_Ret; [|apply H].
  2:{ intros i Hi. rewrite Hup. apply (ram_page_nonzero Hk), Hw. done. }
  unfold ret. do 4 f_equal. rewrite Nat2Z.id. apply list_eq_same_length with (length src); [done|..].
  { simpl. unfold vbytes. by rewrite length_fmap, length_seq. }
  intros i x y Hi Hx Hy. simpl in Hx. unfold vbytes in Hx. rewrite list_lookup_fmap, lookup_seq_lt in Hx by done.
  simpl in Hx. simplify_eq. unfold ubyte. rewrite Hup. fold (ubyte (k_mem s) r (va + Z.of_nat i)).
  rewrite (wt_in _ _ _ _ _ W) by lia. rewrite Nat2Z.id. by rewrite Hy.
Qed.

(** [copyout] tests neither [PTE_W] nor [PTE_COW]: a byte stored through one
    address space into a copy-on-write page is the byte every other process that
    shares the page then reads, although no fault and no copy took place. *)
Lemma copyout_writes_shared free s va b r' va' :
  vm_ok kend free roots s → r' ∈ roots → va_ok va → user_page kend free roots (k_mem s) (upa (k_mem s) r va) →
  has (leaf (k_mem s) r va) PTE_W = false → has (leaf (k_mem s) r va) PTE_COW = true →
  upa (k_mem s) r' va' = upa (k_mem s) r va → va' mod PGSIZE = va mod PGSIZE →
  ∃ s', copyout r va [b] s = (Ret 0, s') ∧ k_mem s' (ubyte (k_mem s') r' va') = b.
Proof.
  intros Hok Hr' Hva Hu _ _ Ep Em.
  destruct (copyout_loop_run 1 free s va [b]) as (s' & R & W); try done.
  { apply Hva. } { destruct Hva. simpl. lia. }
  { split; simpl.
    - intros i Hi. by replace (va + i) with va by lia.
    - intros i j Hi Hj _. by replace j with i by lia. }
  exists s'. split; [done|]. unfold ubyte. rewrite (upa_leaf _ _ _ _ (wt_leaf _ _ _ _ _ W r' va' Hr')), Ep, Em.
  pose proof (wt_in _ _ _ _ _ W 0) as E. rewrite Z.add_0_r in E. apply E. simpl. lia.
Qed.

(** The address space [r] maps user pages only, and none of them twice. *)
Record aspace (free : list Z) (s : kstate) : Prop := {
  as_ok : vm_ok kend free roots s;
  as_user : ∀ va, 0 <= va → upa (k_mem s) r va ≠ 0 → user_page kend free roots (k_mem s) (upa (k_mem s) r va);
  as_inj : ∀ va va', 0 <= va → 0 <= va' → upa (k_mem s) r va ≠ 0 → upa (k_mem s) r va = upa (k_mem s) r va' →
    va / PGSIZE = va' / PGSIZE;
}.

Lemma aspace_writable free s va len : aspace free s → 0 <= va → (∀ i, 0 <= i < len → upa (k_mem s) r (va + i) ≠ 0) →
  writable free (k_mem s) va len.
Proof. intros A Hva Hm. split; [intros i Hi; apply A; [lia|auto]|intros i j Hi Hj E; apply (as_inj _ _ A); [lia|lia|auto|done]]. Qed.

Lemma written_aspace free va src s s' : aspace free s → written free va src s s' → aspace free s'.
Proof.
  intros A W. assert (∀ v, upa (k_mem s') r v = upa (k_mem s) r v) as Hup by (intros v; by apply upa_leaf, W).
  split; [apply W|..].
  - intros v Hv. rewrite Hup. intros Hnz. destruct (as_user _ _ A v Hv Hnz) as (? & ? & Hnt).
    split_and!; try done. intros Ht. by apply Hnt, (wt_table _ _ _ _ _ W).
  - intros v v' Hv Hv'. rewrite !Hup. by apply A.
Qed.

(** [copyout] writes the range up to its first byte that is not mapped, at a page boundary. *)
Lemma copyout_loop_any fuel : ∀ free s va src, aspace free s → (length src <= fuel)%nat →
  0 <= va → va + Z.of_nat (length src) <= 2 ^ 64 →
  ∃ s' k, (k <= length src)%nat ∧ written free va (take k src) s s' ∧ (∀ i, 0 <= i < Z.of_nat k → upa (k_mem s) r (va + i) ≠ 0) ∧
    ((k = length src ∧ copyout_loop fuel r va src s = (Ret 0, s')) ∨
     ((k < length src)%nat ∧ copyout_loop fuel r va src s = (Ret (-1), s') ∧ upa (k_mem s) r (va + Z.of_nat k) = 0)).
Proof.
  induction fuel as [|fuel IH]; intros free s va src A Hl Hva Hmax; pose proof (as_ok _ _ A) as Hok.
  { destruct src; [|simpl in Hl; lia]. exists s, 0%nat. split_and!; [lia|by split; done || (simpl; lia)|lia|by left]. }
  destruct (decide (src = [])) as [->|Hne].
  { exists s, 0%nat. split_and!; [lia|by split; done || (simpl; lia)|lia|by left]. }
  assert (0 < Z.of_nat (length src)) as Hlen by (destruct src; [done|simpl; lia]).
  assert (upa (k_mem s) r va = 0 → copyout_loop (S fuel) r va src s = (Ret (-1), s)) as Hfail.
  { intros E. destruct (Z.le_gt_cases MAXVA va); [|by rewrite (copyout_loop_S fuel va src free s), E by (done || lia)].
    cbn [copyout_loop]. rewrite bool_decide_false by done. by rewrite (bind_Ret _ _ _ _ _ (walkaddr_big free s va Hok ltac:(lia))). }
  destruct (Z.eq_dec (upa (k_mem s) r va) 0) as [E0|E0].
  { exists s, 0%nat. rewrite Z.add_0_r. split_and!; [lia|by split; done || (simpl; lia)|lia|right; split_and!; [lia|by apply Hfail|done]]. }
  assert (va < MAXVA) as Hsmall by (destruct (Z.le_gt_cases MAXVA va); [by destruct E0; apply upa_big|done]).
  rewrite (copyout_loop_S fuel va src free s) by (done || lia). rewrite (proj2 (Z.eqb_neq _ _) E0).
  destruct (chunk_spec va (Z.of_nat (length src))) as (E1 & Hc & Hp & Hnext & E2); [lia..|].
  set (c := chunk va _) in *. assert (length (take (Z.to_nat c) src) = Z.to_nat c) as Elen by (rewrite length_take; lia).
  pose proof (chunk_written free s va (take (Z.to_nat c) src) Hok (as_user _ _ A va Hva E0)) as W.
  rewrite Elen in W. specialize (W ltac:(lia)). set (s1 := set_mem _ s) in *.
  assert (∀ v, upa (k_mem s1) r v = upa (k_mem s) r v) as Hup by (intros v; by apply upa_leaf, W).
  assert (∀ i, 0 <= i < c → upa (k_mem s) r (va + i) ≠ 0) as Hin.
  { intros i Hi. rewrite (upa_page _ _ (va + i) va); [done|]. unfold PGSIZE in *. zdiv. }
  destruct (Z.eq_dec c (Z.of_nat (length src))) as [Ec|Ec].
  { exists s1, (length src). rewrite drop_ge by lia. rewrite take_ge in * by lia.
    split_and!; [lia|done|intros; apply Hin; lia|left; split; [done|by destruct fuel]]. }
  destruct Hnext as [-> Hal]; [lia|].
  destruct (IH free s1 (va + c) (drop (Z.to_nat c) src)) as (s' & k & Hk' & W' & Hm & Hres); [by eapply written_aspace|rewrite ?length_drop; lia..|].
  exists s', (Z.to_nat c + k)%nat. rewrite length_drop in Hk', Hres.
  assert (∀ i, 0 <= i < Z.of_nat (Z.to_nat c + k) → upa (k_mem s) r (va + i) ≠ 0) as Hm'.
  { intros i Hi. destruct (Z.lt_ge_cases i c); [apply Hin; lia|]. pose proof (Hm (i - c) ltac:(lia)) as Hx.
    rewrite Hup in Hx. by replace (va + c + (i - c)) with (va + i) in Hx by lia. }
  split_and!; [lia| |done|].
  - rewrite <-take_take_drop. eapply (written_app free va (take (Z.to_nat c) src) _ s s1); [done| |done|rewrite Elen, Z2Nat.id by lia; done].
    rewrite take_take_drop, length_take. apply aspace_writable; [done|done|]. intros i Hi. apply Hm'. lia.
  - destruct Hres as [[-> R]|(Hlt & R & Hz)]; [left|right]; split_and!; [lia|done|lia|done|].
    rewrite Hup in Hz. rewrite <-Hz. f_equal. lia.
Qed.
End copy.
