(* ===== verification/VmDemo.v ===== *)
(** * A machine with two address spaces

    A concrete machine on which the theorems about the page allocator and the
    page tables apply: sixteen pages of RAM, two page tables, two user pages,
    one of them shared copy-on-write by both address spaces. *)
From S2P Require Import Prelude Machine Cstring Spinlock Kalloc Vm VmMap VmSpec VmRefs Cow VmAlloc VmCopy.

Definition kd : Z := PHYSTOP - 16 * PGSIZE.
Definition pg (i : Z) : Z := kd + i * PGSIZE.
Definition rootA : Z := pg 15.
Definition rootB : Z := pg 14.
Definition userU : Z := pg 13.
Definition userV : Z := pg 12.
Definition rts : list Z := [rootA; rootB].
Definition fl : list Z := pg <$> seqZ 0 12.

(** Zeroed memory with the pages [l] linked in a free list. *)
Fixpoint chain_mem (l : list Z) : mem :=
  match l with [] => λ _, 0 | p :: l' => store64 (chain_mem l') p (default 0 (head l')) end.

Definition base : kstate := KState (Hart 0 false false []) (chain_mem fl) (pg 0) (λ _, 0) 1.

Lemma chain_mem_zero l x : (∀ p, p ∈ l → ¬ (p <= x < p + 8)) → chain_mem l x = 0.
Proof.
  induction l as [|p l IH]; intros H; simpl; [done|].
  unfold store64. rewrite store_other; [apply IH|]; set_solver.
Qed.

Lemma chain_mem_ok l : NoDup l → (∀ p, p ∈ l → is_page p) → free_chain (chain_mem l) (default 0 (head l)) l.
Proof.
  induction l as [|p l IH]; intros Hd Hp; [done|]. apply NoDup_cons in Hd as [Hn Hd]. simpl.
  split; [done|]. assert (∀ q, q ∈ l → is_page q) as Hp' by set_solver.
  rewrite load64_store64.
  2:{ destruct l as [|q l]; simpl; [done|]. destruct (Hp' q) as [? _]; [set_solver|]. lia. }
  eapply free_chain_ext; [|by apply IH]. intros q Hq.
  eapply same_but_load64; [apply same_but_store64|apply Hp; set_solver|by apply Hp'|set_solver].
Qed.

Lemma elem_of_fl p : p ∈ fl → ∃ i, p = pg i ∧ 0 <= i < 12.
Proof. unfold fl. rewrite list_elem_of_fmap. intros (i & -> & Hi%elem_of_seqZ). exists i. lia. Qed.

Lemma pg_ram i : 0 <= i < 16 → ram_page kd (pg i).
Proof.
  intros Hi. unfold ram_page, pg. change kd with 2281635840. change PHYSTOP with 2281701376. unfold PGSIZE.
  split; [lia|]. zdiv.
Qed.

Lemma pg_inj i j : pg i = pg j → i = j.
Proof. unfold pg, PGSIZE. lia. Qed.

Lemma kd_ok : KERNBASE <= kd.
Proof. done. Qed.

Lemma base_kmem : kmem_inv kd fl base.
Proof.
  assert (NoDup fl) as Hd.
  { unfold fl. apply NoDup_fmap_2_strong; [|apply NoDup_seqZ]. intros ???? E. by apply pg_inj. }
  split; [|done| |done].
  - refine (chain_mem_ok fl Hd _). intros p (i & -> & Hi)%elem_of_fl. apply (ram_page_is_page kd_ok), pg_ram. lia.
  - intros p (i & -> & Hi)%elem_of_fl. apply pg_ram. lia.
Qed.

(** The pages that are not in the free list are zero. *)
Lemma base_zero i x : 12 <= i < 16 → pg i <= x < pg i + PGSIZE → k_mem base x = 0.
Proof.
  intros Hi Hx. apply chain_mem_zero. intros p (j & -> & Hj)%elem_of_fl. unfold pg, PGSIZE in *. lia.
Qed.

Lemma base_nxt r j : r ∈ rts → idx j → nxt (k_mem base) r j = None.
Proof.
  intros Hr Hj. unfold nxt, load64. rewrite load_zero; [done|]. unfold idx in Hj. intros x Hx.
  assert (∃ i, 12 <= i < 16 ∧ r = pg i) as (i & Hi & ->).
  { unfold rts in Hr. set_unfold in Hr. destruct Hr as [->|[->|[]]]; [by exists 15|by exists 14]. }
  apply (base_zero i); [done|]. unfold PGSIZE. lia.
Qed.

Lemma base_table r p t : table_of (k_mem base) rts r p t → p = [] ∧ t = r.
Proof.
  intros (Hr & Hf & _ & Ht). destruct p as [|j p]; simpl in Ht; [by simplify_eq|].
  inversion Hf; subst. by rewrite base_nxt in Ht.
Qed.

Lemma rts_page r : r ∈ rts → ∃ i, 14 <= i < 16 ∧ r = pg i.
Proof. unfold rts. set_unfold. intros [->|[->|[]]]; [by exists 15|by exists 14]. Qed.

Lemma base_ok : vm_ok kd fl rts base.
Proof.
  split; [apply base_kmem|]. split.
  - intros r p t Ht. pose proof Ht as (Hr & _). apply base_table in Ht as [-> ->].
    apply rts_page in Hr as (i & Hi & ->). split; [apply pg_ram; lia|].
    intros (j & E%pg_inj & Hj)%elem_of_fl. lia.
  - intros r p t r' p' [-> ->]%base_table [-> ->]%base_table. done.
Qed.

Lemma base_unlocked : unlocked base.
Proof. split_and!; [split_and!; simpl; try done; constructor|..]; by intros ?%elem_of_nil. Qed.

Lemma base_leaf r va : r ∈ rts → leaf (k_mem base) r va = 0.
Proof.
  intros Hr. unfold leaf, slot, path_of. cbn [tbl]. by rewrite base_nxt by (done || apply PX_bound; lia).
Qed.

Lemma base_user i : 12 <= i < 14 → user_page kd fl rts (k_mem base) (pg i).
Proof.
  intros Hi. split_and!; [apply pg_ram; lia| |].
  - intros (j & E%pg_inj & Hj)%elem_of_fl. lia.
  - intros (r & p & Ht). pose proof Ht as (Hr & _). apply base_table in Ht as [-> E].
    apply rts_page in Hr as (j & Hj & ->). apply pg_inj in E. lia.
Qed.

Lemma base_refs : refs_inv kd fl rts ∅ base.
Proof. split; intros k pa H; by rewrite lookup_empty in H. Qed.

(** A user page mapped and counted. *)
Lemma demo_map free s Mp r v p perm j : vm_ok kd free rts s → refs_inv kd free rts Mp s → unlocked s →
  r ∈ rts → va_ok (v * PGSIZE) → user_page kd free rts (k_mem s) p → fr s (fn p) = Z.of_nat (counted Mp p) →
  0 <= perm < 1024 → 0 < j < 10 → Z.testbit perm j = true →
  has (leaf (k_mem s) r (v * PGSIZE)) PTE_V = false → Mp !! (r, v) = None → (2 <= length free)%nat →
  ∃ free' s', vm_ok kd free' rts s' ∧ refs_inv kd free' rts (<[(r, v) := p]> Mp) s' ∧ unlocked s' ∧
    (length free <= length free' + 2)%nat ∧
    (∀ q, user_page kd free rts (k_mem s) q → user_page kd free' rts (k_mem s') q ∧
       (q ≠ p → fr s' (fn q) = fr s (fn q))) ∧
    fr s' (fn p) = fr s (fn p) + 1 ∧
    (∀ r' va, r' ∈ rts → va_ok va → leaf (k_mem s') r' va =
       map_range (leaf (k_mem s)) r (v * PGSIZE) 1 p perm r' va).
Proof.
  intros Hok Hrf Hu Hr Hva Hp Hfr Hperm Hj Hb Hnv Hnone Hlen. pose proof kd_ok as Hk.
  assert (is_page p) as Hpg by (eapply ram_page_is_page; [done|apply Hp]).
  destruct (mappages_page Hk (roots := rts) free s r (v * PGSIZE) p perm)
    as (ok & s1 & f1 & R & T & K & HL & Hok1 & Hf1); try done.
  { by apply unlocked_can_kalloc. } { unfold PGSIZE. by rewrite Z.mod_mul. }
  rewrite Hok1 in HL by done. clear Hok1 R ok.
  assert (∀ q, user_page kd free rts (k_mem s) q → user_page kd f1 rts (k_mem s1) q ∧ fr s1 (fn q) = fr s (fn q)) as Hq.
  { intros q (Hra & Hnf & Hnt). destruct (tc_free _ _ _ _ _ T) as [used E]. split.
    - split_and!; [done|set_solver|]. by intros [?|?]%(tc_table _ _ _ _ _ T).
    - apply (tc_fr _ _ _ _ _ T). by apply (fn_not_free Hk Hok). }
  assert (refs_inv kd f1 rts Mp s1) as Hrf1.
  { eapply (refs_touch Hk Hok); [done|done|]. intros k pa Hin.
    pose proof (rf_entry _ _ _ _ _ Hrf _ _ Hin) as He. eapply entry_leaf; [done|].
    rewrite HL by apply He. apply decide_False. intros [D1 D2].
    assert (k = (r, v)) as -> by (rewrite (surjective_pairing k); f_equal; [done|]; unfold PGSIZE in D2; lia).
    congruence. }
  destruct (Hq p Hp) as [Hp1 Hfr1].
  exists f1, (set_fr (fupd (fr s1) (fn p) (fr s1 (fn p) + 1)) s1). split_and!; try done.
  - by apply (dropped_ok Hk K p Hp1).
  - apply (count_entry Hk); try done; [|by rewrite Hfr1].
    assert (leaf (k_mem s1) r (v * PGSIZE) = mk_pte p perm) as E.
    { rewrite HL by done. unfold map_range. rewrite decide_True by (unfold PGSIZE; lia).
      unfold PGSIZE. rewrite Z.div_mul by done. by rewrite Z.sub_diag, Z.add_0_r. }
    split; simpl; rewrite ?E; auto using mk_pte_range, mk_pte_V, mk_pte_pa. by eapply mk_pte_not_V.
  - unfold unlocked. simpl. by rewrite (tc_hart _ _ _ _ _ T).
  - intros q Hqu. destruct (Hq q Hqu) as [? E]. split; [done|]. intros Hne. simpl.
    rewrite fupd_ne; [done|]. intros E'%(fn_inj Hk); [done|apply Hqu|apply Hp].
  - simpl. by rewrite fupd_eq, Hfr1.
Qed.

Definition cow_perm : Z := Z.lor (Z.lor PTE_R PTE_U) PTE_COW.
Definition rw_perm : Z := Z.lor (Z.lor PTE_R PTE_W) PTE_U.

Definition Mp0 : mappings := <[(rootA, 0) := userV]> (<[(rootB, 1) := userU]> (<[(rootA, 1) := userU]> ∅)).

(** [userU] shared by page 1 of both address spaces, [userV] at page 0 of the first. *)
Record demo_state (free : list Z) (s : kstate) : Prop := {
  dm_ok : vm_ok kd free rts s;
  dm_refs : refs_inv kd free rts Mp0 s;
  dm_unlocked : unlocked s;
  dm_free : (6 <= length free)%nat;
  dm_fr : fr s (fn userU) = 2;
  dm_leaf : ∀ r va, r ∈ rts → va_ok va → leaf (k_mem s) r va =
    if decide (r = rootA ∧ 0 * PGSIZE <= va < 0 * PGSIZE + PGSIZE * 1) then mk_pte userV rw_perm
    else if decide (r = rootB ∧ 1 * PGSIZE <= va < 1 * PGSIZE + PGSIZE * 1) then mk_pte userU cow_perm
    else if decide (r = rootA ∧ 1 * PGSIZE <= va < 1 * PGSIZE + PGSIZE * 1) then mk_pte userU cow_perm
    else 0;
}.

Lemma rts_A : rootA ∈ rts.
Proof. unfold rts. set_solver. Qed.
Lemma rts_B : rootB ∈ rts.
Proof. unfold rts. set_solver. Qed.

(** A single page of [map_range]. *)
Lemma map_range_one L r v p perm r' va : map_range L r (v * PGSIZE) 1 p perm r' va =
  if decide (r' = r ∧ v * PGSIZE <= va < v * PGSIZE + PGSIZE * 1) then mk_pte p perm else L r' va.
Proof.
  unfold map_range. change (Z.of_nat 1) with 1. case_decide as D; [|done]. f_equal.
  unfold PGSIZE in *. zdiv.
Qed.

Lemma demo : ∃ free s, demo_state free s.
Proof.
  assert (rootA ≠ rootB ∧ userU ≠ userV) as [HAB HUV] by done.
  destruct (demo_map fl base ∅ rootA 1 userU cow_perm 1) as (f1 & s1 & K1 & R1 & U1 & N1 & Q1 & F1 & L1);
    try done; auto using base_ok, base_refs, base_unlocked, rts_A.
  { by apply (base_user 13). } { change (length fl) with 12%nat. lia. }
  assert (∀ r va, r ∈ rts → va_ok va → leaf (k_mem s1) r va =
    if decide (r = rootA ∧ 1 * PGSIZE <= va < 1 * PGSIZE + PGSIZE * 1) then mk_pte userU cow_perm else 0) as L1'.
  { intros r va Hr Hv. by rewrite L1, map_range_one, base_leaf. }
  destruct (Q1 userU (base_user 13 ltac:(lia))) as [QU1 _].
  destruct (Q1 userV (base_user 12 ltac:(lia))) as [QV1 FV1].
  change (length fl) with 12%nat in N1.
  destruct (demo_map f1 s1 (<[(rootA, 1) := userU]> ∅) rootB 1 userU cow_perm 1)
    as (f2 & s2 & K2 & R2 & U2 & N2 & Q2 & F2 & L2); try done; auto using rts_B.
  { rewrite L1' by (apply rts_B || done). by rewrite decide_False by naive_solver. } { lia. }
  destruct (Q2 userV QV1) as [QV2 FV2].
  destruct (demo_map f2 s2 (<[(rootB, 1) := userU]> (<[(rootA, 1) := userU]> ∅)) rootA 0 userV rw_perm 1)
    as (f3 & s3 & K3 & R3 & U3 & N3 & Q3 & F3 & L3); try done; auto using rts_A.
  { by rewrite FV2, FV1. }
  { rewrite L2, map_range_one by (apply rts_A || done). rewrite decide_False by naive_solver.
    rewrite L1' by (apply rts_A || done). by rewrite decide_False by (unfold PGSIZE; lia). } { lia. }
  exists f3, s3. split; try done.
  - lia.
  - destruct (Q2 userU QU1) as [QU2 _]. destruct (Q3 userU QU2) as [_ ->]; [|done]. by rewrite F2, F1.
  - intros r va Hr Hv. rewrite L3, map_range_one by done. case_decide; [done|].
    rewrite L2, map_range_one by done. case_decide; [done|]. by apply L1'.
Qed.

(** ** The theorems on this machine *)

Lemma mappages_maps_witness : ∃ k s' free', mappages rootB 8192 5000 userV rw_perm base =
    (Ret (if decide (k = npages_of 8192 5000) then 0 else -1), s') ∧ vm_ok kd free' rts s' ∧
  k = 2%nat.
Proof.
  destruct (mappages_maps kd_ok rts_B fl base 8192 5000 userV rw_perm base_ok
    (unlocked_can_kalloc _ base_unlocked) ltac:(lia) ltac:(lia) ltac:(by vm_compute)
    (ram_page_is_page kd_ok userV (pg_ram 12 ltac:(lia))) ltac:(by vm_compute) ltac:(by vm_compute))
    as (k & s' & free' & R & _ & K & _ & _ & E).
  - intros v _. by rewrite base_leaf by apply rts_B.
  - exists k, s', free'. split; [exact R|]. split; [exact K|]. apply E. change (length fl) with 12%nat.
    change (npages_of 8192 5000) with 2%nat. lia.
Defined.



Lemma handleCOW_owns_page_witness : ∃ s s' free' p,
  handleCOW kd rootA 5000 s = (Ret 0, s') ∧
  owns (kend := kd) (roots := rts) (s := s) (Mp := Mp0) (r := rootA) (v := 1) (pa := userU) (va := 5000) free' p s'.
Proof.
  destruct demo as (f & s & [K R U N F L]).
  assert (leaf (k_mem s) rootA (1 * PGSIZE) = mk_pte userU cow_perm) as E.
  { by rewrite L by (apply rts_A || done). }
  destruct (handleCOW_owns_page kd_ok K R U (r := rootA) (v := 1) (pa := userU) (va := 5000))
    as (s' & f' & p & Run & O); try done.
  - by rewrite E.
  - by rewrite E.
  - by rewrite F.
  - right. intros ->. simpl in N. lia.
  - by exists s, s', f', p.
Defined.

(** The same machine with its free pages lost. *)
Lemma demo_full f s : demo_state f s →
  vm_ok kd [] rts (set_freelist 0 s) ∧ refs_inv kd [] rts Mp0 (set_freelist 0 s) ∧
  unlocked (set_freelist 0 s).
Proof.
  intros [K R U _ _ _]. split_and!; [| |exact U].
  - split.
    + split; [done|constructor|..]; by intros p ?%elem_of_nil.
    + destruct (vm_pt _ _ _ _ K) as [Hr Hi]. split; [|exact Hi]. intros r p t Ht.
      destruct (Hr r p t Ht). split; [done|]. apply not_elem_of_nil.
  - destruct R as [He Hp Hc]. split; [exact He| |exact Hc]. intros k pa Hk.
    destruct (Hp k pa Hk) as (? & ? & ?). split_and!; [done|apply not_elem_of_nil|done].
Qed.

Lemma uvmalloc_grows_witness : ∃ ok s s' free' Mp',
  uvmalloc kd rootB 8192 12288 PTE_W s = (Ret (if ok : bool then 12288 else 0), s') ∧
  refs_inv kd free' rts Mp' s' ∧ Mp' !! (rootA, 1) = Some userU.
Proof.
  destruct demo as (f & s & [K R U _ _ L]).
  destruct (uvmalloc_grows kd_ok rts_B f s Mp0 8192 12288 PTE_W K R U) as (ok & s' & f' & Mp' & Run & G & _);
    try done.
  - intros i Hi. change (pages_of 8192) with 2 in Hi. change (pages_of 12288) with 3 in Hi.
    replace i with 2 by lia. by rewrite L by (apply rts_B || done).
  - exists ok, s, s', f', Mp'. split; [exact Run|]. split; [apply G|].
    rewrite (gw_keys _ _ _ _ _ _ _ _ _ _ G); [done|]. left. intros [E _]. by vm_compute in E.
Defined.

(** Page 0 of the first address space. *)
Lemma demo_upa f s i : demo_state f s → 0 <= i < PGSIZE → upa (k_mem s) rootA i = userV.
Proof.
  intros D Hi. unfold upa. rewrite (dm_leaf _ _ D); [|apply rts_A|].
  2:{ unfold va_ok. change MAXVA with 274877906944. unfold PGSIZE in Hi. lia. }
  rewrite bool_decide_true by (change MAXVA with 274877906944; unfold PGSIZE in Hi; lia).
  rewrite decide_True by (unfold PGSIZE in *; lia). by vm_compute.
Qed.

(** All of it. *)
Lemma demo_upa_all f s va : demo_state f s → 0 <= va →
  upa (k_mem s) rootA va = if va <? PGSIZE then userV else if va <? 2 * PGSIZE then userU else 0.
Proof.
  intros D Hv. destruct (Z.ltb_spec va PGSIZE); [by apply (demo_upa f)|].
  destruct (Z.le_gt_cases MAXVA va) as [Hbig|Hsm].
  { rewrite upa_big by done. destruct (Z.ltb_spec va (2 * PGSIZE)); [|done].
    change MAXVA with 274877906944 in Hbig. unfold PGSIZE in *. lia. }
  unfold upa. rewrite bool_decide_true by done. rewrite (dm_leaf _ _ D) by (apply rts_A || done).
  assert (rootA ≠ rootB) as HAB by done.
  rewrite decide_False by (unfold PGSIZE in *; lia). rewrite decide_False by naive_solver.
  destruct (Z.ltb_spec va (2 * PGSIZE)).
  - rewrite decide_True by (unfold PGSIZE in *; lia). by vm_compute.
  - rewrite decide_False by (unfold PGSIZE in *; lia). done.
Qed.

Lemma demo_aspace f s : demo_state f s → aspace (kend := kd) (roots := rts) (r := rootA) f s.
Proof.
  intros D. assert (userU ≠ userV ∧ userV ≠ 0 ∧ userU ≠ 0) as (HUV & HV & HU) by done. split; [apply D|..].
  - intros va Hv. rewrite (demo_upa_all f) by done. repeat case_match; intros; try done.
    + exact (rf_page _ _ _ _ _ (dm_refs _ _ D) (rootA, 0) userV eq_refl).
    + exact (rf_page _ _ _ _ _ (dm_refs _ _ D) (rootA, 1) userU eq_refl).
  - intros va va' Hv Hv'. rewrite !(demo_upa_all f) by done. unfold PGSIZE.
    destruct (Z.ltb_spec va 4096), (Z.ltb_spec va' 4096), (Z.ltb_spec va (2 * 4096)), (Z.ltb_spec va' (2 * 4096)); intros Hnz E; try done; try lia; zdiv.
Qed.
