(* ===== verification/Kvm.v ===== *)
(** * The page table of the kernel: [kvmmake], [kvminit], [kvminithart] and
    [proc_mapstacks]

    [etext], [end] and [trampoline] are addresses of the linker script.  The page
    table is described by the regions it maps; that no two of them overlap and
    that the memory for the tables is enough is proved. *)
From S2P Require Import Prelude Machine Cstring Spinlock Kalloc Vm VmMap VmSpec VmRefs Cow VmAlloc.

Section kvm.
Context (kend etext trampoline : Z).

Definition proc_mapstacks (kpgtbl : Z) : M kstate unit :=
  for_all (seqZ 0 (Z.of_nat NPROC)) (λ i,
    pa <- kalloc ;;
    if pa =? 0 then panic "kalloc" else
    kvmmap kpgtbl (KSTACK i) pa PGSIZE (Z.lor PTE_R PTE_W)).

Definition kvmmake : M kstate Z :=
  kpgtbl <- kalloc ;;
  fill kpgtbl 0 PGSIZE ;;;
  kvmmap kpgtbl UART0 UART0 PGSIZE (Z.lor PTE_R PTE_W) ;;;
  kvmmap kpgtbl VIRTIO0 VIRTIO0 PGSIZE (Z.lor PTE_R PTE_W) ;;;
  kvmmap kpgtbl PLIC PLIC 0x400000 (Z.lor PTE_R PTE_W) ;;;
  kvmmap kpgtbl KERNBASE KERNBASE (u64 (etext - KERNBASE)) (Z.lor PTE_R PTE_X) ;;;
  kvmmap kpgtbl etext etext (u64 (PHYSTOP - etext)) (Z.lor PTE_R PTE_W) ;;;
  kvmmap kpgtbl TRAMPOLINE trampoline PGSIZE (Z.lor PTE_R PTE_X) ;;;
  proc_mapstacks kpgtbl ;;;
  ret kpgtbl.

(** [kernel_pagetable] and the register [satp] of the CPU *)
Record kvm := Kvm { kv_k : kstate; kv_pagetable : Z; kv_satp : Z }.
#[global] Instance kvm_eta : Eta kvm := λ s, Kvm (kv_k s) (kv_pagetable s) (kv_satp s).
Definition kvL : lens kvm kstate := Lens kv_k (λ k s, s <| kv_k := k |>).

Definition kvminit : M kvm unit :=
  pt <- zoom kvL kvmmake ;;
  modify (λ s, s <| kv_pagetable := pt |>).
(** A page-table walk of the model reads memory, so [sfence_vma] is a no-op. *)
Definition kvminithart : M kvm unit := modify (λ s, s <| kv_satp := MAKE_SATP (kv_pagetable s) |>).

(** [main] from [kinit] to [kvminithart] *)
Definition main_memory : M kvm unit :=
  zoom kvL (kinit kend) ;;;
  kvminit ;;;
  kvminithart.

(** ** Regions *)

Record region := Region { g_va : Z; g_n : nat; g_pa : Z; g_perm : Z }.
Definition inside (g : region) (va : Z) : Prop := g_va g <= va < g_va g + PGSIZE * Z.of_nat (g_n g).
#[global] Instance inside_dec g va : Decision (inside g va).
Proof. unfold inside. apply _. Defined.

(** The PTE of [va] when the regions are mapped, 0 when it is in none. *)
Definition layout (gs : list region) (va : Z) : Z :=
  foldl (λ v g, if decide (inside g va) then mk_pte (g_pa g + (va / PGSIZE * PGSIZE - g_va g)) (g_perm g) else v) 0 gs.

Definition rw : Z := Z.lor PTE_R PTE_W.
Definition rx : Z := Z.lor PTE_R PTE_X.
Definition pages (size : Z) : nat := Z.to_nat (size / PGSIZE).

Definition fixed_regions : list region := [
  Region UART0 1 UART0 rw;
  Region VIRTIO0 1 VIRTIO0 rw;
  Region PLIC 1024 PLIC rw;
  Region KERNBASE (pages (etext - KERNBASE)) KERNBASE rx;
  Region etext (pages (PHYSTOP - etext)) etext rw;
  Region TRAMPOLINE 1 trampoline rx ].
Definition stack_regions (stacks : list Z) : list region := imap (λ i pa, Region (KSTACK (Z.of_nat i)) 1 pa rw) stacks.

(** What the linker script gives: whole pages, in the RAM of the kernel. *)
Record linked : Prop := {
  ln_text : KERNBASE < etext /\ etext <= kend /\ kend <= PHYSTOP;
  ln_page : etext mod PGSIZE = 0;
  ln_end : etext < PHYSTOP;
  ln_tramp : is_page trampoline /\ trampoline + PGSIZE <= PHYSTOP;
}.
End kvm.

(** ** The memory a mapping needs

    The slots of the pages of 2 MB are in one table, so a range needs at most
    two new tables for every 2 MB it touches. *)
Definition big (va : Z) : Z := va / 2 ^ 21.

Lemma PX_big l va va' : 1 <= l → big va = big va' → PX l va = PX l va'.
Proof.
  intros Hl E. unfold PX. f_equal. unfold PXSHIFT, PGSHIFT. replace (12 + 9 * l) with (21 + 9 * (l - 1)) by lia.
  rewrite <-!Z.shiftr_shiftr by lia. f_equal. by rewrite !Z.shiftr_div_pow2 by done.
Qed.
Lemma slot_big m r va va' : big va = big va' → is_Some (slot m r va) → is_Some (slot m r va').
Proof.
  intros E. unfold slot, path_of. rewrite (PX_big 2 va va'), (PX_big 1 va va') by (done || lia). intros [a H].
  destruct (tbl m r [PX 2 va'; PX 1 va']); [by eexists|done].
Qed.

Section map.
Context {kend : Z} (Hk : KERNBASE <= kend) {roots : list Z} {r : Z} (Hr : r ∈ roots).

(** The tables the first page may need, and those of the whole range. *)
Definition first_cost (m : mem) (a : Z) : Z := match slot m r a with Some _ => 0 | None => 2 end.
Definition span_cost (a : Z) (n : nat) : Z := 2 * (big (a + PGSIZE * Z.of_nat n) - big a).

Lemma first_cost_bound m a : 0 <= first_cost m a <= 2.
Proof. unfold first_cost. destruct (slot m r a); lia. Qed.
Lemma big_mono a b : a <= b → big a <= big b.
Proof. intros H. by apply Z.div_le_mono. Qed.
Lemma span_cost_pos a n : 0 <= span_cost a n.
Proof. unfold span_cost, PGSIZE. pose proof (big_mono a (a + 4096 * Z.of_nat n) ltac:(lia)). lia. Qed.
Lemma span_cost_0 a : span_cost a 0 = 0.
Proof. unfold span_cost. rewrite Z.mul_0_r, Z.add_0_r. lia. Qed.
Lemma span_cost_S m a n : is_Some (slot m r a) → first_cost m (a + PGSIZE) + span_cost (a + PGSIZE) n <= span_cost a (S n).
Proof.
  intros Hs. unfold span_cost, first_cost. replace (a + PGSIZE + PGSIZE * Z.of_nat n) with (a + PGSIZE * Z.of_nat (S n)) by lia.
  destruct (decide (big (a + PGSIZE) = big a)) as [E|E].
  - destruct (slot_big m r a (a + PGSIZE)) as [x ->]; [done|done|]. rewrite E. lia.
  - pose proof (big_mono a (a + PGSIZE) ltac:(unfold PGSIZE; lia)). destruct (slot m r (a + PGSIZE)); lia.
Qed.

(** One page, with the tables it takes. *)
Lemma map_page free s a pa perm : vm_ok kend free roots s → can_kalloc s → va_ok a →
  a mod PGSIZE = 0 → is_page pa → 0 <= perm < 1024 → has (leaf (k_mem s) r a) PTE_V = false →
  first_cost (k_mem s) a <= Z.of_nat (length free) →
  ∃ pte s1 free', walk r a true s = (Ret pte, s1) ∧ pte ≠ 0 ∧ has (load64 (k_mem s1) pte) PTE_V = false ∧
    let s' := set_mem (store64 (k_mem s1) pte (mk_pte pa perm)) s1 in
    touches roots free free' s s' ∧ vm_ok kend free' roots s' ∧ is_Some (slot (k_mem s') r a) ∧
    (∀ r' va, r' ∈ roots → va_ok va → leaf (k_mem s') r' va = map_range (leaf (k_mem s)) r a 1 pa perm r' va) ∧
    Z.of_nat (length free) <= Z.of_nat (length free') + first_cost (k_mem s) a.
Proof.
  intros Hok Hc Hva Ha Hpa Hperm Hnew. unfold first_cost. destruct (slot (k_mem s) r a) as [v|] eqn:Es; intros Hf.
  - destruct (map_here Hr free s a v pa perm Hok Hva Ha Hpa Hperm Es) as (T & K & L). exists v, s, free. split_and!; try done.
    + apply (walk_slot s r a v true); [apply Hva|done].
    + by eapply (slot_nonzero (vm_pt _ _ _ _ Hok) (r := r)).
    + rewrite <-Hnew. unfold leaf. by rewrite Es.
    + exists v. by eapply tc_slot.
    + lia.
  - destruct (walk_alloc Hk free s r a Hok Hc Hr Hva) as (v & s' & free' & R & Hok' & [T L] & [[_ H]|(Hv & Hs & Hl)]); [lia|].
    destruct (map_here Hr free' s' a v pa perm Hok' Hva Ha Hpa Hperm Hs) as (T' & K' & L'). exists v, s', free'. split_and!; try done.
    + rewrite <-Hnew, <-L by done. unfold leaf. by rewrite Hs.
    + by eapply touches_trans.
    + exists v. by eapply tc_slot.
    + intros r' va Hr' Hva'. rewrite L' by done. unfold map_range. by rewrite L.
    + lia.
Qed.

Lemma mappages_loop_all perm n : 0 <= perm < 1024 →
  ∀ fuel free s a pa, (n < fuel)%nat → vm_ok kend free roots s → can_kalloc s →
  a mod PGSIZE = 0 → 0 <= a → a + PGSIZE * Z.of_nat (S n) <= MAXVA →
  is_page pa → pa + PGSIZE * Z.of_nat (S n) <= 2 ^ 56 →
  (∀ va, a <= va < a + PGSIZE * Z.of_nat (S n) → has (leaf (k_mem s) r va) PTE_V = false) →
  first_cost (k_mem s) a + span_cost a n <= Z.of_nat (length free) →
  ∃ s' free', mappages_loop fuel r a (a + PGSIZE * Z.of_nat n) pa perm s = (Ret 0, s') ∧
    vm_ok kend free' roots s' ∧ touches roots free free' s s' ∧
    (∀ r' va, r' ∈ roots → va_ok va → leaf (k_mem s') r' va = map_range (leaf (k_mem s)) r a (S n) pa perm r' va) ∧
    Z.of_nat (length free) <= Z.of_nat (length free') + (first_cost (k_mem s) a + span_cost a n).
Proof.
  intros Hperm. induction n as [|n IH]; intros [|fuel] free s a pa Hfu Hok Hc Ha Ha0 Hlt Hpa Hpl Hnew Hcost; try lia; cbn [mappages_loop].
  all: assert (va_ok a) as Hva by (unfold va_ok, PGSIZE in *; lia).
  all: pose proof (first_cost_bound (k_mem s) a).
  1: pose proof (span_cost_pos a 0). 2: pose proof (span_cost_pos a (S n)).
  all: destruct (map_page free s a pa perm Hok Hc Hva Ha Hpa Hperm) as (v & s1 & f1 & R & Hv & Hn & T & K & Hx & L & F);
    [apply Hnew; unfold PGSIZE; lia|lia|]; rewrite (bind_Ret _ _ _ _ _ R), (proj2 (Z.eqb_neq v 0)) by done.
  all: unfold rd64, bind, gets, wr64, modify; rewrite Hn; fold (mk_pte pa perm).
  - rewrite (proj2 (Z.eqb_eq _ _)) by (unfold PGSIZE; lia). eexists _, f1. split_and!; try done. lia.
  - rewrite (proj2 (Z.eqb_neq _ _)) by (unfold PGSIZE; lia).
    rewrite !u64_id by (change MAXVA with 274877906944 in *; unfold PGSIZE in *; destruct Hpa; lia).
    set (s1' := set_mem _ s1) in *. pose proof (span_cost_S (k_mem s1') a n Hx).
    destruct (IH fuel f1 s1' (a + PGSIZE) (pa + PGSIZE)) as (s2 & f2 & R2 & K2 & T2 & L2 & F2);
      [lia|exact K|by eapply can_kalloc_touches|unfold PGSIZE in *; zdiv|unfold PGSIZE in *; lia..
      |destruct Hpa as [? Hm]; split; unfold PGSIZE in *; [lia|zdiv]|unfold PGSIZE in *; lia| |lia|].
    { intros va Hin. rewrite L by (done || unfold va_ok, PGSIZE in *; lia).
      unfold map_range. rewrite decide_False by lia. apply Hnew. unfold PGSIZE in *; lia. }
    exists s2, f2. replace (a + PGSIZE * Z.of_nat (S n)) with (a + PGSIZE + PGSIZE * Z.of_nat n) by lia.
    rewrite R2. split_and!; [done|done|by eapply touches_trans| |].
    + intros r' va Hr' Hva'. rewrite L2 by done. apply map_range_S; [done|]. by apply L.
    + lia.
Qed.
End map.

(** ** Mapping regions *)

Section regions.
Context {kend : Z} (Hk : KERNBASE <= kend) (r : Z).

(** The page table maps exactly the regions [gs]. *)
Record kmapped (gs : list region) (free : list Z) (s : kstate) : Prop := {
  km_ok : vm_ok kend free [r] s;
  km_can : can_kalloc s;
  km_leaf : ∀ va, va_ok va → leaf (k_mem s) r va = layout gs va;
}.

Record region_ok (g : region) : Prop := {
  go_va : g_va g mod PGSIZE = 0 ∧ 0 <= g_va g ∧ g_va g + PGSIZE * Z.of_nat (g_n g) <= MAXVA;
  go_n : (0 < g_n g)%nat;
  go_pa : is_page (g_pa g) ∧ g_pa g + PGSIZE * Z.of_nat (g_n g) <= 2 ^ 56;
  go_perm : 0 <= g_perm g < 1024;
}.
Definition apart (gs : list region) (g : region) : Prop := ∀ g' va, g' ∈ gs → inside g' va → ¬ inside g va.

Lemma layout_out gs va : (∀ g, g ∈ gs → ¬ inside g va) → layout gs va = 0.
Proof. clear kend Hk r.
  unfold layout. induction gs as [|g gs IH] using rev_ind; intros H; [done|]. rewrite foldl_app. simpl.
  rewrite decide_False by (apply H; set_solver). apply IH. intros g' Hg'. apply H. set_solver.
Qed.
Lemma layout_snoc gs g va : layout (gs ++ [g]) va = if decide (inside g va) then mk_pte (g_pa g + (va / PGSIZE * PGSIZE - g_va g)) (g_perm g) else layout gs va.
Proof. unfold layout. by rewrite foldl_app. Qed.

Definition region_cost (g : region) : Z := 2 + 2 * (big (g_va g + PGSIZE * Z.of_nat (g_n g) - 1) - big (g_va g)).

Lemma kvmmap_region gs g free s : kmapped gs free s → region_ok g → apart gs g → region_cost g <= Z.of_nat (length free) →
  ∃ s' free', kvmmap r (g_va g) (g_pa g) (PGSIZE * Z.of_nat (g_n g)) (g_perm g) s = (Ret tt, s') ∧ kmapped (gs ++ [g]) free' s' ∧
    touches [r] free free' s s' ∧ Z.of_nat (length free) <= Z.of_nat (length free') + region_cost g.
Proof.
  intros [Hok Hc HL] [(Ha & Ha0 & Hmax) Hn (Hpa & Hpl) Hperm] Hap Hcost. destruct (g_n g) as [|n] eqn:En; [lia|].
  assert (first_cost (r := r) (k_mem s) (g_va g) + span_cost (g_va g) n <= region_cost g) as Hle.
  { pose proof (first_cost_bound (r := r) (k_mem s) (g_va g)). unfold region_cost, span_cost. rewrite En.
    pose proof (big_mono (g_va g + PGSIZE * Z.of_nat n) (g_va g + PGSIZE * Z.of_nat (S n) - 1) ltac:(unfold PGSIZE; lia)). lia. }
  assert (mappages_loop (S (Z.to_nat (PGSIZE * Z.of_nat n / PGSIZE + 1))) r (g_va g) (g_va g + PGSIZE * Z.of_nat n) (g_pa g) (g_perm g) s =
    mappages r (g_va g) (PGSIZE * Z.of_nat (S n)) (g_pa g) (g_perm g) s) as Em.
  { unfold mappages. rewrite (proj2 (Z.eqb_neq _ 0)) by (unfold PGSIZE; lia). change MAXVA with 274877906944 in *. unfold PGSIZE in *.
    rewrite u64_id by lia. rewrite !PGROUNDDOWN_spec by lia. replace (4096 * (g_va g / 4096)) with (g_va g) by zdiv.
    replace (4096 * ((g_va g + 4096 * Z.of_nat (S n) - 1) / 4096)) with (g_va g + 4096 * Z.of_nat n) by zdiv.
    rewrite (proj2 (Z.leb_le _ _)) by lia. by replace (g_va g + 4096 * Z.of_nat n - g_va g) with (4096 * Z.of_nat n) by lia. }
  destruct (mappages_loop_all Hk (list_elem_of_here r []) (g_perm g) n Hperm (S (Z.to_nat (PGSIZE * Z.of_nat n / PGSIZE + 1))) free s (g_va g) (g_pa g))
    as (s' & free' & R & K & T & L & F); try done; [unfold PGSIZE; zdiv| |lia|].
  { intros va Hva. rewrite HL by (unfold va_ok, PGSIZE in *; lia). rewrite layout_out; [done|]. intros g' Hg' Hin. apply (Hap g' va Hg' Hin).
    unfold inside. by rewrite En. }
  exists s', free'. split_and!; [|split|done|lia].
  - unfold kvmmap. rewrite Em in R. by rewrite (bind_Ret _ _ _ _ _ R).
  - done.
  - by eapply can_kalloc_touches.
  - intros va Hva. rewrite L, layout_snoc by (done || set_solver). unfold map_range.
    assert (inside g va ↔ g_va g <= va < g_va g + PGSIZE * Z.of_nat (S n)) as Hi by (unfold inside; by rewrite En).
    destruct (decide (inside g va)) as [D|D]; [rewrite decide_True; [done|by split; [|apply Hi]]|].
    rewrite decide_False; [by apply HL|]. intros [_ D']. by apply D, Hi.
Qed.

(** ** The stacks *)

Lemma kalloc_page gs n free s : kmapped gs (n :: free) s → kalloc s = (Ret n, allocated n s) ∧ n ≠ 0 ∧ kmapped gs free (allocated n s) ∧
  user_page kend free [r] (k_mem (allocated n s)) n ∧ ∀ p, user_page kend (n :: free) [r] (k_mem s) p → user_page kend free [r] (k_mem (allocated n s)) p.
Proof.
  intros [Hok Hc HL]. destruct (alloc_page Hk n Hok) as (K & U & _ & L & T). assert (n ≠ 0) as Hn.
  { destruct U as ([? _] & _). unfold KERNBASE in *. lia. }
  split_and!; [|done| |exact U|].
  - apply kalloc_some; [exact Hc| |done]. destruct (inv_chain _ _ _ (vm_kmem _ _ _ _ Hok)) as [E _]. exact E.
  - split; [exact K|exact Hc|]. intros va Hva. rewrite L by apply list_elem_of_here. by apply HL.
  - intros p (Hp & Hf & Ht). split_and!; [done|by apply not_elem_of_cons in Hf as [_ ?]|]. intros Hp'%T. done.
Qed.

Definition stack_ok (i : Z) : Prop := 0 <= i < Z.of_nat NPROC.
Lemma stack_region_ok i pa : stack_ok i → is_page pa → pa + PGSIZE <= 2 ^ 56 → region_ok (Region (KSTACK i) 1 pa rw).
Proof.
  intros Hi Hpa Hpl. unfold stack_ok, NPROC in Hi. split; simpl; [|lia|by split|by vm_compute]. unfold KSTACK. change TRAMPOLINE with 274877902848.
  change MAXVA with 274877906944. unfold PGSIZE. split_and!; [zdiv|lia|lia].
Qed.
Lemma stack_cost i pa : stack_ok i → region_cost (Region (KSTACK i) 1 pa rw) = 2.
Proof.
  intros Hi. unfold stack_ok, NPROC in Hi. unfold region_cost, big, KSTACK. simpl. change TRAMPOLINE with 274877902848. unfold PGSIZE. zdiv.
Qed.

Lemma touches_user free free' s s' p : touches [r] free free' s s' → user_page kend free [r] (k_mem s) p → user_page kend free' [r] (k_mem s') p.
Proof.
  intros T (Hp & Hf & Ht). destruct (tc_free _ _ _ _ _ T) as [used ->]. split_and!; [done|set_solver|].
  intros [?|?]%(tc_table _ _ _ _ _ T); [done|set_solver].
Qed.

Lemma stack_regions_snoc st n : stack_regions (st ++ [n]) = stack_regions st ++ [Region (KSTACK (Z.of_nat (length st))) 1 n rw].
Proof. unfold stack_regions. rewrite imap_app. simpl. by rewrite Nat.add_0_r. Qed.
Lemma stack_apart gs st n : (length st < NPROC)%nat → (∀ i pa, stack_ok i → apart gs (Region (KSTACK i) 1 pa rw)) →
  apart (gs ++ stack_regions st) (Region (KSTACK (Z.of_nat (length st))) 1 n rw).
Proof.
  intros Hl Hgs g' va [Hg'|Hg']%elem_of_app.
  - apply Hgs; [|done]. unfold stack_ok. lia.
  - apply list_elem_of_lookup in Hg' as [j Hj]. unfold stack_regions in Hj. rewrite list_lookup_imap in Hj. apply fmap_Some in Hj as (pa & Hpa & ->).
    apply lookup_lt_Some in Hpa. unfold inside, KSTACK. simpl. unfold PGSIZE. lia.
Qed.

Definition map_stack (i : Z) : M kstate unit :=
  pa <- kalloc ;;
  if pa =? 0 then panic "kalloc" else
  kvmmap r (KSTACK i) pa PGSIZE (Z.lor PTE_R PTE_W).

(** The stacks mapped so far: different pages, no tables, and not free. *)
Record stacked (gs : list region) (st free : list Z) (s : kstate) : Prop := {
  sk_map : kmapped (gs ++ stack_regions st) free s;
  sk_dup : NoDup st;
  sk_user : ∀ p, p ∈ st → user_page kend free [r] (k_mem s) p;
}.

Lemma map_stack_run gs st free s : stacked gs st free s → (length st < NPROC)%nat → (3 <= length free)%nat →
  (∀ i pa, stack_ok i → apart gs (Region (KSTACK i) 1 pa rw)) →
  ∃ n s' free', map_stack (Z.of_nat (length st)) s = (Ret tt, s') ∧ stacked gs (st ++ [n]) free' s' ∧ (length free <= length free' + 3)%nat.
Proof.
  intros [Hm Hd Hu] Hl Hf Hgs. destruct free as [|n free]; [simpl in Hf; lia|]. destruct (kalloc_page _ n free s Hm) as (R & Hn & Hm1 & Un & Hu1).
  set (g := Region (KSTACK (Z.of_nat (length st))) 1 n rw). assert (stack_ok (Z.of_nat (length st))) as Hst by (unfold stack_ok; lia).
  destruct (proj1 Un) as [Hram Hal]. assert (n < 2 ^ 32) by (change PHYSTOP with 2281701376 in Hram; lia).
  destruct (kvmmap_region _ g free _ Hm1) as (s' & free' & R' & Hm' & T & F).
  - apply stack_region_ok; [done|split; [unfold KERNBASE in *; lia|done]|unfold PGSIZE; lia].
  - by apply stack_apart.
  - unfold g. rewrite stack_cost by done. simpl in Hf. lia.
  - unfold g in F. rewrite stack_cost in F by done. exists n, s', free'. split_and!; [|split|simpl; lia].
    + unfold map_stack. rewrite (bind_Ret _ _ _ _ _ R), (proj2 (Z.eqb_neq n 0)) by done. exact R'.
    + rewrite stack_regions_snoc, app_assoc. exact Hm'.
    + apply NoDup_app. split_and!; [done| |apply NoDup_singleton]. intros p Hp ->%list_elem_of_singleton.
      destruct (Hu _ Hp) as (_ & Hnf & _). apply Hnf, list_elem_of_here.
    + intros p [Hp|Hp%list_elem_of_singleton]%elem_of_app; [|subst p]; (eapply touches_user; [done|]); [by apply Hu1, Hu|done].
Qed.

Lemma map_stacks_run gs m : (∀ i pa, stack_ok i → apart gs (Region (KSTACK i) 1 pa rw)) → ∀ st free s,
  stacked gs st free s → (length st + m = NPROC)%nat → (3 * m <= length free)%nat →
  ∃ st' s' free', for_all (seqZ (Z.of_nat (length st)) (Z.of_nat m)) map_stack s = (Ret tt, s') ∧ stacked gs st' free' s' ∧ length st' = NPROC.
Proof.
  intros Hgs. induction m as [|m IH]; intros st free s Hs Hl Hf.
  - exists st, s, free. split_and!; [done|done|lia].
  - rewrite seqZ_cons by lia. destruct (map_stack_run gs st free s Hs ltac:(lia) ltac:(lia) Hgs) as (n & s1 & f1 & R1 & Hs1 & F1).
    destruct (IH (st ++ [n]) f1 s1 Hs1) as (st' & s' & free' & R & H); [rewrite length_app; simpl; lia|lia|].
    exists st', s', free'. split; [|done]. cbn [for_all]. rewrite (bind_Ret _ _ _ _ _ R1).
    rewrite length_app in R. simpl in R. by replace (Z.of_nat (length st + 1)) with (Z.succ (Z.of_nat (length st))) in R by lia;
      replace (Z.of_nat m) with (Z.pred (Z.of_nat (S m))) in R by lia.
Qed.
End regions.

(** ** The whole page table *)

Section make.
Context {kend etext trampoline : Z} (Hl : linked kend etext trampoline).

Lemma linked_kend : KERNBASE <= kend.
Proof using Hl. destruct Hl as [[? [? ?]] _ _ _]. lia. Qed.

(** The empty page table. *)
Lemma root_page n free s : vm_ok kend (n :: free) [] s → can_kalloc s →
  kalloc s = (Ret n, allocated n s) ∧ kmapped (kend := kend) n [] free (zeroed n s).
Proof using Hl.
  intros Hok Hc. pose proof linked_kend as Hk. destruct (alloc_page Hk n Hok) as (K0 & U0 & _). destruct (proj1 U0) as [Hram Hal].
  destruct (write_user_page n (memset (k_mem (allocated n s)) n 0 PGSIZE) K0 U0 (same_but_memset _ _ _)) as (K & _).
  assert (∀ j, idx j → nxt (k_mem (zeroed n s)) n j = None) as Hz.
  { intros j Hj. unfold nxt. replace (load64 (k_mem (zeroed n s)) (n + 8 * j)) with 0; [done|]. symmetry. apply load_zero. intros x Hx.
    simpl. rewrite memset_in; [done|]. unfold idx in Hj. unfold PGSIZE. lia. }
  assert (∀ r p t, table_of (k_mem (zeroed n s)) [n] r p t → r = n ∧ p = [] ∧ t = n) as Ht.
  { intros r p t (->%list_elem_of_singleton & Hp & _ & E). destruct p as [|j p]; [simpl in E; by injection E as <-|]. exfalso.
    simpl in E. apply Forall_cons in Hp as [Hj _]. by rewrite Hz in E. }
  split; [apply kalloc_some; [exact Hc|exact (proj1 (inv_chain _ _ _ (vm_kmem _ _ _ _ Hok)))|unfold KERNBASE in *; lia]|]. split; [|exact Hc|].
  - split; [exact (vm_kmem _ _ _ _ K)|]. split.
    + intros r p t (_ & _ & ->)%Ht. split; [exact (proj1 U0)|exact (proj1 (proj2 U0))].
    + intros r p t r' p' (-> & -> & _)%Ht (-> & -> & _)%Ht. done.
  - intros va _. unfold leaf, slot, path_of. simpl. rewrite Hz by (apply idx_PX; lia). done.
Qed.

Definition kernel_regions (stacks : list Z) : list region := fixed_regions etext trampoline ++ stack_regions stacks.

Lemma fixed_region_ok g : g ∈ fixed_regions etext trampoline → region_ok g.
Proof using Hl.
  destruct Hl as [[H1 [H2 H3]] H4 H5 [[H6 H7] H8]]. unfold fixed_regions, pages, KERNBASE, PGSIZE in *. change PHYSTOP with 2281701376 in *.
  rewrite !elem_of_cons, elem_of_nil. intros Hg. destruct_or! Hg; try done; subst g; (split; simpl;
    [change TRAMPOLINE with 274877902848; change MAXVA with 274877906944; unfold UART0, VIRTIO0, PLIC, PGSIZE; split_and!; try done; zdiv
    |zdiv|unfold is_page, UART0, VIRTIO0, PLIC, PGSIZE; split_and!; try done; zdiv|by vm_compute]).
Qed.
Lemma fixed_stack_apart i pa : stack_ok i → apart (fixed_regions etext trampoline) (Region (KSTACK i) 1 pa rw).
Proof using Hl.
  destruct Hl as [[H1 [H2 H3]] H4 H5 _]. intros Hi g va. unfold stack_ok, NPROC in Hi. unfold fixed_regions, inside, KSTACK, pages, KERNBASE, PGSIZE in *.
  change PHYSTOP with 2281701376 in *. change TRAMPOLINE with 274877902848. rewrite !elem_of_cons, elem_of_nil.
  intros Hg. destruct_or! Hg; try done; subst g; simpl; unfold UART0, VIRTIO0, PLIC; zdiv.
Qed.

Lemma fixed_apart k g : fixed_regions etext trampoline !! k = Some g → apart (take k (fixed_regions etext trampoline)) g.
Proof using Hl.
  destruct Hl as [[H1 [H2 H3]] H4 H5 _]. unfold fixed_regions, pages, KERNBASE, PGSIZE in *. change PHYSTOP with 2281701376 in *. intros Hg g' va.
  do 6 (destruct k as [|k]; [injection Hg as <-; simpl; rewrite ?elem_of_cons, elem_of_nil; intros Hg'; destruct_or? Hg'; try done; subst g';
    unfold inside, UART0, VIRTIO0, PLIC, PGSIZE; change TRAMPOLINE with 274877902848; simpl; zdiv|]). done.
Qed.
Lemma fixed_cost g : g ∈ fixed_regions etext trampoline → region_cost g <= 130.
Proof using Hl.
  destruct Hl as [[H1 [H2 H3]] H4 H5 _]. unfold fixed_regions, pages, KERNBASE, PGSIZE in *. change PHYSTOP with 2281701376 in *.
  rewrite !elem_of_cons, elem_of_nil. intros Hg. destruct_or! Hg; try done; subst g;
    unfold region_cost, big, UART0, VIRTIO0, PLIC, PGSIZE; change TRAMPOLINE with 274877902848; simpl; zdiv.
Qed.

(** The next of the fixed regions. *)
Lemma map_fixed r k g free s : fixed_regions etext trampoline !! k = Some g → kmapped (kend := kend) r (take k (fixed_regions etext trampoline)) free s →
  130 <= Z.of_nat (length free) →
  ∃ s' free', kvmmap r (g_va g) (g_pa g) (PGSIZE * Z.of_nat (g_n g)) (g_perm g) s = (Ret tt, s') ∧
    kmapped (kend := kend) r (take (S k) (fixed_regions etext trampoline)) free' s' ∧ Z.of_nat (length free) <= Z.of_nat (length free') + 130.
Proof using Hl.
  intros Hg Hm Hf. pose proof (list_elem_of_lookup_2 _ _ _ Hg) as Hin. pose proof (fixed_cost g Hin).
  destruct (kvmmap_region linked_kend r _ g free s Hm (fixed_region_ok g Hin) (fixed_apart k g Hg) ltac:(lia)) as (s' & free' & R & Hm' & _ & F).
  exists s', free'. split_and!; [done| |lia]. by rewrite (take_S_r _ _ g).
Qed.

Lemma text_size : u64 (etext - KERNBASE) = PGSIZE * Z.of_nat (pages (etext - KERNBASE)) ∧ u64 (PHYSTOP - etext) = PGSIZE * Z.of_nat (pages (PHYSTOP - etext)).
Proof using Hl.
  destruct Hl as [[H1 [H2 H3]] H4 H5 _]. unfold pages, KERNBASE, PGSIZE in *. change PHYSTOP with 2281701376 in *. rewrite !u64_id by lia. split; zdiv.
Qed.

Lemma kvmmake_run free s : vm_ok kend free [] s → can_kalloc s → (1000 <= length free)%nat →
  ∃ r st s' free', kvmmake etext trampoline s = (Ret r, s') ∧ stacked (kend := kend) r (fixed_regions etext trampoline) st free' s' ∧ length st = NPROC.
Proof using Hl.
  intros Hok Hc Hf. destruct free as [|r free]; [simpl in Hf; lia|]. destruct (root_page r free s Hok Hc) as [R0 Hm]. simpl in Hf.
  unfold kvmmake. rewrite (bind_Ret _ _ _ _ _ R0).
  assert (fill r 0 PGSIZE (allocated r s) = (Ret tt, zeroed r s)) as R0' by reflexivity. rewrite (bind_Ret _ _ _ _ _ R0'). clear R0 R0'. destruct text_size as [-> ->].
  destruct (map_fixed r 0 _ free _ eq_refl Hm) as (s1 & f1 & R1 & Hm1 & F1); [lia|]. rewrite (bind_Ret _ _ _ _ _ R1).
  destruct (map_fixed r 1 _ f1 _ eq_refl Hm1) as (s2 & f2 & R2 & Hm2 & F2); [lia|]. rewrite (bind_Ret _ _ _ _ _ R2).
  destruct (map_fixed r 2 _ f2 _ eq_refl Hm2) as (s3 & f3 & R3 & Hm3 & F3); [lia|]. rewrite (bind_Ret _ _ _ _ _ R3).
  destruct (map_fixed r 3 _ f3 _ eq_refl Hm3) as (s4 & f4 & R4 & Hm4 & F4); [lia|]. rewrite (bind_Ret _ _ _ _ _ R4).
  destruct (map_fixed r 4 _ f4 _ eq_refl Hm4) as (s5 & f5 & R5 & Hm5 & F5); [lia|]. rewrite (bind_Ret _ _ _ _ _ R5).
  destruct (map_fixed r 5 _ f5 _ eq_refl Hm5) as (s6 & f6 & R6 & Hm6 & F6); [lia|]. rewrite (bind_Ret _ _ _ _ _ R6).
  destruct (map_stacks_run linked_kend r (fixed_regions etext trampoline) NPROC fixed_stack_apart [] f6 s6) as (st & s' & free' & R & Hst & Hn).
  - rewrite take_ge in Hm6 by (simpl; lia). split; [change (stack_regions []) with (@nil region); rewrite app_nil_r; exact Hm6|apply NoDup_nil_2|intros p []%elem_of_nil].
  - done.
  - unfold NPROC. lia.
  - exists r, st, s', free'. split_and!; [|done|done]. unfold proc_mapstacks. fold (map_stack r). simpl in R. by rewrite (bind_Ret _ _ _ _ _ R).
Qed.

(** ** What the page table grants *)

Lemma layout_cases gs va : ((∀ g, g ∈ gs → ¬ inside g va) ∧ layout gs va = 0) ∨
  ∃ g, g ∈ gs ∧ inside g va ∧ layout gs va = mk_pte (g_pa g + (va / PGSIZE * PGSIZE - g_va g)) (g_perm g).
Proof.
  induction gs as [|g gs IH] using rev_ind; [left; split; [by intros g ?%elem_of_nil|done]|]. rewrite layout_snoc.
  destruct (decide (inside g va)) as [D|D]; [right; exists g; split_and!; [set_solver|done..]|].
  destruct IH as [[Hn ->]|(g' & Hg' & Hi & ->)]; [left; split; [|done]|right; exists g'; split_and!; [set_solver|done..]].
  intros g' [Hg'|Hg']%elem_of_app; [by apply Hn|]. apply list_elem_of_singleton in Hg' as ->. done.
Qed.
Lemma page_of_region g va : region_ok g → inside g va → is_page (g_pa g + (va / PGSIZE * PGSIZE - g_va g)).
Proof.
  intros [(Ha & H0 & _) _ ([H1 H2] & H3) _] Hi. unfold inside, is_page, PGSIZE in *. split; zdiv.
Qed.
Lemma stack_region_in st g : g ∈ stack_regions st → ∃ i pa, st !! i = Some pa ∧ g = Region (KSTACK (Z.of_nat i)) 1 pa rw.
Proof.
  intros [j Hj]%list_elem_of_lookup. unfold stack_regions in Hj. rewrite list_lookup_imap in Hj. apply fmap_Some in Hj as (pa & Hpa & ->).
  by exists j, pa.
Qed.

Section granted.
Context {r : Z} {st free : list Z} {s : kstate} (Hst : stacked (kend := kend) r (fixed_regions etext trampoline) st free s) (Hn : length st = NPROC).

Lemma kernel_region_ok g : g ∈ kernel_regions st → region_ok g ∧ (g_perm g = rw ∨ g_perm g = rx).
Proof using All.
  intros [Hg|Hg]%elem_of_app.
  - split; [by apply fixed_region_ok|]. unfold fixed_regions in Hg. rewrite !elem_of_cons, elem_of_nil in Hg. destruct_or! Hg; subst; auto; done.
  - apply stack_region_in in Hg as (i & pa & Hi & ->). split; [|by left]. destruct (sk_user _ _ _ _ _ Hst pa (list_elem_of_lookup_2 _ _ _ Hi)) as ([Hr Ha] & _).
    pose proof linked_kend. apply lookup_lt_Some in Hi. apply stack_region_ok; [unfold stack_ok; lia| |];
      change PHYSTOP with 2281701376 in *; unfold KERNBASE, is_page, PGSIZE in *; [split; [lia|done]|lia].
Qed.

Lemma kernel_wx va : va_ok va → ¬ (has (leaf (k_mem s) r va) PTE_W = true ∧ has (leaf (k_mem s) r va) PTE_X = true) ∧ has (leaf (k_mem s) r va) PTE_U = false.
Proof using All.
  intros Hva. rewrite (km_leaf _ _ _ _ (sk_map _ _ _ _ _ Hst) va Hva). fold (kernel_regions st).
  destruct (layout_cases (kernel_regions st) va) as [[_ ->]|(g & Hg & Hi & ->)]; [by split; [intros [? _]|]|].
  destruct (kernel_region_ok g Hg) as [Hok Hp]. pose proof (page_of_region g va Hok Hi) as Hpg. unfold PTE_W, PTE_X, PTE_U.
  rewrite !has_testbit, !(mk_pte_bit Hpg (go_perm _ Hok)) by lia. by destruct Hp as [-> | ->]; split; [intros [? ?]| |intros [? ?]|].
Qed.
Lemma kernel_direct va : KERNBASE <= va < PHYSTOP → PTE2PA (leaf (k_mem s) r va) = va / PGSIZE * PGSIZE ∧
  has (leaf (k_mem s) r va) PTE_W = negb (va <? etext).
Proof using All.
  intros Hva. assert (va_ok va) as Hv by (unfold va_ok, KERNBASE in *; change PHYSTOP with 2281701376 in *; change MAXVA with 274877906944; lia).
  rewrite (km_leaf _ _ _ _ (sk_map _ _ _ _ _ Hst) va Hv). fold (kernel_regions st). pose proof Hl as [[H1 [H2 H3]] H4 H5 _].
  destruct (layout_cases (kernel_regions st) va) as [[Hno _]|(g & Hg & Hi & ->)].
  - exfalso. unfold kernel_regions, fixed_regions in Hno. destruct (decide (va < etext));
      [apply (Hno (Region KERNBASE (pages (etext - KERNBASE)) KERNBASE rx)); [set_solver|]|apply (Hno (Region etext (pages (PHYSTOP - etext)) etext rw)); [set_solver|]];
      unfold inside, pages, PGSIZE, KERNBASE in *; change PHYSTOP with 2281701376 in *; simpl; zdiv.
  - destruct (kernel_region_ok g Hg) as [Hok Hp]. pose proof (page_of_region g va Hok Hi) as Hpg.
    rewrite (mk_pte_pa Hpg (go_perm _ Hok)). unfold PTE_W. rewrite has_testbit, (mk_pte_bit Hpg (go_perm _ Hok)) by lia.
    apply elem_of_app in Hg as [Hg|(i & pa & Hi' & ->)%stack_region_in].
    + unfold fixed_regions in Hg. rewrite !elem_of_cons, elem_of_nil in Hg. unfold inside, pages, PGSIZE, KERNBASE in *. change PHYSTOP with 2281701376 in *.
      change TRAMPOLINE with 274877902848 in *. unfold UART0, VIRTIO0, PLIC in *. destruct_or! Hg; try done; subst g; simpl in *; try (exfalso; lia).
      * rewrite (proj2 (Z.ltb_lt va etext)) by zdiv. split; [lia|done].
      * rewrite (proj2 (Z.ltb_ge va etext)) by zdiv. split; [lia|done].
    + apply lookup_lt_Some in Hi'. unfold inside, KSTACK, PGSIZE, NPROC in *. change PHYSTOP with 2281701376 in *. change TRAMPOLINE with 274877902848 in *.
      simpl in *. lia.
Qed.
Lemma kernel_guard i va : stack_ok i → KSTACK i - PGSIZE <= va < KSTACK i → leaf (k_mem s) r va = 0.
Proof using All.
  intros Hi Hva. pose proof Hl as [[H1 [H2 H3]] H4 H5 _]. unfold stack_ok, KSTACK, NPROC, PGSIZE in *. change TRAMPOLINE with 274877902848 in *.
  rewrite (km_leaf _ _ _ _ (sk_map _ _ _ _ _ Hst) va) by (unfold va_ok; change MAXVA with 274877906944; lia). apply layout_out.
  intros g [Hg|(j & pa & Hj & ->)%stack_region_in]%elem_of_app.
  - unfold fixed_regions in Hg. rewrite !elem_of_cons, elem_of_nil in Hg. unfold inside, pages, PGSIZE, KERNBASE in *. change PHYSTOP with 2281701376 in *.
    unfold UART0, VIRTIO0, PLIC in *. change TRAMPOLINE with 274877902848 in *. destruct_or! Hg; try done; subst g; simpl; zdiv.
  - apply lookup_lt_Some in Hj. unfold inside, KSTACK, PGSIZE. change TRAMPOLINE with 274877902848. simpl. lia.
Qed.
End granted.

Lemma length_page_range p n : length (reverse (page_range p n)) = n.
Proof. unfold page_range. by rewrite length_reverse, length_fmap, length_seq. Qed.

(** C17: at boot, with at least 1001 pages of RAM behind the kernel, [kinit],
    [kvminit] and [kvminithart] run without a panic, and [satp] then holds a page
    table that maps exactly the devices, the kernel, all of RAM, the trampoline
    and one stack for every process.  RAM is mapped one to one, writable only
    behind the end of the text; no page is both writable and executable, none is
    open to user code; the page below each stack is not mapped; and the stacks
    are different pages that are neither free nor part of the table. *)
Theorem main_memory_maps v : kend + 1001 * PGSIZE <= PHYSTOP → unlocked (kv_k v) → freelist (kv_k v) = 0 → (∀ i, fr (kv_k v) i = 0) →
  ∃ v' st free, main_memory kend etext trampoline v = (Ret tt, v') ∧
    let r := kv_pagetable v' in let L := leaf (k_mem (kv_k v')) r in
    kv_satp v' = MAKE_SATP r ∧ vm_ok kend free [r] (kv_k v') ∧
    (∀ va, va_ok va → L va = layout (kernel_regions st) va) ∧
    (∀ va, KERNBASE <= va < PHYSTOP → PTE2PA (L va) = va / PGSIZE * PGSIZE ∧ has (L va) PTE_W = negb (va <? etext)) ∧
    (∀ va, va_ok va → ¬ (has (L va) PTE_W = true ∧ has (L va) PTE_X = true) ∧ has (L va) PTE_U = false) ∧
    (∀ i va, stack_ok i → KSTACK i - PGSIZE <= va < KSTACK i → L va = 0) ∧
    length st = NPROC ∧ NoDup st ∧ ∀ p, p ∈ st → user_page kend free [r] (k_mem (kv_k v')) p.
Proof using Hl.
  intros Hroom Hu Hf Hfr. pose proof linked_kend as Hk. destruct (kinit_frees_ram kend Hk (kv_k v)) as (k1 & R1 & Hi1 & Hu1 & _ & _); [unfold PGSIZE in *; lia|done..|].
  set (fl := reverse _) in Hi1. assert (vm_ok kend fl [] k1) as Hok1.
  { split; [done|]. split; [intros r p t [[]%elem_of_nil _]|intros r p t r' p' [[]%elem_of_nil _]]. }
  destruct (kvmmake_run fl k1 Hok1 (unlocked_can_kalloc _ Hu1)) as (r & st & k2 & free & R2 & Hst & Hn).
  { unfold fl. rewrite length_page_range. rewrite PGROUNDUP_spec by (unfold PHYSTOP, KERNBASE, PGSIZE in *; lia). unfold PGSIZE in *. zdiv. }
  exists (Kvm k2 r (MAKE_SATP r)), st, free. split.
  { unfold main_memory. assert (zoom kvL (kinit kend) v = (Ret tt, Kvm k1 (kv_pagetable v) (kv_satp v))) as E1 by (unfold zoom; simpl; by rewrite R1).
    rewrite (bind_Ret _ _ _ _ _ E1). assert (kvminit etext trampoline (Kvm k1 (kv_pagetable v) (kv_satp v)) = (Ret tt, Kvm k2 r (kv_satp v))) as E2.
    { unfold kvminit, bind, zoom. simpl. by rewrite R2. }
    by rewrite (bind_Ret _ _ _ _ _ E2). }
  simpl. split_and!; [done|apply (km_ok _ _ _ _ (sk_map _ _ _ _ _ Hst))|exact (km_leaf _ _ _ _ (sk_map _ _ _ _ _ Hst))|..]; [| | |done|apply Hst|apply Hst].
  - intros va. exact (kernel_direct Hst Hn va).
  - intros va. exact (kernel_wx Hst Hn va).
  - intros i va. exact (kernel_guard Hst Hn i va).
Qed.
End make.

Lemma demo_linked : linked (KERNBASE + 16 * PGSIZE) (KERNBASE + 8 * PGSIZE) (KERNBASE + 7 * PGSIZE).
Proof. by split; vm_compute. Qed.
Lemma main_memory_maps_witness : ∃ v, main_memory (KERNBASE + 16 * PGSIZE) (KERNBASE + 8 * PGSIZE) (KERNBASE + 7 * PGSIZE) (Kvm boot 0 0) = (Ret tt, v).
Proof.
  destruct (main_memory_maps demo_linked (Kvm boot 0 0)) as (v & _ & _ & E & _); [by vm_compute|exact boot_unlocked|done|done|]. by exists v.
Defined.
