(* ===== verification/Sleeplock.v ===== *)
(** * The running process, and sleep locks: [kernel/sleeplock.c]

    [ctx] is what the file system and the drivers see of the CPU and of
    [myproc()].  [sleep] gives up the spin lock and the CPU: the sequential
    model stops there with the channel as outcome, and the caller's loop tests
    its condition again when it is resumed.  [wakeup] records the channel whose
    sleepers become runnable. *)
From S2P Require Import Prelude Machine Spinlock.

Record ctx := Ctx {
  c_hart : hart;
  c_pid : Z;                 (** [myproc()->pid] *)
  c_killed : bool;           (** [killed(myproc())] *)
  c_woken : list channel;    (** the calls of [wakeup], latest first *)
}.

Definition c_hartL : lens ctx hart :=
  Lens c_hart (λ h c, Ctx h (c_pid c) (c_killed c) (c_woken c)).
#[global] Instance c_hartL_laws : LensLaws c_hartL.
Proof. by split; intros *; destruct s. Qed.

Definition lock (l : lockid) : M ctx unit := zoom c_hartL (acquire l).
Definition unlock (l : lockid) : M ctx unit := zoom c_hartL (release l).
Definition wakeup (ch : channel) : M ctx unit :=
  modify (λ c, Ctx (c_hart c) (c_pid c) (c_killed c) (ch :: c_woken c)).
Definition sleep {A} (ch : channel) (l : lockid) : M ctx A := unlock l ;;; block ch.

(** A call that sleeps in the middle is a sequence of critical sections: one of
    them ends the call, or sleeps on a channel with [i] bytes moved or left. *)
Inductive presult := Slept (ch : channel) (i : Z) | Done (r : Z).

(** No lock of the list is held, and the CPU is consistent. *)
Definition quiet (ls : lockid → Prop) (c : ctx) : Prop :=
  hart_ok (c_hart c) ∧ ∀ l, ls l → l ∉ h_held (c_hart c).

Definition set_chart (h : hart) (c : ctx) : ctx := Ctx h (c_pid c) (c_killed c) (c_woken c).
Definition woke (ch : channel) (c : ctx) : ctx := Ctx (c_hart c) (c_pid c) (c_killed c) (ch :: c_woken c).

Lemma lock_run l c : hart_ok (c_hart c) → l ∉ h_held (c_hart c) →
  lock l c = (Ret tt, set_chart (taken l (c_hart c)) c).
Proof. intros. by apply zoom_run, acquire_run. Qed.

Lemma lock_held l c : hart_ok (c_hart c) → l ∈ h_held (c_hart c) → ∃ c', lock l c = (Panic "acquire", c').
Proof.
  intros Ho Hl. destruct (acquire_held l (c_hart c)) as [h E]; [done..|].
  eexists. unfold lock. by apply zoom_run.
Qed.

Lemma unlock_run l h c : hart_ok h → l ∉ h_held h → c_hart c = taken l h →
  unlock l c = (Ret tt, set_chart h c).
Proof. intros Ho Hl E. apply zoom_run. simpl. rewrite E. by apply release_run. Qed.

(** A critical section: the body runs with the lock held and leaves the CPU as it found it. *)
Lemma critical_run {A} l (m : M ctx A) c a c' : hart_ok (c_hart c) → l ∉ h_held (c_hart c) →
  m (set_chart (taken l (c_hart c)) c) = (Ret a, c') → c_hart c' = taken l (c_hart c) →
  (lock l ;;; x <- m ;; unlock l ;;; ret x) c = (Ret a, set_chart (c_hart c) c').
Proof.
  intros Ho Hl Hm Hc. rewrite (bind_Ret _ _ _ _ _ (lock_run l c Ho Hl)), (bind_Ret _ _ _ _ _ Hm).
  erewrite bind_Ret; [done|]. by apply unlock_run.
Qed.

(** ** Sleep locks *)

Record sleeplock := SleepLock { sl_locked : Z; sl_pid : Z }.

(** An operation on the lock [id], with the state of the lock. *)
Definition onlock (A : Type) : Type := M (ctx * sleeplock) A.
Definition ctxL : lens (ctx * sleeplock) ctx := Lens fst (λ c s, (c, snd s)).
Definition slL : lens (ctx * sleeplock) sleeplock := Lens snd (λ l s, (fst s, l)).

Definition initsleeplock : onlock unit := zoom slL (modify (λ _, SleepLock 0 0)).

Definition acquiresleep (id : sleepid) : onlock unit :=
  zoom ctxL (lock (LkSleep id)) ;;;
  lk <- gets snd ;;
  if truth (sl_locked lk) then zoom ctxL (sleep (ChSleepLock id) (LkSleep id))
  else
    pid <- gets (λ s, c_pid (fst s)) ;;
    zoom slL (modify (λ _, SleepLock 1 pid)) ;;;
    zoom ctxL (unlock (LkSleep id)).

Definition releasesleep (id : sleepid) : onlock unit :=
  zoom ctxL (lock (LkSleep id)) ;;;
  zoom slL (modify (λ _, SleepLock 0 0)) ;;;
  zoom ctxL (wakeup (ChSleepLock id)) ;;;
  zoom ctxL (unlock (LkSleep id)).

Definition holdingsleep (id : sleepid) : onlock bool :=
  zoom ctxL (lock (LkSleep id)) ;;;
  r <- gets (λ s, truth (sl_locked (snd s)) && (sl_pid (snd s) =? c_pid (fst s))) ;;
  zoom ctxL (unlock (LkSleep id)) ;;;
  ret r.

Lemma set_chart_id h c : set_chart (c_hart c) (set_chart h c) = c.
Proof. by destruct c. Qed.

Section run.
Context {id : sleepid} {c : ctx} (Ho : hart_ok (c_hart c)) (Hl : LkSleep id ∉ h_held (c_hart c)).

Lemma acquiresleep_free lk : sl_locked lk = 0 →
  acquiresleep id (c, lk) = (Ret tt, (c, SleepLock 1 (c_pid c))).
Proof.
  intros E. unfold acquiresleep.
  rewrite (bind_Ret _ _ _ _ _ (zoom_run ctxL _ (c, lk) _ _ (lock_run _ _ Ho Hl))).
  unfold bind at 1, gets. simpl. rewrite E. simpl. unfold bind, gets, zoom at 1, modify. simpl.
  unfold zoom. simpl. rewrite (unlock_run _ (c_hart c)) by done. simpl. by rewrite set_chart_id.
Qed.

Lemma acquiresleep_busy lk : sl_locked lk ≠ 0 →
  acquiresleep id (c, lk) = (Blocked (ChSleepLock id), (c, lk)).
Proof.
  intros E. unfold acquiresleep.
  rewrite (bind_Ret _ _ _ _ _ (zoom_run ctxL _ (c, lk) _ _ (lock_run _ _ Ho Hl))).
  unfold bind at 1, gets, truth. simpl. rewrite (proj2 (Z.eqb_neq _ _)) by done. simpl.
  unfold zoom, sleep, bind, block. simpl. rewrite (unlock_run _ (c_hart c)) by done. simpl.
  by rewrite set_chart_id.
Qed.

Lemma releasesleep_run lk :
  releasesleep id (c, lk) = (Ret tt, (woke (ChSleepLock id) c, SleepLock 0 0)).
Proof.
  unfold releasesleep.
  rewrite (bind_Ret _ _ _ _ _ (zoom_run ctxL _ (c, lk) _ _ (lock_run _ _ Ho Hl))).
  unfold bind, zoom, modify, wakeup. simpl. by rewrite (unlock_run _ (c_hart c)).
Qed.

Lemma holdingsleep_run lk :
  holdingsleep id (c, lk) = (Ret (truth (sl_locked lk) && (sl_pid lk =? c_pid c)), (c, lk)).
Proof.
  unfold holdingsleep.
  rewrite (bind_Ret _ _ _ _ _ (zoom_run ctxL _ (c, lk) _ _ (lock_run _ _ Ho Hl))).
  unfold bind, gets, zoom. simpl. rewrite (unlock_run _ (c_hart c)) by done. simpl.
  by rewrite set_chart_id.
Qed.
End run.
