(* ===== verification/Blocks.v ===== *)
(** * Disk blocks: [kernel/fs.h]

    A block is the list of its 1024 bytes; integers in it are little-endian, as
    the CPU stores them through the C structures laid over [b->data].  Also the
    on-disk layout: the macros and structures of [fs.h]. *)
From S2P Require Import Prelude Machine.

Definition BSIZE : Z := 1024.

Abbreviation block := (list Z).

Definition byte (b : Z) : Prop := 0 <= b < 256.
Definition wf_block (b : block) : Prop := length b = Z.to_nat BSIZE ∧ Forall byte b.

Definition zero_block : block := replicate (Z.to_nat BSIZE) 0.

(** The [n]-byte integer at offset [o]. *)
Fixpoint getn (n : nat) (l : list Z) (o : nat) : Z :=
  match n with O => 0 | S n' => l !!! o + 256 * getn n' l (S o) end.
Fixpoint putn (n : nat) (l : list Z) (o : nat) (v : Z) : list Z :=
  match n with O => l | S n' => putn n' (<[o := v mod 256]> l) (S o) (v / 256) end.

Definition get16 := getn 2.
Definition get32 := getn 4.
Definition put16 := putn 2.
Definition put32 := putn 4.

Lemma length_putn n l o v : length (putn n l o v) = length l.
Proof. revert l o v. induction n as [|n IH]; intros l o v; simpl; [done|]. by rewrite IH, length_insert. Qed.

Lemma putn_lookup_out n l o v i : (i < o ∨ o + n <= i)%nat → putn n l o v !! i = l !! i.
Proof.
  revert l o v. induction n as [|n IH]; intros l o v Hi; simpl; [done|].
  rewrite IH by lia. apply list_lookup_insert_ne. lia.
Qed.

Lemma getn_ext n l l' o : (∀ i, (o <= i < o + n)%nat → l !! i = l' !! i) → getn n l o = getn n l' o.
Proof.
  revert o. induction n as [|n IH]; intros o H; simpl; [done|]. f_equal.
  - rewrite !list_lookup_total_alt, H; [done|lia].
  - f_equal. apply IH. intros i Hi. apply H. lia.
Qed.

Lemma getn_putn_ne n k l o o' v : (o + n <= o' ∨ o' + k <= o)%nat → getn n (putn k l o' v) o = getn n l o.
Proof. intros Hd. apply getn_ext. intros i Hi. apply putn_lookup_out. lia. Qed.

Lemma getn_putn n l o v : (o + n <= length l)%nat → getn n (putn n l o v) o = v mod 256 ^ Z.of_nat n.
Proof.
  revert l o v. induction n as [|n IH]; intros l o v Ho.
  { simpl. by rewrite Z.mod_1_r. }
  cbn [getn putn]. rewrite IH by (rewrite length_insert; lia).
  rewrite list_lookup_total_alt, putn_lookup_out by lia.
  rewrite list_lookup_insert_eq by lia. simpl.
  rewrite Nat2Z.inj_succ, Z.pow_succ_r by lia.
  assert (0 < 256 ^ Z.of_nat n) by (apply Z.pow_pos_nonneg; lia).
  rewrite Z.rem_mul_r by lia. done.
Qed.

Lemma getn_bound n l o : Forall byte l → (o + n <= length l)%nat → 0 <= getn n l o < 256 ^ Z.of_nat n.
Proof.
  revert o. induction n as [|n IH]; intros o Hf Ho; cbn [getn]; [simpl; lia|].
  rewrite Nat2Z.inj_succ, Z.pow_succ_r by lia. specialize (IH (S o) Hf ltac:(lia)).
  destruct (lookup_lt_is_Some_2 l o) as [b Hb]; [lia|].
  pose proof (Forall_lookup_1 _ _ _ _ Hf Hb) as Hbb. unfold byte in Hbb.
  rewrite list_lookup_total_alt, Hb. simpl. lia.
Qed.

Lemma Forall_putn n l o v : Forall byte l → Forall byte (putn n l o v).
Proof.
  revert l o v. induction n as [|n IH]; intros l o v Hl; simpl; [done|].
  apply IH, Forall_insert; [done|]. unfold byte. by apply Z.mod_pos_bound.
Qed.

Lemma wf_putn n l o v : wf_block l → wf_block (putn n l o v).
Proof. intros [Hl Hf]. split; [by rewrite length_putn|by apply Forall_putn]. Qed.

Lemma get32_put32 l o v : (o + 4 <= length l)%nat → get32 (put32 l o v) o = u32 v.
Proof. intros Ho. unfold get32, put32. rewrite getn_putn by done. done. Qed.
Lemma get32_put32_ne l o o' v : (o + 4 <= o' ∨ o' + 4 <= o)%nat → get32 (put32 l o' v) o = get32 l o.
Proof. intros. unfold get32, put32. apply getn_putn_ne. lia. Qed.
Lemma get16_put16 l o v : (o + 2 <= length l)%nat → get16 (put16 l o v) o = u16 v.
Proof. intros Ho. unfold get16, put16. rewrite getn_putn by done. done. Qed.

(** An array of 32-bit integers stored from offset [o]. *)
Lemma put32s_run (f : nat → Z) o m b : (o + 4 * m <= length b)%nat →
  let h := fold_left (λ b k, put32 b (o + 4 * k) (f k)) (seq 0 m) b in
  length h = length b ∧ (∀ i, (i < o ∨ o + 4 * m <= i)%nat → h !! i = b !! i) ∧
  ∀ k, (k < m)%nat → get32 h (o + 4 * k) = u32 (f k).
Proof.
  induction m as [|m IH]; intros Hm; [by split_and!; simpl; [..|lia]|].
  destruct IH as (Hl & Ho & Hi); [lia|]. cbv zeta. rewrite seq_S, fold_left_app. cbn [fold_left].
  set (h := fold_left _ _ _) in *. split_and!.
  - unfold put32. by rewrite length_putn.
  - intros i Hi'. unfold put32. rewrite putn_lookup_out by lia. apply Ho. lia.
  - intros k Hk. destruct (decide (k = m)) as [->|Hne]; [apply get32_put32; rewrite Hl; lia|].
    rewrite get32_put32_ne by lia. apply Hi. lia.
Qed.

Lemma wf_zero_block : wf_block zero_block.
Proof.
  split; [apply length_replicate|]. apply Forall_replicate. unfold byte. lia.
Qed.

(** ** The disk layout *)

Record superblock := SuperBlock {
  sb_magic : Z; sb_size : Z; sb_nblocks : Z; sb_ninodes : Z;
  sb_nlog : Z; sb_logstart : Z; sb_inodestart : Z; sb_bmapstart : Z;
}.

Definition FSMAGIC : Z := 0x10203040.
Definition NDIRECT : Z := 12.
Definition NINDIRECT : Z := BSIZE / 4.
Definition MAXFILE : Z := NDIRECT + NINDIRECT.
Definition DINODE : Z := 64.                 (** [sizeof(struct dinode)] *)
Definition IPB : Z := BSIZE / DINODE.
Definition IBLOCK (i : Z) (sb : superblock) : Z := i / IPB + sb_inodestart sb.
Definition BPB : Z := BSIZE * 8.
Definition BBLOCK (b : Z) (sb : superblock) : Z := b / BPB + sb_bmapstart sb.
Definition DIRSIZ : Z := 14.
Definition DIRENT : Z := 16.                 (** [sizeof(struct dirent)] *)
Definition ROOTINO : Z := 1.

(** [memmove] of the superblock out of its block. *)
Definition decode_super (b : block) : superblock :=
  SuperBlock (get32 b 0) (get32 b 4) (get32 b 8) (get32 b 12)
    (get32 b 16) (get32 b 20) (get32 b 24) (get32 b 28).
