(* ===== verification/Bio.v ===== *)
(** * Buffer cache: [kernel/bio.c]

    The cache is an array of buffers linked, through [prev] and [next], into a
    list in order of use.  [Module Lru] proves that the pointer updates of
    [binit] and [brelse] build that list and move a buffer to its front.  The
    clients (the log, the file system) use the cache through the abstract state
    [acache]: the contents of every block as a reader sees it, the disk, and
    the blocks in use; [brep] ties it to the buffers and the theorems show that
    every operation does on the buffers what it does on [acache]. *)
From S2P Require Import Prelude Machine Spinlock Sleeplock Blocks.

(** ** The disk driver, as the cache uses it

    [virtio_disk_rw(b, write)] of the driver, for the block number and the data
    of [b]; it returns the data [b] has afterwards. *)
Class DiskDriver (D : Type) := {
  virtio_disk_rw : bool → Z → block → M D block;
  d_at : D → Z → block;                  (** the contents of the disk *)
  d_trace : D → list (Z * block);        (** the block writes, latest first *)
}.

Definition bupd (d : Z → block) (x : Z) (v : block) : Z → block := λ y, if decide (y = x) then v else d y.

Class DiskSpec (D : Type) `{DiskDriver D} := {
  disk_read : ∀ x b d, 0 <= x < 2 ^ 32 → virtio_disk_rw false x b d = (Ret (d_at d x), d);
  disk_write : ∀ x b d, 0 <= x < 2 ^ 32 → ∃ d', virtio_disk_rw true x b d = (Ret b, d') ∧
    (∀ y, d_at d' y = bupd (d_at d) x b y) ∧ d_trace d' = (x, b) :: d_trace d;
}.

(** ** Buffers *)

Record buf := Buf {
  b_valid : Z;
  b_disk : Z;
  b_dev : Z;
  b_blockno : Z;
  b_lock : sleeplock;
  b_refcnt : Z;
  b_prev : nat;
  b_next : nat;
  b_data : block;
}.
#[global] Instance buf_inhabited : Inhabited buf := populate (Buf 0 0 0 0 (SleepLock 0 0) 0 0 0 []).

Definition set_valid v b := Buf v (b_disk b) (b_dev b) (b_blockno b) (b_lock b) (b_refcnt b) (b_prev b) (b_next b) (b_data b).
Definition set_block dev no b := Buf (b_valid b) (b_disk b) dev no (b_lock b) (b_refcnt b) (b_prev b) (b_next b) (b_data b).
Definition set_block_lock l b := Buf (b_valid b) (b_disk b) (b_dev b) (b_blockno b) l (b_refcnt b) (b_prev b) (b_next b) (b_data b).
Definition set_refcnt n b := Buf (b_valid b) (b_disk b) (b_dev b) (b_blockno b) (b_lock b) n (b_prev b) (b_next b) (b_data b).
Definition set_prev p b := Buf (b_valid b) (b_disk b) (b_dev b) (b_blockno b) (b_lock b) (b_refcnt b) p (b_next b) (b_data b).
Definition set_next n b := Buf (b_valid b) (b_disk b) (b_dev b) (b_blockno b) (b_lock b) (b_refcnt b) (b_prev b) n (b_data b).
Definition set_data d b := Buf (b_valid b) (b_disk b) (b_dev b) (b_blockno b) (b_lock b) (b_refcnt b) (b_prev b) (b_next b) d.

(** [bcache] and its surroundings: [bc_buf] holds [bcache.buf] and, at index
    [NBUF], [bcache.head]. *)
Record bstate (D : Type) := BState { bc_ctx : ctx; bc_buf : list buf; bc_disk : D }.
Arguments BState {D} _ _ _.
Arguments bc_ctx {D} _.
Arguments bc_buf {D} _.
Arguments bc_disk {D} _.

Definition bhead : nat := NBUF.

Section bio.
Context {D : Type} `{DiskDriver D}.

Definition ctx_b : lens (bstate D) ctx := Lens bc_ctx (λ c s, BState c (bc_buf s) (bc_disk s)).

(** [bcache.buf[b]], read and written *)
Definition getb (b : nat) : M (bstate D) buf := gets (λ s, bc_buf s !!! b).
Definition updb (b : nat) (f : buf → buf) : M (bstate D) unit :=
  modify (λ s, BState (bc_ctx s) (alter f b (bc_buf s)) (bc_disk s)).

(** A sleep-lock operation on [b->lock]. *)
Definition on_block {A} (b : nat) (m : sleepid → onlock A) : M (bstate D) A := λ s,
  match m (SlBuf b) (bc_ctx s, b_lock (bc_buf s !!! b)) with
  | (o, (c, lk)) => (o, BState c (alter (set_block_lock lk) b (bc_buf s)) (bc_disk s))
  end.

(** [virtio_disk_rw] on [b]. *)
Definition disk_rw (b : nat) (write : bool) : M (bstate D) unit := λ s,
  match virtio_disk_rw write (b_blockno (bc_buf s !!! b)) (b_data (bc_buf s !!! b)) (bc_disk s) with
  | (Ret v, d) => (Ret tt, BState (bc_ctx s) (alter (set_data v) b (bc_buf s)) d)
  | (Panic e, d) => (Panic e, BState (bc_ctx s) (bc_buf s) d)
  | (Blocked c, d) => (Blocked c, BState (bc_ctx s) (bc_buf s) d)
  end.

Definition binit : M (bstate D) unit :=
  updb bhead (set_prev bhead) ;;;
  updb bhead (set_next bhead) ;;;
  for_all (seq 0 NBUF) (λ b,
    h <- getb bhead ;;
    updb b (set_next (b_next h)) ;;;
    updb b (set_prev bhead) ;;;
    on_block b (λ _, initsleeplock) ;;;
    h <- getb bhead ;;
    updb (b_next h) (set_prev b) ;;;
    updb bhead (set_next b)).

(** A loop over the list: the first buffer from [b] that satisfies [ok]. *)
Fixpoint bfind (step : buf → nat) (ok : buf → bool) (fuel : nat) (bs : list buf) (b : nat) : option nat :=
  match fuel with
  | O => None
  | S f => if decide (b = bhead) then None
           else if ok (bs !!! b) then Some b
           else bfind step ok f bs (step (bs !!! b))
  end.

Definition bget (dev blockno : Z) : M (bstate D) nat :=
  zoom ctx_b (lock LkBcache) ;;;
  (* Is the block already cached? *)
  r <- gets (λ s, bfind b_next (λ b, (b_dev b =? dev) && (b_blockno b =? blockno))
                    (S NBUF) (bc_buf s) (b_next (bc_buf s !!! bhead))) ;;
  match r with
  | Some b =>
      updb b (λ x, set_refcnt (u32 (b_refcnt x + 1)) x) ;;;
      zoom ctx_b (unlock LkBcache) ;;;
      on_block b acquiresleep ;;;
      ret b
  | None =>
      (* Not cached: recycle the least recently used unused buffer. *)
      r <- gets (λ s, bfind b_prev (λ b, b_refcnt b =? 0)
                        (S NBUF) (bc_buf s) (b_prev (bc_buf s !!! bhead))) ;;
      match r with
      | Some b =>
          updb b (set_block dev blockno) ;;;
          updb b (set_valid 0) ;;;
          updb b (set_refcnt 1) ;;;
          zoom ctx_b (unlock LkBcache) ;;;
          on_block b acquiresleep ;;;
          ret b
      | None => panic "bget: no buffers"
      end
  end.

Definition bread (dev blockno : Z) : M (bstate D) nat :=
  b <- bget dev blockno ;;
  x <- getb b ;;
  when (negb (truth (b_valid x))) (disk_rw b false ;;; updb b (set_valid 1)) ;;;
  ret b.

Definition bwrite (b : nat) : M (bstate D) unit :=
  h <- on_block b holdingsleep ;;
  if negb h then panic "bwrite" else disk_rw b true.

Definition brelse (b : nat) : M (bstate D) unit :=
  h <- on_block b holdingsleep ;;
  if negb h then panic "brelse" else
  on_block b releasesleep ;;;
  zoom ctx_b (lock LkBcache) ;;;
  updb b (λ x, set_refcnt (u32 (b_refcnt x - 1)) x) ;;;
  x <- getb b ;;
  (if b_refcnt x =? 0 then
     (* no one is waiting for it: to the front of the list *)
     updb (b_next x) (set_prev (b_prev x)) ;;;
     x <- getb b ;;
     updb (b_prev x) (set_next (b_next x)) ;;;
     h <- getb bhead ;;
     updb b (set_next (b_next h)) ;;;
     updb b (set_prev bhead) ;;;
     h <- getb bhead ;;
     updb (b_next h) (set_prev b) ;;;
     updb bhead (set_next b)
   else ret tt) ;;;
  zoom ctx_b (unlock LkBcache).

Definition bpin (b : nat) : M (bstate D) unit :=
  zoom ctx_b (lock LkBcache) ;;;
  updb b (λ x, set_refcnt (u32 (b_refcnt x + 1)) x) ;;;
  zoom ctx_b (unlock LkBcache).

Definition bunpin (b : nat) : M (bstate D) unit :=
  zoom ctx_b (lock LkBcache) ;;;
  updb b (λ x, set_refcnt (u32 (b_refcnt x - 1)) x) ;;;
  zoom ctx_b (unlock LkBcache).

(** [b->data], read and written by the holder of the lock *)
Definition bdata (b : nat) : M (bstate D) block := gets (λ s, b_data (bc_buf s !!! b)).
Definition bstore (b : nat) (v : block) : M (bstate D) unit := updb b (set_data v).
End bio.

(** ** The list of buffers *)
Module Lru.


(** [f] leads from [a] through [l] to [z]. *)
Fixpoint chain (f : nat → nat) (a : nat) (l : list nat) (z : nat) : Prop :=
  match l with [] => f a = z | x :: l' => f a = x ∧ chain f x l' z end.

Lemma chain_app f a l b l' z : chain f a (l ++ b :: l') z ↔ chain f a l b ∧ chain f b l' z.
Proof. revert a. induction l as [|x l IH]; intros a; simpl; [done|]. rewrite IH. tauto. Qed.

Lemma chain_upd_other f a l z i v : i ∉ a :: l → chain (upd f i v) a l z ↔ chain f a l z.
Proof.
  revert a. induction l as [|x l IH]; intros a Hi; simpl; unfold upd at 1.
  - rewrite decide_False by set_solver. done.
  - rewrite decide_False by set_solver. rewrite IH by set_solver. done.
Qed.

(** The last node before the end. *)
Fixpoint tail_of (a : nat) (l : list nat) : nat :=
  match l with [] => a | x :: l' => tail_of x l' end.

Lemma tail_of_in a l : tail_of a l ∈ a :: l.
Proof. revert a. induction l as [|x l IH]; intros a; simpl; [set_solver|]. specialize (IH x). set_solver. Qed.

Lemma tail_of_app a l x : tail_of a (l ++ [x]) = x.
Proof. revert a. induction l as [|y l IH]; intros a; simpl; [done|apply IH]. Qed.

Lemma chain_set_tail f a l z z' : NoDup (a :: l) → chain f a l z → chain (upd f (tail_of a l) z') a l z'.
Proof.
  revert a. induction l as [|x l IH]; intros a Hd; simpl.
  - intros _. unfold upd. by rewrite decide_True.
  - intros [Hx Hc]. apply NoDup_cons in Hd as [Ha Hd]. split; [|by apply IH].
    unfold upd. rewrite decide_False; [done|]. intros ->. apply Ha, tail_of_in.
Qed.

(** The first step into a reversed list comes to its last node. *)
Lemma chain_reverse_first f b l h : chain f b (reverse l) h → f b = tail_of h l.
Proof.
  destruct l as [|x l _] using rev_ind; simpl; [done|].
  rewrite reverse_snoc, tail_of_app. simpl. by intros [? _].
Qed.

(** Doubly linked: [next] forwards and [prev] backwards around [h]. *)
Record dll (h : nat) (nx pv : nat → nat) (l : list nat) : Prop := {
  dll_next : chain nx h l h;
  dll_prev : chain pv h (reverse l) h;
  dll_nodup : NoDup (h :: l);
}.

Lemma unlink_chain f h l1 b l2 : NoDup (h :: l1 ++ b :: l2) → chain f h (l1 ++ b :: l2) h →
  chain (upd f (tail_of h l1) (f b)) h (l1 ++ l2) h.
Proof.
  intros Hd [H1 H2]%chain_app.
  assert (NoDup (h :: l1)) as Hd1.
  { rewrite app_comm_cons in Hd. by apply NoDup_app in Hd as (? & _). }
  destruct l2 as [|x l2]; simpl in H2.
  - rewrite app_nil_r, H2. by eapply chain_set_tail.
  - destruct H2 as [E H2]. apply chain_app. rewrite E. split; [by eapply chain_set_tail|].
    apply chain_upd_other; [|done]. pose proof (tail_of_in h l1) as Ht. intros Hx.
    apply NoDup_cons in Hd as [Hh Hd]. apply NoDup_app in Hd as (_ & Hdis & _).
    apply elem_of_cons in Ht as [Et|Ht]; [rewrite Et in Hx; apply Hh; set_solver|].
    apply (Hdis _ Ht). set_solver.
Qed.

Lemma NoDup_reverse_cons (h : nat) l : NoDup (h :: l) → NoDup (h :: reverse l).
Proof. rewrite !NoDup_cons, elem_of_reverse. intros [? ?]. split; [done|]. by rewrite reverse_Permutation. Qed.

(** [b->next->prev = b->prev; b->prev->next = b->next] *)
Lemma unlink h nx pv l1 b l2 : dll h nx pv (l1 ++ b :: l2) →
  dll h (upd nx (pv b) (nx b)) (upd pv (nx b) (pv b)) (l1 ++ l2).
Proof.
  intros [Hn Hp Hd]. assert (reverse (l1 ++ b :: l2) = reverse l2 ++ b :: reverse l1) as Er.
  { by rewrite reverse_app, reverse_cons, <-app_assoc. }
  rewrite Er in Hp. pose proof (NoDup_reverse_cons _ _ Hd) as Hdr. rewrite Er in Hdr.
  assert (pv b = tail_of h l1) as Ep by (eapply chain_reverse_first; by apply chain_app in Hp as [_ ?]).
  assert (nx b = tail_of h (reverse l2)) as En.
  { apply chain_reverse_first. rewrite reverse_involutive. by apply chain_app in Hn as [_ ?]. }
  split.
  - rewrite Ep. by apply unlink_chain.
  - rewrite En, reverse_app. by apply unlink_chain.
  - apply NoDup_cons in Hd as [Hh Hd]. apply NoDup_cons. split; [set_solver|].
    apply NoDup_app in Hd as (H1 & H2 & H3). apply NoDup_cons in H3 as [_ H3].
    apply NoDup_app. split_and!; [done|set_solver|done].
Qed.

(** [b->next = head.next; b->prev = &head; head.next->prev = b; head.next = b] *)
Lemma push h nx pv b l : dll h nx pv l → b ∉ h :: l →
  dll h (upd (upd nx b (nx h)) h b) (upd (upd pv b h) (nx h) b) (b :: l).
Proof.
  intros [Hn Hp Hd] Hb. pose proof (NoDup_reverse_cons _ _ Hd) as Hdr.
  assert (nx h = tail_of h (reverse l)) as En.
  { apply chain_reverse_first. by rewrite reverse_involutive. }
  assert (b ≠ h) as Hbh by set_solver.
  split.
  - simpl. unfold upd at 1. rewrite decide_True by done. split; [done|].
    assert (h ∉ b :: l) as Hh by (apply NoDup_cons in Hd as [? _]; set_solver).
    apply chain_upd_other; [done|]. destruct l as [|x l]; simpl in *; unfold upd at 1; rewrite decide_True by done.
    + done.
    + destruct Hn as [<- Hn]. split; [done|]. apply chain_upd_other; [set_solver|done].
  - rewrite reverse_cons. apply chain_app. split.
    + rewrite En. apply (chain_set_tail _ _ _ h); [done|]. apply chain_upd_other; [|done].
      set_unfold. intros [?|Hin]; [done|]. apply elem_of_reverse in Hin. set_solver.
    + simpl. unfold upd. rewrite decide_False.
      * by rewrite decide_True.
      * intros ->. apply Hb. rewrite En. pose proof (tail_of_in h (reverse l)) as Ht.
        apply elem_of_cons in Ht as [->|Ht]; [set_solver|]. apply elem_of_reverse in Ht. set_solver.
  - apply NoDup_cons in Hd as [Hh Hd]. set_unfold. rewrite !NoDup_cons. set_solver.
Qed.

Lemma chain_ext f g a l z : (∀ b, f b = g b) → chain f a l z → chain g a l z.
Proof.
  intros E. revert a. induction l as [|x l IH]; intros a; simpl; rewrite E; [done|].
  intros [? ?]. split; [done|by apply IH].
Qed.

Lemma dll_ext h nx pv nx' pv' l : (∀ b, nx b = nx' b) → (∀ b, pv b = pv' b) → dll h nx pv l → dll h nx' pv' l.
Proof. intros E1 E2 [H1 H2 H3]. split; [by eapply chain_ext|by eapply chain_ext|done]. Qed.

(** A loop along the list finds what a search of the list finds. *)
Lemma chain_find (bs : list buf) step ok (f : nat → nat) l : (∀ b, f b = step (bs !!! b)) →
  ∀ fuel a, bhead ∉ l → (length l < fuel)%nat → chain f a l bhead →
  bfind step ok fuel bs (f a) = List.find (λ b, ok (bs !!! b)) l.
Proof.
  intros Hf. induction l as [|x l IH]; intros [|fuel] a Hh Hl; try (simpl in Hl; lia); simpl.
  - intros ->. by rewrite decide_True.
  - intros [E Hc]. rewrite E, decide_False by set_solver.
    destruct (ok (bs !!! x)); [done|]. rewrite <-Hf. apply IH; [set_solver|simpl in Hl; lia|done].
Qed.
End Lru.

(** ** The cache as its clients see it *)

(** The contents of every block as a reader gets it, the disk, and the blocks
    in use: their buffer, their reference count, and whether they are locked. *)
Record acache := ACache {
  ac_view : Z → block;
  ac_disk : Z → block;
  ac_trace : list (Z * block);
  ac_ref : gmap Z (nat * Z * bool);
}.

(** The locks the cache takes. *)
Definition cache_lock (l : lockid) : Prop := l = LkBcache ∨ ∃ b, l = LkSleep (SlBuf b).

Definition buf_ok (d pid : Z) (a : acache) (i : nat) (x : buf) : Prop :=
  0 <= b_refcnt x ∧ (b_refcnt x = 0 → sl_locked (b_lock x) = 0) ∧
  (0 < b_refcnt x → b_dev x = d ∧ b_valid x ≠ 0 ∧
     ∃ lk, ac_ref a !! b_blockno x = Some (i, b_refcnt x, lk) ∧
       if lk : bool then b_lock x = SleepLock 1 pid else sl_locked (b_lock x) = 0) ∧
  (b_dev x = d → b_valid x ≠ 0 → b_data x = ac_view a (b_blockno x)).

Section rep.
Context {D : Type} `{DiskSpec D}.

Definition nx (s : bstate D) (b : nat) : nat := b_next (bc_buf s !!! b).
Definition pv (s : bstate D) (b : nat) : nat := b_prev (bc_buf s !!! b).

Record brep (d : Z) (l : list nat) (a : acache) (s : bstate D) : Prop := {
  br_len : length (bc_buf s) = S NBUF;
  br_dll : Lru.dll bhead (nx s) (pv s) l;
  br_all : ∀ b, b ∈ l ↔ (b < NBUF)%nat;
  br_quiet : quiet cache_lock (bc_ctx s);
  br_disk : ∀ x, d_at (bc_disk s) x = ac_disk a x;
  br_trace : d_trace (bc_disk s) = ac_trace a;
  br_buf : ∀ i, (i < NBUF)%nat → buf_ok d (c_pid (bc_ctx s)) a i (bc_buf s !!! i);
  br_ref : ∀ x i n lk, ac_ref a !! x = Some (i, n, lk) →
    (i < NBUF)%nat ∧ b_blockno (bc_buf s !!! i) = x ∧ b_refcnt (bc_buf s !!! i) = n ∧ 0 < n;
  br_uniq : ∀ i j, (i < NBUF)%nat → (j < NBUF)%nat → b_dev (bc_buf s !!! i) = d →
    b_dev (bc_buf s !!! j) = d → b_blockno (bc_buf s !!! i) = b_blockno (bc_buf s !!! j) → i = j;
  br_clean : ∀ x, ac_ref a !! x = None → ac_view a x = ac_disk a x;
}.

Lemma alter_total (f : buf → buf) (bs : list buf) b j : (b < length bs)%nat →
  alter f b bs !!! j = if decide (j = b) then f (bs !!! b) else bs !!! j.
Proof.
  intros Hb. rewrite !list_lookup_total_alt. case_decide as E.
  - subst. rewrite list_lookup_alter_eq. destruct (lookup_lt_is_Some_2 bs b Hb) as [x ->]. done.
  - by rewrite list_lookup_alter_ne.
Qed.

(** A change of one buffer that leaves its place in the list alone. *)
Lemma brep_buf d l a a' s c' d' b (f : buf → buf) : brep d l a s → (b < NBUF)%nat →
  (let x := bc_buf s !!! b in b_next (f x) = b_next x ∧ b_prev (f x) = b_prev x) →
  quiet cache_lock c' → (∀ x, d_at d' x = ac_disk a' x) → d_trace d' = ac_trace a' →
  buf_ok d (c_pid c') a' b (f (bc_buf s !!! b)) →
  (∀ i, (i < NBUF)%nat → i ≠ b → buf_ok d (c_pid c') a' i (bc_buf s !!! i)) →
  (∀ x i n lk, ac_ref a' !! x = Some (i, n, lk) →
     if decide (i = b) then b_blockno (f (bc_buf s !!! b)) = x ∧ b_refcnt (f (bc_buf s !!! b)) = n ∧ 0 < n
     else ∃ lk', ac_ref a !! x = Some (i, n, lk')) →
  (∀ i, (i < NBUF)%nat → i ≠ b → b_dev (bc_buf s !!! i) = d → b_dev (f (bc_buf s !!! b)) = d →
     b_blockno (bc_buf s !!! i) ≠ b_blockno (f (bc_buf s !!! b))) →
  (∀ x, ac_ref a' !! x = None → ac_view a' x = ac_disk a' x) →
  brep d l a' (BState c' (alter f b (bc_buf s)) d').
Proof.
  intros R Hb [Hn Hp] Hq Hd Ht Hbk Hoth Href Hun Hcl.
  assert (b < length (bc_buf s))%nat as Hbl by (rewrite (br_len _ _ _ _ R); lia).
  assert (∀ j, nx (BState c' (alter f b (bc_buf s)) d') j = nx s j) as En.
  { intros j. unfold nx. simpl. rewrite alter_total by done. case_decide; by subst. }
  assert (∀ j, pv (BState c' (alter f b (bc_buf s)) d') j = pv s j) as Ep.
  { intros j. unfold pv. simpl. rewrite alter_total by done. case_decide; by subst. }
  split; simpl; try done.
  - rewrite length_alter. apply R.
  - eapply Lru.dll_ext; [..|apply R]; intros j; by rewrite ?En, ?Ep.
  - apply R.
  - intros i Hi. rewrite alter_total by done. case_decide as E; [by subst|by apply Hoth].
  - intros x i n lk Hx. pose proof (Href _ _ _ _ Hx) as Hx'. rewrite alter_total by done.
    case_decide as E; [by subst|]. destruct Hx' as [lk' Hx']. by apply (br_ref _ _ _ _ R _ _ _ _ Hx').
  - intros i j Hi Hj. rewrite !alter_total by done.
    destruct (decide (i = b)) as [->|Hib], (decide (j = b)) as [->|Hjb]; try done.
    + intros E1 E2 E3. exfalso. by apply (Hun j).
    + intros E1 E2 E3. exfalso. by apply (Hun i).
    + by apply R.
Qed.

(** What [a] says of a block in use. *)
Lemma ref_buf d l a s x i n (lk : bool) : brep d l a s → ac_ref a !! x = Some (i, n, lk) →
  (i < NBUF)%nat ∧ 0 < n ∧
  let b := bc_buf s !!! i in
  b_blockno b = x ∧ b_refcnt b = n ∧ b_dev b = d ∧ b_valid b ≠ 0 ∧ b_data b = ac_view a x ∧
  (if lk then b_lock b = SleepLock 1 (c_pid (bc_ctx s)) else sl_locked (b_lock b) = 0).
Proof.
  intros R Hx. destruct (br_ref _ _ _ _ R _ _ _ _ Hx) as (Hi & E1 & E2 & Hn).
  destruct (br_buf _ _ _ _ R i Hi) as (_ & _ & Hpos & Hd).
  destruct Hpos as (Hdev & Hv & lk' & Hr & Hl); [lia|].
  rewrite E1 in *. rewrite Hx in Hr. simplify_eq. split; [done|]. split; [done|]. cbv zeta.
  split_and!; try done. by apply Hd.
Qed.

(** The entries of other blocks do not change with the entry of [x]. *)
Lemma buf_ok_other d l a a' s x b i : brep d l a s → (i < NBUF)%nat → i ≠ b → (b < NBUF)%nat →
  b_dev (bc_buf s !!! b) = d → b_blockno (bc_buf s !!! b) = x →
  (∀ y, y ≠ x → ac_view a' y = ac_view a y ∧ ac_ref a' !! y = ac_ref a !! y) →
  buf_ok d (c_pid (bc_ctx s)) a' i (bc_buf s !!! i).
Proof.
  intros R Hi Hib Hb Hbd Hbx Hy. destruct (br_buf _ _ _ _ R i Hi) as (H1 & H2 & H3 & H4).
  assert (b_dev (bc_buf s !!! i) = d → b_blockno (bc_buf s !!! i) ≠ x) as Hne.
  { intros Hd Hx. apply Hib. apply (br_uniq _ _ _ _ R); congruence || done. }
  split_and!; try done.
  - intros Hpos. destruct (H3 Hpos) as (Hd & Hv & lk & Hr & Hl). split_and!; try done.
    exists lk. split; [|done]. rewrite (proj2 (Hy _ (Hne Hd))). done.
  - intros Hd Hv. rewrite (proj1 (Hy _ (Hne Hd))). by apply H4.
Qed.

(** *** Operations on a block in use *)

Definition set_ref (x : Z) (e : nat * Z * bool) (a : acache) : acache :=
  ACache (ac_view a) (ac_disk a) (ac_trace a) (<[x := e]> (ac_ref a)).
Definition set_view (x : Z) (v : block) (a : acache) : acache :=
  ACache (bupd (ac_view a) x v) (ac_disk a) (ac_trace a) (ac_ref a).
Definition set_disk (x : Z) (v : block) (a : acache) : acache :=
  ACache (ac_view a) (bupd (ac_disk a) x v) ((x, v) :: ac_trace a) (ac_ref a).

(** A change of the buffer of a block in use. *)
Lemma brep_used d l a a' s c' d' x i n (lk : bool) n' (lk' : bool) (f : buf → buf) :
  brep d l a s → ac_ref a !! x = Some (i, n, lk) →
  (let b := bc_buf s !!! i in
   b_next (f b) = b_next b ∧ b_prev (f b) = b_prev b ∧ b_dev (f b) = b_dev b ∧
   b_blockno (f b) = b_blockno b ∧ b_valid (f b) = b_valid b ∧ b_refcnt (f b) = n' ∧
   b_data (f b) = ac_view a' x ∧
   (if lk' then b_lock (f b) = SleepLock 1 (c_pid (bc_ctx s)) else sl_locked (b_lock (f b)) = 0)) →
  0 < n' → quiet cache_lock c' → c_pid c' = c_pid (bc_ctx s) →
  (∀ y, d_at d' y = ac_disk a' y) → d_trace d' = ac_trace a' →
  ac_ref a' = <[x := (i, n', lk')]> (ac_ref a) →
  (∀ y, y ≠ x → ac_view a' y = ac_view a y ∧ ac_disk a' y = ac_disk a y) →
  brep d l a' (BState c' (alter f i (bc_buf s)) d').
Proof.
  intros R Hx (F1 & F2 & F3 & F4 & F5 & F6 & F7 & F8) Hn' Hq Hpid Hd Ht Href Hoth.
  destruct (ref_buf _ _ _ _ _ _ _ _ R Hx) as (Hi & Hn & B1 & B2 & B3 & B4 & B5 & B6).
  eapply (brep_buf _ _ a); try done.
  - rewrite Hpid. split_and!; try lia.
    + intros _. rewrite F3, F4, F5, F6, B1. split_and!; try done. exists lk'. split; [|done].
      by rewrite Href, lookup_insert_eq.
    + intros _ _. by rewrite F7, F4, B1.
  - intros j Hj Hne. rewrite Hpid. eapply (buf_ok_other _ _ a _ _ x i); try done.
    intros y Hy. split; [by apply Hoth|]. by rewrite Href, lookup_insert_ne.
  - intros y j m k Hy. rewrite Href in Hy. apply lookup_insert_Some in Hy as [[<- [= <- <- <-]]|[Hne Hy]].
    + rewrite decide_True by done. by rewrite F4, F6, B1.
    + case_decide as E; [|by eauto]. subst j.
      destruct (br_ref _ _ _ _ R _ _ _ _ Hy) as (_ & Ey & _). congruence.
  - intros j Hj Hne Hjd _ E. apply Hne. rewrite F4 in E. by apply (br_uniq _ _ _ _ R).
  - intros y Hy. rewrite Href in Hy. apply lookup_insert_None in Hy as [Hy Hne].
    destruct (Hoth y) as [-> ->]; [done|]. by apply R.
Qed.

Lemma alter_alter (f g : buf → buf) b (bs : list buf) : alter f b (alter g b bs) = alter (λ x, f (g x)) b bs.
Proof.
  apply list_eq. intros j. destruct (decide (j = b)) as [->|Hne].
  - rewrite !list_lookup_alter_eq. by destruct (bs !! b).
  - by rewrite !list_lookup_alter_ne.
Qed.

(** A critical section of [bcache.lock] around an update. *)
Lemma bcache_update b f (s : bstate D) : quiet cache_lock (bc_ctx s) →
  (zoom ctx_b (lock LkBcache) ;;; updb b f ;;; zoom ctx_b (unlock LkBcache)) s =
  (Ret tt, BState (bc_ctx s) (alter f b (bc_buf s)) (bc_disk s)).
Proof.
  intros [Ho Hq]. assert (LkBcache ∉ h_held (c_hart (bc_ctx s))) as Hl by (apply Hq; by left).
  rewrite (bind_Ret _ _ _ _ _ (zoom_run ctx_b _ s _ _ (lock_run _ _ Ho Hl))).
  unfold updb, bind, modify, zoom. simpl. rewrite (unlock_run _ (c_hart (bc_ctx s))) by done. simpl.
  by rewrite set_chart_id.
Qed.

Lemma sleep_quiet b (s : bstate D) : quiet cache_lock (bc_ctx s) → LkSleep (SlBuf b) ∉ h_held (c_hart (bc_ctx s)).
Proof. intros [_ Hq]. apply Hq. right. eauto. Qed.

Lemma on_block_acquire b (s : bstate D) : quiet cache_lock (bc_ctx s) → sl_locked (b_lock (bc_buf s !!! b)) = 0 →
  on_block b acquiresleep s =
  (Ret tt, BState (bc_ctx s) (alter (set_block_lock (SleepLock 1 (c_pid (bc_ctx s)))) b (bc_buf s)) (bc_disk s)).
Proof. intros Hq Hl. unfold on_block. by rewrite (acquiresleep_free (proj1 Hq) (sleep_quiet b s Hq)). Qed.

Lemma alter_same (bs : list buf) b f : (bs !!! b) = f (bs !!! b) → (b < length bs)%nat → alter f b bs = bs.
Proof.
  intros E Hb. apply list_eq. intros j. destruct (decide (j = b)) as [->|Hne].
  - rewrite list_lookup_alter_eq. destruct (lookup_lt_is_Some_2 bs b Hb) as [x Hx]. rewrite Hx. simpl. f_equal.
    rewrite list_lookup_total_alt, Hx in E. simpl in E. done.
  - by rewrite list_lookup_alter_ne.
Qed.

Lemma on_block_holding b (s : bstate D) : quiet cache_lock (bc_ctx s) → (b < length (bc_buf s))%nat →
  on_block b holdingsleep s =
  (Ret (truth (sl_locked (b_lock (bc_buf s !!! b))) && (sl_pid (b_lock (bc_buf s !!! b)) =? c_pid (bc_ctx s))), s).
Proof.
  intros Hq Hb. unfold on_block.
  rewrite (holdingsleep_run (proj1 Hq) (sleep_quiet b s Hq)).
  rewrite alter_same; [by destruct s| |done]. by destruct (bc_buf s !!! b).
Qed.

Lemma on_block_release b (s : bstate D) : quiet cache_lock (bc_ctx s) →
  on_block b releasesleep s = (Ret tt, BState (woke (ChSleepLock (SlBuf b)) (bc_ctx s))
    (alter (set_block_lock (SleepLock 0 0)) b (bc_buf s)) (bc_disk s)).
Proof. intros Hq. unfold on_block. by rewrite (releasesleep_run (proj1 Hq) (sleep_quiet b s Hq)). Qed.

(** The holder's test succeeds on a block it has locked. *)
Lemma holding_true d l a s x i n : brep d l a s → ac_ref a !! x = Some (i, n, true) →
  on_block i holdingsleep s = (Ret true, s).
Proof.
  intros R Hx. destruct (ref_buf _ _ _ _ _ _ _ _ R Hx) as (Hi & _ & _ & _ & _ & _ & _ & E).
  rewrite on_block_holding; [|apply R|rewrite (br_len _ _ _ _ R); lia].
  rewrite E. simpl. by rewrite Z.eqb_refl.
Qed.

(** [bpin] and [bunpin] change the reference count. *)
Lemma bpin_run d l a s x i n lk : brep d l a s → ac_ref a !! x = Some (i, n, lk) → n + 1 < 2 ^ 32 →
  ∃ s', bpin i s = (Ret tt, s') ∧ brep d l (set_ref x (i, n + 1, lk) a) s' ∧ bc_ctx s' = bc_ctx s.
Proof.
  intros R Hx Hn. pose proof (ref_buf _ _ _ _ _ _ _ _ R Hx) as (Hi & Hn0 & B1 & B2 & B3 & B4 & B5 & B6).
  eexists. split; [apply bcache_update, R|]. split; [|done].
  eapply (brep_used _ _ a _ _ _ _ x i n lk (n + 1) lk); try done; try apply R; [|lia].
  cbn [set_refcnt b_next b_prev b_dev b_blockno b_valid b_refcnt b_data b_lock].
  rewrite B2, u32_id by lia. done.
Qed.

Lemma bunpin_run d l a s x i n lk : brep d l a s → ac_ref a !! x = Some (i, n, lk) → 1 < n → n < 2 ^ 32 →
  ∃ s', bunpin i s = (Ret tt, s') ∧ brep d l (set_ref x (i, n - 1, lk) a) s' ∧ bc_ctx s' = bc_ctx s.
Proof.
  intros R Hx Hn Hn'. pose proof (ref_buf _ _ _ _ _ _ _ _ R Hx) as (Hi & Hn0 & B1 & B2 & B3 & B4 & B5 & B6).
  eexists. split; [apply bcache_update, R|]. split; [|done].
  eapply (brep_used _ _ a _ _ _ _ x i n lk (n - 1) lk); try done; try apply R; [|lia].
  cbn [set_refcnt b_next b_prev b_dev b_blockno b_valid b_refcnt b_data b_lock].
  rewrite B2, u32_id by lia. done.
Qed.

(** Writing [b->data] changes what readers of the block see. *)
Lemma bstore_run d l a s x i n v : brep d l a s → ac_ref a !! x = Some (i, n, true) →
  ∃ s', bstore i v s = (Ret tt, s') ∧ brep d l (set_view x v a) s' ∧ bc_ctx s' = bc_ctx s.
Proof.
  intros R Hx. pose proof (ref_buf _ _ _ _ _ _ _ _ R Hx) as (Hi & Hn0 & B1 & B2 & B3 & B4 & B5 & B6).
  eexists. split; [done|]. split; [|done].
  eapply (brep_used _ _ a _ _ _ _ x i n true n true); try done; try apply R.
  - cbn [set_data b_next b_prev b_dev b_blockno b_valid b_refcnt b_data b_lock]. split_and!; try done.
    simpl. unfold bupd. by rewrite decide_True.
  - by rewrite insert_id.
  - intros y Hy. simpl. unfold bupd. by rewrite decide_False.
Qed.

Lemma bdata_run d l a s x i n lk : brep d l a s → ac_ref a !! x = Some (i, n, lk) →
  bdata i s = (Ret (ac_view a x), s).
Proof.
  intros R Hx. destruct (ref_buf _ _ _ _ _ _ _ _ R Hx) as (_ & _ & _ & _ & _ & _ & E & _).
  unfold bdata, gets. by rewrite E.
Qed.

(** [bwrite] makes the block durable. *)
Lemma bwrite_run d l a s x i n : brep d l a s → ac_ref a !! x = Some (i, n, true) → 0 <= x < 2 ^ 32 →
  ∃ s', bwrite i s = (Ret tt, s') ∧ brep d l (set_disk x (ac_view a x) a) s' ∧ bc_ctx s' = bc_ctx s.
Proof.
  intros R Hx Hr. pose proof (ref_buf _ _ _ _ _ _ _ _ R Hx) as (Hi & Hn0 & B1 & B2 & B3 & B4 & B5 & B6).
  unfold bwrite. rewrite (bind_Ret _ _ _ _ _ (holding_true _ _ _ _ _ _ _ R Hx)). cbn [negb].
  unfold disk_rw. rewrite B1, B5.
  destruct (disk_write x (ac_view a x) (bc_disk s) Hr) as (d' & -> & Hd & Ht).
  eexists. split; [done|]. split; [|done].
  eapply (brep_used _ _ a _ _ _ _ x i n true n true); try done; try apply R.
  - intros y. rewrite Hd. simpl. unfold bupd. case_decide; [done|]. apply R.
  - rewrite Ht. simpl. by rewrite (br_trace _ _ _ _ R).
  - by rewrite insert_id.
  - intros y Hy. simpl. unfold bupd. by rewrite decide_False.
Qed.

(** *** Getting a block *)

(** How often block [x] is in use. *)
Definition refs_of (x : Z) (a : acache) : Z :=
  match ac_ref a !! x with Some (_, n, _) => n | None => 0 end.

(** Buffer [i] becomes the locked buffer of block [x]. *)
Lemma brep_get d l a s x i (f : buf → buf) : brep d l a s → (i < NBUF)%nat →
  (ac_ref a !! x = None ∧ b_refcnt (bc_buf s !!! i) = 0 ∨ ∃ n, ac_ref a !! x = Some (i, n, false)) →
  (∀ j, (j < NBUF)%nat → j ≠ i → b_dev (bc_buf s !!! j) = d → b_blockno (bc_buf s !!! j) ≠ x) →
  (let b := bc_buf s !!! i in
   b_next (f b) = b_next b ∧ b_prev (f b) = b_prev b ∧ b_dev (f b) = d ∧ b_blockno (f b) = x ∧
   b_valid (f b) ≠ 0 ∧ b_refcnt (f b) = refs_of x a + 1 ∧ b_data (f b) = ac_view a x ∧
   b_lock (f b) = SleepLock 1 (c_pid (bc_ctx s))) →
  brep d l (set_ref x (i, refs_of x a + 1, true) a) (BState (bc_ctx s) (alter f i (bc_buf s)) (bc_disk s)).
Proof.
  intros R Hi Hx Hun (F1 & F2 & F3 & F4 & F5 & F6 & F7 & F8).
  assert (0 <= refs_of x a) as Hn.
  { unfold refs_of. destruct Hx as [[-> _]|[n E]]; [done|]. rewrite E.
    destruct (br_ref _ _ _ _ R _ _ _ _ E) as (_ & _ & _ & ?). lia. }
  eapply (brep_buf _ _ a); try done; try apply R.
  - rewrite <-F6. split_and!; [lia|lia| |].
    + intros _. rewrite F3, F4. split_and!; try done. exists true. split; [|done].
      simpl. by rewrite lookup_insert_eq, F6.
    + intros _ _. by rewrite F7, F4.
  - intros j Hj Hji. destruct (br_buf _ _ _ _ R j Hj) as (H1 & H2 & H3 & H4). split_and!; try done.
    intros Hpos. destruct (H3 Hpos) as (Hd & Hv & lk & Hr & Hl). split_and!; try done.
    exists lk. split; [|done]. simpl. rewrite lookup_insert_ne; [done|]. intros E. by apply (Hun j Hj Hji Hd).
  - intros y j m k Hy. simpl in Hy. apply lookup_insert_Some in Hy as [[<- [= <- <- <-]]|[Hne Hy]].
    + rewrite decide_True by done. split_and!; [done|done|lia].
    + case_decide as E; [|by eauto]. subst j.
      destruct (br_ref _ _ _ _ R _ _ _ _ Hy) as (_ & Ey & En & Hm).
      destruct Hx as [[_ E0]|[n Ex]]; [lia|].
      destruct (br_ref _ _ _ _ R _ _ _ _ Ex) as (_ & Ex' & _). congruence.
  - intros j Hj Hji Hjd _. rewrite F4. by apply Hun.
  - intros y Hy. simpl in Hy. apply lookup_insert_None in Hy as [Hy Hne]. by apply R.
Qed.

Lemma find_unique {A} `{EqDecision A} (p : A → bool) l i : i ∈ l → p i = true →
  (∀ j, j ∈ l → p j = true → j = i) → List.find p l = Some i.
Proof.
  intros Hi Hp Hu. induction l as [|y l IH]; [by apply elem_of_nil in Hi|]. simpl.
  destruct (p y) eqn:E; [f_equal; apply Hu; [apply list_elem_of_here|done]|].
  apply IH.
  - apply elem_of_cons in Hi as [->|?]; [congruence|done].
  - intros j Hj. apply Hu. by apply list_elem_of_further.
Qed.

Lemma find_none {A} (p : A → bool) l : (∀ j, j ∈ l → p j = false) → List.find p l = None.
Proof.
  intros Hu. induction l as [|y l IH]; [done|]. simpl. rewrite Hu by apply list_elem_of_here.
  apply IH. intros j Hj. apply Hu. by apply list_elem_of_further.
Qed.

Lemma find_skip {A} (p : A → bool) l l' : (∀ j, j ∈ l → p j = false) → List.find p (l ++ l') = List.find p l'.
Proof.
  intros Hu. induction l as [|y l IH]; [done|]. simpl. rewrite Hu by apply list_elem_of_here.
  apply IH. intros j Hj. apply Hu. by apply list_elem_of_further.
Qed.

Lemma list_short d l a s : brep d l a s → (length l < S NBUF)%nat.
Proof.
  intros R. destruct (br_dll _ _ _ _ R) as [_ _ [_ Hd]%NoDup_cons].
  assert (length l <= length (seq 0 NBUF))%nat as Hle.
  { apply submseteq_length, NoDup_submseteq; [done|].
    intros b Hb. apply elem_of_seq. apply (br_all _ _ _ _ R) in Hb. lia. }
  rewrite length_seq in Hle. lia.
Qed.

(** The two searches of [bget]. *)
Lemma bfind_next d l a s ok : brep d l a s →
  bfind b_next ok (S NBUF) (bc_buf s) (b_next (bc_buf s !!! bhead)) = List.find (λ b, ok (bc_buf s !!! b)) l.
Proof.
  intros R. pose proof (br_dll _ _ _ _ R) as Hd.
  assert (bhead ∉ l) as Hh by (rewrite (br_all _ _ _ _ R); unfold bhead; lia).
  apply (Lru.chain_find (bc_buf s) b_next ok (nx s)); [done|done| |apply Hd].
  by apply (list_short d _ a s).
Qed.

Lemma bfind_prev d l a s ok : brep d l a s →
  bfind b_prev ok (S NBUF) (bc_buf s) (b_prev (bc_buf s !!! bhead)) =
  List.find (λ b, ok (bc_buf s !!! b)) (reverse l).
Proof.
  intros R. pose proof (br_dll _ _ _ _ R) as Hd.
  apply (Lru.chain_find (bc_buf s) b_prev ok (pv s)); [done| | |apply Hd].
  - rewrite elem_of_reverse, (br_all _ _ _ _ R). unfold bhead. lia.
  - rewrite length_reverse. by apply (list_short d _ a s).
Qed.

(** The end of [bget]: release the cache and lock the buffer. *)
Lemma bget_finish (c : ctx) bs (dk : D) i : quiet cache_lock c → sl_locked (b_lock (bs !!! i)) = 0 →
  (zoom ctx_b (unlock LkBcache) ;;; on_block i acquiresleep ;;; ret i)
    (BState (set_chart (taken LkBcache (c_hart c)) c) bs dk) =
  (Ret i, BState c (alter (set_block_lock (SleepLock 1 (c_pid c))) i bs) dk).
Proof.
  intros Hq Hl. destruct Hq as [Ho Hq].
  assert (LkBcache ∉ h_held (c_hart c)) as Hn by (apply Hq; by left).
  erewrite bind_Ret; [|apply (zoom_run ctx_b); apply (unlock_run _ (c_hart c)); done].
  cbn [ctx_b lget lset bc_ctx bc_buf bc_disk]. rewrite set_chart_id.
  erewrite bind_Ret; [|apply on_block_acquire; done]. done.
Qed.

Lemma bget_hit d l a s x i : brep d l a s → (i < NBUF)%nat →
  b_dev (bc_buf s !!! i) = d → b_blockno (bc_buf s !!! i) = x → sl_locked (b_lock (bc_buf s !!! i)) = 0 →
  bget d x s = (Ret i, BState (bc_ctx s)
    (alter (λ b, set_block_lock (SleepLock 1 (c_pid (bc_ctx s))) (set_refcnt (u32 (b_refcnt b + 1)) b)) i (bc_buf s))
    (bc_disk s)).
Proof.
  intros R Hi Hd Hx Hl. pose proof (br_quiet _ _ _ _ R) as [Ho Hq].
  assert (LkBcache ∉ h_held (c_hart (bc_ctx s))) as Hn by (apply Hq; by left).
  unfold bget. erewrite bind_Ret; [|apply (zoom_run ctx_b); by apply lock_run].
  unfold bind at 1, gets. cbn [ctx_b lset bc_buf]. rewrite (bfind_next _ _ _ _ _ R).
  rewrite (find_unique _ l i).
  - unfold bind at 1, updb, modify. cbn [ctx_b lget lset bc_buf bc_ctx bc_disk].
    rewrite bget_finish; [by rewrite alter_alter|done|].
    rewrite alter_total, decide_True by (rewrite ?(br_len _ _ _ _ R); lia || done). done.
  - by apply (br_all _ _ _ _ R).
  - by rewrite Hd, Hx, !Z.eqb_refl.
  - intros j Hj%(br_all _ _ _ _ R) [E1%Z.eqb_eq E2%Z.eqb_eq]%andb_true_iff.
    apply (br_uniq _ _ _ _ R); congruence || done.
Qed.

Lemma bget_miss d l a s x i : brep d l a s → (i < NBUF)%nat →
  (∀ j, (j < NBUF)%nat → b_dev (bc_buf s !!! j) = d → b_blockno (bc_buf s !!! j) ≠ x) →
  List.find (λ b, b_refcnt (bc_buf s !!! b) =? 0) (reverse l) = Some i →
  bget d x s = (Ret i, BState (bc_ctx s)
    (alter (λ b, set_block_lock (SleepLock 1 (c_pid (bc_ctx s))) (set_refcnt 1 (set_valid 0 (set_block d x b))))
       i (bc_buf s)) (bc_disk s)).
Proof.
  intros R Hi Hno Hf. pose proof (br_quiet _ _ _ _ R) as [Ho Hq].
  assert (LkBcache ∉ h_held (c_hart (bc_ctx s))) as Hn by (apply Hq; by left).
  unfold bget. erewrite bind_Ret; [|apply (zoom_run ctx_b); by apply lock_run].
  unfold bind at 1, gets. cbn [ctx_b lset bc_buf]. rewrite (bfind_next _ _ _ _ _ R), find_none.
  2:{ intros j Hj%(br_all _ _ _ _ R). destruct (Z.eqb_spec (b_dev (bc_buf s !!! j)) d) as [E|E]; [|done].
      simpl. apply Z.eqb_neq. by apply Hno. }
  unfold bind at 1. cbn [bc_buf]. rewrite (bfind_prev _ _ _ _ _ R), Hf.
  unfold bind at 1 2 3, updb, modify. cbn [ctx_b lget lset bc_buf bc_ctx bc_disk].
  rewrite bget_finish; [by rewrite !alter_alter|done|].
  rewrite !alter_alter, alter_total, decide_True by (rewrite ?(br_len _ _ _ _ R); lia || done). simpl.
  apply List.find_some in Hf as [_ E%Z.eqb_eq]. by apply (br_buf _ _ _ _ R i Hi).
Qed.

(** The end of [bread]. *)
Lemma bread_fill (s : bstate D) i x : (i < length (bc_buf s))%nat → b_blockno (bc_buf s !!! i) = x →
  0 <= x < 2 ^ 32 →
  (y <- getb i ;; when (negb (truth (b_valid y))) (disk_rw i false ;;; updb i (set_valid 1)) ;;; ret i) s =
  (Ret i, BState (bc_ctx s)
    (alter (λ b, if truth (b_valid b) then b else set_valid 1 (set_data (d_at (bc_disk s) x) b)) i (bc_buf s))
    (bc_disk s)).
Proof.
  intros Hi Hx Hr. unfold bind at 1, getb, gets. destruct (truth (b_valid (bc_buf s !!! i))) eqn:E; simpl.
  - unfold bind, ret. rewrite alter_same; [by destruct s|by rewrite E|done].
  - unfold bind, disk_rw. rewrite Hx, disk_read by done. unfold updb, modify, ret. simpl.
    rewrite alter_alter. do 2 f_equal. apply list_eq. intros j.
    destruct (decide (j = i)) as [->|Hne]; [|by rewrite !list_lookup_alter_ne].
    rewrite !list_lookup_alter_eq. destruct (lookup_lt_is_Some_2 _ _ Hi) as [b Hb]. rewrite Hb. simpl.
    rewrite list_lookup_total_alt, Hb in E. simpl in E. by rewrite E.
Qed.

(** Fewer blocks in use than buffers: one is free. *)
Lemma unused_buffer d l a s : brep d l a s → (size (ac_ref a) < NBUF)%nat →
  ∃ i, (i < NBUF)%nat ∧ List.find (λ b, b_refcnt (bc_buf s !!! b) =? 0) (reverse l) = Some i.
Proof.
  intros R Hsz. destruct (List.find _ (reverse l)) as [i|] eqn:E.
  { exists i. split; [|done]. apply List.find_some in E as [Hi _].
    by apply list_elem_of_In, elem_of_reverse, (br_all _ _ _ _ R) in Hi. }
  exfalso. assert (∀ i, (i < NBUF)%nat → 0 < b_refcnt (bc_buf s !!! i)) as Hpos.
  { intros i Hi. pose proof (List.find_none _ _ E i) as Hf.
    rewrite <-list_elem_of_In, elem_of_reverse, (br_all _ _ _ _ R) in Hf.
    specialize (Hf Hi). apply Z.eqb_neq in Hf. destruct (br_buf _ _ _ _ R i Hi) as (H1 & _). lia. }
  set (ks := (λ i, b_blockno (bc_buf s !!! i)) <$> seq 0 NBUF).
  assert (NoDup ks) as Hd.
  { apply NoDup_fmap_2_strong; [|apply NoDup_seq]. intros i j Hi%elem_of_seq Hj%elem_of_seq Eij.
    destruct (br_buf _ _ _ _ R i) as (_ & _ & Pi & _); [lia|].
    destruct (br_buf _ _ _ _ R j) as (_ & _ & Pj & _); [lia|].
    destruct (Pi (Hpos i ltac:(lia))) as (? & _), (Pj (Hpos j ltac:(lia))) as (? & _).
    apply (br_uniq _ _ _ _ R); lia || done. }
  assert (list_to_set ks ⊆ dom (ac_ref a)) as Hsub.
  { intros k Hk%elem_of_list_to_set. apply list_elem_of_fmap in Hk as (i & -> & Hi%elem_of_seq).
    destruct (br_buf _ _ _ _ R i) as (_ & _ & Pi & _); [lia|].
    destruct (Pi (Hpos i ltac:(lia))) as (_ & _ & lk & Hr & _). apply elem_of_dom. eauto. }
  apply subseteq_size in Hsub. rewrite size_list_to_set, size_dom in Hsub by done.
  unfold ks in Hsub. rewrite length_fmap, length_seq in Hsub. lia.
Qed.

Lemma truth_nonzero x : x ≠ 0 → truth x = true.
Proof. intros Hx. unfold truth. by rewrite (proj2 (Z.eqb_neq x 0)). Qed.

(** A block of the device that has a buffer: its use, and whether its data is current. *)
Lemma cached_facts d l a s x i : brep d l a s → (i < NBUF)%nat →
  b_dev (bc_buf s !!! i) = d → b_blockno (bc_buf s !!! i) = x →
  (∀ j n lk, ac_ref a !! x = Some (j, n, lk) → lk = false) →
  b_refcnt (bc_buf s !!! i) = refs_of x a ∧ sl_locked (b_lock (bc_buf s !!! i)) = 0 ∧
  (ac_ref a !! x = None ∧ b_refcnt (bc_buf s !!! i) = 0 ∨ ∃ n, ac_ref a !! x = Some (i, n, false)) ∧
  (b_valid (bc_buf s !!! i) = 0 → ac_view a x = ac_disk a x).
Proof.
  intros R Hi Hd Hx Hlk. destruct (br_buf _ _ _ _ R i Hi) as (H1 & H2 & H3 & H4). rewrite Hx in *.
  destruct (Z.eq_dec (b_refcnt (bc_buf s !!! i)) 0) as [E0|E0].
  - assert (ac_ref a !! x = None) as En.
    { destruct (ac_ref a !! x) as [[[j n] lk]|] eqn:E; [|done].
      destruct (ref_buf _ _ _ _ _ _ _ _ R E) as (Hj & Hn0 & B1 & B2 & B3 & _).
      assert (j = i) as -> by (apply (br_uniq _ _ _ _ R); congruence || done). lia. }
    unfold refs_of. rewrite En. split_and!; auto. intros _. by apply R.
  - destruct H3 as (_ & Hv & lk & Hr' & Hl); [lia|]. pose proof (Hlk _ _ _ Hr'). subst lk.
    unfold refs_of. rewrite Hr'. split_and!; eauto. intros ?. by destruct Hv.
Qed.

Lemma bread_cached d l a s x i : brep d l a s → 0 <= x < 2 ^ 32 → refs_of x a + 1 < 2 ^ 32 →
  (∀ j n lk, ac_ref a !! x = Some (j, n, lk) → lk = false) →
  (i < NBUF)%nat → b_dev (bc_buf s !!! i) = d → b_blockno (bc_buf s !!! i) = x →
  ∃ s', bread d x s = (Ret i, s') ∧ brep d l (set_ref x (i, refs_of x a + 1, true) a) s' ∧
    bc_ctx s' = bc_ctx s.
Proof.
  intros R Hr Hn Hlk Hi Hd Hx. pose proof (br_len _ _ _ _ R) as Hlen.
  destruct (cached_facts _ _ _ _ _ _ R Hi Hd Hx Hlk) as (E1 & E2 & E3 & E4).
  destruct (br_buf _ _ _ _ R i Hi) as (H1 & H2 & H3 & H4). rewrite Hx in *.
  unfold bread. rewrite (bind_Ret _ _ _ _ _ (bget_hit _ _ _ _ _ _ R Hi Hd Hx E2)).
  rewrite (bread_fill _ i x); [|simpl; rewrite length_alter; lia| |done].
  2:{ simpl. rewrite alter_total, decide_True by (done || lia). done. }
  eexists _. split; [done|]. split; [|done]. cbn [bc_ctx bc_buf bc_disk]. rewrite alter_alter.
  apply brep_get; try done.
  - intros j Hj Hji Hjd Hjx. apply Hji. apply (br_uniq _ _ _ _ R); congruence || done.
  - simpl. destruct (truth (b_valid (bc_buf s !!! i))) eqn:Ev; simpl.
    + assert (b_valid (bc_buf s !!! i) ≠ 0) as Hv by (intros Hv; by rewrite Hv in Ev).
      split_and!; try done; [rewrite E1; apply u32_id; unfold refs_of in *; lia|by apply H4].
    + assert (b_valid (bc_buf s !!! i) = 0) as Hv by (apply Z.eqb_eq; unfold truth in Ev; by destruct (_ =? _)).
      split_and!; try done; [rewrite E1; apply u32_id; unfold refs_of in *; lia|].
      rewrite E4 by done. apply R.
Qed.

(** No buffer of the cache holds block [x]. *)
Definition uncached (d x : Z) (s : bstate D) : Prop :=
  ∀ j, (j < NBUF)%nat → b_dev (bc_buf s !!! j) = d → b_blockno (bc_buf s !!! j) ≠ x.

Lemma uncached_ref d l a s x : brep d l a s → uncached d x s → ac_ref a !! x = None.
Proof.
  intros R Hno. destruct (ac_ref a !! x) as [[[j n] lk]|] eqn:E; [|done].
  destruct (ref_buf _ _ _ _ _ _ _ _ R E) as (Hj & Hn0 & B1 & B2 & B3 & _). by destruct (Hno j Hj B3 B1).
Qed.

Lemma bread_recycled d l a s x i : brep d l a s → 0 <= x < 2 ^ 32 → uncached d x s → (i < NBUF)%nat →
  List.find (λ b, b_refcnt (bc_buf s !!! b) =? 0) (reverse l) = Some i →
  ∃ s', bread d x s = (Ret i, s') ∧ brep d l (set_ref x (i, 1, true) a) s' ∧ bc_ctx s' = bc_ctx s.
Proof.
  intros R Hr Hno Hi Hf. pose proof (uncached_ref _ _ _ _ _ R Hno) as En.
  pose proof (br_len _ _ _ _ R) as Hlen.
  unfold bread. rewrite (bind_Ret _ _ _ _ _ (bget_miss _ _ _ _ _ _ R Hi Hno Hf)).
  rewrite (bread_fill _ i x); [|simpl; rewrite length_alter; lia| |done].
  2:{ simpl. rewrite alter_total, decide_True by (done || lia). done. }
  eexists _. split; [done|]. split; [|done]. cbn [bc_ctx bc_buf bc_disk]. rewrite alter_alter.
  apply List.find_some in Hf as [_ E0%Z.eqb_eq].
  assert (refs_of x a = 0) as E1 by (unfold refs_of; by rewrite En).
  replace 1 with (refs_of x a + 1) by lia. apply brep_get; try done.
  - by left.
  - intros j Hj _. by apply Hno.
  - simpl. rewrite E1. split_and!; try done. rewrite (br_disk _ _ _ _ R). symmetry. by apply R.
Qed.

Lemma bread_run d l a s x : brep d l a s → 0 <= x < 2 ^ 32 → refs_of x a + 1 < 2 ^ 32 →
  (∀ i n lk, ac_ref a !! x = Some (i, n, lk) → lk = false) →
  (ac_ref a !! x = None → (size (ac_ref a) < NBUF)%nat) →
  ∃ i s', bread d x s = (Ret i, s') ∧ brep d l (set_ref x (i, refs_of x a + 1, true) a) s' ∧
    bc_ctx s' = bc_ctx s ∧ (∀ j n lk, ac_ref a !! x = Some (j, n, lk) → j = i).
Proof.
  intros R Hr Hn Hlk Hroom.
  destruct (decide (Exists (λ i, b_dev (bc_buf s !!! i) = d ∧ b_blockno (bc_buf s !!! i) = x) (seq 0 NBUF)))
    as [Hc|Hc].
  - apply Exists_exists in Hc as (i & Hi%elem_of_seq & Hd & Hx). assert (i < NBUF)%nat as Hi' by lia.
    destruct (bread_cached _ _ _ _ x i R Hr Hn Hlk Hi' Hd Hx) as (s' & E & R' & Ec).
    exists i, s'. split_and!; try done. intros j n lk Hj.
    destruct (ref_buf _ _ _ _ _ _ _ _ R Hj) as (Hj' & _ & B1 & _ & B3 & _).
    apply (br_uniq _ _ _ _ R); congruence || done.
  - assert (uncached d x s) as Hno.
    { intros j Hj Hjd Hjx. apply Hc, Exists_exists. exists j. split; [apply elem_of_seq; lia|done]. }
    pose proof (uncached_ref _ _ _ _ _ R Hno) as En.
    destruct (unused_buffer _ _ _ _ R (Hroom En)) as (i & Hi & Hf). 
    destruct (bread_recycled _ _ _ _ x i R Hr Hno Hi Hf) as (s' & E & R' & Ec).
    exists i, s'. unfold refs_of. rewrite En. by split_and!.
Qed.

(** *** Releasing a block *)

(** A buffer without its links. *)
Definition core (b : buf) : buf := set_prev 0 (set_next 0 b).

Lemma core_fields b b' : core b = core b' →
  b_valid b = b_valid b' ∧ b_dev b = b_dev b' ∧ b_blockno b = b_blockno b' ∧ b_lock b = b_lock b' ∧
  b_refcnt b = b_refcnt b' ∧ b_data b = b_data b'.
Proof. destruct b, b'. unfold core, set_prev, set_next. simpl. intros [=]. by subst. Qed.

Definition next_of (bs : list buf) (j : nat) : nat := b_next (bs !!! j).
Definition prev_of (bs : list buf) (j : nat) : nat := b_prev (bs !!! j).

(** The pointer updates of [brelse] on the array. *)
Definition unlink_buf (b : nat) (bs : list buf) : list buf :=
  let bs := alter (set_prev (prev_of bs b)) (next_of bs b) bs in
  alter (set_next (next_of bs b)) (prev_of bs b) bs.
Definition push_buf (b : nat) (bs : list buf) : list buf :=
  let bs := alter (set_next (next_of bs bhead)) b bs in
  let bs := alter (set_prev bhead) b bs in
  let bs := alter (set_prev b) (next_of bs bhead) bs in
  alter (set_next b) bhead bs.

(** One pointer written. *)
Lemma write_next (bs : list buf) b v : (b < length bs)%nat →
  let bs' := alter (set_next v) b bs in
  length bs' = length bs ∧ (∀ j, next_of bs' j = upd (next_of bs) b v j) ∧
  (∀ j, prev_of bs' j = prev_of bs j) ∧ (∀ j, core (bs' !!! j) = core (bs !!! j)).
Proof.
  intros Hb bs'. unfold bs', next_of, prev_of, upd. split_and!; [apply length_alter|..];
    intros j; rewrite alter_total by done; case_decide; subst; done.
Qed.

Lemma write_prev (bs : list buf) b v : (b < length bs)%nat →
  let bs' := alter (set_prev v) b bs in
  length bs' = length bs ∧ (∀ j, prev_of bs' j = upd (prev_of bs) b v j) ∧
  (∀ j, next_of bs' j = next_of bs j) ∧ (∀ j, core (bs' !!! j) = core (bs !!! j)).
Proof.
  intros Hb bs'. unfold bs', next_of, prev_of, upd. split_and!; [apply length_alter|..];
    intros j; rewrite alter_total by done; case_decide; subst; done.
Qed.

(** The neighbours of a node are nodes. *)
Lemma chain_in f a l z j : Lru.chain f a l z → j ∈ a :: l → f j ∈ l ++ [z].
Proof.
  revert a. induction l as [|x l IH]; intros a; simpl.
  - intros <- ->%list_elem_of_singleton. set_solver.
  - intros [<- Hc] Hj. apply elem_of_cons in Hj as [->|Hj]; [set_solver|]. specialize (IH _ Hc Hj). set_solver.
Qed.

Lemma dll_neighbours l nx pv j : Lru.dll bhead nx pv l → (∀ b, b ∈ l → (b < NBUF)%nat) → j ∈ bhead :: l →
  (nx j < S NBUF)%nat ∧ (pv j < S NBUF)%nat.
Proof.
  intros [H1 H2 H3] Hl Hj. split.
  - pose proof (chain_in _ _ _ _ _ H1 Hj) as Hin. set_unfold in Hin.
    destruct Hin as [Hin|[->|[]]]; [specialize (Hl _ Hin); lia|unfold bhead; lia].
  - assert (j ∈ bhead :: reverse l) as Hj' by set_solver.
    pose proof (chain_in _ _ _ _ _ H2 Hj') as Hin. set_unfold in Hin.
    destruct Hin as [Hin|[->|[]]]; [specialize (Hl _ Hin); lia|unfold bhead; lia].
Qed.

Lemma unlink_buf_spec (bs : list buf) l1 b l2 : length bs = S NBUF →
  (∀ j, j ∈ l1 ++ b :: l2 → (j < NBUF)%nat) →
  Lru.dll bhead (next_of bs) (prev_of bs) (l1 ++ b :: l2) →
  let bs' := unlink_buf b bs in
  length bs' = S NBUF ∧ Lru.dll bhead (next_of bs') (prev_of bs') (l1 ++ l2) ∧
  (∀ j, core (bs' !!! j) = core (bs !!! j)).
Proof.
  intros Hlen Hl Hd bs'. destruct (dll_neighbours _ _ _ b Hd Hl) as [Hn Hp]; [set_solver|].
  pose proof (Lru.unlink _ _ _ _ _ _ Hd) as Hu.
  unfold bs', unlink_buf. set (bs1 := alter _ (next_of bs b) bs).
  destruct (write_prev bs (next_of bs b) (prev_of bs b)) as (L1 & P1 & N1 & C1); [lia|]. fold bs1 in L1, P1, N1, C1.
  assert (next_of bs b ≠ b) as Hnb.
  { intros E. destruct Hd as [H1 _ Hdd]. apply Lru.chain_app in H1 as [_ H1].
    rewrite app_comm_cons in Hdd. apply NoDup_app in Hdd as (_ & Hdis & Hd2).
    destruct l2 as [|y l2]; simpl in H1; rewrite E in H1.
    - subst b. apply (Hdis bhead); set_solver.
    - destruct H1 as [-> _]. apply NoDup_cons in Hd2 as [Hd2 _]. set_solver. }
  assert (prev_of bs1 b = prev_of bs b) as Eb by (rewrite P1; unfold upd; by rewrite decide_False).
  rewrite Eb, N1.
  destruct (write_next bs1 (prev_of bs b) (next_of bs b)) as (L2 & N2 & P2 & C2); [lia|].
  split_and!; [lia| |intros j; by rewrite C2].
  eapply Lru.dll_ext; [..|exact Hu]; intros j.
  - rewrite N2. unfold upd. by rewrite N1.
  - by rewrite P2, P1.
Qed.

Lemma push_buf_spec (bs : list buf) b l : length bs = S NBUF → (b < NBUF)%nat → b ∉ l →
  (∀ j, j ∈ l → (j < NBUF)%nat) → Lru.dll bhead (next_of bs) (prev_of bs) l →
  let bs' := push_buf b bs in
  length bs' = S NBUF ∧ Lru.dll bhead (next_of bs') (prev_of bs') (b :: l) ∧
  (∀ j, core (bs' !!! j) = core (bs !!! j)).
Proof.
  intros Hlen Hb Hbl Hl Hd bs'. destruct (dll_neighbours _ _ _ bhead Hd Hl) as [Hn _]; [set_solver|].
  assert (bhead ≠ b) as Hbh by (unfold bhead; lia).
  pose proof (Lru.push _ _ _ b _ Hd) as Hu. specialize (Hu ltac:(set_solver)).
  unfold bs', push_buf. set (bs1 := alter _ b bs).
  destruct (write_next bs b (next_of bs bhead)) as (L1 & N1 & P1 & C1); [lia|]. fold bs1 in L1, P1, N1, C1.
  set (bs2 := alter _ b bs1).
  destruct (write_prev bs1 b bhead) as (L2 & P2 & N2 & C2); [lia|]. fold bs2 in L2, P2, N2, C2.
  assert (next_of bs2 bhead = next_of bs bhead) as Eh by (rewrite N2, N1; unfold upd; by rewrite decide_False).
  rewrite Eh. set (bs3 := alter _ (next_of bs bhead) bs2).
  destruct (write_prev bs2 (next_of bs bhead) b) as (L3 & P3 & N3 & C3); [lia|]. fold bs3 in L3, P3, N3, C3.
  destruct (write_next bs3 bhead b) as (L4 & N4 & P4 & C4); [unfold bhead; lia|].
  split_and!; [lia| |intros j; by rewrite C4, C3, C2].
  eapply Lru.dll_ext; [..|exact Hu]; intros j.
  - rewrite N4. unfold upd. by rewrite N3, N2, N1.
  - rewrite P4, P3. unfold upd. rewrite P2. unfold upd. by rewrite P1.
Qed.

(** [brelse] as an update of the array. *)
Definition released (b : nat) (bs : list buf) : list buf :=
  alter (λ x, set_refcnt (u32 (b_refcnt x - 1)) (set_block_lock (SleepLock 0 0) x)) b bs.

Lemma brelse_eq d l a s x i n : brep d l a s → ac_ref a !! x = Some (i, n, true) → n < 2 ^ 32 →
  brelse i s = (Ret tt, BState (woke (ChSleepLock (SlBuf i)) (bc_ctx s))
    (if n =? 1 then push_buf i (unlink_buf i (released i (bc_buf s))) else released i (bc_buf s)) (bc_disk s)).
Proof.
  intros R Hx Hn. destruct (ref_buf _ _ _ _ _ _ _ _ R Hx) as (Hi & Hn0 & B1 & B2 & B3 & B4 & B5 & B6).
  pose proof (br_quiet _ _ _ _ R) as Q. destruct Q as [Ho Hq].
  assert (LkBcache ∉ h_held (c_hart (bc_ctx s))) as Hnl by (apply Hq; by left).
  unfold brelse. rewrite (bind_Ret _ _ _ _ _ (holding_true _ _ _ _ _ _ _ R Hx)). cbn [negb].
  rewrite (bind_Ret _ _ _ _ _ (on_block_release i s (br_quiet _ _ _ _ R))).
  set (c := woke _ _). erewrite bind_Ret; [|apply (zoom_run ctx_b); by apply (lock_run LkBcache c)].
  unfold bind at 1, updb, modify. cbn [ctx_b lset lget bc_ctx bc_buf bc_disk].
  rewrite alter_alter. change (alter _ i (bc_buf s)) with (released i (bc_buf s)).
  unfold bind at 1, getb, gets. cbn [bc_buf].
  assert (b_refcnt (released i (bc_buf s) !!! i) = n - 1) as Er.
  { unfold released. rewrite alter_total, decide_True by (rewrite ?(br_len _ _ _ _ R); lia || done).
    simpl. rewrite B2. apply u32_id. lia. }
  rewrite Er. destruct (Z.eqb_spec n 1) as [->|Hn1].
  - change (1 - 1 =? 0) with true. cbv iota.
    unfold bind, zoom. cbn [ctx_b lset lget bc_ctx bc_buf bc_disk].
    rewrite (unlock_run _ (c_hart c)) by done. cbn [ctx_b lset bc_buf bc_disk]. by rewrite set_chart_id.
  - rewrite (proj2 (Z.eqb_neq (n - 1) 0)) by lia.
    unfold bind, ret, zoom. cbn [ctx_b lset lget bc_ctx bc_buf bc_disk].
    rewrite (unlock_run _ (c_hart c)) by done. cbn [ctx_b lset bc_buf bc_disk]. by rewrite set_chart_id.
Qed.

(** The links carry no contents. *)
Lemma brep_relink d l l' a s bs' : brep d l a s → length bs' = S NBUF →
  Lru.dll bhead (next_of bs') (prev_of bs') l' → (∀ b, b ∈ l' ↔ (b < NBUF)%nat) →
  (∀ j, core (bs' !!! j) = core (bc_buf s !!! j)) → brep d l' a (BState (bc_ctx s) bs' (bc_disk s)).
Proof.
  intros R Hlen Hd Hall Hc.
  assert (∀ j, b_valid (bs' !!! j) = b_valid (bc_buf s !!! j) ∧ b_dev (bs' !!! j) = b_dev (bc_buf s !!! j) ∧
    b_blockno (bs' !!! j) = b_blockno (bc_buf s !!! j) ∧ b_lock (bs' !!! j) = b_lock (bc_buf s !!! j) ∧
    b_refcnt (bs' !!! j) = b_refcnt (bc_buf s !!! j) ∧ b_data (bs' !!! j) = b_data (bc_buf s !!! j)) as Hf.
  { intros j. by apply core_fields. }
  split; cbn [bc_buf bc_ctx bc_disk]; try done; try apply R.
  - intros i Hi. destruct (Hf i) as (E1 & E2 & E3 & E4 & E5 & E6). unfold buf_ok.
    rewrite E1, E2, E3, E4, E5, E6. by apply R.
  - intros x i n lk Hx. destruct (Hf i) as (_ & _ & -> & _ & -> & _). by eapply R.
  - intros i j. destruct (Hf i) as (_ & -> & -> & _), (Hf j) as (_ & -> & -> & _). by apply R.
Qed.

(** Releasing a block that stays in use. *)
Lemma brelse_shared d l a s x i n : brep d l a s → ac_ref a !! x = Some (i, n, true) → 1 < n < 2 ^ 32 →
  ∃ s', brelse i s = (Ret tt, s') ∧ brep d l (set_ref x (i, n - 1, false) a) s' ∧
    bc_ctx s' = woke (ChSleepLock (SlBuf i)) (bc_ctx s).
Proof.
  intros R Hx Hn. pose proof (ref_buf _ _ _ _ _ _ _ _ R Hx) as (Hi & Hn0 & B1 & B2 & B3 & B4 & B5 & B6).
  eexists. split; [eapply brelse_eq; done || lia|]. split; [|done].
  rewrite (proj2 (Z.eqb_neq n 1)) by lia.
  eapply (brep_used _ _ a _ _ _ _ x i n true (n - 1) false); try done; try apply R; [|lia].
  cbn [set_refcnt set_block_lock b_next b_prev b_dev b_blockno b_valid b_refcnt b_data b_lock].
  rewrite B2, u32_id by lia. done.
Qed.

Definition del_ref (x : Z) (a : acache) : acache :=
  ACache (ac_view a) (ac_disk a) (ac_trace a) (delete x (ac_ref a)).

Lemma released_rep d l a s x i : brep d l a s → ac_ref a !! x = Some (i, 1, true) →
  ac_view a x = ac_disk a x →
  brep d l (del_ref x a) (BState (woke (ChSleepLock (SlBuf i)) (bc_ctx s)) (released i (bc_buf s)) (bc_disk s)).
Proof.
  intros R Hx Hcl. pose proof (ref_buf _ _ _ _ _ _ _ _ R Hx) as (Hi & Hn0 & B1 & B2 & B3 & B4 & B5 & B6).
  eapply (brep_buf _ _ a); try done; try apply R.
  - split_and!; cbn [set_refcnt set_block_lock b_refcnt b_dev b_valid b_data b_blockno]; rewrite ?B2; try done.
    intros _ _. by rewrite B1.
  - intros j Hj Hne. eapply (buf_ok_other _ _ a _ _ x i); try done.
    intros y Hy. split; [done|]. simpl. by rewrite lookup_delete_ne.
  - intros y j m k Hy. simpl in Hy. apply lookup_delete_Some in Hy as [Hne Hy].
    case_decide as E; [|by eauto]. subst j.
    destruct (br_ref _ _ _ _ R _ _ _ _ Hy) as (_ & Ey & _). congruence.
  - intros j Hj Hne Hjd _ E. apply Hne. by apply (br_uniq _ _ _ _ R).
  - intros y Hy. simpl in *. destruct (decide (y = x)) as [->|Hne]; [done|].
    rewrite lookup_delete_ne in Hy by done. by apply R.
Qed.

(** Releasing the last use: the buffer goes to the front of the list. *)
Lemma brelse_last d l1 l2 a s x i : brep d (l1 ++ i :: l2) a s → ac_ref a !! x = Some (i, 1, true) →
  ac_view a x = ac_disk a x →
  ∃ s', brelse i s = (Ret tt, s') ∧ brep d (i :: l1 ++ l2) (del_ref x a) s' ∧
    bc_ctx s' = woke (ChSleepLock (SlBuf i)) (bc_ctx s).
Proof.
  intros R Hx Hcl. pose proof (released_rep _ _ _ _ _ _ R Hx Hcl) as R1.
  eexists. split; [eapply brelse_eq; done|]. split; [|done]. rewrite Z.eqb_refl.
  pose proof (br_dll _ _ _ _ R1) as Hd. pose proof (br_len _ _ _ _ R1) as Hlen.
  pose proof (br_all _ _ _ _ R1) as Hall. cbn [bc_buf] in Hlen.
  destruct (unlink_buf_spec _ _ _ _ Hlen (λ j, proj1 (Hall j)) Hd) as (L1 & D1 & C1).
  assert (i ∉ l1 ++ l2) as Hni.
  { destruct Hd as [_ _ [_ Hd]%NoDup_cons]. rewrite <-Permutation_middle in Hd.
    by apply NoDup_cons in Hd as [? _]. }
  destruct (push_buf_spec _ i (l1 ++ l2) L1) as (L2 & D2 & C2); [apply Hall; set_solver|done| |done|].
  { intros j Hj. apply Hall. set_solver. }
  apply (brep_relink _ _ (i :: l1 ++ l2) _ _ _ R1); [done|done| |intros j; by rewrite C2, C1].
  intros b. rewrite <-Hall. set_solver.
Qed.

(** *** Initialisation *)

(** One round of the loop of [binit]. *)
Lemma binit_round b (s : bstate D) : (b < NBUF)%nat →
  (h <- getb bhead ;;
   updb b (set_next (b_next h)) ;;;
   updb b (set_prev bhead) ;;;
   on_block b (λ _, initsleeplock) ;;;
   h <- getb bhead ;;
   updb (b_next h) (set_prev b) ;;;
   updb bhead (set_next b)) s =
  (Ret tt, BState (bc_ctx s) (push_buf b (alter (set_block_lock (SleepLock 0 0)) b (bc_buf s))) (bc_disk s)).
Proof.
  intros Hb. assert (bhead ≠ b) as Hne by (unfold bhead; lia).
  unfold bind, getb, gets, updb, modify, on_block, initsleeplock, zoom, push_buf, next_of.
  cbn [bc_ctx bc_buf bc_disk fst snd lset lget slL]. rewrite !alter_alter.
  assert (alter (set_block_lock (SleepLock 0 0)) b (bc_buf s) !!! bhead = bc_buf s !!! bhead) as ->.
  { rewrite !list_lookup_total_alt. by rewrite list_lookup_alter_ne. }
  unfold modify. cbn [bc_ctx bc_buf bc_disk]. rewrite !alter_alter. reflexivity.
Qed.

(** The buffers are those of a cache in which no block has been read. *)
Definition fresh_buf (x : buf) : Prop := b_valid x = 0 ∧ b_dev x = 0 ∧ b_refcnt x = 0.

Lemma push_all_spec k (s : bstate D) : (k <= NBUF)%nat → length (bc_buf s) = S NBUF →
  (∀ i, fresh_buf (bc_buf s !!! i)) → next_of (bc_buf s) bhead = bhead → prev_of (bc_buf s) bhead = bhead →
  wp (for_all (seq 0 k) (λ b,
    h <- getb bhead ;;
    updb b (set_next (b_next h)) ;;;
    updb b (set_prev bhead) ;;;
    on_block b (λ _, initsleeplock) ;;;
    h <- getb bhead ;;
    updb (b_next h) (set_prev b) ;;;
    updb bhead (set_next b)))
   (λ _ t, bc_ctx t = bc_ctx s ∧ bc_disk t = bc_disk s ∧ length (bc_buf t) = S NBUF ∧
      Lru.dll bhead (nx t) (pv t) (reverse (seq 0 k)) ∧ (∀ i, fresh_buf (bc_buf t !!! i)) ∧
      ∀ i, (i < k)%nat → sl_locked (b_lock (bc_buf t !!! i)) = 0) s.
Proof.
  intros Hk Hlen Hf Hn Hp. eapply wp_mono; [apply (wp_for_all (seq 0 k) _
    (λ pre t, bc_ctx t = bc_ctx s ∧ bc_disk t = bc_disk s ∧ length (bc_buf t) = S NBUF ∧
      Lru.dll bhead (nx t) (pv t) (reverse pre) ∧ (∀ i, fresh_buf (bc_buf t !!! i)) ∧
      ∀ i, i ∈ pre → sl_locked (b_lock (bc_buf t !!! i)) = 0)) |].
  - split_and!; try done; [|set_solver]. split; [done|done|]. apply NoDup_singleton.
  - intros pre b suf t Hl (E1 & E2 & L & Hd & Hfr & Hlk). apply wp_run. eexists tt, _.
    assert (b ∈ seq 0 k) as Hb by (rewrite Hl; set_solver). apply elem_of_seq in Hb.
    split; [apply binit_round; lia|].
    assert (NoDup (pre ++ b :: suf)) as Hnd by (rewrite <-Hl; apply NoDup_seq).
    assert (∀ j, j ∈ pre → (j < NBUF)%nat) as Hpre.
    { intros j Hj. assert (j ∈ seq 0 k) as Hj' by (rewrite Hl; set_solver). apply elem_of_seq in Hj'. lia. }
    set (bs := alter _ b (bc_buf t)). assert (length bs = S NBUF) as Lb by (unfold bs; by rewrite length_alter).
    assert (∀ j, bs !!! j = if decide (j = b) then set_block_lock (SleepLock 0 0) (bc_buf t !!! b) else bc_buf t !!! j)
      as Hbs by (intros j; unfold bs; apply alter_total; lia).
    destruct (push_buf_spec bs b (reverse pre) Lb) as (L2 & D2 & C2); [lia|..].
    + apply NoDup_app in Hnd as (_ & Hdis & _). rewrite elem_of_reverse. intros Hin. apply (Hdis b Hin). set_solver.
    + intros j. rewrite elem_of_reverse. apply Hpre.
    + eapply Lru.dll_ext; [..|exact Hd]; intros j; unfold nx, pv, next_of, prev_of; rewrite Hbs; case_decide; by subst.
    + cbn [bc_ctx bc_buf bc_disk]. rewrite reverse_snoc. split_and!; try done.
      * intros i. destruct (core_fields _ _ (C2 i)) as (F1 & F2 & F3 & F4 & F5 & F6). unfold fresh_buf.
        rewrite F1, F2, F5, Hbs. case_decide; [subst|]; apply Hfr.
      * intros i Hi. destruct (core_fields _ _ (C2 i)) as (_ & _ & _ & -> & _). rewrite Hbs.
        case_decide; [done|]. apply Hlk. set_solver.
  - intros _ t (E1 & E2 & L & Hd & Hfr & Hlk). split_and!; try done.
    intros i Hi. apply Hlk, elem_of_seq. lia.
Qed.

Lemma binit_run d (s : bstate D) : d ≠ 0 → quiet cache_lock (bc_ctx s) →
  length (bc_buf s) = S NBUF → (∀ i, fresh_buf (bc_buf s !!! i)) →
  wp binit (λ _ t, bc_ctx t = bc_ctx s ∧
    brep d (reverse (seq 0 NBUF)) (ACache (d_at (bc_disk s)) (d_at (bc_disk s)) (d_trace (bc_disk s)) ∅) t) s.
Proof.
  intros Hd0 Hq Hlen Hf. unfold binit. do 2 (wp_step; unfold updb at 1; wp_step).
  set (s1 := BState _ _ _). assert (∀ j, b_valid (bc_buf s1 !!! j) = b_valid (bc_buf s !!! j) ∧
    b_dev (bc_buf s1 !!! j) = b_dev (bc_buf s !!! j) ∧ b_refcnt (bc_buf s1 !!! j) = b_refcnt (bc_buf s !!! j) ∧
    next_of (bc_buf s1) bhead = bhead ∧ prev_of (bc_buf s1) bhead = bhead) as Hs1.
  { intros j. unfold s1, next_of, prev_of. cbn [bc_buf]. rewrite !alter_alter, !alter_total by (rewrite Hlen; unfold bhead; lia).
    rewrite (decide_True (P := bhead = bhead)) by done. case_decide; by subst. }
  eapply wp_mono; [apply (push_all_spec NBUF s1); try done|].
  - unfold s1. cbn [bc_buf]. by rewrite !length_alter.
  - intros i. destruct (Hs1 i) as (E1 & E2 & E3 & _). unfold fresh_buf. rewrite E1, E2, E3. apply Hf.
  - by destruct (Hs1 bhead) as (_ & _ & _ & ? & _).
  - by destruct (Hs1 bhead) as (_ & _ & _ & _ & ?).
  - intros _ t (E1 & E2 & L & Hd & Hfr & Hlk). split; [done|].
    split; cbn [ac_view ac_disk ac_trace ac_ref]; try done.
    + intros b. rewrite elem_of_reverse, elem_of_seq. lia.
    + by rewrite E1.
    + intros x. by rewrite E2.
    + by rewrite E2.
    + intros i Hi. destruct (Hfr i) as (F1 & F2 & F3). unfold buf_ok. rewrite F1, F2, F3.
      split_and!; [lia|intros _; by apply Hlk|lia|done].
    + intros i j Hi Hj E. destruct (Hfr i) as (_ & F2 & _). congruence.
Qed.

(** ** Properties of the cache *)

(** [binit] links the buffers into one list, newest first, that holds every
    buffer of the array once; the cache it leaves shows the contents of the
    disk and has no block in use. *)
Lemma binit_empty_cache d (s : bstate D) : d ≠ 0 → quiet cache_lock (bc_ctx s) →
  length (bc_buf s) = S NBUF → (∀ i, fresh_buf (bc_buf s !!! i)) →
  wp binit (λ _ t, bc_ctx t = bc_ctx s ∧
    brep d (reverse (seq 0 NBUF)) (ACache (d_at (bc_disk s)) (d_at (bc_disk s)) (d_trace (bc_disk s)) ∅) t) s.
Proof. apply binit_run. Qed.

(** C33: A block that is not cached goes to the least recently released buffer
    that nobody uses, and the buffer then holds the block as the disk has it,
    locked, with one reference; the other buffers keep their blocks. *)
Theorem bread_recycles_lru d l1 i l2 a s x : brep d (l1 ++ i :: l2) a s → 0 <= x < 2 ^ 32 → uncached d x s →
  b_refcnt (bc_buf s !!! i) = 0 → (∀ j, j ∈ l2 → b_refcnt (bc_buf s !!! j) ≠ 0) →
  wp (bread d x) (λ b t, b = i ∧ b_data (bc_buf t !!! i) = d_at (bc_disk s) x ∧
    brep d (l1 ++ i :: l2) (set_ref x (i, 1, true) a) t ∧ bc_ctx t = bc_ctx s) s.
Proof.
  intros R Hr Hno Hi Hl2. assert (i < NBUF)%nat as Hib by (apply (br_all _ _ _ _ R); set_solver).
  destruct (bread_recycled _ _ _ _ _ i R Hr Hno Hib) as (s' & E & R' & Ec).
  { rewrite reverse_app, reverse_cons, <-app_assoc. rewrite find_skip.
    - simpl. by rewrite Hi.
    - intros j. rewrite elem_of_reverse. intros Hj. apply Z.eqb_neq. by apply Hl2. }
  apply (wp_intro _ _ _ _ _ E). split_and!; try done.
  destruct (ref_buf _ _ _ _ _ _ _ _ R' (lookup_insert_eq _ _ _)) as (_ & _ & _ & _ & _ & _ & -> & _).
  simpl. rewrite (br_disk _ _ _ _ R). apply R. by eapply uncached_ref.
Qed.

(** Reading a block, storing new contents, writing and releasing it, and
    reading it again gives the new contents: the disk and every later reader
    see them, no other block changes, the write is the only one the disk gets,
    and the buffer of the block has become the most recently used one. *)
Lemma block_update_roundtrip d l a s x v : brep d l a s → 0 <= x < 2 ^ 32 →
  ac_ref a !! x = None → (size (ac_ref a) < NBUF)%nat →
  wp (b <- bread d x ;; bstore b v ;;; bwrite b ;;; brelse b ;;; b <- bread d x ;; bdata b)
    (λ r t, r = v ∧ ∃ i j l1 l2 a', l = l1 ++ i :: l2 ∧ brep d (i :: l1 ++ l2) a' t ∧
       (∀ y, ac_view a' y = bupd (ac_view a) x v y) ∧ (∀ y, ac_disk a' y = bupd (ac_disk a) x v y) ∧
       ac_trace a' = (x, v) :: ac_trace a ∧ ac_ref a' = <[x := (j, 1, true)]> (ac_ref a)) s.
Proof.
  intros R Hr Hx Hsz. assert (refs_of x a = 0) as E0 by (unfold refs_of; by rewrite Hx).
  destruct (bread_run _ _ _ _ x R Hr) as (i & s1 & E1 & R1 & _ & _); [lia|by rewrite Hx|done|].
  rewrite E0 in R1. wp_step. apply (wp_intro _ _ _ _ _ E1). wp_step.
  destruct (bstore_run _ _ _ _ x i 1 v R1) as (s2 & E2 & R2 & _); [apply lookup_insert_eq|].
  apply (wp_intro _ _ _ _ _ E2). wp_step.
  destruct (bwrite_run _ _ _ _ x i 1 R2) as (s3 & E3 & R3 & _); [apply lookup_insert_eq|done|].
  apply (wp_intro _ _ _ _ _ E3). wp_step.
  assert (i ∈ l) as Hi.
  { apply (br_all _ _ _ _ R3). by destruct (br_ref _ _ _ _ R3 x i 1 true (lookup_insert_eq _ _ _)). }
  apply list_elem_of_split in Hi as (l1 & l2 & ->).
  destruct (brelse_last _ _ _ _ _ x i R3) as (s4 & E4 & R4 & _); [apply lookup_insert_eq| |].
  { simpl. unfold bupd. by rewrite !decide_True. }
  apply (wp_intro _ _ _ _ _ E4). wp_step. set (a4 := del_ref _ _) in R4.
  assert (ac_ref a4 = ac_ref a) as Er by (simpl; by rewrite delete_insert_id).
  assert (refs_of x a4 = 0) as E0' by (unfold refs_of; by rewrite Er, Hx).
  destruct (bread_run _ _ _ _ x R4 Hr) as (j & s5 & E5 & R5 & _ & _); [lia|by rewrite Er, Hx|by rewrite Er|].
  rewrite E0' in R5. apply (wp_intro _ _ _ _ _ E5).
  apply (wp_intro _ _ _ _ _ (bdata_run _ _ _ _ _ _ _ _ R5 (lookup_insert_eq _ _ _))).
  split; [simpl; unfold bupd; by rewrite decide_True|].
  eexists i, j, l1, l2, _. split; [done|]. split; [exact R5|]. split_and!; try done.
  - intros y. simpl. unfold bupd. case_decide; [|done]. by rewrite decide_True.
  - simpl. unfold bupd. by rewrite decide_True.
  - cbn [set_ref ac_ref]. by rewrite Er.
Qed.
End rep.

(** ** A disk in memory, as an example *)
Module RamDisk.

Record t := Disk { at_ : Z → block; trace : list (Z * block) }.

Definition rw (write : bool) (x : Z) (b : block) : M t block := λ d,
  if write then (Ret b, Disk (bupd (at_ d) x b) ((x, b) :: trace d)) else (Ret (at_ d x), d).

#[global] Instance driver : DiskDriver t := {| virtio_disk_rw := rw; d_at := at_; d_trace := trace |}.
#[global] Instance spec : DiskSpec t.
Proof. split; [done|]. intros x b d _. eexists. split; [reflexivity|]. done. Qed.

(** The cache at boot, over a disk of zero blocks. *)
Definition boot : bstate t :=
  BState (Ctx (Hart 0 true true []) 1 false []) (replicate (S NBUF) (Buf 0 0 0 0 (SleepLock 0 0) 0 0 0 []))
    (Disk (λ _, zero_block) []).
Definition ready : bstate t := snd (binit boot).

Definition ready_cache : acache := ACache (λ _, zero_block) (λ _, zero_block) [] ∅.

Lemma boot_quiet : quiet cache_lock (bc_ctx boot).
Proof. split; [|set_solver]. split_and!; simpl; try lia; try done. constructor. Qed.

Lemma boot_fresh i : fresh_buf (bc_buf boot !!! i).
Proof.
  unfold boot. cbn [bc_buf]. rewrite list_lookup_total_alt.
  destruct (replicate _ _ !! i) as [x|] eqn:E; [|done].
  by apply lookup_replicate in E as [-> _].
Qed.

Lemma boot_run : wp binit (λ _ t, brep 1 (reverse (seq 0 NBUF)) ready_cache t) boot.
Proof.
  eapply wp_mono; [apply (binit_run 1 boot); [lia|apply boot_quiet|reflexivity|apply boot_fresh]|].
  intros u t [_ R]. exact R.
Qed.

Lemma ready_rep : brep 1 (reverse (seq 0 NBUF)) ready_cache ready.
Proof. exact (wp_snd binit (brep 1 (reverse (seq 0 NBUF)) ready_cache) boot boot_run). Qed.

Lemma ready_fresh j : fresh_buf (bc_buf ready !!! j).
Proof.
  assert (Forall (λ b, (b_valid b =? 0) && (b_dev b =? 0) && (b_refcnt b =? 0)) (bc_buf ready)) as Hf.
  { apply forallb_True. vm_compute. exact I. }
  revert Hf. generalize (bc_buf ready). intros bs Hf.
  rewrite list_lookup_total_alt. destruct (bs !! j) as [b|] eqn:E; [|done].
  pose proof (Forall_lookup_1 _ _ _ _ Hf E) as Hb. apply Is_true_true, andb_true_iff in Hb as [Hb H3].
  apply andb_true_iff in Hb as [H1 H2]. simpl. unfold fresh_buf. lia.
Qed.
End RamDisk.

Lemma bread_recycles_lru_witness : wp (bread 1 45) (λ b t, b = 0%nat ∧
  brep 1 (reverse (seq 0 NBUF)) (set_ref 45 (0%nat, 1, true) RamDisk.ready_cache) t) RamDisk.ready.
Proof.
  eapply wp_mono;
    [apply (bread_recycles_lru 1 (reverse (seq 1 (NBUF - 1))) 0 [] RamDisk.ready_cache RamDisk.ready 45)|].
  - exact RamDisk.ready_rep.
  - lia.
  - intros j Hj Hd. destruct (RamDisk.ready_fresh j) as (_ & E & _). congruence.
  - apply RamDisk.ready_fresh.
  - intros j Hj. exfalso. exact (proj1 (elem_of_nil j) Hj).
  - intros b t (Eb & _ & R & _). split; [exact Eb|exact R].
Defined.
