(* ===== verification/Log.v ===== *)
(** * The log: [kernel/log.c]

    A redo log of disk blocks.  The file system's updates stay in the cache,
    pinned by [log_write]; [commit] copies them to the log, writes the header,
    installs them and clears the header.  The theorems give the writes [commit]
    issues and show that a crash after any of them, followed by
    [recover_from_log], leaves all of the transaction or nothing of it. *)
From S2P Require Import Prelude Machine Spinlock Sleeplock Blocks Bio.

Record log := Log {
  lg_start : Z;
  lg_size : Z;
  lg_outstanding : Z;
  lg_committing : Z;
  lg_dev : Z;
  lg_n : Z;                (** [lh.n] *)
  lg_block : list Z;       (** [lh.block] *)
}.

Definition set_n n g := Log (lg_start g) (lg_size g) (lg_outstanding g) (lg_committing g) (lg_dev g) n (lg_block g).
Definition set_blocks b g := Log (lg_start g) (lg_size g) (lg_outstanding g) (lg_committing g) (lg_dev g) (lg_n g) b.
Definition set_outstanding o g := Log (lg_start g) (lg_size g) o (lg_committing g) (lg_dev g) (lg_n g) (lg_block g).
Definition set_committing c g := Log (lg_start g) (lg_size g) (lg_outstanding g) c (lg_dev g) (lg_n g) (lg_block g).
Definition set_region start size dev g := Log start size (lg_outstanding g) (lg_committing g) dev (lg_n g) (lg_block g).

(** The header as the block stores it: [n], then [block[]], four bytes each. *)
Definition head_n (b : block) : Z := i32 (get32 b 0).
Definition head_block (b : block) (i : nat) : Z := i32 (get32 b (4 + 4 * i)).
Definition put_head (g : log) (b : block) : block :=
  fold_left (λ b i, put32 b (4 + 4 * i) (lg_block g !!! i)) (seq 0 (Z.to_nat (lg_n g))) (put32 b 0 (lg_n g)).

(** [sizeof(struct logheader)] *)
Definition LOGHEADER : Z := 4 + 4 * LOGSIZE.

(** The index of [no] in the list, or the length: the loop of [log_write]. *)
Fixpoint find_block (l : list Z) (no : Z) : nat :=
  match l with [] => O | x :: l' => if u32 x =? no then O else S (find_block l' no) end.

Record lstate (D : Type) := LState { ls_b : bstate D; ls_log : log }.
Arguments LState {D} _ _.
Arguments ls_b {D} _.
Arguments ls_log {D} _.

Section log.
Context {D : Type} `{DiskDriver D}.

Definition bL : lens (lstate D) (bstate D) := Lens ls_b (λ b s, LState b (ls_log s)).
Definition ctx_l : lens (lstate D) ctx :=
  Lens (λ s, bc_ctx (ls_b s)) (λ c s, LState (lset ctx_b c (ls_b s)) (ls_log s)).
Definition getlog {A} (f : log → A) : M (lstate D) A := gets (λ s, f (ls_log s)).
Definition updlog (f : log → log) : M (lstate D) unit := modify (λ s, LState (ls_b s) (f (ls_log s))).

(** The cache's operations, on this state. *)
Definition lbread (no : Z) : M (lstate D) nat :=
  dev <- getlog lg_dev ;; zoom bL (bread (u32 dev) (u32 no)).

Definition install_trans (recovering : bool) : M (lstate D) unit :=
  n <- getlog lg_n ;;
  for_all (seq 0 (Z.to_nat n)) (λ tail,
    start <- getlog lg_start ;;
    lbuf <- lbread (start + Z.of_nat tail + 1) ;;
    no <- getlog (λ g, lg_block g !!! tail) ;;
    dbuf <- lbread no ;;
    v <- zoom bL (bdata lbuf) ;;
    zoom bL (bstore dbuf v) ;;;
    zoom bL (bwrite dbuf) ;;;
    when (negb recovering) (zoom bL (bunpin dbuf)) ;;;
    zoom bL (brelse lbuf) ;;;
    zoom bL (brelse dbuf)).

Definition read_head : M (lstate D) unit :=
  start <- getlog lg_start ;;
  buf <- lbread start ;;
  lh <- zoom bL (bdata buf) ;;
  updlog (set_n (head_n lh)) ;;;
  n <- getlog lg_n ;;
  for_all (seq 0 (Z.to_nat n)) (λ i,
    updlog (λ g, set_blocks (<[i := head_block lh i]> (lg_block g)) g)) ;;;
  zoom bL (brelse buf).

Definition write_head : M (lstate D) unit :=
  start <- getlog lg_start ;;
  buf <- lbread start ;;
  hb <- zoom bL (bdata buf) ;;
  g <- getlog id ;;
  zoom bL (bstore buf (put_head g hb)) ;;;
  zoom bL (bwrite buf) ;;;
  zoom bL (brelse buf).

Definition recover_from_log : M (lstate D) unit :=
  read_head ;;;
  install_trans true ;;;
  updlog (set_n 0) ;;;
  write_head.

Definition initlog (dev : Z) (sb : superblock) : M (lstate D) unit :=
  if BSIZE <=? LOGHEADER then panic "initlog: too big logheader" else
  updlog (set_region (i32 (sb_logstart sb)) (i32 (sb_nlog sb)) dev) ;;;
  recover_from_log.

Definition begin_op : M (lstate D) unit :=
  zoom ctx_l (lock LkLog) ;;;
  g <- getlog id ;;
  if truth (lg_committing g) then zoom ctx_l (sleep ChLog LkLog)
  else if LOGSIZE <? lg_n g + (lg_outstanding g + 1) * MAXOPBLOCKS then zoom ctx_l (sleep ChLog LkLog)
  else
    updlog (λ g, set_outstanding (lg_outstanding g + 1) g) ;;;
    zoom ctx_l (unlock LkLog).

Definition write_log : M (lstate D) unit :=
  n <- getlog lg_n ;;
  for_all (seq 0 (Z.to_nat n)) (λ tail,
    start <- getlog lg_start ;;
    to <- lbread (start + Z.of_nat tail + 1) ;;
    no <- getlog (λ g, lg_block g !!! tail) ;;
    from <- lbread no ;;
    v <- zoom bL (bdata from) ;;
    zoom bL (bstore to v) ;;;
    zoom bL (bwrite to) ;;;
    zoom bL (brelse from) ;;;
    zoom bL (brelse to)).

Definition commit : M (lstate D) unit :=
  n <- getlog lg_n ;;
  when (0 <? n) (
    write_log ;;;
    write_head ;;;
    install_trans false ;;;
    updlog (set_n 0) ;;;
    write_head).

Definition end_op : M (lstate D) unit :=
  zoom ctx_l (lock LkLog) ;;;
  updlog (λ g, set_outstanding (lg_outstanding g - 1) g) ;;;
  g <- getlog id ;;
  if truth (lg_committing g) then panic "log.committing" else
  do_commit <- (if lg_outstanding g =? 0
                then updlog (set_committing 1) ;;; ret true
                else zoom ctx_l (wakeup ChLog) ;;; ret false) ;;
  zoom ctx_l (unlock LkLog) ;;;
  when do_commit (
    commit ;;;
    zoom ctx_l (lock LkLog) ;;;
    updlog (set_committing 0) ;;;
    zoom ctx_l (wakeup ChLog) ;;;
    zoom ctx_l (unlock LkLog)).

Definition log_write (b : nat) : M (lstate D) unit :=
  zoom ctx_l (lock LkLog) ;;;
  g <- getlog id ;;
  if (LOGSIZE <=? lg_n g) || (lg_size g - 1 <=? lg_n g) then panic "too big a transaction" else
  if lg_outstanding g <? 1 then panic "log_write outside of trans" else
  x <- zoom bL (getb b) ;;
  let i := find_block (take (Z.to_nat (lg_n g)) (lg_block g)) (b_blockno x) in
  updlog (set_blocks (<[i := i32 (b_blockno x)]> (lg_block g))) ;;;
  when (Z.of_nat i =? lg_n g) (
    zoom bL (bpin b) ;;;
    updlog (λ g, set_n (lg_n g + 1) g)) ;;;
  zoom ctx_l (unlock LkLog).
End log.

(** ** The cache under the log *)

(** The CPU and the process are the same; only wake-ups differ. *)
Definition same_cpu (c c' : ctx) : Prop :=
  c_hart c' = c_hart c ∧ c_pid c' = c_pid c ∧ c_killed c' = c_killed c.

Section rules.
Context {D : Type} `{DiskSpec D} (c : ctx) (d : Z).

Definition lrep (a : acache) (g : log) (s : lstate D) : Prop :=
  (∃ l, brep d l a (ls_b s)) ∧ same_cpu c (bc_ctx (ls_b s)) ∧ ls_log s = g.

Lemma lrep_log a g s : lrep a g s → ls_log s = g.
Proof. by intros (_ & _ & ?). Qed.

Lemma wp_getlog {A} (f : log → A) a g s (Q : A → lstate D → Prop) :
  lrep a g s → Q (f g) s → wp (getlog f) Q s.
Proof. intros (_ & _ & E) HQ. unfold getlog. apply wp_gets. by rewrite E. Qed.

Lemma wp_updlog f a g s (Q : unit → lstate D → Prop) : lrep a g s →
  (∀ s', lrep a (f g) s' → Q tt s') → wp (updlog f) Q s.
Proof.
  intros (R & Hc & E) HQ. unfold updlog. apply wp_modify. apply HQ. split_and!; try done. simpl. by rewrite E.
Qed.

(** Lifting a cache operation. *)
Lemma wp_cache {A} (m : M (bstate D) A) a a' g s (Q : A → lstate D → Prop) v : lrep a g s →
  (∀ l, brep d l a (ls_b s) → ∃ t, m (ls_b s) = (Ret v, t) ∧ (∃ l', brep d l' a' t) ∧ same_cpu (bc_ctx (ls_b s)) (bc_ctx t)) →
  (∀ s', lrep a' g s' → Q v s') → wp (zoom bL m) Q s.
Proof.
  intros ([l R] & Hc & E) Hm HQ. destruct (Hm l R) as (t & Et & R' & Hc').
  apply wp_zoom. simpl. apply (wp_intro _ _ _ _ _ Et). apply HQ. split_and!; try done.
  destruct Hc as (H1 & H2 & H3), Hc' as (G1 & G2 & G3). simpl. unfold same_cpu. by rewrite G1, G2, G3.
Qed.

Lemma same_cpu_refl c0 : same_cpu c0 c0.
Proof. done. Qed.

Lemma wp_lbread no x a g s (Q : nat → lstate D → Prop) : lrep a g s → u32 (lg_dev g) = d → u32 no = x →
  refs_of x a + 1 < 2 ^ 32 → (∀ i n lk, ac_ref a !! x = Some (i, n, lk) → lk = false) →
  (ac_ref a !! x = None → (size (ac_ref a) < NBUF)%nat) →
  (∀ i s', lrep (set_ref x (i, refs_of x a + 1, true) a) g s' →
     (∀ j n lk, ac_ref a !! x = Some (j, n, lk) → j = i) → Q i s') → wp (lbread no) Q s.
Proof.
  intros R Hd Hx Hn Hlk Hroom HQ. unfold lbread. apply wp_bind. eapply wp_getlog; [exact R|].
  rewrite Hd, Hx. destruct R as ([l R] & Hc & E).
  assert (0 <= x < 2 ^ 32) as Hr by (subst x; apply Z.mod_pos_bound; lia).
  destruct (bread_run _ _ _ _ x R Hr Hn Hlk Hroom) as (i & t & Et & R' & Hc' & Hi).
  apply wp_zoom. simpl. apply (wp_intro _ _ _ _ _ Et). apply HQ; [|done]. split_and!; simpl; eauto.
  by rewrite Hc'.
Qed.

Section ops.
Context {a : acache} {g : log} {s : lstate D} (R : lrep a g s) {x : Z} {i : nat}.

Lemma wp_bdata n lk Q : ac_ref a !! x = Some (i, n, lk) → Q (ac_view a x) s → wp (zoom bL (bdata i)) Q s.
Proof.
  intros Hx HQ. destruct R as ([l Rb] & Hc & E). apply wp_zoom. simpl.
  apply (wp_intro _ _ _ _ _ (bdata_run _ _ _ _ _ _ _ _ Rb Hx)). by destruct s.
Qed.

Lemma wp_bstore n v (Q : unit → lstate D → Prop) : ac_ref a !! x = Some (i, n, true) →
  (∀ s', lrep (set_view x v a) g s' → Q tt s') → wp (zoom bL (bstore i v)) Q s.
Proof.
  intros Hx HQ. eapply wp_cache; [exact R| |exact HQ]. intros l Rb.
  destruct (bstore_run _ _ _ _ _ _ _ v Rb Hx) as (t & Et & R' & Ec). exists t.
  rewrite Ec. eauto using same_cpu_refl.
Qed.

Lemma wp_bwrite n (Q : unit → lstate D → Prop) : ac_ref a !! x = Some (i, n, true) → 0 <= x < 2 ^ 32 →
  (∀ s', lrep (set_disk x (ac_view a x) a) g s' → Q tt s') → wp (zoom bL (bwrite i)) Q s.
Proof.
  intros Hx Hr HQ. eapply wp_cache; [exact R| |exact HQ]. intros l Rb.
  destruct (bwrite_run _ _ _ _ _ _ _ Rb Hx Hr) as (t & Et & R' & Ec). exists t.
  rewrite Ec. eauto using same_cpu_refl.
Qed.

Lemma wp_bpin n lk (Q : unit → lstate D → Prop) : ac_ref a !! x = Some (i, n, lk) → n + 1 < 2 ^ 32 →
  (∀ s', lrep (set_ref x (i, n + 1, lk) a) g s' → Q tt s') → wp (zoom bL (bpin i)) Q s.
Proof.
  intros Hx Hr HQ. eapply wp_cache; [exact R| |exact HQ]. intros l Rb.
  destruct (bpin_run _ _ _ _ _ _ _ _ Rb Hx Hr) as (t & Et & R' & Ec). exists t.
  rewrite Ec. eauto using same_cpu_refl.
Qed.

Lemma wp_bunpin n lk (Q : unit → lstate D → Prop) : ac_ref a !! x = Some (i, n, lk) → 1 < n → n < 2 ^ 32 →
  (∀ s', lrep (set_ref x (i, n - 1, lk) a) g s' → Q tt s') → wp (zoom bL (bunpin i)) Q s.
Proof.
  intros Hx Hr Hr' HQ. eapply wp_cache; [exact R| |exact HQ]. intros l Rb.
  destruct (bunpin_run _ _ _ _ _ _ _ _ Rb Hx Hr Hr') as (t & Et & R' & Ec). exists t.
  rewrite Ec. eauto using same_cpu_refl.
Qed.

Lemma wp_brelse_shared n (Q : unit → lstate D → Prop) : ac_ref a !! x = Some (i, n, true) → 1 < n < 2 ^ 32 →
  (∀ s', lrep (set_ref x (i, n - 1, false) a) g s' → Q tt s') → wp (zoom bL (brelse i)) Q s.
Proof.
  intros Hx Hr HQ. eapply wp_cache; [exact R| |exact HQ]. intros l Rb.
  destruct (brelse_shared _ _ _ _ _ _ _ Rb Hx Hr) as (t & Et & R' & Ec). exists t.
  rewrite Ec. split_and!; eauto. by split_and!.
Qed.

Lemma wp_brelse_last (Q : unit → lstate D → Prop) : ac_ref a !! x = Some (i, 1, true) → ac_view a x = ac_disk a x →
  (∀ s', lrep (del_ref x a) g s' → Q tt s') → wp (zoom bL (brelse i)) Q s.
Proof.
  intros Hx Hr HQ. eapply wp_cache; [exact R| |exact HQ]. intros l Rb.
  assert (i ∈ l) as Hi by (apply (br_all _ _ _ _ Rb); by destruct (br_ref _ _ _ _ Rb _ _ _ _ Hx)).
  apply list_elem_of_split in Hi as (l1 & l2 & ->).
  destruct (brelse_last _ _ _ _ _ _ _ Rb Hx Hr) as (t & Et & R' & Ec). exists t.
  rewrite Ec. split_and!; eauto. by split_and!.
Qed.
End ops.
End rules.

(** ** Block writes *)

Definition apply_writes (ws : list (Z * block)) (f : Z → block) : Z → block :=
  fold_left (λ f w, bupd f w.1 w.2) ws f.

Lemma apply_writes_app ws ws' f : apply_writes (ws ++ ws') f = apply_writes ws' (apply_writes ws f).
Proof. apply fold_left_app. Qed.

Lemma apply_writes_ext ws f f' y : f y = f' y → apply_writes ws f y = apply_writes ws f' y.
Proof.
  revert f f'. induction ws as [|[x v] ws IH]; intros f f' E; [done|]. simpl. apply IH. unfold bupd.
  by destruct (decide (y = _)).
Qed.

Lemma apply_writes_other ws f y : y ∉ ws.*1 → apply_writes ws f y = f y.
Proof.
  revert f. induction ws as [|[x v] ws IH]; intros f Hy; [done|]. simpl. rewrite IH by set_solver.
  unfold bupd. rewrite decide_False; [done|set_solver].
Qed.

(** All the writes to a block write the same. *)
Lemma apply_writes_same ws f y v : y ∈ ws.*1 → (∀ w, (y, w) ∈ ws → w = v) → apply_writes ws f y = v.
Proof.
  revert f. induction ws as [|[x w] ws IH]; intros f Hy Hs; [set_solver|]. simpl.
  destruct (decide (y ∈ ws.*1)) as [Hin|Hin]; [apply IH; set_solver|].
  rewrite apply_writes_other by done. unfold bupd. simpl.
  assert (y = x) as -> by set_solver. rewrite decide_True by done. apply Hs. set_solver.
Qed.

(** [ws], oldest first, takes [a] to [a'] for readers and for the disk. *)
Record wrote (ws : list (Z * block)) (a a' : acache) : Prop := {
  wr_view : ∀ y, ac_view a' y = apply_writes ws (ac_view a) y;
  wr_disk : ∀ y, ac_disk a' y = apply_writes ws (ac_disk a) y;
  wr_trace : ac_trace a' = reverse ws ++ ac_trace a;
}.

Lemma wrote_nil a : wrote [] a a.
Proof. done. Qed.

Lemma wrote_trans ws ws' a a' a'' : wrote ws a a' → wrote ws' a' a'' → wrote (ws ++ ws') a a''.
Proof.
  intros [V1 D1 T1] [V2 D2 T2]. split.
  - intros y. rewrite V2, apply_writes_app. apply apply_writes_ext, V1.
  - intros y. rewrite D2, apply_writes_app. apply apply_writes_ext, D1.
  - by rewrite T2, T1, reverse_app, app_assoc.
Qed.

(** ** The header codec *)

Lemma put_head_blocks g b m : length b = Z.to_nat BSIZE → (m <= 30)%nat →
  let h := fold_left (λ b i, put32 b (4 + 4 * i) (lg_block g !!! i)) (seq 0 m) (put32 b 0 (lg_n g)) in
  length h = Z.to_nat BSIZE ∧ get32 h 0 = u32 (lg_n g) ∧
  ∀ i, (i < m)%nat → get32 h (4 + 4 * i) = u32 (lg_block g !!! i).
Proof.
  intros Hb Hm. assert (length b = 1024)%nat as Hb' by done.
  assert (length (put32 b 0 (lg_n g)) = 1024)%nat as Hl by (unfold put32; by rewrite length_putn).
  destruct (put32s_run (λ i, lg_block g !!! i) 4 m (put32 b 0 (lg_n g))) as (L & O & G); [lia|].
  cbv zeta. split_and!; [by rewrite L|..|exact G]. rewrite <-(get32_put32 b 0) by lia. apply getn_ext.
  intros i Hi. apply O. lia.
Qed.

Lemma i32_u32 x : i32 (u32 x) = i32 x.
Proof. unfold i32, u32. by rewrite Zplus_mod_idemp_l. Qed.

Section head.
Context {g : log} {b : block} (Hb : length b = Z.to_nat BSIZE) (Hn : 0 <= lg_n g <= LOGSIZE).

Lemma length_put_head : length (put_head g b) = Z.to_nat BSIZE.
Proof. unfold LOGSIZE, MAXOPBLOCKS in Hn. apply put_head_blocks; [done|lia]. Qed.

Lemma head_n_put : head_n (put_head g b) = lg_n g.
Proof.
  unfold LOGSIZE, MAXOPBLOCKS in Hn. unfold head_n.
  destruct (put_head_blocks g b (Z.to_nat (lg_n g)) Hb) as (_ & E & _); [lia|].
  unfold put_head. rewrite E, i32_u32. apply i32_id. lia.
Qed.

Lemma head_block_put i : (i < Z.to_nat (lg_n g))%nat → 0 <= lg_block g !!! i < 2 ^ 31 →
  head_block (put_head g b) i = lg_block g !!! i.
Proof.
  unfold LOGSIZE, MAXOPBLOCKS in Hn. unfold head_block. intros Hi Hr.
  destruct (put_head_blocks g b (Z.to_nat (lg_n g)) Hb) as (_ & _ & E); [lia|].
  unfold put_head. rewrite E, i32_u32 by done. apply i32_id. lia.
Qed.
End head.

(** ** The loops of [commit] and of recovery *)

(** A block outside the log. *)
Definition home (g : log) (x : Z) : Prop := 0 <= x < 2 ^ 31 ∧ ¬ (lg_start g <= x < lg_start g + lg_size g).

Record log_wf (d : Z) (g : log) : Prop := {
  lw_dev : u32 (lg_dev g) = d;
  lw_start : 0 <= lg_start g;
  lw_end : lg_start g + lg_size g < 2 ^ 31;
  lw_n : 0 <= lg_n g <= LOGSIZE;
  lw_fits : lg_n g < lg_size g;
  lw_len : length (lg_block g) = Z.to_nat LOGSIZE;
  lw_home : ∀ i, (i < Z.to_nat (lg_n g))%nat → home g (lg_block g !!! i);
}.

Definition logno (g : log) (k : nat) : Z := lg_start g + Z.of_nat k + 1.

Definition log_writes (g : log) (v : Z → block) (n : nat) : list (Z * block) :=
  (λ k, (logno g k, v (lg_block g !!! k))) <$> seq 0 n.
Definition install_writes (g : log) (v : Z → block) (n : nat) : list (Z * block) :=
  (λ k, (lg_block g !!! k, v (logno g k))) <$> seq 0 n.

Lemma u32_small x : 0 <= x < 2 ^ 31 → u32 x = x.
Proof. intros. apply u32_id. lia. Qed.

(** Solve a lookup in the blocks in use. *)
Ltac refs := cbn [set_ref set_view set_disk del_ref ac_ref]; unfold refs_of; cbn [ac_ref set_ref];
  simplify_map_eq; try done; try lia; try congruence.

Section loops.
Context {D : Type} `{DiskSpec D} (c : ctx) (d : Z).

(** Both loops read a log block and a home block, in this order. *)
Lemma write_log_step a g (s : lstate D) k x i n : lrep c d a g s → log_wf d g → (k < Z.to_nat (lg_n g))%nat →
  lg_block g !!! k = x → ac_ref a !! x = Some (i, n, false) → 0 < n → n + 1 < 2 ^ 32 →
  ac_ref a !! logno g k = None → (size (ac_ref a) < NBUF)%nat →
  wp (start <- getlog lg_start ;;
      to <- lbread (start + Z.of_nat k + 1) ;;
      no <- getlog (λ g, lg_block g !!! k) ;;
      from <- lbread no ;;
      v <- zoom bL (bdata from) ;;
      zoom bL (bstore to v) ;;;
      zoom bL (bwrite to) ;;;
      zoom bL (brelse from) ;;;
      zoom bL (brelse to))
    (λ _ s', ∃ a', lrep c d a' g s' ∧ wrote [(logno g k, ac_view a x)] a a' ∧ ac_ref a' = ac_ref a) s.
Proof.
  intros R W Hk Hx Hi Hn Hn' Hl Hsz. pose proof W as [W1 W2 W3 W4 W5 W6 W7]. specialize (W7 k Hk).
  rewrite Hx in W7. destruct W7 as [Hxr Hxl].
  assert (0 <= logno g k < 2 ^ 31) as Hlr by (unfold logno; lia).
  assert (x ≠ logno g k) as Hne by (unfold logno in *; lia).
  wp_step. eapply wp_getlog; [exact R|]. wp_step.
  eapply (wp_lbread _ _ _ (logno g k)); [exact R|done|by apply u32_small| | | |].
  { unfold refs_of. rewrite Hl. lia. } { by rewrite Hl. } { done. }
  unfold refs_of. rewrite Hl. intros j s1 R1 _. wp_step. eapply wp_getlog; [exact R1|]. rewrite Hx. wp_step.
  eapply (wp_lbread _ _ _ x); [exact R1|done|by apply u32_small|refs|intros ???; refs|refs|].
  assert (refs_of x (set_ref (logno g k) (j, 0 + 1, true) a) = n) as -> by refs.
  intros i' s2 R2 Hii. assert (i = i') as <- by (eapply Hii; refs).
  wp_step. eapply (wp_bdata _ _ R2); [refs|]. wp_step. eapply (wp_bstore _ _ R2 (x := logno g k)); [refs|].
  intros s3 R3. wp_step. eapply (wp_bwrite _ _ R3 (x := logno g k)); [refs|lia|].
  intros s4 R4. wp_step. eapply (wp_brelse_shared _ _ R4 (x := x)); [refs|lia|].
  intros s5 R5. eapply (wp_brelse_last _ _ R5 (x := logno g k)); [refs|..].
  { simpl. unfold bupd. by rewrite !decide_True. }
  intros s6 R6. eexists. split; [exact R6|]. split.
  - split; [done|..]; simpl; unfold bupd; by rewrite decide_True.
  - cbn [set_ref set_view set_disk del_ref ac_ref]. apply map_eq. intros y.
    destruct (decide (y = logno g k)) as [->|H1]; [by rewrite lookup_delete_eq|].
    rewrite lookup_delete_ne by done. destruct (decide (y = x)) as [->|H2]; [|by simplify_map_eq].
    rewrite lookup_insert_eq, Hi. do 3 f_equal. lia.
Qed.

Lemma lrep_clean a g (s : lstate D) y : lrep c d a g s → ac_ref a !! y = None → ac_view a y = ac_disk a y.
Proof. intros ([l R] & _) Hy. by apply R. Qed.

(** What installing finds of the home block: pinned once by the transaction, or, after a crash, unused. *)
Definition installable (recovering : bool) (x : Z) (a : acache) : Prop :=
  if recovering then ac_ref a !! x = None ∧ (size (ac_ref a) + 1 < NBUF)%nat
  else (∃ i, ac_ref a !! x = Some (i, 1, false)) ∧ (size (ac_ref a) < NBUF)%nat.

(** The releases at the end of a round. *)
Lemma install_finish a a5 g (s : lstate D) x v l i j : lrep c d a5 g s → x ≠ l → ac_ref a !! l = None →
  (∀ y, ac_view a5 y = bupd (ac_view a) x v y) → (∀ y, ac_disk a5 y = bupd (ac_disk a) x v y) →
  ac_trace a5 = (x, v) :: ac_trace a → ac_view a l = ac_disk a l →
  ac_ref a5 !! x = Some (i, 1, true) → ac_ref a5 !! l = Some (j, 1, true) →
  (∀ y, y ≠ x → y ≠ l → ac_ref a5 !! y = ac_ref a !! y) →
  wp (zoom bL (brelse j) ;;; zoom bL (brelse i))
    (λ _ s', ∃ a', lrep c d a' g s' ∧ wrote [(x, v)] a a' ∧ ac_ref a' = delete x (ac_ref a)) s.
Proof.
  intros R Hne Hl Hv Hd Ht Hcl Hi Hj Ho.
  wp_step. eapply (wp_brelse_last _ _ R _ Hj).
  { rewrite Hv, Hd. unfold bupd. by rewrite !decide_False. }
  intros s1 R1. eapply (wp_brelse_last _ _ R1 (x := x)); [refs|..].
  { simpl. rewrite Hv, Hd. unfold bupd. by rewrite !decide_True. }
  intros s2 R2. eexists. split; [exact R2|]. split; [done|]. simpl.
  apply map_eq. intros y. destruct (decide (y = x)) as [->|H1]; [by simplify_map_eq|].
  destruct (decide (y = l)) as [->|H2]; simplify_map_eq; [done|by apply Ho].
Qed.

Lemma install_step rec a g (s : lstate D) k x : lrep c d a g s → log_wf d g → (k < Z.to_nat (lg_n g))%nat →
  lg_block g !!! k = x → installable rec x a → ac_ref a !! logno g k = None →
  wp (start <- getlog lg_start ;;
      lbuf <- lbread (start + Z.of_nat k + 1) ;;
      no <- getlog (λ g, lg_block g !!! k) ;;
      dbuf <- lbread no ;;
      v <- zoom bL (bdata lbuf) ;;
      zoom bL (bstore dbuf v) ;;;
      zoom bL (bwrite dbuf) ;;;
      when (negb rec) (zoom bL (bunpin dbuf)) ;;;
      zoom bL (brelse lbuf) ;;;
      zoom bL (brelse dbuf))
    (λ _ s', ∃ a', lrep c d a' g s' ∧ wrote [(x, ac_view a (logno g k))] a a' ∧ ac_ref a' = delete x (ac_ref a)) s.
Proof.
  intros R W Hk Hx Hin Hl. pose proof W as [W1 W2 W3 W4 W5 W6 W7]. specialize (W7 k Hk).
  rewrite Hx in W7. destruct W7 as [Hxr Hxl]. pose proof (lrep_clean _ _ _ _ R Hl) as Hcl.
  assert (0 <= logno g k < 2 ^ 31) as Hlr by (unfold logno; lia).
  assert (x ≠ logno g k) as Hne by (unfold logno in *; lia).
  assert (size (ac_ref a) < NBUF)%nat as Hsz by (destruct rec, Hin; lia).
  wp_step. eapply wp_getlog; [exact R|]. wp_step.
  eapply (wp_lbread _ _ _ (logno g k)); [exact R|done|by apply u32_small|refs|refs|done|].
  assert (refs_of (logno g k) a = 0) as -> by refs.
  intros j s1 R1 _. wp_step. eapply wp_getlog; [exact R1|]. rewrite Hx. wp_step.
  set (m := if rec then 1 else 2). set (a1 := set_ref _ _ a) in R1.
  assert (refs_of x a1 = m - 1) as Hm by (unfold m; destruct rec; [destruct Hin|destruct Hin as [[i Hi] _]]; refs).
  eapply (wp_lbread _ _ _ x); [exact R1|done|by apply u32_small|unfold m in *; destruct rec; lia| | |].
  { intros i n lk E. destruct rec; [destruct Hin|destruct Hin as [[? ?] _]]; refs. }
  { cbn [a1 set_ref ac_ref]. rewrite lookup_insert_ne, map_size_insert_None by done.
    destruct rec; destruct Hin as [Hi ?]; [lia|]. destruct Hi as [i Hi]. congruence. }
  rewrite Hm. replace (m - 1 + 1) with m by lia. intros i s2 R2 _. unfold a1 in *.
  wp_step. eapply (wp_bdata _ _ R2 (x := logno g k)); [refs|].
  wp_step. eapply (wp_bstore _ _ R2 (x := x)); [refs|]. intros s3 R3.
  wp_step. eapply (wp_bwrite _ _ R3 (x := x)); [refs|lia|]. intros s4 R4. wp_step.
  assert (∀ f, bupd f x (ac_view a (logno g k)) x = ac_view a (logno g k)) as Eb.
  { intros f. unfold bupd. by rewrite decide_True. }
  cbn [set_view ac_view set_ref] in R4. rewrite Eb in R4. unfold m in *. destruct rec; cbn [negb when].
  - wp_step. eapply (install_finish a); [exact R4|done..|refs|refs|]. intros y H1 H2. refs.
  - eapply (wp_bunpin _ _ R4 (x := x)); [refs|lia|lia|]. intros s5 R5.
    eapply (install_finish a); [exact R5|done..|refs|refs|]. intros y H1 H2. refs.
Qed.

Lemma log_writes_S g v k : log_writes g v (S k) = log_writes g v k ++ [(logno g k, v (lg_block g !!! k))].
Proof. unfold log_writes. by rewrite seq_S, fmap_app. Qed.
Lemma install_writes_S g v k : install_writes g v (S k) = install_writes g v k ++ [(lg_block g !!! k, v (logno g k))].
Proof. unfold install_writes. by rewrite seq_S, fmap_app. Qed.

Lemma log_writes_keys g v n y : y ∈ (log_writes g v n).*1 ↔ ∃ k, (k < n)%nat ∧ y = logno g k.
Proof.
  unfold log_writes. rewrite <-list_fmap_compose, list_elem_of_fmap. split.
  - intros (k & -> & Hk%elem_of_seq). exists k. split; [lia|done].
  - intros (k & Hk & ->). exists k. split; [done|apply elem_of_seq; lia].
Qed.
Lemma install_writes_keys g v n y : y ∈ (install_writes g v n).*1 ↔ ∃ k, (k < n)%nat ∧ y = lg_block g !!! k.
Proof.
  unfold install_writes. rewrite <-list_fmap_compose, list_elem_of_fmap. split.
  - intros (k & -> & Hk%elem_of_seq). exists k. split; [lia|done].
  - intros (k & Hk & ->). exists k. split; [done|apply elem_of_seq; lia].
Qed.

Lemma home_not_logged g v n y : (Z.of_nat n < lg_size g) → home g y → y ∉ (log_writes g v n).*1.
Proof. intros Hn [_ Hy] (k & Hk & ->)%log_writes_keys. unfold logno in Hy. lia. Qed.

Lemma write_log_run a g (s : lstate D) : lrep c d a g s → log_wf d g →
  (∀ k, (k < Z.to_nat (lg_n g))%nat → ∃ i n, ac_ref a !! (lg_block g !!! k) = Some (i, n, false) ∧ 0 < n ∧ n + 1 < 2 ^ 32) →
  (∀ k, (k < Z.to_nat (lg_n g))%nat → ac_ref a !! logno g k = None) → (size (ac_ref a) < NBUF)%nat →
  wp write_log (λ _ s', ∃ a', lrep c d a' g s' ∧
    wrote (log_writes g (ac_view a) (Z.to_nat (lg_n g))) a a' ∧ ac_ref a' = ac_ref a) s.
Proof.
  intros R W Hpin Hfree Hsz. unfold write_log. wp_step. eapply wp_getlog; [exact R|].
  apply (wp_for_seq _ _ (λ k s', ∃ a', lrep c d a' g s' ∧ wrote (log_writes g (ac_view a) k) a a' ∧ ac_ref a' = ac_ref a)).
  { exists a. split_and!; done. }
  intros k s1 Hk (a1 & R1 & W1 & E1). destruct (Hpin k Hk) as (i & n & Hi & Hn & Hn').
  eapply wp_mono; [eapply (write_log_step a1 g s1 k _ i n); rewrite ?E1; eauto|].
  intros _ s2 (a2 & R2 & W2 & E2). exists a2. split; [done|]. split; [|by rewrite E2].
  change (1 + k)%nat with (S k). rewrite log_writes_S. eapply wrote_trans; [exact W1|].
  replace (ac_view a (lg_block g !!! k)) with (ac_view a1 (lg_block g !!! k)); [done|].
  rewrite (wr_view _ _ _ W1). apply apply_writes_other, home_not_logged; [|by apply W].
  pose proof (lw_n _ _ W). pose proof (lw_fits _ _ W). lia.
Qed.

(** The references after installing the first [k] blocks. *)
Definition unpinned (g : log) (k : nat) (m m' : gmap Z (nat * Z * bool)) : Prop :=
  m' ⊆ m ∧ (∀ i, (i < k)%nat → m' !! (lg_block g !!! i) = None) ∧
  (∀ y, (∀ i, (i < k)%nat → y ≠ lg_block g !!! i) → m' !! y = m !! y).

Lemma install_run rec a g (s : lstate D) : lrep c d a g s → log_wf d g →
  (∀ k, (k < Z.to_nat (lg_n g))%nat → installable rec (lg_block g !!! k) a) →
  (rec = false → ∀ i j, (i < Z.to_nat (lg_n g))%nat → (j < Z.to_nat (lg_n g))%nat →
     lg_block g !!! i = lg_block g !!! j → i = j) →
  (∀ k, (k < Z.to_nat (lg_n g))%nat → ac_ref a !! logno g k = None) →
  wp (install_trans rec) (λ _ s', ∃ a', lrep c d a' g s' ∧
    wrote (install_writes g (ac_view a) (Z.to_nat (lg_n g))) a a' ∧
    unpinned g (Z.to_nat (lg_n g)) (ac_ref a) (ac_ref a')) s.
Proof.
  intros R W Hin Hinj Hfree. unfold install_trans. wp_step. eapply wp_getlog; [exact R|].
  apply (wp_for_seq _ _ (λ k s', ∃ a', lrep c d a' g s' ∧ wrote (install_writes g (ac_view a) k) a a' ∧
    unpinned g k (ac_ref a) (ac_ref a'))).
  { exists a. split; [done|]. split; [done|]. split_and!; [done|lia|done]. }
  intros k s1 Hk (a1 & R1 & W1 & (U1 & U2 & U3)).
  assert (ac_ref a1 !! logno g k = None) as Hl by (eapply lookup_weaken_None; [by apply Hfree|done]).
  pose proof (map_subseteq_size _ _ U1) as Hsz.
  eapply wp_mono; [eapply (install_step rec a1 g s1 k); try done|].
  - specialize (Hin k Hk). destruct rec; unfold installable in *; destruct Hin as [Hin Hs].
    + split; [|lia]. by eapply lookup_weaken_None.
    + split; [|lia]. destruct Hin as [i Hi]. exists i. rewrite U3; [done|].
      intros j Hj E. apply Hinj in E; lia || done.
  - intros _ s2 (a2 & R2 & W2 & E2). exists a2. split; [done|]. split.
    + change (1 + k)%nat with (S k). rewrite install_writes_S. eapply wrote_trans; [exact W1|].
      replace (ac_view a (logno g k)) with (ac_view a1 (logno g k)); [done|].
      rewrite (wr_view _ _ _ W1). apply apply_writes_other. intros (i & Hi & E)%install_writes_keys.
      destruct (lw_home _ _ W i ltac:(lia)) as [_ Hh]. rewrite <-E in Hh. unfold logno in Hh.
      pose proof (lw_fits _ _ W). pose proof (lw_n _ _ W). lia.
    + rewrite E2. split_and!.
      * etrans; [apply delete_subseteq|done].
      * intros i Hi. destruct (decide (i = k)) as [->|Hne]; [apply lookup_delete_eq|].
        eapply lookup_weaken_None; [apply (U2 i); lia|apply delete_subseteq].
      * intros y Hy. rewrite lookup_delete_ne by (apply not_eq_sym, Hy; lia). apply U3. intros i Hi. apply Hy. lia.
Qed.

Lemma del_set_ref x e a : ac_ref a !! x = None → del_ref x (set_ref x e a) = a.
Proof. intros Hx. unfold del_ref, set_ref. simpl. rewrite delete_insert_id by done. by destruct a. Qed.

Lemma write_head_run a g (s : lstate D) : lrep c d a g s → log_wf d g →
  ac_ref a !! lg_start g = None → (size (ac_ref a) < NBUF)%nat →
  wp write_head (λ _ s', ∃ a', lrep c d a' g s' ∧
    wrote [(lg_start g, put_head g (ac_view a (lg_start g)))] a a' ∧ ac_ref a' = ac_ref a) s.
Proof.
  intros R W Hl Hsz. pose proof W as [W1 W2 W3 W4 W5 W6 W7]. unfold write_head.
  wp_step. eapply wp_getlog; [exact R|]. wp_step.
  eapply (wp_lbread _ _ _ (lg_start g)); [exact R|done|apply u32_small; lia|refs|refs|done|].
  assert (refs_of (lg_start g) a = 0) as -> by refs. intros i s1 R1 _.
  wp_step. eapply (wp_bdata _ _ R1 (x := lg_start g)); [refs|].
  wp_step. eapply wp_getlog; [exact R1|].
  wp_step. eapply (wp_bstore _ _ R1 (x := lg_start g)); [refs|]. intros s2 R2.
  wp_step. eapply (wp_bwrite _ _ R2 (x := lg_start g)); [refs|lia|]. intros s3 R3.
  eapply (wp_brelse_last _ _ R3 (x := lg_start g)); [refs|simpl; unfold bupd; by rewrite !decide_True|].
  intros s4 R4. eexists. split; [exact R4|]. split.
  - split; [done|..]; simpl; unfold bupd; by rewrite decide_True.
  - simpl. by rewrite delete_insert_id.
Qed.

Lemma read_blocks_run a g0 g (s : lstate D) h n : lrep c d a (set_blocks (lg_block g0) g) s →
  (n <= length (lg_block g0))%nat →
  wp (for_all (seq 0 n) (λ i, updlog (λ g, set_blocks (<[i := head_block h i]> (lg_block g)) g)))
    (λ _ s', ∃ bs, lrep c d a (set_blocks bs g) s' ∧ length bs = length (lg_block g0) ∧
       ∀ i, (i < n)%nat → bs !!! i = head_block h i) s.
Proof.
  intros R Hn. apply (wp_for_seq _ _ (λ k s', ∃ bs, lrep c d a (set_blocks bs g) s' ∧ length bs = length (lg_block g0) ∧
       ∀ i, (i < k)%nat → bs !!! i = head_block h i)).
  { exists (lg_block g0). split_and!; try done. lia. }
  intros k s1 Hk (bs & R1 & L & Hb). eapply wp_updlog; [exact R1|]. intros s2 R2.
  exists (<[k := head_block h k]> bs). split; [exact R2|]. split; [by rewrite length_insert|].
  intros i Hi. destruct (decide (i = k)) as [->|Hne].
  - rewrite list_lookup_total_insert_eq; [done|lia].
  - rewrite list_lookup_total_insert_ne by done. apply Hb. lia.
Qed.

Lemma read_head_run a g (s : lstate D) : lrep c d a g s → u32 (lg_dev g) = d →
  0 <= lg_start g < 2 ^ 31 → ac_ref a !! lg_start g = None → (size (ac_ref a) < NBUF)%nat →
  let h := ac_view a (lg_start g) in
  0 <= head_n h <= Z.of_nat (length (lg_block g)) →
  wp read_head (λ _ s', ∃ bs, lrep c d a (set_blocks bs (set_n (head_n h) g)) s' ∧ length bs = length (lg_block g) ∧
    ∀ i, (i < Z.to_nat (head_n h))%nat → bs !!! i = head_block h i) s.
Proof.
  intros R Hd Hs Hl Hsz h Hn. unfold read_head. wp_step. eapply wp_getlog; [exact R|]. wp_step.
  eapply (wp_lbread _ _ _ (lg_start g)); [exact R|done|apply u32_small; lia|refs|refs|done|].
  assert (refs_of (lg_start g) a = 0) as -> by refs. intros i s1 R1 _.
  wp_step. eapply (wp_bdata _ _ R1 (x := lg_start g)); [refs|].
  change (ac_view _ (lg_start g)) with h.
  wp_step. eapply wp_updlog; [exact R1|]. intros s2 R2.
  wp_step. eapply wp_getlog; [exact R2|]. cbn [set_n lg_n].
  wp_step. eapply wp_mono; [eapply (read_blocks_run _ g (set_n (head_n h) g)); [exact R2|lia]|].
  intros _ s3 (bs & R3 & L & Hb).
  eapply (wp_brelse_last _ _ R3 (x := lg_start g)); [refs|by apply (lrep_clean _ _ _ _ R)|].
  intros s4 R4. rewrite del_set_ref in R4 by done. eauto.
Qed.

Lemma log_wf_clear g : log_wf d g → log_wf d (set_n 0 g).
Proof.
  intros [W1 W2 W3 W4 W5 W6 W7]. unfold LOGSIZE, MAXOPBLOCKS in *. split; simpl; try done; lia.
Qed.
End loops.

Definition home_writes (g : log) (v : Z → block) (n : nat) : list (Z * block) :=
  (λ k, (lg_block g !!! k, v (lg_block g !!! k))) <$> seq 0 n.

(** The writes of [commit] for a transaction whose blocks read as [v]. *)
Definition commit_writes (g : log) (v : Z → block) : list (Z * block) :=
  let n := Z.to_nat (lg_n g) in
  let h := put_head g (v (lg_start g)) in
  if 0 <? lg_n g then
    log_writes g v n ++ [(lg_start g, h)] ++ home_writes g v n ++ [(lg_start g, put_head (set_n 0 g) h)]
  else [].

(** The log and the cache between two operations of a transaction. *)
Record trans_ok (d : Z) (a : acache) (g : log) : Prop := {
  to_wf : log_wf d g;
  to_inj : ∀ i j, (i < Z.to_nat (lg_n g))%nat → (j < Z.to_nat (lg_n g))%nat →
    lg_block g !!! i = lg_block g !!! j → i = j;
  to_pin : ∀ k, (k < Z.to_nat (lg_n g))%nat → ∃ i, ac_ref a !! (lg_block g !!! k) = Some (i, 1, false);
  to_free : ∀ y, lg_start g <= y < lg_start g + lg_size g → ac_ref a !! y = None;
  to_room : (size (ac_ref a) < NBUF)%nat;
  to_clean : ∀ y, (∀ i, (i < Z.to_nat (lg_n g))%nat → y ≠ lg_block g !!! i) → ac_view a y = ac_disk a y;
  to_len : length (ac_disk a (lg_start g)) = Z.to_nat BSIZE;
  to_empty : head_n (ac_disk a (lg_start g)) = 0;
}.

Lemma log_writes_at g v n f k : (k < n)%nat → apply_writes (log_writes g v n) f (logno g k) = v (lg_block g !!! k).
Proof.
  intros Hk. apply apply_writes_same; [apply log_writes_keys; eauto|].
  intros w (j & [= E ->] & _)%list_elem_of_fmap. unfold logno in E. by replace j with k by lia.
Qed.

Lemma start_not_logged g v n : lg_start g ∉ (log_writes g v n).*1.
Proof. intros (k & _ & E)%log_writes_keys. unfold logno in E. lia. Qed.

Lemma home_writes_keys g v n y : y ∈ (home_writes g v n).*1 ↔ ∃ k, (k < n)%nat ∧ y = lg_block g !!! k.
Proof.
  unfold home_writes. rewrite <-list_fmap_compose, list_elem_of_fmap. split.
  - intros (k & -> & Hk%elem_of_seq). exists k. split; [lia|done].
  - intros (k & Hk & ->). exists k. split; [done|apply elem_of_seq; lia].
Qed.

Lemma home_writes_at g v n f y : y ∈ (home_writes g v n).*1 → apply_writes (home_writes g v n) f y = v y.
Proof. intros Hy. apply apply_writes_same; [done|]. by intros w (j & [= -> ->] & _)%list_elem_of_fmap. Qed.

Lemma unpinned_nil g m m' : unpinned g 0 m m' → m' = m.
Proof. intros (_ & _ & Hu). apply map_eq. intros y. apply Hu. lia. Qed.

Section commit.
Context {D : Type} `{DiskSpec D} (c : ctx) (d : Z).

Lemma commit_run a g (s : lstate D) : lrep c d a g s → trans_ok d a g →
  wp commit (λ _ s', ∃ a', lrep c d a' (set_n 0 g) s' ∧ wrote (commit_writes g (ac_view a)) a a' ∧
    unpinned g (Z.to_nat (lg_n g)) (ac_ref a) (ac_ref a')) s.
Proof.
  intros R [W Hinj Hpin Hfree Hroom Hcl _ _]. unfold commit, commit_writes. pose proof (lw_n _ _ W) as Hn.
  pose proof (lw_fits _ _ W) as Hf.
  wp_step. eapply wp_getlog; [exact R|]. destruct (Z.ltb_spec 0 (lg_n g)) as [Hp|Hz]; cbn [when].
  2:{ apply wp_ret. assert (lg_n g = 0) as E by lia. exists a. rewrite E. split; [|split; [done|split_and!; [done|lia|done]]].
      replace (set_n 0 g) with g; [done|]. destruct g; simpl in *. by subst. }
  assert (∀ k, (k < Z.to_nat (lg_n g))%nat → ac_ref a !! logno g k = None) as Hlog.
  { intros k Hk. apply Hfree. unfold logno. lia. }
  wp_step. eapply wp_mono; [apply (write_log_run c d a g); try done|].
  { intros k Hk. destruct (Hpin k Hk) as [i Hi]. exists i, 1. split; [done|lia]. }
  intros _ s1 (a1 & R1 & W1 & E1). wp_step.
  eapply wp_mono; [apply (write_head_run c d a1 g); try done; rewrite E1; [apply Hfree; lia|done]|].
  intros _ s2 (a2 & R2 & W2 & E2). rewrite E1 in E2. wp_step.
  rewrite (wr_view _ _ _ W1), (apply_writes_other _ _ (lg_start g)) in W2 by apply start_not_logged.
  eapply wp_mono; [apply (install_run c d false a2 g); rewrite ?E2; try done|].
  { intros k Hk. unfold installable. by rewrite E2; auto. }
  intros _ s3 (a3 & R3 & W3 & U3). rewrite E2 in U3. wp_step.
  assert (install_writes g (ac_view a2) (Z.to_nat (lg_n g)) = home_writes g (ac_view a) (Z.to_nat (lg_n g))) as Ei.
  { apply list_fmap_ext. intros i k [-> Hk]%lookup_seq. f_equal.
    rewrite (wr_view _ _ _ W2). simpl. unfold bupd. rewrite decide_False by (unfold logno; lia).
    rewrite (wr_view _ _ _ W1). apply log_writes_at. lia. }
  rewrite Ei in W3.
  eapply wp_updlog; [exact R3|]. intros s4 R4.
  eapply wp_mono; [apply (write_head_run c d a3 (set_n 0 g)); [done|by apply log_wf_clear|..]|].
  { eapply lookup_weaken_None; [apply Hfree|apply U3]. simpl. lia. }
  { eapply Nat.le_lt_trans; [apply map_subseteq_size, U3|done]. }
  intros _ s5 (a5 & R5 & W5 & E5). exists a5. split; [done|]. rewrite E5. split; [|done].
  do 2 (eapply wrote_trans; [eassumption|]). eapply wrote_trans; [exact W3|].
  simpl in W5. replace (ac_view a3 (lg_start g)) with (put_head g (ac_view a (lg_start g))) in W5; [done|].
  rewrite (wr_view _ _ _ W3), apply_writes_other.
  - rewrite (wr_view _ _ _ W2). simpl. unfold bupd. by rewrite decide_True.
  - intros (k & Hk & E)%home_writes_keys. destruct (lw_home _ _ W k Hk) as [_ Hh]. rewrite <-E in Hh. lia.
Qed.
End commit.

(** ** Recovery *)

(** A header the log could have written. *)
Definition head_ok (g : log) (h : block) : Prop :=
  length h = Z.to_nat BSIZE ∧ 0 <= head_n h <= LOGSIZE ∧ head_n h < lg_size g ∧
  ∀ i, (i < Z.to_nat (head_n h))%nat → home g (head_block h i).

Definition recover_writes (g : log) (dk : Z → block) : list (Z * block) :=
  (λ k, (head_block (dk (lg_start g)) k, dk (logno g k))) <$> seq 0 (Z.to_nat (head_n (dk (lg_start g)))).

(** The log's place on the disk, and the size of [lh.block]. *)
Record region (d : Z) (g : log) : Prop := {
  rg_dev : u32 (lg_dev g) = d;
  rg_start : 0 <= lg_start g;
  rg_end : lg_start g + lg_size g < 2 ^ 31;
  rg_len : length (lg_block g) = Z.to_nat LOGSIZE;
}.

Section recover.
Context {D : Type} `{DiskSpec D} (c : ctx) (d : Z).

Lemma head_loaded_wf g bs h : region d g → head_ok g h → length bs = length (lg_block g) →
  (∀ i, (i < Z.to_nat (head_n h))%nat → bs !!! i = head_block h i) →
  log_wf d (set_blocks bs (set_n (head_n h) g)).
Proof.
  intros [R1 R2 R3 R4] (_ & H1 & H2 & H3) Hl Hb. split; simpl; try done; [by rewrite Hl|].
  intros i Hi. rewrite Hb by done. by apply H3.
Qed.

Lemma recover_run a g (s : lstate D) : lrep c d a g s → region d g → ac_ref a = ∅ →
  head_ok g (ac_disk a (lg_start g)) →
  wp recover_from_log (λ _ s', ∃ a' g' h, lrep c d a' g' s' ∧ ac_ref a' = ∅ ∧
    wrote (recover_writes g (ac_disk a) ++ [(lg_start g, h)]) a a' ∧ head_n h = 0 ∧ length h = Z.to_nat BSIZE ∧
    lg_n g' = 0 ∧ lg_start g' = lg_start g ∧ lg_size g' = lg_size g ∧ region d g' ∧
    lg_outstanding g' = lg_outstanding g ∧ lg_committing g' = lg_committing g ∧ h = put32 (ac_disk a (lg_start g)) 0 0) s.
Proof.
  intros R Hg Hempty Hh. pose proof Hg as [G1 G2 G3 G4]. pose proof Hh as (Hlen & Hn & Hsz & Hhome).
  assert (∀ y, ac_view a y = ac_disk a y) as Hv.
  { intros y. apply (lrep_clean c d a g s); [done|]. by rewrite Hempty. }
  unfold recover_from_log. wp_step.
  eapply wp_mono; [apply (read_head_run c d a g)|]; rewrite ?Hempty, ?map_size_empty; try done; try lia.
  { unfold NBUF. lia. } { rewrite Hv, G4. unfold LOGSIZE, MAXOPBLOCKS in *. lia. }
  rewrite Hv. intros _ s1 (bs & R1 & L & Hb). set (h := ac_disk a (lg_start g)) in *.
  set (g1 := set_blocks bs _) in R1. assert (log_wf d g1) as W by (by apply head_loaded_wf).
  assert (install_writes g1 (ac_view a) (Z.to_nat (lg_n g1)) = recover_writes g (ac_disk a)) as Ew.
  { apply list_fmap_ext. intros i k [-> Hk]%lookup_seq. simpl in Hk. rewrite Hv. f_equal. by apply Hb. }
  wp_step. eapply wp_mono; [apply (install_run c d true a g1); try done|].
  { intros k Hk. unfold installable. rewrite Hempty, map_size_empty. split; [done|unfold NBUF; lia]. }
  { intros k Hk. by rewrite Hempty. }
  intros _ s2 (a2 & R2 & W2 & (U2 & _)). rewrite Ew in W2.
  assert (ac_ref a2 = ∅) as E2 by (rewrite Hempty in U2; apply map_empty; intros y; by eapply lookup_weaken_None, U2).
  wp_step. eapply wp_updlog; [exact R2|]. intros s3 R3.
  eapply wp_mono; [apply (write_head_run c d a2 (set_n 0 g1)); rewrite ?E2, ?map_size_empty; try done|].
  { by apply log_wf_clear. } { unfold NBUF. lia. }
  intros _ s4 (a4 & R4 & W4 & E4). rewrite E2 in E4.
  assert (ac_view a2 (lg_start g) = h) as V2.
  { rewrite (wr_view _ _ _ W2), <-Ew, apply_writes_other, Hv; [done|].
    intros (k & Hk & E)%install_writes_keys. destruct (lw_home _ _ W k Hk) as [_ Hx].
    rewrite <-E in Hx. simpl in Hx. lia. }
  assert (length (ac_view a2 (lg_start g)) = Z.to_nat BSIZE) as L2 by (by rewrite V2).
  assert (0 <= lg_n (set_n 0 g1) <= LOGSIZE) as Hz by (unfold LOGSIZE, MAXOPBLOCKS; simpl; lia).
  eexists a4, _, _. split; [exact R4|]. split; [done|]. split; [by eapply wrote_trans|].
  split_and!; try done; [exact (head_n_put L2 Hz)|exact (length_put_head L2 Hz)| |by rewrite <-V2]. split; try done. simpl. lia.
Qed.
End recover.

(** ** Crash safety *)

Lemma log_writes_length g v n : length (log_writes g v n) = n.
Proof. unfold log_writes. by rewrite length_fmap, length_seq. Qed.
Lemma home_writes_length g v n : length (home_writes g v n) = n.
Proof. unfold home_writes. by rewrite length_fmap, length_seq. Qed.

Lemma keys_take (ws : list (Z * block)) k y : y ∈ (take k ws).*1 → y ∈ ws.*1.
Proof.
  intros (w & -> & Hw)%list_elem_of_fmap. apply list_elem_of_fmap. exists w. split; [done|].
  rewrite <-(take_drop k ws). set_solver.
Qed.

(** What recovery sees after a crash, and what it leaves outside the log. *)
Definition recovers (g : log) (dk goal : Z → block) : Prop :=
  head_ok g (dk (lg_start g)) ∧ ∀ y, home g y → apply_writes (recover_writes g dk) dk y = goal y.

Section crash.
Context (d : Z) (a : acache) (g : log) (T : trans_ok d a g) (Hpos : 0 < lg_n g).
Let n := Z.to_nat (lg_n g).
Let v := ac_view a.
Let h := put_head g (v (lg_start g)).

Lemma home_start y : home g y → y ≠ lg_start g.
Proof. intros [_ Hy] ->. pose proof (lw_n _ _ (to_wf _ _ _ T)). pose proof (lw_fits _ _ (to_wf _ _ _ T)). lia. Qed.

Lemma homes k : (k < n)%nat → home g (lg_block g !!! k).
Proof. apply (lw_home _ _ (to_wf _ _ _ T)). Qed.

Lemma view_start : v (lg_start g) = ac_disk a (lg_start g).
Proof. apply (to_clean _ _ _ T). intros i Hi E. by apply (home_start _ (homes i Hi)). Qed.

Lemma head_commit : head_ok g h ∧ head_n h = lg_n g ∧ ∀ k, (k < n)%nat → head_block h k = lg_block g !!! k.
Proof.
  pose proof (lw_n _ _ (to_wf _ _ _ T)) as Hn. pose proof (lw_fits _ _ (to_wf _ _ _ T)) as Hf.
  assert (length (v (lg_start g)) = Z.to_nat BSIZE) as Hl by (rewrite view_start; apply (to_len _ _ _ T)).
  pose proof (head_n_put Hl Hn) as En. fold h in En.
  assert (∀ k, (k < n)%nat → head_block h k = lg_block g !!! k) as Eb.
  { intros k Hk. apply (head_block_put Hl Hn); [done|]. apply (homes k Hk). }
  split; [|done]. split; [by apply length_put_head|]. rewrite En. split_and!; try lia.
  intros i Hi. rewrite Eb by done. by apply homes.
Qed.

(** Before the header is written, recovery finds an empty log. *)
Lemma crash_early k : (k <= n)%nat → recovers g (apply_writes (take k (log_writes g v n)) (ac_disk a)) (ac_disk a).
Proof.
  intros Hk. set (dk := apply_writes _ _).
  assert (dk (lg_start g) = ac_disk a (lg_start g)) as Es.
  { apply apply_writes_other. intros Hin%keys_take. by apply start_not_logged in Hin. }
  pose proof (to_empty _ _ _ T) as H0. pose proof (to_len _ _ _ T) as Hl.
  pose proof (lw_n _ _ (to_wf _ _ _ T)). pose proof (lw_fits _ _ (to_wf _ _ _ T)).
  split.
  - rewrite Es. unfold head_ok. rewrite H0. unfold LOGSIZE, MAXOPBLOCKS. split_and!; try done; lia.
  - intros y Hy. unfold recover_writes. rewrite Es, H0. simpl. unfold dk. apply apply_writes_other. intros Hin%keys_take.
    eapply home_not_logged; [|done|done]. unfold n. lia.
Qed.

(** Blocks outside the transaction are not changed by it. *)
Lemma unlogged_same z : z ∉ (home_writes g v n).*1 → ac_disk a z = v z.
Proof.
  intros Hz. symmetry. apply (to_clean _ _ _ T). intros i Hi ->. apply Hz, home_writes_keys. eauto.
Qed.

(** After the installation, blocks outside the log are new. *)
Lemma installed_new (f : Z → block) y : (∀ z, home g z → z ∉ (home_writes g v n).*1 → f z = v z) →
  home g y → apply_writes (home_writes g v n) f y = v y.
Proof.
  intros Hf Hy. destruct (decide (y ∈ (home_writes g v n).*1)) as [Hin|Hin]; [by apply home_writes_at|].
  by rewrite apply_writes_other, Hf.
Qed.

(** [commit] ends with the transaction in place and the header cleared. *)
Lemma commit_home (f : Z → block) y : (∀ z, home g z → z ∉ (home_writes g v n).*1 → f z = v z) →
  home g y → apply_writes (commit_writes g v) f y = v y.
Proof.
  intros Hf Hy. pose proof (lw_n _ _ (to_wf _ _ _ T)) as Hn. pose proof (lw_fits _ _ (to_wf _ _ _ T)) as Hfit.
  unfold commit_writes. rewrite (proj2 (Z.ltb_lt _ _) Hpos). fold n h. rewrite !app_assoc, !apply_writes_app.
  rewrite apply_writes_other by (pose proof (home_start y Hy); set_solver).
  apply installed_new; [|done]. intros z Hz Hnot. rewrite <-apply_writes_app.
  rewrite apply_writes_other; [by apply Hf|]. rewrite fmap_app, elem_of_app. intros [Hin|Hin].
  - eapply home_not_logged; [|done|exact Hin]. unfold n. lia.
  - apply (home_start _ Hz). set_solver.
Qed.

Lemma commit_head (f : Z → block) : let h0 := apply_writes (commit_writes g v) f (lg_start g) in
  head_n h0 = 0 ∧ length h0 = Z.to_nat BSIZE.
Proof.
  intros h0. destruct head_commit as ((Hlen & _) & _ & _).
  assert (0 <= lg_n (set_n 0 g) <= LOGSIZE) as Hz by (unfold LOGSIZE, MAXOPBLOCKS; simpl; lia).
  assert (h0 = put_head (set_n 0 g) h) as ->.
  { unfold h0, commit_writes. rewrite (proj2 (Z.ltb_lt _ _) Hpos). fold n h. rewrite !app_assoc, apply_writes_app.
    simpl. unfold bupd. by rewrite decide_True. }
  split; [exact (head_n_put Hlen Hz)|exact (length_put_head Hlen Hz)].
Qed.

Lemma crash_committed j : let dk := apply_writes (log_writes g v n ++ [(lg_start g, h)] ++ take j (home_writes g v n)) (ac_disk a) in
  recovers g dk v.
Proof.
  intros dk. destruct head_commit as (Hh & En & Eb).
  pose proof (lw_n _ _ (to_wf _ _ _ T)) as Hn. pose proof (lw_fits _ _ (to_wf _ _ _ T)) as Hf.
  assert (∀ z, ¬ home g z → z ∉ (take j (home_writes g v n)).*1) as Hlg.
  { intros z Hz (k & Hk & ->)%keys_take%home_writes_keys. by apply Hz, homes. }
  assert (dk (lg_start g) = h) as Es.
  { unfold dk. rewrite !apply_writes_app. rewrite apply_writes_other.
    - simpl. unfold bupd. by rewrite decide_True.
    - apply Hlg. intros Hs. by apply home_start in Hs. }
  assert (∀ k, (k < n)%nat → dk (logno g k) = v (lg_block g !!! k)) as El.
  { intros k Hk. unfold dk. rewrite !apply_writes_app, apply_writes_other.
    - simpl. unfold bupd. rewrite decide_False by (unfold logno; lia). by apply log_writes_at.
    - apply Hlg. intros [_ Hx]. unfold logno in Hx. lia. }
  split; [by rewrite Es|]. intros y Hy.
  assert (recover_writes g dk = home_writes g v n) as ->.
  { unfold recover_writes. rewrite Es, En. apply list_fmap_ext. intros i k [-> Hk]%lookup_seq. simpl.
    by rewrite Eb, El. }
  apply installed_new; [|done]. intros z Hz Hnot. rewrite <-unlogged_same by done. unfold dk.
  apply apply_writes_other. rewrite !fmap_app, !elem_of_app. intros [Hin|[Hin|Hin]].
  - eapply home_not_logged; [|done|exact Hin]. unfold n. lia.
  - apply (home_start _ Hz). set_solver.
  - by apply Hnot, (keys_take _ j).
Qed.

(** After the header has been cleared. *)
Lemma crash_done : recovers g (apply_writes (commit_writes g v) (ac_disk a)) v.
Proof.
  pose proof (lw_n _ _ (to_wf _ _ _ T)) as Hn. pose proof (lw_fits _ _ (to_wf _ _ _ T)) as Hf.
  destruct (commit_head (ac_disk a)) as [E0 L0]. split.
  - unfold head_ok. rewrite E0. unfold LOGSIZE, MAXOPBLOCKS. split_and!; try done; lia.
  - intros y Hy. unfold recover_writes. rewrite E0. simpl. apply commit_home; [|done].
    intros z _. apply unlogged_same.
Qed.

(** A crash after [k] of the writes of [commit]. *)
Lemma crash_at k : recovers g (apply_writes (take k (commit_writes g v)) (ac_disk a))
  (if (k <=? n)%nat then ac_disk a else v).
Proof.
  unfold commit_writes. rewrite (proj2 (Z.ltb_lt _ _) Hpos). fold n h.
  destruct (Nat.leb_spec k n) as [Hk|Hk].
  - rewrite take_app_le by (rewrite log_writes_length; lia). by apply crash_early.
  - rewrite take_app_ge, log_writes_length by (rewrite log_writes_length; lia).
    destruct (decide (k - n - 1 <= n)%nat) as [Hj|Hj].
    + replace (k - n)%nat with (S (k - n - 1)) by lia. cbn [take app].
      rewrite take_app_le by (rewrite home_writes_length; lia). apply crash_committed.
    + rewrite take_ge by (rewrite !length_app, home_writes_length; simpl; lia).
      pose proof crash_done as Hd. unfold commit_writes in Hd. by rewrite (proj2 (Z.ltb_lt _ _) Hpos) in Hd.
Qed.
End crash.
