(* ===== verification/LogSpec.v ===== *)
(** * Transactions

    [txn] is the state of the log and the cache inside a transaction, for the
    process that runs it: the blocks it has locked, the blocks the transaction
    has logged, and the contents of every block as the process sees it.  The
    rules of [begin_op], [log_write], [bread], [brelse] and [end_op] are stated
    on it; the file system is verified against these rules.  The theorems on
    [commit], crashes and recovery are at the end. *)
From S2P Require Import Prelude Machine Spinlock Sleeplock Blocks Bio Log.

(** The blocks of the transaction. *)
Definition blocks (g : log) : list Z := take (Z.to_nat (lg_n g)) (lg_block g).

Record txn (d : Z) (held : gmap Z nat) (a : acache) (g : log) : Prop := {
  tx_wf : log_wf d g;
  tx_nodup : NoDup (blocks g);
  tx_held : ∀ y b, held !! y = Some b → home g y ∧
    ac_ref a !! y = Some (b, if decide (y ∈ blocks g) then 2 else 1, true);
  tx_pin : ∀ y, held !! y = None → y ∈ blocks g → ∃ b, ac_ref a !! y = Some (b, 1, false);
  tx_none : ∀ y, held !! y = None → y ∉ blocks g → ac_ref a !! y = None;
  tx_clean : ∀ y, y ∉ blocks g → ac_view a y = ac_disk a y;
  tx_len : length (ac_disk a (lg_start g)) = Z.to_nat BSIZE;
  tx_empty : head_n (ac_disk a (lg_start g)) = 0;
}.

Section blocks.
Context {d : Z} {g : log} (W : log_wf d g).

Lemma blocks_length : length (blocks g) = Z.to_nat (lg_n g).
Proof.
  unfold blocks. rewrite length_take, (lw_len _ _ W). pose proof (lw_n _ _ W). unfold LOGSIZE, MAXOPBLOCKS in *. lia.
Qed.

Lemma blocks_lookup k : (k < Z.to_nat (lg_n g))%nat → blocks g !! k = Some (lg_block g !!! k).
Proof.
  intros Hk. unfold blocks. rewrite lookup_take_lt by done. apply list_lookup_lookup_total_lt.
  rewrite (lw_len _ _ W). pose proof (lw_n _ _ W). unfold LOGSIZE, MAXOPBLOCKS in *. lia.
Qed.

Lemma elem_blocks y : y ∈ blocks g ↔ ∃ k, (k < Z.to_nat (lg_n g))%nat ∧ y = lg_block g !!! k.
Proof.
  rewrite list_elem_of_lookup. split.
  - intros [k Hk]. assert (k < length (blocks g))%nat as Hl by (by eapply lookup_lt_Some).
    rewrite blocks_length in Hl. exists k. split; [done|]. rewrite blocks_lookup in Hk by done. by simplify_eq.
  - intros (k & Hk & ->). exists k. by apply blocks_lookup.
Qed.

Lemma blocks_home y : y ∈ blocks g → home g y.
Proof. intros (k & Hk & ->)%elem_blocks. by apply (lw_home _ _ W). Qed.
End blocks.

Lemma txn_refs d held a g : txn d held a g → dom (ac_ref a) = dom held ∪ list_to_set (blocks g).
Proof.
  intros T. apply set_eq. intros y. rewrite elem_of_union, !elem_of_dom, elem_of_list_to_set.
  destruct (held !! y) as [b|] eqn:E.
  - destruct (tx_held _ _ _ _ T y b E) as [_ ->]. split; eauto.
  - destruct (decide (y ∈ blocks g)) as [Hb|Hb].
    + destruct (tx_pin _ _ _ _ T y E Hb) as [b ->]. split; eauto.
    + rewrite (tx_none _ _ _ _ T y E Hb). split; [by intros [? ?]|by intros [[? ?]|?]].
Qed.

Lemma txn_size d held a g : txn d held a g → (size (ac_ref a) <= size held + Z.to_nat (lg_n g))%nat.
Proof.
  intros T. rewrite <-size_dom, (txn_refs _ _ _ _ T), size_union_alt.
  assert (size (list_to_set (blocks g) ∖ dom held : gset Z) <= size (list_to_set (blocks g) : gset Z))%nat as Hs.
  { apply subseteq_size. set_solver. }
  rewrite size_list_to_set, (blocks_length (tx_wf _ _ _ _ T)) in Hs by apply T. rewrite size_dom. lia.
Qed.

(** Between operations of the process, the transaction can be committed. *)
Lemma txn_trans d a g : txn d ∅ a g → (Z.to_nat (lg_n g) < NBUF)%nat → trans_ok d a g.
Proof.
  intros T Hn. pose proof (tx_wf _ _ _ _ T) as W. pose proof (txn_size _ _ _ _ T) as Hs.
  rewrite map_size_empty in Hs. split; try done.
  - intros i j Hi Hj E. apply (NoDup_lookup (blocks g) i j (lg_block g !!! i)); [apply T|..].
    + by apply (blocks_lookup W). + rewrite E. by apply (blocks_lookup W).
  - intros k Hk. apply (tx_pin _ _ _ _ T); [done|]. apply (elem_blocks W). eauto.
  - intros y Hy. apply (tx_none _ _ _ _ T); [done|]. intros [_ Hh]%(blocks_home W). done.
  - lia.
  - intros y Hy. apply (tx_clean _ _ _ _ T). intros (k & Hk & E)%(elem_blocks W). by apply (Hy k).
  - apply (tx_len _ _ _ _ T).
  - apply (tx_empty _ _ _ _ T).
Qed.

(** ** The log's lock *)
Section locked.
Context {D : Type} `{DiskSpec D} {c : ctx} {d : Z} (Ho : hart_ok (c_hart c)) (Hl : LkLog ∉ h_held (c_hart c)).

Definition inlog (c : ctx) : ctx := set_chart (taken LkLog (c_hart c)) c.

Lemma brep_ctx l a (s : bstate D) c' : brep d l a s → quiet cache_lock c' → c_pid c' = c_pid (bc_ctx s) →
  brep d l a (BState c' (bc_buf s) (bc_disk s)).
Proof. intros [] Hq Hp. split; simpl; try done. by rewrite Hp. Qed.

Lemma wp_loglock a g (s : lstate D) (Q : unit → lstate D → Prop) : lrep c d a g s →
  (∀ s', lrep (inlog c) d a g s' → Q tt s') → wp (zoom ctx_l (lock LkLog)) Q s.
Proof.
  intros ([l R] & (E1 & E2 & E3) & E) HQ. apply wp_zoom. simpl.
  rewrite <-E1 in Ho, Hl. apply (wp_intro _ _ _ _ _ (lock_run _ _ Ho Hl)).
  apply HQ. split_and!; simpl; try done; [|by rewrite E1].
  exists l. apply brep_ctx; [done| |done]. destruct (br_quiet _ _ _ _ R) as [_ Hq].
  split; [by apply taken_ok|]. intros k Hk. simpl. pose proof (Hq k Hk).
  destruct Hk as [->|[b ->]]; set_solver.
Qed.

Lemma wp_logunlock a g (s : lstate D) (Q : unit → lstate D → Prop) : lrep (inlog c) d a g s →
  (∀ s', lrep c d a g s' → Q tt s') → wp (zoom ctx_l (unlock LkLog)) Q s.
Proof.
  intros ([l R] & (E1 & E2 & E3) & E) HQ. apply wp_zoom. simpl.
  apply (wp_intro _ _ _ _ _ (unlock_run _ (c_hart c) _ Ho Hl E1)).
  apply HQ. split_and!; simpl; try done.
  exists l. apply brep_ctx; [done| |done]. destruct (br_quiet _ _ _ _ R) as [_ Hq].
  split; [done|]. intros k Hk. simpl. specialize (Hq k Hk). rewrite E1 in Hq. simpl in Hq. set_solver.
Qed.

Lemma wp_logwake c' a g (s : lstate D) ch (Q : unit → lstate D → Prop) : lrep c' d a g s →
  (∀ s', lrep c' d a g s' → Q tt s') → wp (zoom ctx_l (wakeup ch)) Q s.
Proof.
  intros ([l R] & (E1 & E2 & E3) & E) HQ. apply wp_zoom. unfold wakeup. apply wp_modify. apply HQ.
  split_and!; simpl; try done. exists l. apply brep_ctx; [done| |done]. apply R.
Qed.
End locked.

(** ** The rules of a transaction *)

(** Log [x], unless the transaction already has it. *)
Definition add_block (x : Z) (g : log) : log :=
  if decide (x ∈ blocks g) then g
  else set_n (lg_n g + 1) (set_blocks (<[Z.to_nat (lg_n g) := x]> (lg_block g)) g).

(** The transaction has room for one more block. *)
Definition log_room (g : log) : Prop := lg_n g < LOGSIZE ∧ lg_n g < lg_size g - 1 ∧ 1 <= lg_outstanding g.

Section view.
Context {D : Type} `{DiskSpec D} (c : ctx) (d : Z).

(** Inside a transaction: [v] is what the process reads, [dk] and [tr] the disk
    and the writes it has had. *)
Definition logged (held : gmap Z nat) (v dk : Z → block) (tr : list (Z * block)) (g : log) (s : lstate D) : Prop :=
  ∃ a, lrep c d a g s ∧ txn d held a g ∧
    (∀ y, ac_view a y = v y) ∧ (∀ y, ac_disk a y = dk y) ∧ ac_trace a = tr.

(** The process has stored [w] in its buffer of [x] and has not logged it yet. *)
Definition stored (x : Z) (w : block) (held : gmap Z nat) (v dk : Z → block) tr (g : log) (s : lstate D) : Prop :=
  ∃ a, lrep c d (set_view x w a) g s ∧ txn d held a g ∧
    (∀ y, ac_view a y = v y) ∧ (∀ y, ac_disk a y = dk y) ∧ ac_trace a = tr.

Lemma logged_ext held v v' dk tr g s : (∀ y, v y = v' y) → logged held v dk tr g s → logged held v' dk tr g s.
Proof. intros E (a & R & T & V & K & Tr). exists a. split_and!; try done. intros y. by rewrite V. Qed.

Lemma wp_lgetlog {A} (f : log → A) held v dk tr g s (Q : A → lstate D → Prop) :
  logged held v dk tr g s → Q (f g) s → wp (getlog f) Q s.
Proof. intros (a & R & _). by apply (wp_getlog c d f a g). Qed.

Lemma wp_lread x held v dk tr g s (Q : nat → lstate D → Prop) : logged held v dk tr g s →
  held !! x = None → home g x → (size held + Z.to_nat (lg_n g) < NBUF)%nat →
  (∀ b s', logged (<[x := b]> held) v dk tr g s' → Q b s') → wp (zoom bL (bread d x)) Q s.
Proof.
  intros (a & R & T & V & K & Tr) Hx Hh Hroom HQ. pose proof R as ([l Rb] & Hc & E).
  pose proof (tx_wf _ _ _ _ T) as W. pose proof (txn_size _ _ _ _ T) as Hs.
  assert (refs_of x a = if decide (x ∈ blocks g) then 1 else 0) as Er.
  { unfold refs_of. case_decide as Hb; [by destruct (tx_pin _ _ _ _ T x Hx Hb) as [b ->]|].
    by rewrite (tx_none _ _ _ _ T x Hx Hb). }
  assert (∀ i n lk, ac_ref a !! x = Some (i, n, lk) → lk = false) as Hlk.
  { intros i n lk Hi. destruct (decide (x ∈ blocks g)) as [Hb|Hb].
    - destruct (tx_pin _ _ _ _ T x Hx Hb) as [b Eb]. congruence.
    - rewrite (tx_none _ _ _ _ T x Hx Hb) in Hi. done. }
  destruct (bread_run _ _ _ _ x Rb) as (b & t & Et & R' & Hc' & _); [destruct Hh; lia|rewrite Er; case_decide; lia|done|lia|].
  apply wp_zoom. simpl. apply (wp_intro _ _ _ _ _ Et). apply HQ.
  exists (set_ref x (b, refs_of x a + 1, true) a). split_and!; try done.
  - split_and!; simpl; [by eauto|by rewrite Hc'|done].
  - destruct T as [T1 T2 T3 T4 T5 T6 T7 T8]. split; simpl; try done.
    + intros y b' [[<- <-]|[Hne Hy]]%lookup_insert_Some.
      * split; [done|]. rewrite lookup_insert_eq, Er. by case_decide.
      * rewrite lookup_insert_ne by done. by apply T3.
    + intros y [Hy Hne]%lookup_insert_None. rewrite lookup_insert_ne by done. by apply T4.
    + intros y [Hy Hne]%lookup_insert_None. rewrite lookup_insert_ne by done. by apply T5.
Qed.

Lemma wp_ldata x b held v dk tr g s (Q : block → lstate D → Prop) : logged held v dk tr g s → held !! x = Some b →
  Q (v x) s → wp (zoom bL (bdata b)) Q s.
Proof.
  intros (a & R & T & V & K & Tr) Hx HQ. destruct (tx_held _ _ _ _ T x b Hx) as [_ E].
  eapply (wp_bdata c d R); [exact E|]. by rewrite V.
Qed.

Lemma wp_lrelse x b held v dk tr g s (Q : unit → lstate D → Prop) : logged held v dk tr g s → held !! x = Some b →
  (∀ s', logged (delete x held) v dk tr g s' → Q tt s') → wp (zoom bL (brelse b)) Q s.
Proof.
  intros (a & R & T & V & K & Tr) Hx HQ. destruct (tx_held _ _ _ _ T x b Hx) as [Hh E].
  assert (∀ a', (∀ y, ac_view a' y = ac_view a y) → (∀ y, ac_disk a' y = ac_disk a y) → ac_trace a' = ac_trace a →
    (∀ y, y ≠ x → ac_ref a' !! y = ac_ref a !! y) →
    (if decide (x ∈ blocks g) then ac_ref a' !! x = Some (b, 1, false) else ac_ref a' !! x = None) →
    txn d (delete x held) a' g) as Htx.
  { intros a' Hv Hd _ Ho Hx'. destruct T as [T1 T2 T3 T4 T5 T6 T7 T8]. split; try done.
    - intros y b' [Hne Hy]%lookup_delete_Some. rewrite Ho by done. by apply T3.
    - intros y Hy Hb. destruct (decide (y = x)) as [->|Hne]; [rewrite decide_True in Hx' by done; eauto|].
      rewrite lookup_delete_ne in Hy by done. rewrite Ho by done. by apply T4.
    - intros y Hy Hb. destruct (decide (y = x)) as [->|Hne]; [by rewrite decide_False in Hx'|].
      rewrite lookup_delete_ne in Hy by done. rewrite Ho by done. by apply T5.
    - intros y Hy. rewrite Hv, Hd. by apply T6.
    - by rewrite Hd.
    - by rewrite Hd. }
  destruct (decide (x ∈ blocks g)) as [Hb|Hb] eqn:Eb.
  - eapply (wp_brelse_shared c d R); [exact E|lia|]. intros s' R'. apply HQ. eexists. split; [exact R'|].
    split_and!; try done. apply Htx; try done; intros; refs.
  - eapply (wp_brelse_last c d R); [exact E|by apply T|]. intros s' R'. apply HQ. eexists. split; [exact R'|].
    split_and!; try done. apply Htx; try done; intros; refs.
Qed.

Lemma wp_lstore x b w held v dk tr g s (Q : unit → lstate D → Prop) : logged held v dk tr g s → held !! x = Some b →
  (∀ s', stored x w held v dk tr g s' → Q tt s') → wp (zoom bL (bstore b w)) Q s.
Proof.
  intros (a & R & T & V & K & Tr) Hx HQ. destruct (tx_held _ _ _ _ T x b Hx) as [Hh E].
  eapply (wp_bstore c d R); [exact E|]. intros s' R'. apply HQ. exists a. by split_and!.
Qed.
End view.

Lemma find_block_in l x : (∀ y, y ∈ l → 0 <= y < 2 ^ 31) → x ∈ l → l !! find_block l x = Some x.
Proof.
  induction l as [|y l IH]; intros Hl Hx; [by apply elem_of_nil in Hx|]. simpl.
  rewrite u32_small by (apply Hl; set_solver). destruct (Z.eqb_spec y x) as [->|Hne]; [done|].
  simpl. apply IH; [|set_solver]. intros z Hz. apply Hl. set_solver.
Qed.

Lemma find_block_out l x : (∀ y, y ∈ l → 0 <= y < 2 ^ 31) → x ∉ l → find_block l x = length l.
Proof.
  induction l as [|y l IH]; intros Hl Hx; [done|]. simpl.
  rewrite u32_small by (apply Hl; set_solver). rewrite (proj2 (Z.eqb_neq y x)) by set_solver.
  f_equal. apply IH; [|set_solver]. intros z Hz. apply Hl. set_solver.
Qed.

Section add.
Context {d : Z} {g : log} (W : log_wf d g) {x : Z}.

Lemma blocks_add : x ∉ blocks g → log_room g → blocks (add_block x g) = blocks g ++ [x].
Proof.
  intros Hx (H1 & H2 & H3). unfold add_block. rewrite decide_False by done. unfold blocks. simpl.
  pose proof (lw_n _ _ W) as Hn. pose proof (lw_len _ _ W) as Hl.
  replace (Z.to_nat (lg_n g + 1)) with (S (Z.to_nat (lg_n g))) by lia.
  assert (Z.to_nat (lg_n g) < length (lg_block g))%nat as Hlt by (rewrite Hl; unfold LOGSIZE, MAXOPBLOCKS in *; lia).
  erewrite take_S_r; [|by apply list_lookup_insert_eq]. f_equal. by apply take_insert_ge.
Qed.

Lemma elem_blocks_add y : log_room g → y ∈ blocks (add_block x g) ↔ y = x ∨ y ∈ blocks g.
Proof.
  intros Hr. destruct (decide (x ∈ blocks g)) as [Hx|Hx].
  - unfold add_block. rewrite decide_True by done. split; [by right|]. by intros [-> |?].
  - rewrite blocks_add by done. set_solver.
Qed.

Lemma add_block_home y : home (add_block x g) y ↔ home g y.
Proof. unfold add_block, home. by case_decide. Qed.

Lemma add_block_wf : home g x → log_room g → log_wf d (add_block x g).
Proof.
  intros Hh Hr. destruct (decide (x ∈ blocks g)) as [Hx|Hx].
  { unfold add_block. by rewrite decide_True. }
  pose proof (elem_blocks W) as Hel. pose proof (blocks_home W) as Hbh.
  unfold add_block. rewrite decide_False by done. destruct Hr as (H1 & H2 & H3).
  destruct W as [W1 W2 W3 W4 W5 W6 W7]. split; simpl; try done; try lia; [by rewrite length_insert|].
  intros i Hi. destruct (decide (i = Z.to_nat (lg_n g))) as [->|Hne].
  - rewrite list_lookup_total_insert_eq; [done|]. rewrite W6. unfold LOGSIZE, MAXOPBLOCKS in *. lia.
  - rewrite list_lookup_total_insert_ne by done. apply W7. lia.
Qed.
End add.

Section logwrite.
Context {D : Type} `{DiskSpec D} {c : ctx} {d : Z} (Ho : hart_ok (c_hart c)) (Hl : LkLog ∉ h_held (c_hart c)).

(** The transaction after [x] was stored and logged. *)
Lemma txn_logged held a a' g x b w : txn d held a g → held !! x = Some b → log_room g →
  (∀ y, ac_view a' y = bupd (ac_view a) x w y) → (∀ y, ac_disk a' y = ac_disk a y) →
  (∀ y, y ≠ x → ac_ref a' !! y = ac_ref a !! y) → ac_ref a' !! x = Some (b, 2, true) →
  txn d held a' (add_block x g).
Proof.
  intros [T1 T2 T3 T4 T5 T6 T7 T8] Hx Hr Hv Hd Href Hrx. destruct (T3 x b Hx) as [Hh _].
  pose proof (λ y, elem_blocks_add T1 (x := x) y Hr) as Hel.
  assert (lg_start (add_block x g) = lg_start g) as Es by (unfold add_block; by case_decide).
  split.
  - by apply add_block_wf.
  - destruct (decide (x ∈ blocks g)) as [Hb|Hb]; [unfold add_block; by rewrite decide_True|].
    rewrite (blocks_add T1) by done. apply NoDup_app. split_and!; [done|set_solver|apply NoDup_singleton].
  - intros y b' Hy. destruct (T3 y b' Hy) as [Hyh Hyr]. split; [by apply add_block_home|].
    destruct (decide (y = x)) as [->|Hne].
    + rewrite Hrx. rewrite decide_True by (apply Hel; by left). congruence.
    + rewrite Href, Hyr by done. f_equal. f_equal. f_equal. apply decide_ext. rewrite Hel. naive_solver.
  - intros y Hy Hin%Hel. assert (y ≠ x) as Hne by congruence. rewrite Href by done. apply T4; naive_solver.
  - intros y Hy Hin. rewrite Hel in Hin. rewrite Href by naive_solver. apply T5; naive_solver.
  - intros y Hy. rewrite Hel in Hy. rewrite Hv, Hd. unfold bupd. rewrite decide_False by naive_solver. apply T6. naive_solver.
  - by rewrite Es, Hd.
  - by rewrite Es, Hd.
Qed.

Lemma wp_log_write x b w held v dk tr g (s : lstate D) (Q : unit → lstate D → Prop) :
  stored c d x w held v dk tr g s → held !! x = Some b → log_room g →
  (∀ s', logged c d held (bupd v x w) dk tr (add_block x g) s' → Q tt s') → wp (log_write b) Q s.
Proof.
  intros (a & R & T & V & K & Tr) Hx Hr HQ. pose proof Hr as (H1 & H2 & H3).
  pose proof (tx_wf _ _ _ _ T) as W. destruct (tx_held _ _ _ _ T x b Hx) as [Hh Eb].
  assert (∀ y, y ∈ blocks g → 0 <= y < 2 ^ 31) as Hrng by (intros y Hy; by apply (blocks_home W)).
  unfold log_write. wp_step. eapply (wp_loglock Ho Hl); [exact R|]. intros s1 R1.
  wp_step. eapply wp_getlog; [exact R1|]. simpl (id g).
  rewrite (proj2 (Z.leb_gt _ _) H1), (proj2 (Z.leb_gt (lg_size g - 1) (lg_n g))) by lia. simpl (orb _ _). cbv iota.
  rewrite (proj2 (Z.ltb_ge _ _)) by lia. wp_step.
  apply wp_zoom. simpl. unfold getb. apply wp_gets.
  assert (b_blockno (bc_buf (ls_b s1) !!! b) = x) as Ex.
  { destruct R1 as ([l Rb] & _). by destruct (br_ref _ _ _ _ Rb x b _ true Eb) as (_ & ? & _). }
  rewrite Ex. replace (LState (ls_b s1) (ls_log s1)) with s1 by (by destruct s1). fold (blocks g).
  wp_step. eapply wp_updlog; [exact R1|]. intros s2 R2. wp_step.
  rewrite i32_id in R2 by (destruct Hh; lia).
  destruct (decide (x ∈ blocks g)) as [Hb|Hb].
  - pose proof (find_block_in _ _ Hrng Hb) as Hf. pose proof (lookup_lt_Some _ _ _ Hf) as Hlt.
    rewrite (blocks_length W) in Hlt. rewrite (proj2 (Z.eqb_neq _ _)) by lia. cbn [when]. wp_step.
    rewrite list_insert_id in R2 by (by apply lookup_take_Some in Hf as [Hf _]).
    replace (set_blocks (lg_block g) g) with g in R2 by (by destruct g).
    eapply (wp_logunlock Ho Hl); [exact R2|]. intros s3 R3. apply HQ.
    assert (add_block x g = g) as Eg by (unfold add_block; by rewrite decide_True).
    rewrite <-Eg in R3. exists (set_view x w a). split; [exact R3|]. split_and!; try done.
    + by eapply (txn_logged held a).
    + intros y. simpl. unfold bupd. by case_decide.
  - rewrite find_block_out, (blocks_length W) in * by done. rewrite Z2Nat.id, Z.eqb_refl by apply W. cbn [when].
    wp_step. eapply (wp_bpin _ _ R2 (x := x)); [exact Eb|lia|].
    intros s3 R3. eapply wp_updlog; [exact R3|]. intros s4 R4.
    eapply (wp_logunlock Ho Hl); [exact R4|]. intros s5 R5. apply HQ.
    assert (add_block x g = set_n (lg_n g + 1) (set_blocks (<[Z.to_nat (lg_n g) := x]> (lg_block g)) g)) as Eg
      by (unfold add_block; by rewrite decide_False).
    rewrite Eg. eexists. split; [exact R5|]. rewrite <-Eg. split_and!; try done.
    + eapply (txn_logged held a); try done; simpl; intros; refs.
    + intros y. simpl. unfold bupd. by case_decide.
Qed.
End logwrite.

(** ** The start and the end of an operation *)

Lemma txn_counts d held a g o k : txn d held a g → txn d held a (set_committing k (set_outstanding o g)).
Proof. intros [[] ? ? ? ? ? ? ?]. split; try done. Qed.

Lemma commit_writes_ext g v v' : (∀ y, v y = v' y) → commit_writes g v = commit_writes g v'.
Proof.
  intros E. unfold commit_writes, log_writes, home_writes. rewrite E.
  assert (∀ (f : nat → Z) n, (λ k, (f k, v (lg_block g !!! k))) <$> seq 0 n = (λ k, (f k, v' (lg_block g !!! k))) <$> seq 0 n) as Ef.
  { intros f n. apply list_fmap_ext. intros i k _. by rewrite E. }
  by rewrite !Ef.
Qed.

(** After the commit the log is empty and nothing is in use. *)
Lemma txn_committed d a a' g : txn d ∅ a g → trans_ok d a g → wrote (commit_writes g (ac_view a)) a a' →
  unpinned g (Z.to_nat (lg_n g)) (ac_ref a) (ac_ref a') → (∀ y, ac_ref a' !! y = None → ac_view a' y = ac_disk a' y) →
  txn d ∅ a' (set_n 0 g) ∧ (∀ y, home g y → ac_view a' y = ac_view a y ∧ ac_disk a' y = ac_view a y).
Proof.
  intros T O Wr (U1 & U2 & U3) Hcl. pose proof (tx_wf _ _ _ _ T) as W. pose proof (lw_n _ _ W) as Hn.
  assert (∀ y, ac_ref a' !! y = None) as Hnone.
  { intros y. destruct (decide (y ∈ blocks g)) as [Hb|Hb].
    - apply (elem_blocks W) in Hb as (k & Hk & ->). by apply U2.
    - rewrite U3; [by apply (tx_none _ _ _ _ T)|]. intros i Hi ->. apply Hb, (elem_blocks W). eauto. }
  assert (∀ y, y ∉ (home_writes g (ac_view a) (Z.to_nat (lg_n g))).*1 → y ∉ blocks g) as Hk.
  { intros y Hy (k & Hlt & ->)%(elem_blocks W). apply Hy, home_writes_keys. eauto. }
  assert (length (ac_disk a' (lg_start g)) = Z.to_nat BSIZE ∧ head_n (ac_disk a' (lg_start g)) = 0 ∧
    (∀ y, home g y → ac_view a' y = ac_view a y ∧ ac_disk a' y = ac_view a y)) as (L & E & Hh).
  { destruct (decide (0 < lg_n g)) as [Hp|Hz].
    - destruct (commit_head d a g O Hp (ac_disk a)) as [E L]. rewrite (wr_disk _ _ _ Wr). split_and!; try done.
      intros y Hy. rewrite (wr_disk _ _ _ Wr), (wr_view _ _ _ Wr).
      split; (eapply commit_home; [done|done| |done]); intros z _ Hz; [done|].
      symmetry. by apply (tx_clean _ _ _ _ T), Hk.
    - rewrite (wr_disk _ _ _ Wr). unfold commit_writes in Wr |- *. rewrite (proj2 (Z.ltb_ge _ _)) in Wr |- * by lia.
      simpl. split_and!; [apply (tx_len _ _ _ _ T)|apply (tx_empty _ _ _ _ T)|].
      intros y _. rewrite (wr_disk _ _ _ Wr), (wr_view _ _ _ Wr). simpl. split; [done|].
      symmetry. apply (tx_clean _ _ _ _ T). intros (k & Hlt & _)%(elem_blocks W). lia. }
  split; [|done]. split; try done.
  - by apply log_wf_clear.
  - apply NoDup_nil_2.
  - intros y Hy Hb. by apply elem_of_nil in Hb.
  - intros y _. by apply Hcl.
Qed.

Section ops.
Context {D : Type} `{DiskSpec D} {c : ctx} {d : Z} (Ho : hart_ok (c_hart c)) (Hl : LkLog ∉ h_held (c_hart c)).

Lemma begin_op_run held v dk tr g (s : lstate D) (Q : unit → lstate D → Prop) : logged c d held v dk tr g s →
  lg_committing g = 0 → lg_n g + (lg_outstanding g + 1) * MAXOPBLOCKS <= LOGSIZE →
  (∀ s', logged c d held v dk tr (set_outstanding (lg_outstanding g + 1) g) s' → Q tt s') → wp begin_op Q s.
Proof.
  intros (a & R & T & V & K & Tr) Hc Hn HQ. unfold begin_op. wp_step. eapply (wp_loglock Ho Hl); [exact R|].
  intros s1 R1. wp_step. eapply wp_getlog; [exact R1|]. simpl (id g). rewrite Hc.
  change (truth 0) with false. cbv iota.
  rewrite (proj2 (Z.ltb_ge _ _)) by lia. wp_step. eapply wp_updlog; [exact R1|]. intros s2 R2.
  eapply (wp_logunlock Ho Hl); [exact R2|]. intros s3 R3. apply HQ. exists a. split_and!; try done.
  apply (txn_counts _ _ _ _ (lg_outstanding g + 1) (lg_committing g)) in T. by destruct g.
Qed.

Lemma end_op_commits v dk tr g (s : lstate D) (Q : unit → lstate D → Prop) : logged c d ∅ v dk tr g s →
  lg_committing g = 0 → lg_outstanding g = 1 → (Z.to_nat (lg_n g) < NBUF)%nat →
  (∀ s' v' dk', logged c d ∅ v' dk' (reverse (commit_writes g v) ++ tr) (set_n 0 (set_outstanding 0 g)) s' →
     (∀ y, home g y → v' y = v y ∧ dk' y = v y) → Q tt s') → wp end_op Q s.
Proof.
  intros (a & R & T & V & K & Tr) Hc Hout Hn HQ. unfold end_op. wp_step. eapply (wp_loglock Ho Hl); [exact R|].
  intros s1 R1. wp_step. eapply wp_updlog; [exact R1|]. intros s2 R2. wp_step. eapply wp_getlog; [exact R2|].
  simpl (id _). cbn [set_outstanding lg_committing lg_outstanding]. rewrite Hc, Hout. change (truth 0) with false.
  change (1 - 1 =? 0) with true. cbv iota. wp_step. wp_step. eapply wp_updlog; [exact R2|]. intros s3 R3. wp_step.
  wp_step. eapply (wp_logunlock Ho Hl); [exact R3|]. intros s4 R4. cbn [when]. wp_step. rewrite Hout in R4.
  set (g1 := set_committing 1 _) in R4. assert (txn d ∅ a g1) as T1 by (by apply txn_counts).
  assert (trans_ok d a g1) as O by (by apply txn_trans).
  eapply wp_mono; [by apply (commit_run c d a g1)|]. intros _ s5 (a' & R5 & Wr & U).
  destruct (txn_committed _ _ _ _ T1 O Wr U) as [T2 Hh]; [intros y; exact (lrep_clean c d a' _ s5 y R5)|].
  wp_step. eapply (wp_loglock Ho Hl); [exact R5|]. intros s6 R6. wp_step. eapply wp_updlog; [exact R6|].
  intros s7 R7. wp_step. eapply wp_logwake; [exact R7|]. intros s8 R8. eapply (wp_logunlock Ho Hl); [exact R8|].
  intros s9 R9. apply (HQ _ (ac_view a') (ac_disk a')).
  - assert (set_committing 0 (set_n 0 g1) = set_n 0 (set_outstanding 0 g)) as Eg.
    { unfold g1. destruct g. simpl in *. by subst. }
    rewrite <-Eg. exists a'. split_and!; try done.
    + by apply (txn_counts _ _ _ _ 0 0) in T2.
    + rewrite (wr_trace _ _ _ Wr), Tr. by rewrite <-(commit_writes_ext g _ _ V).
  - intros y Hy. rewrite <-!V. by apply Hh.
Qed.
End ops.

(** ** Properties of the log *)

(** The machine after a crash with disk [dk]: a fresh cache, the log's place
    known from the superblock, the rest of [struct log] arbitrary. *)
Definition rebooted {D} `{DiskSpec D} (d : Z) (g : log) (dk : Z → block) (c : ctx) (g' : log) (s : lstate D) : Prop :=
  ∃ a, lrep c d a g' s ∧ ac_ref a = ∅ ∧ (∀ y, ac_disk a y = dk y) ∧
    region d g' ∧ lg_start g' = lg_start g ∧ lg_size g' = lg_size g.

(** Recovery returned with disk contents [goal] outside the log and an empty log. *)
Definition restored {D} `{DiskSpec D} (d : Z) (g : log) (goal : Z → block) (c : ctx) (s : lstate D) : Prop :=
  ∃ a g', lrep c d a g' s ∧ lg_n g' = 0 ∧ head_n (ac_disk a (lg_start g)) = 0 ∧
    ∀ y, home g y → ac_disk a y = goal y ∧ ac_view a y = goal y.

Section theorems.
Context {D : Type} `{DiskSpec D} {c : ctx} {d : Z}.

Lemma recover_writes_ext g dk dk' : (∀ y, dk y = dk' y) → recover_writes g dk = recover_writes g dk'.
Proof. intros E. unfold recover_writes. rewrite E. apply list_fmap_ext. intros i k _. by rewrite E. Qed.

Lemma recover_restores g dk goal c' g' (s : lstate D) : recovers g dk goal → rebooted d g dk c' g' s → 0 < lg_size g →
  wp recover_from_log (λ _ s', restored d g goal c' s') s.
Proof.
  intros [Hh Hr] (a & R & Hempty & Hd & Hg & Es & Ez) Hsz.
  assert (∀ y, home g' y ↔ home g y) as Eh by (intros y; unfold home; by rewrite Es, Ez).
  assert (recover_writes g' (ac_disk a) = recover_writes g dk) as Ew.
  { rewrite (recover_writes_ext _ _ dk) by done. unfold recover_writes, logno. by rewrite Es. }
  assert (∀ y, ac_view a y = dk y) as Hv.
  { intros y. rewrite <-Hd. apply (lrep_clean c' d a g' s); [done|]. by rewrite Hempty. }
  eapply wp_mono; [apply (recover_run c' d a g'); try done|].
  { rewrite Hd, Es. destruct Hh as (H1 & H2 & H3 & H4). split; [done|]. split; [done|]. split; [by rewrite Ez|].
    intros i Hi. apply Eh. by apply H4. }
  intros _ s' (a' & g2 & h & R' & _ & Wr & H1 & H2 & H3 & _). rewrite Ew in Wr.
  exists a', g2. split_and!; try done.
  - rewrite (wr_disk _ _ _ Wr), apply_writes_app. simpl. unfold bupd. by rewrite decide_True.
  - intros y Hy. assert (y ≠ lg_start g') as Hne by (destruct Hy as [_ Hy]; lia).
    rewrite (wr_disk _ _ _ Wr), (wr_view _ _ _ Wr), !apply_writes_app. simpl. unfold bupd.
    rewrite !decide_False, <-(Hr y Hy) by done. split; apply apply_writes_ext; by rewrite ?Hd, ?Hv.
Qed.

(** C1: A crash during [commit] loses nothing and tears nothing.  [commit] runs
    to its end and issues a list of block writes; if the machine stops after
    any number of them and is started again, [recover_from_log] returns, and
    the blocks outside the log are all as they were before the transaction or
    all as the transaction left them: old up to the write of the header, new
    from it on. *)
Theorem commit_crash_safe a g (s : lstate D) : lrep c d a g s → trans_ok d a g → 0 < lg_n g →
  wp commit (λ _ s', ∃ a' ws, lrep c d a' (set_n 0 g) s' ∧ ac_trace a' = reverse ws ++ ac_trace a ∧
    (∀ y, home g y → ac_disk a' y = ac_view a y) ∧
    ∀ k c' g' (s0 : lstate D), rebooted d g (apply_writes (take k ws) (ac_disk a)) c' g' s0 →
      wp recover_from_log (λ _ s1, restored d g
        (if (k <=? Z.to_nat (lg_n g))%nat then ac_disk a else ac_view a) c' s1) s0) s.
Proof.
  intros R O Hp. eapply wp_mono; [by apply (commit_run c d a g)|]. intros _ s' (a' & R' & Wr & _).
  exists a', (commit_writes g (ac_view a)). split_and!; try done; [apply Wr|..].
  - intros y Hy. rewrite (wr_disk _ _ _ Wr). apply (commit_home d a g O Hp); [|done].
    intros z _. by apply (unlogged_same d).
  - intros k c' g' s0 Hb. eapply (recover_restores g _ _ c' g'); [by apply (crash_at d a g O Hp)|done|].
    pose proof (lw_fits _ _ (to_wf _ _ _ O)). lia.
Qed.

(** One logged block write, as every operation of the file system does it. *)
Definition log_block (x : Z) (w : block) : M (lstate D) unit :=
  b <- zoom bL (bread d x) ;; zoom bL (bstore b w) ;;; log_write b ;;; zoom bL (brelse b).

Lemma log_block_run x w v dk tr g (s : lstate D) (Q : unit → lstate D → Prop) :
  hart_ok (c_hart c) → LkLog ∉ h_held (c_hart c) →
  logged c d ∅ v dk tr g s → home g x → log_room g →
  (∀ s', logged c d ∅ (bupd v x w) dk tr (add_block x g) s' → Q tt s') → wp (log_block x w) Q s.
Proof.
  intros Ho Hl L Hx Hr HQ. unfold log_block. wp_step. eapply wp_lread; [exact L|done|done| |].
  { rewrite map_size_empty. destruct Hr as (? & _). unfold LOGSIZE, MAXOPBLOCKS, NBUF in *. lia. }
  intros b s1 L1. wp_step. eapply (wp_lstore _ _ x); [exact L1|by simplify_map_eq|]. intros s2 L2.
  wp_step. eapply (wp_log_write Ho Hl x); [exact L2|by simplify_map_eq|done|]. intros s3 L3.
  eapply (wp_lrelse _ _ x); [exact L3|by simplify_map_eq|]. intros s4 L4. apply HQ.
  by rewrite delete_insert_id in L4.
Qed.

Lemma add_block_counts x g : lg_n (add_block x g) <= lg_n g + 1 ∧ lg_size (add_block x g) = lg_size g ∧
  lg_start (add_block x g) = lg_start g ∧ lg_outstanding (add_block x g) = lg_outstanding g ∧
  lg_committing (add_block x g) = lg_committing g.
Proof. unfold add_block. case_decide; simpl; split_and!; lia || done. Qed.

(** The log after a sequence of logged writes in a transaction that started empty. *)
Record grown_log (g g' : log) (keys : list Z) : Prop := {
  gl_n : lg_n g' <= Z.of_nat (length keys);
  gl_blocks : ∀ y, y ∈ blocks g' ↔ y ∈ keys;
  gl_size : lg_size g' = lg_size g;
  gl_start : lg_start g' = lg_start g;
  gl_out : lg_outstanding g' = lg_outstanding g;
  gl_com : lg_committing g' = lg_committing g;
}.

Lemma log_blocks_run ws v dk tr g (s : lstate D) : hart_ok (c_hart c) → LkLog ∉ h_held (c_hart c) →
  logged c d ∅ v dk tr g s → lg_n g = 0 → 1 <= lg_outstanding g → MAXOPBLOCKS < lg_size g →
  Forall (λ w, home g w.1) ws → Z.of_nat (length ws) <= MAXOPBLOCKS →
  wp (for_all ws (λ w, log_block w.1 w.2))
    (λ _ s', ∃ g', logged c d ∅ (apply_writes ws v) dk tr g' s' ∧ grown_log g g' ws.*1) s.
Proof.
  intros Ho Hl L Hn Hout Hsz Hws Hlen.
  apply (wp_for_all ws _ (λ pre s', ∃ g', logged c d ∅ (apply_writes pre v) dk tr g' s' ∧ grown_log g g' pre.*1)).
  { exists g. split; [done|]. split; try done; [lia|]. intros y. unfold blocks. by rewrite Hn. }
  intros pre [x w] suf s1 E (g1 & L1 & [G1 G2 G3 G4 G5 G6]).
  assert (length pre < length ws)%nat as Hlt by (rewrite E, length_app; simpl; lia).
  rewrite length_fmap in G1. assert (log_room g1) as Hr.
  { unfold log_room. rewrite G3, G5. unfold LOGSIZE, MAXOPBLOCKS in *. lia. }
  assert (home g1 x) as Hx.
  { rewrite Forall_forall in Hws. unfold home. rewrite G3, G4. apply (Hws (x, w)). rewrite E. set_solver. }
  eapply log_block_run; [done|done|exact L1|done|done|]. simpl. intros s2 L2. exists (add_block x g1). split.
  { eapply logged_ext; [|exact L2]. intros y. by rewrite apply_writes_app. }
  destruct L1 as (a & _ & T & _). destruct (add_block_counts x g1) as (A1 & A2 & A3 & A4 & A5).
  split; try congruence.
  - rewrite fmap_app, length_app, length_fmap. simpl. lia.
  - intros y. rewrite (elem_blocks_add (tx_wf _ _ _ _ T)) by done. rewrite G2, fmap_app. set_solver.
Qed.

Lemma commit_writes_length g v : 0 <= lg_n g →
  length (commit_writes g v) = (if (0 <? lg_n g)%Z then 2 * Z.to_nat (lg_n g) + 2 else 0)%nat.
Proof.
  intros Hn. unfold commit_writes. destruct (0 <? lg_n g); [|done].
  rewrite !length_app, log_writes_length, home_writes_length. simpl. lia.
Qed.

(** C4: An operation of the file system is durable when [end_op] returns.  With
    no other operation running, [begin_op], up to [MAXOPBLOCKS] logged block
    writes and [end_op] run to completion; then the disk has every write (the
    last one of each block), every reader sees them, the log is empty, and the
    disk got two writes per distinct block and two headers: repeated writes of
    a block are absorbed. *)
Theorem transaction_durable ws v dk tr g (s : lstate D) : hart_ok (c_hart c) → LkLog ∉ h_held (c_hart c) →
  logged c d ∅ v dk tr g s → lg_n g = 0 → lg_outstanding g = 0 → lg_committing g = 0 → MAXOPBLOCKS < lg_size g →
  ws ≠ [] → Forall (λ w, home g w.1) ws → Z.of_nat (length ws) <= MAXOPBLOCKS →
  wp (begin_op ;;; for_all ws (λ w, log_block w.1 w.2) ;;; end_op)
    (λ _ s', ∃ v' dk' g' tr', logged c d ∅ v' dk' (tr' ++ tr) g' s' ∧ lg_n g' = 0 ∧ lg_outstanding g' = 0 ∧
       length tr' = (2 * size (list_to_set ws.*1 : gset Z) + 2)%nat ∧
       ∀ y, home g y → dk' y = apply_writes ws dk y ∧ v' y = apply_writes ws v y) s.
Proof.
  intros Ho Hl L Hn Hout Hcom Hsz Hne Hws Hlen. wp_step.
  eapply (begin_op_run Ho Hl); [exact L|done|rewrite Hn, Hout; unfold LOGSIZE; lia|]. intros s1 L1. wp_step.
  eapply wp_mono; [apply (log_blocks_run ws v dk tr _ s1 Ho Hl L1); try done; simpl; lia|].
  intros _ s2 (g2 & L2 & [G1 G2 G3 G4 G5 G6]). rewrite length_fmap in G1.
  assert (∃ a, txn d ∅ a g2) as [a2 T2] by (destruct L2 as (a & _ & T & _); eauto).
  pose proof (tx_wf _ _ _ _ T2) as W2. pose proof (lw_n _ _ W2) as Hn2.
  assert (Z.to_nat (lg_n g2) = size (list_to_set ws.*1 : gset Z)) as Ec.
  { rewrite <-(blocks_length W2), <-(size_list_to_set (C := gset Z) (blocks g2)) by apply T2.
    f_equal. apply set_eq. intros y. rewrite !elem_of_list_to_set. apply G2. }
  assert (0 < lg_n g2) as Hp.
  { destruct ws as [|[x w] ws]; [done|]. assert (x ∈ blocks g2) as Hx by (apply G2; simpl; set_solver).
    apply (elem_blocks W2) in Hx as (k & Hk & _). lia. }
  eapply (end_op_commits Ho Hl); [exact L2|simpl in *; congruence|simpl in *; lia|unfold MAXOPBLOCKS, NBUF in *; lia|].
  intros s3 v' dk' L3 Hv. eexists v', dk', _, _. split; [exact L3|]. split_and!; try done.
  - rewrite length_reverse, commit_writes_length by lia. rewrite (proj2 (Z.ltb_lt _ _) Hp). lia.
  - intros y Hy. destruct (Hv y) as [-> ->]; [unfold home in *; by rewrite G3, G4|]. split; [|done].
    apply apply_writes_ext. destruct L as (a & _ & T & V & K & _). rewrite <-V, <-K. apply (tx_clean _ _ _ _ T).
    unfold blocks. rewrite Hn. apply not_elem_of_nil.
Qed.

(** [begin_op] lets an operation in exactly when no commit is running and
    every admitted operation can still log [MAXOPBLOCKS] blocks within
    [LOGSIZE]; otherwise the process sleeps on the log, and nothing changed. *)
Lemma begin_op_admission held v dk tr g (s : lstate D) : hart_ok (c_hart c) → LkLog ∉ h_held (c_hart c) →
  logged c d held v dk tr g s →
  if (lg_committing g =? 0) && (lg_n g + (lg_outstanding g + 1) * MAXOPBLOCKS <=? LOGSIZE)
  then wp begin_op (λ _ s', logged c d held v dk tr (set_outstanding (lg_outstanding g + 1) g) s') s
  else ∃ s', begin_op s = (Blocked ChLog, s') ∧ ls_log s' = g ∧ bc_buf (ls_b s') = bc_buf (ls_b s) ∧
         bc_disk (ls_b s') = bc_disk (ls_b s) ∧ c_hart (bc_ctx (ls_b s')) = c_hart c.
Proof.
  intros Ho Hl L. destruct (_ && _) eqn:E.
  - apply andb_true_iff in E as [E1%Z.eqb_eq E2%Z.leb_le]. by eapply (begin_op_run Ho Hl).
  - destruct L as (a & ([l R] & (C1 & C2 & C3) & Eg) & _). unfold begin_op.
    rewrite <-C1 in Ho, Hl. erewrite bind_Ret; [|apply (zoom_run ctx_l), (lock_run _ _ Ho Hl)].
    assert (∀ t : lstate D, ls_log t = g → bc_ctx (ls_b t) = set_chart (taken LkLog (c_hart (bc_ctx (ls_b s)))) (bc_ctx (ls_b s)) →
      zoom ctx_l (sleep (A := unit) ChLog LkLog) t =
      (Blocked ChLog, LState (BState (bc_ctx (ls_b s)) (bc_buf (ls_b t)) (bc_disk (ls_b t))) g)) as Hs.
    { intros t Et Ec. unfold zoom, sleep, bind, Prelude.block. simpl. rewrite Ec.
      rewrite (unlock_run _ (c_hart (bc_ctx (ls_b s)))) by done. simpl. by rewrite set_chart_id, Et. }
    unfold bind at 1, getlog, gets, id. simpl (ls_log _). rewrite Eg. unfold truth.
    destruct (lg_committing g =? 0); simpl in E; simpl (negb _); cbv iota.
    + apply Z.leb_gt in E. rewrite (proj2 (Z.ltb_lt _ _)) by lia. rewrite Hs by done. eexists. by split_and!.
    + rewrite Hs by done. eexists. by split_and!.
Qed.

(** [log_write] gives up one block short of the log's size, whatever it is
    asked to write: with [log.size - 1] blocks logged it panics even for a block
    the transaction already has.  [begin_op] admits operations up to [LOGSIZE]
    blocks, so with [log.size = LOGSIZE] an admitted operation can end here. *)
Lemma log_write_full a g b (s : lstate D) : hart_ok (c_hart c) → LkLog ∉ h_held (c_hart c) →
  lrep c d a g s → lg_n g = lg_size g - 1 → ∃ s', log_write b s = (Panic "too big a transaction", s').
Proof.
  intros Ho Hl ([l R] & (C1 & C2 & C3) & Eg) Hn. unfold log_write. rewrite <-C1 in Ho, Hl.
  erewrite bind_Ret; [|apply (zoom_run ctx_l), (lock_run _ _ Ho Hl)].
  unfold bind at 1, getlog, gets, id. simpl (ls_log _). rewrite Eg.
  rewrite (proj2 (Z.leb_le (lg_size g - 1) (lg_n g))), orb_true_r by lia. unfold panic. eauto.
Qed.
End theorems.

(** ** Examples: a log of 30 blocks at block 2 of an empty disk *)
Module LogDemo.

Definition g0 : log := Log 2 30 0 0 1 0 (replicate 30 0).
Definition s0 : lstate RamDisk.t := LState RamDisk.ready g0.
Definition c0 : ctx := bc_ctx RamDisk.boot.

Lemma c0_ok : hart_ok (c_hart c0) ∧ LkLog ∉ h_held (c_hart c0).
Proof. split; [apply RamDisk.boot_quiet|apply not_elem_of_nil]. Qed.

Lemma g0_wf : log_wf 1 g0.
Proof. split; try done; simpl; unfold LOGSIZE, MAXOPBLOCKS; lia. Qed.

Lemma s0_rep : lrep c0 1 RamDisk.ready_cache g0 s0.
Proof.
  split; [exists (reverse (seq 0 NBUF)); exact RamDisk.ready_rep|]. split; [|reflexivity].
  split_and!; vm_compute; reflexivity.
Qed.

Lemma s0_txn : txn 1 ∅ RamDisk.ready_cache g0.
Proof.
  split; [exact g0_wf|apply NoDup_nil_2|..].
  - intros y b Hy. by rewrite lookup_empty in Hy.
  - intros y _ Hy. exfalso. exact (proj1 (elem_of_nil y) Hy).
  - intros y _ _. reflexivity.
  - intros y _. reflexivity.
  - vm_compute. reflexivity.
  - vm_compute. reflexivity.
Qed.

Lemma s0_logged : logged c0 1 ∅ (λ _, zero_block) (λ _, zero_block) [] g0 s0.
Proof. exists RamDisk.ready_cache. split_and!; try reflexivity; [exact s0_rep|exact s0_txn]. Qed.

Definition ws : list (Z * block) := [(50, zero_block); (51, zero_block); (50, <[O := 7]> zero_block)].

Lemma ws_home : Forall (λ w, home g0 w.1) ws.
Proof. repeat constructor; simpl; lia. Qed.

(** A transaction that has logged block 50. *)
Lemma open_logged : ∃ a g s, lrep (D := RamDisk.t) c0 1 a g s ∧ trans_ok 1 a g ∧ 0 < lg_n g.
Proof.
  destruct c0_ok as [Ho Hl].
  assert (wp (begin_op ;;; log_block (d := 1) 50 zero_block)
    (λ _ s, ∃ v dk tr g, logged c0 1 ∅ v dk tr g s ∧ lg_n g = 1) s0) as Hw.
  { wp_step. eapply (begin_op_run Ho Hl); [exact s0_logged|reflexivity|vm_compute; discriminate|]. intros s1 L1.
    eapply (log_block_run 50); [done|done|exact L1|split; simpl; lia|unfold log_room; simpl; unfold LOGSIZE, MAXOPBLOCKS; lia|].
    intros s2 L2. do 4 eexists. split; [exact L2|]. vm_compute. reflexivity. }
  apply wp_reaches in Hw. destruct Hw as (s & v & dk & tr & g & (a & R & T & _) & En).
  exists a, g, s. split_and!; [exact R| |lia]. apply txn_trans; [exact T|]. rewrite En. unfold NBUF. lia.
Qed.
End LogDemo.

Lemma commit_crash_safe_witness : ∃ a g (s : lstate RamDisk.t), trans_ok 1 a g ∧ 0 < lg_n g ∧
  wp commit (λ _ s', ∃ a' ws, lrep LogDemo.c0 1 a' (set_n 0 g) s' ∧ ac_trace a' = reverse ws ++ ac_trace a) s.
Proof.
  destruct LogDemo.open_logged as (a & g & s & R & O & Hn). exists a, g, s. split_and!; [exact O|exact Hn|].
  eapply wp_mono; [apply (commit_crash_safe a g s R O Hn)|].
  intros u s' (a' & ws & R' & T & _). exists a', ws. split; [exact R'|exact T].
Defined.

Lemma transaction_durable_witness :
  wp (begin_op ;;; for_all LogDemo.ws (λ w, log_block (d := 1) w.1 w.2) ;;; end_op)
    (λ _ s', ∃ v' dk' g' tr', logged LogDemo.c0 1 ∅ v' dk' (tr' ++ []) g' s' ∧ length tr' = 6%nat) LogDemo.s0.
Proof.
  destruct LogDemo.c0_ok as [Ho Hl].
  eapply wp_mono; [apply (transaction_durable LogDemo.ws _ _ [] LogDemo.g0 LogDemo.s0 Ho Hl LogDemo.s0_logged)|].
  1-4: vm_compute; reflexivity. - discriminate. - exact LogDemo.ws_home. - vm_compute. discriminate.
  - intros u s' (v' & dk' & g' & tr' & L & _ & _ & E & _). exists v', dk', g', tr'. split; [exact L|].
    rewrite E. vm_compute. reflexivity.
Defined.
