(* ===== verification/UserMem.v ===== *)
(** * Access to user memory

    What the drivers and the file system use of the memory of the current
    process: [copyin] and [copyout] on its page table, and [memmove] on kernel
    addresses, chosen by [either_copyin] and [either_copyout] of
    [kernel/proc.c].  The clients are verified against [UserMemSpec]. *)
From S2P Require Import Prelude.

Class UserMem (U : Type) := {
  copyin_u : Z → Z → M U (Z * list Z);     (** [copyin(p->pagetable, dst, src, len)] *)
  copyout_u : Z → list Z → M U Z;          (** [copyout(p->pagetable, dst, src, len)] *)
  copyin_k : Z → Z → M U (list Z);         (** [memmove(dst, src, len)] *)
  copyout_k : Z → list Z → M U unit;       (** [memmove(dst, src, len)] *)
  u_byte : U → Z → option Z;               (** a byte of the process, if it is mapped *)
  u_wf : U → Prop;
}.

Section either.
Context {U : Type} `{UserMem U}.

Definition either_copyout (user_dst : bool) (dst : Z) (src : list Z) : M U Z :=
  if user_dst then copyout_u dst src else copyout_k dst src ;;; ret 0.

Definition either_copyin (user_src : bool) (src len : Z) : M U (Z * list Z) :=
  if user_src then copyin_u src len else bs <- copyin_k src len ;; ret (0, bs).
End either.

(** The bytes at [a] with [bs] written over them. *)
Definition over {A} (f : Z → A) (mk : Z → A) (a : Z) (bs : list Z) : Z → A := λ x,
  if decide (a <= x) then match bs !! Z.to_nat (x - a) with Some b => mk b | None => f x end else f x.

Class UserMemSpec (U : Type) `{UserMem U} := {
  copyin_ok : ∀ u a n, u_wf u → 0 <= a → 0 <= n → a + n <= 2 ^ 64 →
    (∃ bs, copyin_u a n u = (Ret (0, bs), u) ∧ Some <$> bs = (λ i, u_byte u (a + Z.of_nat i)) <$> seq 0 (Z.to_nat n)) ∨
    (∃ bs i, copyin_u a n u = (Ret (-1, bs), u) ∧ 0 <= i < n ∧ u_byte u (a + i) = None);
  copyout_ok : ∀ u a bs, u_wf u → 0 <= a → a + Z.of_nat (length bs) <= 2 ^ 64 →
    (∃ u', copyout_u a bs u = (Ret 0, u') ∧ u_wf u' ∧ (∀ x, u_byte u' x = over (u_byte u) Some a bs x)) ∨
    (∃ u' i, copyout_u a bs u = (Ret (-1), u') ∧ u_wf u' ∧ 0 <= i < Z.of_nat (length bs) ∧ u_byte u (a + i) = None ∧
       (∀ x, ¬ (a <= x < a + Z.of_nat (length bs)) → u_byte u' x = u_byte u x) ∧
       (∀ x, u_byte u x = None → u_byte u' x = None));
}.

Section byte.
Context {U : Type} `{UserMemSpec U}.

(** One byte in, one byte out: what the loops over characters use. *)
Lemma copyin_byte u a : u_wf u → 0 <= a < 2 ^ 64 →
  (∃ b, copyin_u a 1 u = (Ret (0, [b]), u) ∧ u_byte u a = Some b) ∨
  (∃ bs, copyin_u a 1 u = (Ret (-1, bs), u) ∧ u_byte u a = None).
Proof.
  intros Hu Ha. destruct (copyin_ok u a 1 Hu) as [(bs & E & Hb)|(bs & i & E & Hi & Hn)]; [lia..| |].
  - left. simpl in Hb. rewrite Z.add_0_r in Hb. destruct bs as [|b [|b' bs]]; try done.
    simpl in Hb. injection Hb as Hb. eauto.
  - right. replace (a + i) with a in Hn by lia. eauto.
Qed.

Lemma copyout_byte u a b : u_wf u → 0 <= a < 2 ^ 64 →
  (∃ u', copyout_u a [b] u = (Ret 0, u') ∧ u_wf u' ∧ ∀ x, u_byte u' x = if decide (x = a) then Some b else u_byte u x) ∨
  (∃ u', copyout_u a [b] u = (Ret (-1), u') ∧ u_wf u' ∧ u_byte u a = None ∧ ∀ x, u_byte u' x = u_byte u x).
Proof.
  intros Hu Ha. destruct (copyout_ok u a [b] Hu) as [(u' & E & Hw & Hb)|(u' & i & E & Hw & Hi & Hn & Hout & Hnone)]; [simpl; lia..| |].
  - left. exists u'. split_and!; try done. intros x. rewrite Hb. unfold over.
    destruct (decide (x = a)) as [->|Hne].
    + rewrite decide_True by lia. by rewrite Z.sub_diag.
    + case_decide; [|done]. rewrite lookup_ge_None_2; [done|]. simpl. lia.
  - right. exists u'. simpl in Hi, Hout. replace (a + i) with a in Hn by lia. split_and!; try done.
    intros x. destruct (decide (x = a)) as [->|Hne]; [by rewrite Hn, Hnone|]. apply Hout. lia.
Qed.
End byte.

(** ** A flat user memory, as an example *)
Module FlatUser.

(** Addresses below [limit] are mapped. *)
Record t := Flat { um : Z → Z; km : Z → Z; limit : Z }.

Definition mapped (u : t) (a n : Z) : bool := (n <=? 0) || (0 <=? a) && (a + n <=? limit u).
Definition put (f : Z → Z) (a : Z) (bs : list Z) : Z → Z := over f id a bs.

#[global] Instance mem : UserMem t := {|
  copyin_u a n := λ u, if mapped u a n then (Ret (0, (λ i, um u (a + Z.of_nat i)) <$> seq 0 (Z.to_nat n)), u) else (Ret (-1, []), u);
  copyout_u a bs := λ u, if mapped u a (Z.of_nat (length bs)) then (Ret 0, Flat (put (um u) a bs) (km u) (limit u)) else (Ret (-1), u);
  copyin_k a n := λ u, (Ret ((λ i, km u (a + Z.of_nat i)) <$> seq 0 (Z.to_nat n)), u);
  copyout_k a bs := λ u, (Ret tt, Flat (um u) (put (km u) a bs) (limit u));
  u_byte u a := if (0 <=? a) && (a <? limit u) then Some (um u a) else None;
  u_wf u := 0 <= limit u;
|}.

Lemma mapped_true u a n i : mapped u a n = true → 0 <= i < n → u_byte u (a + i) = Some (um u (a + i)).
Proof.
  unfold mapped. intros Hm Hi. simpl. destruct (Z.leb_spec n 0); [lia|]. simpl in Hm.
  apply andb_true_iff in Hm as [H1%Z.leb_le H2%Z.leb_le].
  rewrite (proj2 (Z.leb_le 0 (a + i))), (proj2 (Z.ltb_lt (a + i) (limit u))) by lia. done.
Qed.

Lemma mapped_false u a n : mapped u a n = false → ∃ i, 0 <= i < n ∧ u_byte u (a + i) = None.
Proof.
  unfold mapped. simpl. destruct (Z.leb_spec n 0); [done|]. simpl. intros Hm.
  destruct (Z.leb_spec 0 a); simpl in Hm.
  - apply Z.leb_gt in Hm. exists (n - 1). split; [lia|]. rewrite (proj2 (Z.ltb_ge (a + (n - 1)) (limit u))) by lia.
    by rewrite andb_false_r.
  - exists 0. split; [lia|]. by rewrite (proj2 (Z.leb_gt 0 (a + 0))) by lia.
Qed.

#[global] Instance spec : UserMemSpec t.
Proof.
  split.
  - intros u a n _ _ Hn _. simpl. destruct (mapped u a n) eqn:E.
    + left. eexists. split; [done|]. rewrite <-list_fmap_compose. apply list_fmap_ext.
      intros i k [-> Hk]%lookup_seq. symmetry. exact (mapped_true u a n (Z.of_nat i) E ltac:(lia)).
    + right. destruct (mapped_false _ _ _ E) as (i & Hi & En). eauto.
  - intros u a bs Hu _ _. simpl. destruct (mapped u a (Z.of_nat (length bs))) eqn:E.
    + left. eexists. split; [done|]. split; [done|]. intros x. simpl. unfold put, over.
      case_decide as Hx; [|done]. destruct (bs !! Z.to_nat (x - a)) as [b|] eqn:Eb; [|done].
      pose proof (lookup_lt_Some _ _ _ Eb). pose proof (mapped_true u a _ (x - a) E) as Hm. simpl in Hm.
      replace (a + (x - a)) with x in Hm by lia. destruct (_ && _); [done|]. by specialize (Hm ltac:(lia)).
    + right. destruct (mapped_false _ _ _ E) as (i & Hi & En).
      exists u, i. do 4 (split; [done|]). done.
Qed.
End FlatUser.
