(* ===== verification/Ring.v ===== *)
(** * Ring buffers

    An array of [N] cells and two counters that only grow, modulo [2 ^ W]: the
    contents are the cells from the read counter to the write counter.  [N]
    divides [2 ^ W], so the counters may wrap.  Pipes and the console use
    32-bit counters, the UART 64-bit ones. *)
From S2P Require Import Prelude.

Class RingDims (N W : Z) : Prop := {
  ring_pos : 0 < N;
  ring_width : 0 <= W;
  ring_div : (N | 2 ^ W);
  ring_fits : N < 2 ^ W;
}.

#[local] Set Default Proof Using "All".

Section ring.
Context (N W : Z) {HD : RingDims N W}.
Let HN : 0 < N := ring_pos.
Let HW : 0 <= W := ring_width.
Let Hdiv : (N | 2 ^ W) := ring_div.
Let Hlt : N < 2 ^ W := ring_fits.

(** The cell of a counter value. *)
Definition cell (x : Z) : nat := Z.to_nat (x mod N).

Definition ring_len (r w : Z) : Z := (w - r) mod 2 ^ W.

Definition ring (buf : list Z) (r w : Z) : list Z :=
  (λ k, buf !!! cell (r + Z.of_nat k)) <$> seq 0 (Z.to_nat (ring_len r w)).

Lemma pow_pos : 0 < 2 ^ W.
Proof. by apply Z.pow_pos_nonneg. Qed.

Lemma cell_eq x y : x mod 2 ^ W = y mod 2 ^ W → cell x = cell y.
Proof.
  intros E. unfold cell. f_equal. rewrite <-(Z.mod_mod_divide x _ _ Hdiv), <-(Z.mod_mod_divide y _ _ Hdiv).
  by rewrite E.
Qed.

(** Counter arithmetic modulo [2 ^ W] does not change the cell. *)
Lemma cell_wrap x : cell (x mod 2 ^ W) = cell x.
Proof. apply cell_eq. rewrite Z.mod_mod; [done|]. pose proof pow_pos. lia. Qed.

Lemma cell_lt x : (cell x < Z.to_nat N)%nat.
Proof. unfold cell. pose proof (Z.mod_pos_bound x N HN). lia. Qed.

Lemma cell_inj x y : x <= y < x + N → cell x = cell y → x = y.
Proof.
  intros Hr E. unfold cell in E. pose proof (Z.mod_pos_bound x N HN). pose proof (Z.mod_pos_bound y N HN).
  assert (x mod N = y mod N) as Em by lia. pose proof (Z.div_mod x N). pose proof (Z.div_mod y N).
  assert (y / N = x / N) as Ed by nia. lia.
Qed.

Lemma ring_len_bound r w : 0 <= ring_len r w < 2 ^ W.
Proof. apply Z.mod_pos_bound, pow_pos. Qed.

Lemma cell_write r w : cell w = cell (r + ring_len r w).
Proof.
  apply cell_eq. unfold ring_len. pose proof pow_pos. rewrite Zplus_mod_idemp_r. f_equal. lia.
Qed.

Lemma length_ring buf r w : length (ring buf r w) = Z.to_nat (ring_len r w).
Proof. unfold ring. by rewrite length_fmap, length_seq. Qed.

Lemma ring_len_succ r w : ring_len r w < 2 ^ W - 1 → ring_len r ((w + 1) mod 2 ^ W) = ring_len r w + 1.
Proof.
  intros Hl. unfold ring_len in *. pose proof pow_pos. rewrite Zminus_mod_idemp_l.
  replace (w + 1 - r) with (w - r + 1) by lia. rewrite Zplus_mod.
  rewrite (Z.mod_small 1) by lia. apply Z.mod_small. pose proof (Z.mod_pos_bound (w - r) (2 ^ W)). lia.
Qed.

Lemma ring_len_read r w : 0 < ring_len r w → ring_len ((r + 1) mod 2 ^ W) w = ring_len r w - 1.
Proof.
  intros Hl. unfold ring_len in *. pose proof pow_pos. rewrite Zminus_mod_idemp_r.
  replace (w - (r + 1)) with (w - r - 1) by lia. rewrite Zminus_mod.
  rewrite (Z.mod_small 1) by lia. apply Z.mod_small. pose proof (Z.mod_pos_bound (w - r) (2 ^ W)). lia.
Qed.

Lemma ring_empty buf r w : 0 <= r < 2 ^ W → 0 <= w < 2 ^ W → r = w ↔ ring buf r w = [].
Proof.
  intros Hr Hw. pose proof pow_pos. split.
  - intros ->. unfold ring, ring_len. by rewrite Z.sub_diag, Z.mod_0_l by lia.
  - intros E. apply (f_equal length) in E. rewrite length_ring in E. simpl in E.
    pose proof (ring_len_bound r w). assert (ring_len r w = 0) as E0 by lia. unfold ring_len in E0.
    apply Z.mod_divide in E0 as [q Eq]; [|lia]. assert (q = 0) by nia. lia.
Qed.

(** Storing at the write counter. *)
Lemma ring_push buf r w c : length buf = Z.to_nat N → ring_len r w < N →
  ring (<[cell w := c]> buf) r ((w + 1) mod 2 ^ W) = ring buf r w ++ [c].
Proof.
  intros Hb Hl. unfold ring. rewrite ring_len_succ by lia. pose proof (ring_len_bound r w).
  replace (Z.to_nat (ring_len r w + 1)) with (S (Z.to_nat (ring_len r w))) by lia.
  rewrite seq_S, fmap_app. f_equal.
  - apply list_fmap_ext. intros i k [-> Hk]%lookup_seq. rewrite list_lookup_total_insert_ne; [done|].
    rewrite (cell_write r w). intros E. symmetry in E. apply cell_inj in E; lia.
  - simpl. f_equal. rewrite Z2Nat.id by lia. rewrite <-cell_write. apply list_lookup_total_insert_eq.
    rewrite Hb. apply cell_lt.
Qed.

(** Taking from the read counter. *)
Lemma ring_pop buf r w : 0 < ring_len r w →
  ring buf r w = buf !!! cell r :: ring buf ((r + 1) mod 2 ^ W) w.
Proof.
  intros Hl. unfold ring. rewrite ring_len_read by done.
  replace (Z.to_nat (ring_len r w)) with (S (Z.to_nat (ring_len r w - 1))) by lia. simpl. f_equal.
  - by rewrite Z.add_0_r.
  - rewrite <-fmap_S_seq, <-list_fmap_compose. apply list_fmap_ext. intros i k _. simpl. f_equal.
    apply cell_eq. rewrite Zplus_mod_idemp_l. f_equal. lia.
Qed.

(** Taking back from the write counter. *)
Lemma ring_last buf r w : 0 < ring_len r w →
  ring_len r ((w - 1) mod 2 ^ W) = ring_len r w - 1 ∧
  ring buf r w = ring buf r ((w - 1) mod 2 ^ W) ++ [buf !!! cell ((w - 1) mod 2 ^ W)].
Proof.
  intros Hl. pose proof (ring_len_bound r w).
  assert (ring_len r ((w - 1) mod 2 ^ W) = ring_len r w - 1) as E.
  { unfold ring_len in *. pose proof pow_pos. rewrite Zminus_mod_idemp_l.
    replace (w - 1 - r) with (w - r - 1) by lia. rewrite Zminus_mod.
    rewrite (Z.mod_small 1) by lia. apply Z.mod_small. lia. }
  split; [done|]. unfold ring. rewrite E.
  replace (Z.to_nat (ring_len r w)) with (S (Z.to_nat (ring_len r w - 1))) by lia.
  rewrite seq_S, fmap_app. simpl. rewrite cell_wrap. do 3 f_equal. rewrite Z2Nat.id by lia.
  apply cell_eq. unfold ring_len. rewrite Z.add_sub_assoc, Zminus_mod, Zplus_mod_idemp_r, <-Zminus_mod. f_equal. lia.
Qed.

Lemma ring_len_split r w e : ring_len r w + ring_len w e < 2 ^ W → ring_len r e = ring_len r w + ring_len w e.
Proof.
  intros Hl. pose proof (ring_len_bound r w). pose proof (ring_len_bound w e). pose proof pow_pos.
  unfold ring_len in *. rewrite <-(Z.mod_small ((w - r) mod 2 ^ W + (e - w) mod 2 ^ W) (2 ^ W)) by lia.
  rewrite <-Zplus_mod. f_equal. lia.
Qed.

(** The contents are those of two adjacent stretches. *)
Lemma ring_split buf r w e : ring_len r w + ring_len w e < 2 ^ W →
  ring buf r e = ring buf r w ++ ring buf w e.
Proof.
  intros Hl. pose proof (ring_len_bound r w). pose proof (ring_len_bound w e). pose proof pow_pos.
  unfold ring. rewrite (ring_len_split r w e), Z2Nat.inj_add, seq_app, fmap_app by lia. f_equal. simpl.
  rewrite <-(Nat.add_0_r (Z.to_nat (ring_len r w))) at 1. rewrite <-fmap_add_seq, <-list_fmap_compose.
  apply list_fmap_ext. intros i k _. simpl. f_equal. apply cell_eq.
  rewrite Nat2Z.inj_add, Z2Nat.id, Z.add_assoc by lia. rewrite Zplus_mod, (Zplus_mod w).
  f_equal. f_equal. unfold ring_len. rewrite Zplus_mod_idemp_r. f_equal. lia.
Qed.
End ring.

#[local] Unset Default Proof Using.

(** Changing a cell outside of the contents. *)
Lemma ring_insert_other N W buf r w i c : 0 < N → (∀ k, 0 <= k < ring_len W r w → cell N (r + k) ≠ i) →
  ring N W (<[i := c]> buf) r w = ring N W buf r w.
Proof.
  intros HN Hi. unfold ring. apply list_fmap_ext. intros j k [-> Hk]%lookup_seq.
  apply list_lookup_total_insert_ne, not_eq_sym, Hi. lia.
Qed.
