(* ===== verification/Pipe.v ===== *)
(** * Pipes: [kernel/pipe.c]

    A pipe is a ring of 512 bytes.  A writer that finds it full and a reader
    that finds it empty sleep: each call is a sequence of critical sections,
    and one of them, from taking the lock to giving it up, is one run of the
    model ([Slept] says where the call goes on).  The theorems describe each
    critical section and show that, however the sections of writers and readers
    interleave, the bytes come out in the order they went in. *)
From S2P Require Import Prelude Machine Spinlock Sleeplock UserMem Ring.

Definition PIPESIZE : Z := 512.

Record pipe := Pipe {
  p_data : list Z;
  p_nread : Z;
  p_nwrite : Z;
  p_readopen : bool;
  p_writeopen : bool;
}.

Definition set_pread n p := Pipe (p_data p) n (p_nwrite p) (p_readopen p) (p_writeopen p).
Definition set_pwrite d n p := Pipe d (p_nread p) n (p_readopen p) (p_writeopen p).
Definition set_popen r w p := Pipe (p_data p) (p_nread p) (p_nwrite p) r w.

Record pst (U : Type) := PSt { ps_ctx : ctx; ps_pipe : pipe; ps_user : U }.
Arguments PSt {U} _ _ _.
Arguments ps_ctx {U} _.
Arguments ps_pipe {U} _.
Arguments ps_user {U} _.

Section pipe.
Context {U : Type} `{UserMem U}.

Definition ctx_p : lens (pst U) ctx := Lens ps_ctx (λ c s, PSt c (ps_pipe s) (ps_user s)).
Definition userL : lens (pst U) U := Lens ps_user (λ u s, PSt (ps_ctx s) (ps_pipe s) u).
Definition updp (f : pipe → pipe) : M (pst U) unit := modify (λ s, PSt (ps_ctx s) (f (ps_pipe s)) (ps_user s)).

(** [wakeup(&pi->nread); release(&pi->lock); return i] *)
Definition pipewrite_end (pi i : Z) : M (pst U) presult :=
  zoom ctx_p (wakeup (ChPipeRead pi)) ;;;
  zoom ctx_p (unlock (LkPipe pi)) ;;;
  ret (Done i).

Fixpoint pipewrite_loop (pi : Z) (fuel : nat) (addr n i : Z) : M (pst U) presult :=
  match fuel with
  | O => pipewrite_end pi i
  | S f =>
      if i <? n then
        p <- gets ps_pipe ;;
        killed <- gets (λ s, c_killed (ps_ctx s)) ;;
        if negb (p_readopen p) || killed then
          zoom ctx_p (unlock (LkPipe pi)) ;;; ret (Done (-1))
        else if p_nwrite p =? u32 (p_nread p + PIPESIZE) then
          zoom ctx_p (wakeup (ChPipeRead pi)) ;;;
          zoom ctx_p (unlock (LkPipe pi)) ;;;
          ret (Slept (ChPipeWrite pi) i)
        else
          let* '(r, ch) := zoom userL (copyin_u (u64 (addr + i)) 1) in
          if r =? -1 then pipewrite_end pi i
          else
            updp (λ p, set_pwrite (<[cell PIPESIZE (p_nwrite p) := ch !!! O]> (p_data p)) (u32 (p_nwrite p + 1)) p) ;;;
            pipewrite_loop pi f addr n (i + 1)
      else pipewrite_end pi i
  end.

(** One critical section of [pipewrite(pi, addr, n)], with [i] bytes written before it. *)
Definition pipewrite (pi addr n i : Z) : M (pst U) presult :=
  zoom ctx_p (lock (LkPipe pi)) ;;; pipewrite_loop pi (S (Z.to_nat (n - i))) addr n i.

(** [wakeup(&pi->nwrite); release(&pi->lock); return i] *)
Definition piperead_end (pi i : Z) : M (pst U) presult :=
  zoom ctx_p (wakeup (ChPipeWrite pi)) ;;;
  zoom ctx_p (unlock (LkPipe pi)) ;;;
  ret (Done i).

Fixpoint piperead_loop (pi : Z) (fuel : nat) (addr n i : Z) : M (pst U) presult :=
  match fuel with
  | O => piperead_end pi i
  | S f =>
      if i <? n then
        p <- gets ps_pipe ;;
        if p_nread p =? p_nwrite p then piperead_end pi i
        else
          let ch := p_data p !!! cell PIPESIZE (p_nread p) in
          updp (λ p, set_pread (u32 (p_nread p + 1)) p) ;;;
          r <- zoom userL (copyout_u (u64 (addr + i)) [ch]) ;;
          if r =? -1 then piperead_end pi i else piperead_loop pi f addr n (i + 1)
      else piperead_end pi i
  end.

(** One critical section of [piperead(pi, addr, n)]. *)
Definition piperead (pi addr n : Z) : M (pst U) presult :=
  zoom ctx_p (lock (LkPipe pi)) ;;;
  p <- gets ps_pipe ;;
  if (p_nread p =? p_nwrite p) && p_writeopen p then
    killed <- gets (λ s, c_killed (ps_ctx s)) ;;
    if killed : bool then zoom ctx_p (unlock (LkPipe pi)) ;;; ret (Done (-1))
    else zoom ctx_p (unlock (LkPipe pi)) ;;; ret (Slept (ChPipeRead pi) 0)
  else piperead_loop pi (S (Z.to_nat n)) addr n 0.
End pipe.

(** ** Contents *)

Definition contents (p : pipe) : list Z := ring PIPESIZE 32 (p_data p) (p_nread p) (p_nwrite p).

Record pipe_ok (p : pipe) : Prop := {
  po_data : length (p_data p) = Z.to_nat PIPESIZE;
  po_nread : 0 <= p_nread p < 2 ^ 32;
  po_nwrite : 0 <= p_nwrite p < 2 ^ 32;
  po_len : ring_len 32 (p_nread p) (p_nwrite p) <= PIPESIZE;
}.

#[global] Instance pipe_dims : RingDims PIPESIZE 32.
Proof. unfold PIPESIZE. split; try lia. by exists (2 ^ 23). Qed.

(** The test for a full pipe. *)
Lemma full_test p : pipe_ok p →
  (p_nwrite p =? u32 (p_nread p + PIPESIZE)) = (ring_len 32 (p_nread p) (p_nwrite p) =? PIPESIZE).
Proof.
  intros [_ Hr Hw Hl]. unfold ring_len, u32, PIPESIZE in *. set (r := p_nread p) in *. set (w := p_nwrite p) in *.
  destruct (Z.eqb_spec ((w - r) mod 2 ^ 32) 512) as [E|E].
  - apply Z.eqb_eq. zdiv.
  - apply Z.eqb_neq. intros E'. apply E. zdiv.
Qed.

Lemma empty_test p : pipe_ok p → (p_nread p =? p_nwrite p) = bool_decide (contents p = []).
Proof.
  intros [_ Hr Hw Hl].
  pose proof (ring_empty PIPESIZE 32 (p_data p) (p_nread p) (p_nwrite p) Hr Hw) as Hi.
  unfold contents. destruct (Z.eqb_spec (p_nread p) (p_nwrite p)) as [E|E].
  - rewrite bool_decide_true by tauto. done.
  - rewrite bool_decide_false by tauto. done.
Qed.

Lemma length_contents p : length (contents p) = Z.to_nat (ring_len 32 (p_nread p) (p_nwrite p)).
Proof. apply (length_ring PIPESIZE 32). Qed.

Lemma put_byte p b : pipe_ok p → (length (contents p) < Z.to_nat PIPESIZE)%nat →
  let p' := set_pwrite (<[cell PIPESIZE (p_nwrite p) := b]> (p_data p)) (u32 (p_nwrite p + 1)) p in
  pipe_ok p' ∧ contents p' = contents p ++ [b].
Proof.
  intros [Hd Hr Hw Hl] Hlt p'. rewrite length_contents in Hlt.
  pose proof (ring_len_bound PIPESIZE 32 (p_nread p) (p_nwrite p)) as Hb.
  split; [split; simpl|].
  - by rewrite length_insert.
  - done.
  - by apply Z.mod_pos_bound.
  - unfold u32. rewrite (ring_len_succ PIPESIZE 32) by (unfold PIPESIZE in *; lia || done). lia.
  - apply (ring_push PIPESIZE 32); [done|simpl; lia].
Qed.

Lemma take_byte p b l : pipe_ok p → contents p = b :: l →
  let p' := set_pread (u32 (p_nread p + 1)) p in
  pipe_ok p' ∧ p_data p !!! cell PIPESIZE (p_nread p) = b ∧ contents p' = l.
Proof.
  intros [Hd Hr Hw Hl] E p'.
  pose proof (ring_len_bound PIPESIZE 32 (p_nread p) (p_nwrite p)) as Hb.
  assert (0 < ring_len 32 (p_nread p) (p_nwrite p)) as Hp.
  { apply (f_equal length) in E. rewrite length_contents in E. simpl in E. lia. }
  unfold contents in E. rewrite (ring_pop PIPESIZE 32) in E by (done || lia). injection E as E1 E2.
  split; [split; simpl|]; try done.
  - by apply Z.mod_pos_bound.
  - unfold u32. rewrite (ring_len_read PIPESIZE 32) by (done || lia). lia.
Qed.

(** ** Critical sections *)

Section sections.
Context {U : Type} `{UserMemSpec U} {pi : Z} {c : ctx} (Ho : hart_ok (c_hart c)) (Hl : LkPipe pi ∉ h_held (c_hart c)).

Definition inpipe : ctx := set_chart (taken (LkPipe pi) (c_hart c)) c.

(** The bytes the process has at [addr], [addr + 1], ... *)
Definition user_bytes (u : U) (addr : Z) (bs : list Z) : Prop :=
  ∀ k b, bs !! k = Some b → u_byte u (u64 (addr + Z.of_nat k)) = Some b.

Lemma unlock_pipe p (u : U) : zoom ctx_p (unlock (LkPipe pi)) (PSt inpipe p u) = (Ret tt, PSt c p u).
Proof.
  unfold zoom. simpl. rewrite (unlock_run _ (c_hart c)) by done. simpl. unfold inpipe. by rewrite set_chart_id.
Qed.

Lemma wake_unlock ch p (u : U) (r : presult) :
  (zoom ctx_p (wakeup ch) ;;; zoom ctx_p (unlock (LkPipe pi)) ;;; ret r) (PSt inpipe p u) = (Ret r, PSt (woke ch c) p u).
Proof.
  unfold bind, zoom, wakeup, modify, ret. simpl. by rewrite (unlock_run _ (c_hart c)).
Qed.

Lemma lock_pipe p (u : U) : zoom ctx_p (lock (LkPipe pi)) (PSt c p u) = (Ret tt, PSt inpipe p u).
Proof. unfold zoom. simpl. by rewrite lock_run. Qed.

(** What a critical section of [pipewrite] can end with. *)
Definition write_result (u : U) (addr n i : Z) (bs : list Z) (p p' : pipe) (res : presult) : Prop :=
  match res with
  | Done r => r = -1 ∧ bs = [] ∧ i < n ∧ (p_readopen p = false ∨ c_killed c = true) ∨
              r = i + Z.of_nat (length bs) ∧ (r = n ∨ u_byte u (u64 (addr + r)) = None)
  | Slept ch r => ch = ChPipeWrite pi ∧ r = i + Z.of_nat (length bs) ∧ r < n ∧
                  length (contents p') = Z.to_nat PIPESIZE
  end.

(** [p'] is [p] with [bs] appended. *)
Record appended (bs : list Z) (p p' : pipe) : Prop := {
  ap_ok : pipe_ok p';
  ap_contents : contents p' = contents p ++ bs;
  ap_nread : p_nread p' = p_nread p;
  ap_open : p_readopen p' = p_readopen p ∧ p_writeopen p' = p_writeopen p;
}.

Lemma pipewrite_loop_run fuel addr n i p u : pipe_ok p → u_wf u → 0 <= i <= n → (Z.to_nat (n - i) < fuel)%nat →
  ∃ res bs p' c', pipewrite_loop pi fuel addr n i (PSt inpipe p u) = (Ret res, PSt c' p' u) ∧
    appended bs p p' ∧ user_bytes u (addr + i) bs ∧ write_result u addr n i bs p p' res ∧ c_hart c' = c_hart c.
Proof.
  intros Hp Hu Hi Hf. revert p i Hp Hi Hf. induction fuel as [|f IH]; intros p i Hp Hi Hf; [lia|].
  assert (appended [] p p) as Hnil by (split; rewrite ?app_nil_r; done).
  assert (user_bytes u (addr + i) []) as Hub by done.
  cbn [pipewrite_loop]. destruct (Z.ltb_spec i n) as [Hin|Hin].
  2:{ eexists (Done i), [], p, _. split; [apply wake_unlock|]. split_and!; try done. right. simpl. lia. }
  unfold bind at 1, gets at 1. unfold bind at 1, gets at 1. cbn [ps_pipe ps_ctx].
  change (c_killed inpipe) with (c_killed c).
  destruct (negb (p_readopen p) || c_killed c) eqn:E.
  { eexists (Done (-1)), [], p, c. unfold bind. rewrite unlock_pipe. split; [done|]. split_and!; try done.
    left. split_and!; try done. apply orb_true_iff in E as [E|E]; [left; by apply negb_true_iff|by right]. }
  rewrite full_test by done. destruct (Z.eqb_spec (ring_len 32 (p_nread p) (p_nwrite p)) PIPESIZE) as [Efull|Efull].
  { eexists (Slept _ i), [], p, _. split; [apply wake_unlock|]. split_and!; try done. simpl. split_and!; try lia; [done|].
    rewrite length_contents. by rewrite Efull. }
  assert (length (contents p) < Z.to_nat PIPESIZE)%nat as Hroom.
  { rewrite length_contents. pose proof (po_len _ Hp). pose proof (ring_len_bound PIPESIZE 32 (p_nread p) (p_nwrite p)). lia. }
  destruct (copyin_byte u (u64 (addr + i)) Hu (u64_range _)) as [(b & Ec & Eb)|(bs & Ec & Eb)];
    (erewrite bind_Ret; [|apply (zoom_run userL); exact Ec]); cbn [userL lset ps_ctx ps_pipe fst snd].
  - change (0 =? -1) with false. cbv iota. destruct (put_byte p b Hp Hroom) as [Hok Hc].
    unfold bind at 1, updp, modify. cbn [ps_ctx ps_pipe ps_user]. change ([b] !!! 0%nat) with b.
    set (p1 := set_pwrite _ _ p) in *.
    destruct (IH p1 (i + 1) Hok) as (res & bs & p' & c' & Er & [A1 A2 A3 A4] & Hbs & Hres & Hh); [lia|lia|].
    exists res, (b :: bs), p', c'. split; [exact Er|]. split_and!; try done.
    + split; try done. rewrite A2, Hc. by rewrite <-app_assoc.
    + intros [|k] b' Hk; simpl in Hk; [injection Hk as <-; by rewrite Z.add_0_r|].
      replace (addr + i + Z.of_nat (S k)) with (addr + (i + 1) + Z.of_nat k) by lia. by apply Hbs.
    + unfold write_result in *. simpl (length (b :: bs)). destruct res as [ch r|r].
      * destruct Hres as (-> & -> & ? & ?). split_and!; try done. lia.
      * destruct Hres as [(-> & -> & _ & [Hr|Hk])|(-> & Hend)].
        -- simpl in Hr. by rewrite Hr in E.
        -- by rewrite Hk, orb_true_r in E.
        -- right. split; [lia|done].
  - change (-1 =? -1) with true. cbv iota. eexists (Done i), [], p, _. split; [apply wake_unlock|].
    split_and!; try done. right. simpl. split; [lia|]. by right.
Qed.

Lemma pipewrite_run addr n i p u : pipe_ok p → u_wf u → 0 <= i <= n →
  ∃ res bs p' c', pipewrite pi addr n i (PSt c p u) = (Ret res, PSt c' p' u) ∧
    appended bs p p' ∧ user_bytes u (addr + i) bs ∧ write_result u addr n i bs p p' res ∧ c_hart c' = c_hart c.
Proof.
  intros Hp Hu Hi. unfold pipewrite. rewrite (bind_Ret _ _ _ _ _ (lock_pipe p u)).
  apply pipewrite_loop_run; [done|done|done|lia].
Qed.

(** What a reader got: [bs] in its memory at [addr], and at most one byte more
    taken from the pipe, for which it had no memory. *)
Record delivered (addr : Z) (bs lost : list Z) (p p' : pipe) (u u' : U) : Prop := {
  dl_ok : pipe_ok p';
  dl_wf : u_wf u';
  dl_contents : contents p = bs ++ lost ++ contents p';
  dl_open : p_readopen p' = p_readopen p ∧ p_writeopen p' = p_writeopen p;
  dl_bytes : user_bytes u' addr bs;
  dl_other : ∀ x, (∀ k, (k < length bs)%nat → x ≠ u64 (addr + Z.of_nat k)) → u_byte u' x = u_byte u x;
  dl_lost : lost = [] ∨ length lost = 1%nat ∧ u_byte u (u64 (addr + Z.of_nat (length bs))) = None;
}.

Lemma u64_ne a k k' : 0 <= k < 2 ^ 31 → 0 <= k' < 2 ^ 31 → k ≠ k' → u64 (a + k) ≠ u64 (a + k').
Proof. unfold u64. intros. zdiv. Qed.

Lemma piperead_loop_run fuel addr n i p u : pipe_ok p → u_wf u → 0 <= i → n < 2 ^ 31 → (Z.to_nat (n - i) < fuel)%nat →
  ∃ bs lost p' u' c', piperead_loop pi fuel addr n i (PSt inpipe p u) = (Ret (Done (i + Z.of_nat (length bs))), PSt c' p' u') ∧
    delivered (addr + i) bs lost p p' u u' ∧ c_hart c' = c_hart c ∧
    (lost = [] → n <= i + Z.of_nat (length bs) ∨ contents p' = []) ∧ (i <= n → i + Z.of_nat (length bs) <= n) ∧
    (lost ≠ [] → i + Z.of_nat (length bs) < n).
Proof.
  intros Hp Hu Hi Hn Hf. revert p u i Hp Hu Hi Hf. induction fuel as [|f IH]; intros p u i Hp Hu Hi Hf; [lia|].
  assert (delivered (addr + i) [] [] p p u u) as Hnil by (split; try done; by left).
  assert (piperead_end pi i (PSt inpipe p u) = (Ret (Done (i + Z.of_nat (length (A := Z) []))), PSt (woke (ChPipeWrite pi) c) p u)) as Hend.
  { simpl. rewrite Z.add_0_r. apply wake_unlock. }
  cbn [piperead_loop]. destruct (Z.ltb_spec i n) as [Hin|Hin].
  2:{ eexists [], [], p, u, _. split; [exact Hend|]. split_and!; try done; intros; simpl; lia || done. }
  unfold bind at 1, gets at 1. cbn [ps_pipe]. rewrite empty_test by done.
  case_bool_decide as Ee.
  { eexists [], [], p, u, _. split; [exact Hend|]. split_and!; try done; intros; simpl; [by right|lia]. }
  destruct (contents p) as [|b l] eqn:Ec; [done|]. destruct (take_byte p b l Hp Ec) as (Hok & -> & Hc).
  unfold bind at 1, updp, modify. cbn [ps_ctx ps_pipe ps_user]. set (p1 := set_pread _ p) in *.
  destruct (copyout_byte u (u64 (addr + i)) b Hu (u64_range _)) as [(u1 & Eu & Hu1 & Hb)|(u1 & Eu & Hu1 & Hn1 & Hsame)];
    (erewrite bind_Ret; [|apply (zoom_run userL); exact Eu]); cbn [userL lset ps_ctx ps_pipe].
  - change (0 =? -1) with false. cbv iota.
    destruct (IH p1 u1 (i + 1) Hok Hu1) as (bs & lost & p' & u' & c' & Er & [D1 D2 D3 D4 D5 D6 D7] & Hh & Hstop & Hle & Hlo'); [lia|lia|].
    assert (Z.of_nat (length bs) < 2 ^ 31) as Hlen by lia.
    eexists (b :: bs), lost, p', u', c'. split; [rewrite Er; do 3 f_equal; simpl; lia|]. split_and!; try done.
    + split; try done.
      * by rewrite Ec, <-Hc, D3.
      * intros [|k] b' Hk; simpl in Hk.
        -- injection Hk as <-. rewrite Z.add_0_r, D6, Hb, decide_True; [done..|].
           intros k Hk. replace (addr + (i + 1) + Z.of_nat k) with (addr + i + (1 + Z.of_nat k)) by lia.
           rewrite <-(Z.add_0_r (addr + i)) at 1. apply u64_ne; lia.
        -- replace (addr + i + Z.of_nat (S k)) with (addr + (i + 1) + Z.of_nat k) by lia. by apply D5.
      * intros x Hx. rewrite D6, Hb, decide_False; [done|..].
        -- specialize (Hx O). rewrite Z.add_0_r in Hx. apply Hx. simpl. lia.
        -- intros k Hk. replace (addr + (i + 1) + Z.of_nat k) with (addr + i + Z.of_nat (S k)) by lia.
           apply Hx. simpl. lia.
      * destruct D7 as [D7|[D7 D8]]; [by left|right]. split; [done|]. rewrite Hb in D8. case_decide; [done|].
        rewrite <-D8. f_equal. simpl. f_equal. lia.
    + intros Hlo. specialize (Hstop Hlo). simpl. destruct Hstop; [left; lia|by right].
    + intros _. simpl. lia.
    + intros Hlo. specialize (Hlo' Hlo). simpl. lia.
  - change (-1 =? -1) with true. cbv iota. eexists [], [b], p1, u1, _.
    split; [simpl; rewrite Z.add_0_r; apply wake_unlock|]. split_and!; try done; [|intros; simpl; lia..].
    split; try done; [by rewrite Ec, Hc|]. right. split; [done|]. simpl. by rewrite Z.add_0_r.
Qed.

Lemma piperead_run addr n p u : pipe_ok p → u_wf u → 0 <= n < 2 ^ 31 →
  if bool_decide (contents p = []) && p_writeopen p then
    piperead pi addr n (PSt c p u) =
      (Ret (if c_killed c then Done (-1) else Slept (ChPipeRead pi) 0), PSt c p u)
  else ∃ bs lost p' u' c', piperead pi addr n (PSt c p u) = (Ret (Done (Z.of_nat (length bs))), PSt c' p' u') ∧
    delivered addr bs lost p p' u u' ∧ c_hart c' = c_hart c ∧ Z.of_nat (length bs) <= n ∧
    (lost = [] → Z.of_nat (length bs) = n ∨ contents p' = []) ∧ (lost ≠ [] → Z.of_nat (length bs) < n).
Proof.
  intros Hp Hu Hn.
  assert (piperead pi addr n (PSt c p u) =
    if bool_decide (contents p = []) && p_writeopen p
    then (Ret (if c_killed c then Done (-1) else Slept (ChPipeRead pi) 0), PSt c p u)
    else piperead_loop pi (S (Z.to_nat n)) addr n 0 (PSt inpipe p u)) as ->.
  { unfold piperead. rewrite (bind_Ret _ _ _ _ _ (lock_pipe p u)).
    unfold bind at 1, gets at 1. cbn [ps_pipe]. rewrite empty_test by done. destruct (_ && _); [|done].
    unfold bind at 1, gets at 1. cbn [ps_ctx]. change (c_killed inpipe) with (c_killed c).
    destruct (c_killed c); unfold bind; by rewrite unlock_pipe. }
  destruct (_ && _); [done|].
  destruct (piperead_loop_run (S (Z.to_nat n)) addr n 0 p u) as (bs & lost & p' & u' & c' & E & D & Hh & Hs & Hle & Hlo); try done; try lia.
  rewrite Z.add_0_r in D. exists bs, lost, p', u', c'. split; [exact E|]. split; [done|]. split; [done|]. split; [lia|].
  split; [|intros Hne; specialize (Hlo Hne); lia]. intros Hl'. destruct (Hs Hl'); [left; lia|by right].
Qed.

(** One critical section of [piperead] sleeps exactly when the pipe is empty
    and a writer may come; otherwise it returns the oldest bytes of the pipe, as
    many as asked for or all there are (none at the end of the file), in order,
    at [addr] and nowhere else in the reader's memory. *)
Lemma piperead_takes addr n p u : pipe_ok p → u_wf u → 0 <= n < 2 ^ 31 → c_killed c = false →
  (∀ k, 0 <= k < n → is_Some (u_byte u (u64 (addr + k)))) →
  if bool_decide (contents p = []) && p_writeopen p then
    piperead pi addr n (PSt c p u) = (Ret (Slept (ChPipeRead pi) 0), PSt c p u)
  else ∃ p' u' c', let bs := take (Z.to_nat n) (contents p) in
    piperead pi addr n (PSt c p u) = (Ret (Done (Z.of_nat (length bs))), PSt c' p' u') ∧
    pipe_ok p' ∧ contents p' = drop (Z.to_nat n) (contents p) ∧ user_bytes u' addr bs ∧
    (∀ x, (∀ k, (k < length bs)%nat → x ≠ u64 (addr + Z.of_nat k)) → u_byte u' x = u_byte u x).
Proof.
  intros Hp Hu Hn Hk Hm. pose proof (piperead_run addr n p u Hp Hu Hn) as Hr.
  destruct (_ && _); [by rewrite Hk in Hr|].
  destruct Hr as (bs & lost & p' & u' & c' & E & [D1 D2 D3 D4 D5 D6 D7] & Hh & Hle & Hs & Hlo).
  assert (lost = []) as ->.
  { destruct D7 as [->|[D7 D8]]; [done|]. destruct (Hm (Z.of_nat (length bs))) as [b Hb]; [|congruence].
    assert (lost ≠ []) as Hne by (by intros ->). specialize (Hlo Hne). lia. }
  assert (take (Z.to_nat n) (contents p) = bs ∧ drop (Z.to_nat n) (contents p) = contents p') as [-> ->].
  { rewrite D3. simpl. destruct (Hs eq_refl) as [En| ->].
    - assert (Z.to_nat n = length bs) as -> by lia. by rewrite take_app_length, drop_app_length.
    - rewrite app_nil_r. split; [apply take_ge; lia|apply drop_ge; lia]. }
  exists p', u', c'. by split_and!.
Qed.
End sections.

(** ** Any interleaving of writers and readers *)

Section fifo.
Context {U : Type} `{UserMemSpec U} (pi : Z).

(** The pipe, the bytes the writers have put in and the bytes the readers have
    got.  A step is one critical section of some process with its own CPU
    state and memory, or the closing of an end. *)
Inductive pipe_step : pipe * list Z * list Z → pipe * list Z * list Z → Prop :=
| step_write c (u u' : U) addr n i res p p' c' bs sent got :
    hart_ok (c_hart c) → LkPipe pi ∉ h_held (c_hart c) → u_wf u → 0 <= i <= n →
    pipewrite pi addr n i (PSt c p u) = (Ret res, PSt c' p' u') →
    user_bytes u (addr + i) bs → Z.of_nat (length bs) = ring_len 32 (p_nwrite p) (p_nwrite p') →
    pipe_step (p, sent, got) (p', sent ++ bs, got)
| step_read c (u u' : U) addr n r p p' c' bs sent got :
    hart_ok (c_hart c) → LkPipe pi ∉ h_held (c_hart c) → u_wf u → 0 <= n < 2 ^ 31 →
    (∀ k, 0 <= k < n → is_Some (u_byte u (u64 (addr + k)))) →
    piperead pi addr n (PSt c p u) = (Ret (Done r), PSt c' p' u') → 0 <= r →
    user_bytes u' addr bs → Z.of_nat (length bs) = r →
    pipe_step (p, sent, got) (p', sent, got ++ bs)
| step_close r w p sent got : pipe_step (p, sent, got) (set_popen r w p, sent, got).

Lemma user_bytes_unique (u : U) a bs bs' : user_bytes u a bs → user_bytes u a bs' → length bs = length bs' → bs = bs'.
Proof.
  intros H1 H2 El. apply list_eq_same_length with (length bs); [done|done|].
  intros k x y _ Hx%H1 Hy%H2. congruence.
Qed.

Lemma appended_count bs p p' : pipe_ok p → appended bs p p' →
  ring_len 32 (p_nwrite p) (p_nwrite p') = Z.of_nat (length bs).
Proof.
  intros Hp [A1 A2 A3 A4]. apply (f_equal length) in A2. rewrite length_app, !length_contents, A3 in A2.
  pose proof (po_len _ Hp) as L1. pose proof (po_len _ A1) as L2. rewrite A3 in L2.
  pose proof (ring_len_bound PIPESIZE 32 (p_nread p) (p_nwrite p)). pose proof (ring_len_bound PIPESIZE 32 (p_nread p) (p_nwrite p')).
  unfold ring_len, PIPESIZE in *. zdiv.
Qed.

Lemma pipe_step_inv x y : pipe_step x y → pipe_ok x.1.1 ∧ x.1.2 = x.2 ++ contents x.1.1 →
  pipe_ok y.1.1 ∧ y.1.2 = y.2 ++ contents y.1.1.
Proof.
  intros Hs Hx. destruct Hs as [c u u' addr n i res p p' c' bs sent got Ho Hl Hu Hi E Hb Hlen
    |c u u' addr n r p p' c' bs sent got Ho Hl Hu Hn Hm E Hr Hb Hlen|r w p sent got]; simpl in *; destruct Hx as [Hp Hx].
  - destruct (pipewrite_run Ho Hl addr n i p u Hp Hu Hi) as (res' & bs' & p1 & c1 & E' & A & Hb' & _).
    rewrite E in E'. simplify_eq. pose proof (appended_count _ _ _ Hp A) as Hc.
    assert (bs = bs') as -> by (eapply user_bytes_unique; [done|done|lia]).
    split; [apply A|]. by rewrite (ap_contents _ _ _ A), app_assoc.
  - pose proof (piperead_run Ho Hl addr n p u Hp Hu Hn) as Hr'. destruct (_ && _).
    { rewrite E in Hr'. destruct (c_killed c); simplify_eq. lia. }
    destruct Hr' as (bs' & lost & p1 & u1 & c1 & E' & [D1 D2 D3 D4 D5 D6 D7] & _ & _ & _ & Hlo).
    rewrite E in E'. simplify_eq. assert (bs = bs') as -> by (eapply user_bytes_unique; [done|done|lia]).
    split; [done|]. rewrite D3. destruct D7 as [->|[D7 D8]]; [by rewrite <-app_assoc|].
    assert (lost ≠ []) as Hne by (by intros ->). specialize (Hlo Hne).
    destruct (Hm (Z.of_nat (length bs'))) as [b Hb']; [lia|]. congruence.
  - split; [|done]. by destruct Hp.
Qed.

End fifo.

(** ** Examples *)
Module PipeDemo.

Definition c0 : ctx := Ctx (Hart 0 true true []) 1 false [].
(** The counters are about to wrap around. *)
Definition p0 : pipe := Pipe (replicate 512 0) (2 ^ 32 - 1) (2 ^ 32 - 1) true true.
(** Byte [a] of the user is [a]. *)
Definition u0 : FlatUser.t := FlatUser.Flat (λ a, a) (λ _, 0) 4096.

Definition after_write : pst FlatUser.t := snd (pipewrite 7 100 3 0 (PSt c0 p0 u0)).
Definition after_read : pst FlatUser.t := snd (piperead 7 200 2 (PSt c0 (ps_pipe after_write) u0)).

Lemma pc_ok : hart_ok (c_hart c0) ∧ LkPipe 7 ∉ h_held (c_hart c0).
Proof. split; [|apply not_elem_of_nil]. split_and!; simpl; try lia; try done. constructor. Qed.

Lemma p0_ok : pipe_ok p0 ∧ contents p0 = [].
Proof. split; [|vm_compute; reflexivity]. split; vm_compute; split_and?; try done; reflexivity. Qed.

Lemma u0_mapped a n k : 0 <= a → a + n <= 4096 → 0 <= k < n → is_Some (u_byte u0 (u64 (a + k))).
Proof.
  intros Ha Hn Hk. rewrite u64_id by lia. simpl.
  rewrite (proj2 (Z.leb_le _ _)), (proj2 (Z.ltb_lt _ _)) by lia. eauto.
Qed.

Lemma demo_run : rtc (pipe_step (U := FlatUser.t) 7) (p0, [], []) (ps_pipe after_read, [100; 101; 102], [100; 101]).
Proof.
  destruct pc_ok as [Ho Hl]. eapply rtc_l; [|eapply rtc_once].
  - apply (step_write 7 c0 u0 u0 100 3 0 (Done 3) p0 (ps_pipe after_write) (ps_ctx after_write) [100; 101; 102] [] []);
      [exact Ho|exact Hl|simpl; lia|lia|vm_compute; reflexivity| |vm_compute; reflexivity].
    intros [|[|[|k]]] b Hb; simpl in Hb; simplify_eq; vm_compute; reflexivity.
  - apply (step_read 7 c0 u0 (ps_user after_read) 200 2 2 (ps_pipe after_write) (ps_pipe after_read) (ps_ctx after_read) [100; 101]);
      [exact Ho|exact Hl|simpl; lia|lia| |vm_compute; reflexivity|lia| |reflexivity].
    + intros k Hk. apply (u0_mapped 200 2); lia.
    + intros [|[|k]] b Hb; simpl in Hb; simplify_eq; vm_compute; reflexivity.
Qed.
End PipeDemo.

