(* ===== verification/Printf.v ===== *)
(** * Formatted output: [kernel/printf.c], [user/printf.c], and [atoi] of [user/ulib.c]

    The formatting functions, over any function that puts one character.  A
    format is the list of its bytes without the final NUL; the arguments come
    as a list of tagged values, and a conversion that finds no argument of its
    type (undefined in C) stops with the outcome [Panic "va_arg"]. *)
From S2P Require Import Prelude.
From Stdlib Require Import Ascii.

(** The bytes of a string literal. *)
Fixpoint bytes_of (s : string) : list Z :=
  match s with
  | EmptyString => []
  | String a s' => Z.of_N (N_of_ascii a) :: bytes_of s'
  end.

Definition digits_lower : list Z := bytes_of "0123456789abcdef".
Definition digits_upper : list Z := bytes_of "0123456789ABCDEF".

Inductive parg := AInt (x : Z) | APtr (x : Z) | AStr (s : option (list Z)).

(** [do { buf[i++] = digits[x % base]; } while((x /= base) != 0)]: [buf[0 .. i)]. *)
Fixpoint digit_loop (fuel : nat) (dig : list Z) (x base : Z) : list Z :=
  match fuel with
  | O => []
  | S f => dig !!! Z.to_nat (x mod base) :: (if x / base =? 0 then [] else digit_loop f dig (x / base) base)
  end.

(** The characters [printint] puts, in order; 32 rounds are enough for 32 bits. *)
Definition printint_chars (dig : list Z) (xx base : Z) (sign : bool) : list Z :=
  let neg := sign && (xx <? 0) in
  let x := u32 (if neg then - xx else xx) in
  reverse (digit_loop 32 dig x base ++ if neg then [45] else []).

(** [for (i = 0; i < 16; i++, x <<= 4) putc(digits[x >> 60])] *)
Fixpoint ptr_loop (k : nat) (dig : list Z) (x : Z) : list Z :=
  match k with
  | O => []
  | S k' => dig !!! Z.to_nat (Z.shiftr x 60) :: ptr_loop k' dig (u64 (Z.shiftl x 4))
  end.
Definition printptr_chars (dig : list Z) (x : Z) : list Z := bytes_of "0x" ++ ptr_loop 16 dig x.

Definition null_str : list Z := bytes_of "(null)".

Section putc.
Context {S : Type} (putc : Z → M S unit).

Definition puts (l : list Z) : M S unit := for_all l putc.

(** [va_arg] *)
Definition int_arg (args : list parg) : M S (Z * list parg) :=
  match args with AInt x :: l => ret (x, l) | _ => panic "va_arg" end.
Definition ptr_arg (args : list parg) : M S (Z * list parg) :=
  match args with APtr x :: l => ret (x, l) | _ => panic "va_arg" end.
Definition str_arg (args : list parg) : M S (list Z * list parg) :=
  match args with AStr s :: l => ret (default null_str s, l) | _ => panic "va_arg" end.

(** The loop of the kernel's [printf]. *)
Fixpoint kprintf_loop (fmt : list Z) (args : list parg) : M S unit :=
  match fmt with
  | [] => ret tt
  | c :: fmt =>
      if c =? 37 then
        match fmt with
        | [] => ret tt
        | c :: fmt =>
            if c =? 100 then
              let* '(x, args) := int_arg args in puts (printint_chars digits_lower x 10 true) ;;; kprintf_loop fmt args
            else if c =? 120 then
              let* '(x, args) := int_arg args in puts (printint_chars digits_lower x 16 true) ;;; kprintf_loop fmt args
            else if c =? 112 then
              let* '(x, args) := ptr_arg args in puts (printptr_chars digits_lower x) ;;; kprintf_loop fmt args
            else if c =? 115 then
              let* '(s, args) := str_arg args in puts s ;;; kprintf_loop fmt args
            else if c =? 37 then putc 37 ;;; kprintf_loop fmt args
            else putc 37 ;;; putc c ;;; kprintf_loop fmt args
        end
      else putc c ;;; kprintf_loop fmt args
  end.

(** The user library's [vprintf]: [pct] is [state == '%']. *)
Fixpoint vprintf (fmt : list Z) (pct : bool) (args : list parg) : M S unit :=
  match fmt with
  | [] => ret tt
  | c :: fmt =>
      if negb pct then
        if c =? 37 then vprintf fmt true args else putc c ;;; vprintf fmt false args
      else if c =? 100 then
        let* '(x, args) := int_arg args in puts (printint_chars digits_upper x 10 true) ;;; vprintf fmt false args
      else if c =? 108 then
        let* '(x, args) := ptr_arg args in puts (printint_chars digits_upper (i32 x) 10 false) ;;; vprintf fmt false args
      else if c =? 120 then
        let* '(x, args) := int_arg args in puts (printint_chars digits_upper x 16 false) ;;; vprintf fmt false args
      else if c =? 112 then
        let* '(x, args) := ptr_arg args in puts (printptr_chars digits_upper x) ;;; vprintf fmt false args
      else if c =? 115 then
        let* '(s, args) := str_arg args in puts s ;;; vprintf fmt false args
      else if c =? 99 then
        let* '(x, args) := int_arg args in putc (u8 x) ;;; vprintf fmt false args
      else if c =? 37 then putc c ;;; vprintf fmt false args
      else putc 37 ;;; putc c ;;; vprintf fmt false args
  end.
End putc.

(** The characters the kernel's [printf] puts, if the arguments fit the format. *)
Fixpoint kprintf_chars (fmt : list Z) (args : list parg) : option (list Z) :=
  match fmt with
  | [] => Some []
  | c :: fmt =>
      if c =? 37 then
        match fmt with
        | [] => Some []
        | c :: fmt =>
            if c =? 100 then
              match args with AInt x :: args => app (printint_chars digits_lower x 10 true) <$> kprintf_chars fmt args | _ => None end
            else if c =? 120 then
              match args with AInt x :: args => app (printint_chars digits_lower x 16 true) <$> kprintf_chars fmt args | _ => None end
            else if c =? 112 then
              match args with APtr x :: args => app (printptr_chars digits_lower x) <$> kprintf_chars fmt args | _ => None end
            else if c =? 115 then
              match args with AStr s :: args => app (default null_str s) <$> kprintf_chars fmt args | _ => None end
            else if c =? 37 then app [37] <$> kprintf_chars fmt args
            else app [37; c] <$> kprintf_chars fmt args
        end
      else app [c] <$> kprintf_chars fmt args
  end.

(** [atoi] of the user library, on the bytes of the string and what follows. *)
Fixpoint atoi_loop (s : list Z) (n : Z) : Z :=
  match s with
  | [] => n
  | c :: s' => if (48 <=? c) && (c <=? 57) then atoi_loop s' (i32 (n * 10 + c - 48)) else n
  end.
Definition atoi (s : list Z) : Z := atoi_loop s 0.

(** ** Numerals *)

(** The value of digits, least significant first. *)
Fixpoint value (base : Z) (ds : list Z) : Z :=
  match ds with [] => 0 | d :: ds' => d + base * value base ds' end.

(** The digits [digit_loop] produces. *)
Fixpoint digit_vals (fuel : nat) (x base : Z) : list Z :=
  match fuel with
  | O => []
  | S f => x mod base :: (if x / base =? 0 then [] else digit_vals f (x / base) base)
  end.

Lemma digit_loop_vals fuel dig x base : digit_loop fuel dig x base = (λ d, dig !!! Z.to_nat d) <$> digit_vals fuel x base.
Proof.
  revert x. induction fuel as [|f IH]; intros x; [done|]. simpl. f_equal. destruct (_ =? 0); [done|apply IH].
Qed.

Lemma digit_vals_value fuel x base : 1 < base → 0 <= x < base ^ Z.of_nat fuel → (0 < fuel)%nat →
  value base (digit_vals fuel x base) = x ∧ Forall (λ d, 0 <= d < base) (digit_vals fuel x base).
Proof.
  intros Hb. revert x. induction fuel as [|f IH]; intros x Hx Hf; [lia|]. simpl.
  pose proof (Z.mod_pos_bound x base) as Hm. pose proof (Z.div_mod x base) as Hd.
  destruct (Z.eqb_spec (x / base) 0) as [E|E].
  - simpl. split; [lia|]. constructor; [lia|constructor].
  - rewrite Nat2Z.inj_succ, Z.pow_succ_r in Hx by lia.
    assert (0 <= x / base < base ^ Z.of_nat f) as Hq.
    { split; [apply Z.div_pos; lia|]. apply Z.div_lt_upper_bound; lia. }
    destruct f as [|f']; [simpl in Hq; lia|].
    destruct (IH (x / base) Hq) as [E1 E2]; [lia|]. rewrite E1. split; [lia|]. constructor; [lia|done].
Qed.

(** The number of digits. *)
Lemma digit_vals_length fuel x base k : 1 < base → 0 <= x < base ^ Z.of_nat k → (0 < k)%nat →
  (length (digit_vals fuel x base) <= k)%nat.
Proof.
  intros Hb. revert x k. induction fuel as [|f IH]; intros x k Hx Hk; [simpl; lia|]. simpl.
  destruct (Z.eqb_spec (x / base) 0) as [E|E]; [simpl; lia|].
  destruct k as [|k]; [lia|]. rewrite Nat2Z.inj_succ, Z.pow_succ_r in Hx by lia.
  assert (0 <= x / base < base ^ Z.of_nat k) as Hq.
  { split; [apply Z.div_pos; lia|]. apply Z.div_lt_upper_bound; lia. }
  destruct k as [|k']; [simpl in Hq; lia|]. specialize (IH _ _ Hq ltac:(lia)). lia.
Qed.

Lemma decimal_digit dig d : dig = digits_lower ∨ dig = digits_upper → 0 <= d < 10 → dig !!! Z.to_nat d = 48 + d.
Proof.
  intros Hdig Hd.
  assert (d = 0 ∨ d = 1 ∨ d = 2 ∨ d = 3 ∨ d = 4 ∨ d = 5 ∨ d = 6 ∨ d = 7 ∨ d = 8 ∨ d = 9) as Hc by lia.
  destruct Hdig as [-> | ->]; destruct_or! Hc; subst; reflexivity.
Qed.

(** [atoi] of digits, the most significant first. *)
Lemma atoi_digits vals rest n : Forall (λ d, 0 <= d < 10) vals → 0 <= n →
  n * 10 ^ Z.of_nat (length vals) + value 10 vals < 2 ^ 31 →
  atoi_loop ((Z.add 48 <$> reverse vals) ++ rest) n = atoi_loop rest (n * 10 ^ Z.of_nat (length vals) + value 10 vals).
Proof.
  intros Hv. revert rest n. induction vals as [|d vals IH]; intros rest n Hn Hlt.
  { simpl in *. f_equal. lia. }
  apply Forall_cons in Hv as [Hd Hv]. simpl length in *. rewrite Nat2Z.inj_succ, Z.pow_succ_r in * by lia. simpl in Hlt.
  assert (0 <= value 10 vals) as H0.
  { clear -Hv. induction Hv; simpl; lia. }
  assert (0 < 10 ^ Z.of_nat (length vals)) as Hp by (apply Z.pow_pos_nonneg; lia).
  rewrite reverse_cons, fmap_app, <-app_assoc. rewrite IH by (done || nia). simpl.
  rewrite (proj2 (Z.leb_le 48 (48 + d))), (proj2 (Z.leb_le (48 + d) 57)) by lia. simpl.
  rewrite i32_id by nia. f_equal. lia.
Qed.

Lemma printint_decimal dig xx : dig = digits_lower ∨ dig = digits_upper → - 2 ^ 31 <= xx < 2 ^ 31 →
  ∃ vals, printint_chars dig xx 10 true = (if xx <? 0 then [45] else []) ++ (Z.add 48 <$> reverse vals) ∧
    Forall (λ d, 0 <= d < 10) vals ∧ value 10 vals = Z.abs xx ∧ (length vals <= 10)%nat.
Proof.
  intros Hdig Hx. exists (digit_vals 32 (Z.abs xx) 10). unfold printint_chars. simpl (true && _).
  assert (u32 (if xx <? 0 then - xx else xx) = Z.abs xx) as ->.
  { destruct (Z.ltb_spec xx 0); rewrite u32_id; lia. }
  destruct (digit_vals_value 32 (Z.abs xx) 10) as [Ev Hf]; [lia| |lia|].
  { split; [lia|]. apply Z.lt_trans with (2 ^ 32); [lia|]. by vm_compute. }
  split_and!; try done.
  - rewrite reverse_app, digit_loop_vals. f_equal; [by destruct (xx <? 0)|].
    rewrite <-fmap_reverse. apply list_fmap_ext. intros i d Hd%list_elem_of_lookup_2.
    apply decimal_digit; [done|]. rewrite elem_of_reverse in Hd. by apply (proj1 (Forall_forall _ _) Hf).
  - apply digit_vals_length; [lia| |lia]. split; [lia|]. apply Z.le_lt_trans with (2 ^ 31); [lia|]. by vm_compute.
Qed.

(** [printint] in decimal prints every [int], the smallest included: a minus
    sign for a negative number, then at most ten digits (so [buf[16]] is never
    overrun) whose value is the absolute value; and [atoi] of what is printed
    for a number that is not negative gives the number back. *)
Lemma printint_atoi_roundtrip xx rest : - 2 ^ 31 <= xx < 2 ^ 31 →
  (∀ c, head rest = Some c → ¬ (48 <= c <= 57)) →
  ∃ ds, printint_chars digits_upper xx 10 true = (if xx <? 0 then [45] else []) ++ ds ∧
    Forall (λ c, 48 <= c <= 57) ds ∧ (length (printint_chars digits_upper xx 10 true) <= 11)%nat ∧
    value 10 ((λ c, c - 48) <$> reverse ds) = Z.abs xx ∧
    (0 <= xx → atoi (printint_chars digits_upper xx 10 true ++ rest) = xx).
Proof.
  intros Hx Hrest. destruct (printint_decimal digits_upper xx) as (vals & E & Hf & Hv & Hl); [by right|done|].
  exists (Z.add 48 <$> reverse vals). split_and!; try done.
  - apply Forall_fmap. rewrite reverse_Permutation. eapply Forall_impl; [exact Hf|]. simpl. lia.
  - rewrite E, length_app, length_fmap, length_reverse. destruct (xx <? 0); simpl; lia.
  - rewrite <-fmap_reverse, reverse_involutive, <-list_fmap_compose. rewrite <-Hv. f_equal.
    rewrite <-(list_fmap_id vals) at 2. apply list_fmap_ext. intros i d _. unfold compose. simpl. lia.
  - intros Hpos. rewrite E, (proj2 (Z.ltb_ge _ _)) by lia. simpl. unfold atoi.
    rewrite atoi_digits by (done || lia). rewrite Hv, Z.mul_0_l, Z.add_0_l, Z.abs_eq by lia.
    destruct rest as [|c rest]; [done|]. simpl. specialize (Hrest c eq_refl).
    destruct (Z.leb_spec 48 c), (Z.leb_spec c 57); simpl; try done. lia.
Qed.

(** ** [printf] as a list of characters *)
Section puts.
Context {S : Type} (putc : Z → M S unit).

Lemma for_all_app {B} (l l' : list B) (f : B → M S unit) s : for_all (l ++ l') f s = (for_all l f ;;; for_all l' f) s.
Proof.
  revert s. induction l as [|x l IH]; intros s; [done|]. cbn [for_all app]. unfold bind in *.
  destruct (f x s) as [[[]|e|c] s']; [|done|done]. apply IH.
Qed.

Lemma kprintf_loop_chars fmt args l s : kprintf_chars fmt args = Some l → kprintf_loop putc fmt args s = puts putc l s.
Proof.
  assert (∀ n fmt args l s, (length fmt <= n)%nat → kprintf_chars fmt args = Some l →
    kprintf_loop putc fmt args s = puts putc l s) as Hn; [|by apply (Hn (length fmt))].
  assert (∀ o (k : list Z) (m : M S unit) l s, app k <$> o = Some l →
    (∀ l' t, o = Some l' → m t = puts putc l' t) → (puts putc k ;;; m) s = puts putc l s) as Hk.
  { intros o k m l0 t E Hm. destruct o as [l'|]; [|done]. injection E as <-. unfold puts. rewrite for_all_app.
    unfold bind, puts in *. destruct (for_all k putc t) as [[[]|e|ch] t']; [|done|done]. by apply Hm. }
  assert (∀ c (m : M S unit) t, (puts putc [c] ;;; m) t = (putc c ;;; m) t) as H1.
  { intros c m t. unfold puts, bind. simpl. unfold bind, ret. by destruct (putc c t) as [[[]|e|ch] t']. }
  assert (∀ c c' (m : M S unit) t, (puts putc [c; c'] ;;; m) t = (putc c ;;; putc c' ;;; m) t) as H2.
  { intros c c' m t. unfold puts, bind. simpl. unfold bind, ret. destruct (putc c t) as [[[]|e|ch] t']; try done.
    by destruct (putc c' t') as [[[]|e|ch] t'']. }
  clear fmt args l s. induction n as [|n IH]; intros fmt args l s Hl E.
  { destruct fmt; [by injection E as <-|simpl in Hl; lia]. }
  destruct fmt as [|c fmt]; [by injection E as <-|]. simpl in Hl. cbn [kprintf_chars kprintf_loop] in *.
  destruct (c =? 37).
  2:{ rewrite <-H1. eapply Hk; [exact E|]. intros. apply IH; [lia|done]. }
  destruct fmt as [|c' fmt]; [by injection E as <-|]. simpl in Hl.
  destruct (c' =? 100); [|destruct (c' =? 120); [|destruct (c' =? 112); [|destruct (c' =? 115); [|destruct (c' =? 37)]]]].
  1-4: destruct args as [|[x|x|x] args]; try done; cbn [int_arg ptr_arg str_arg];
    unfold bind at 1, ret at 1; (eapply Hk; [exact E|]); intros; apply IH; [lia|done].
  - rewrite <-H1. eapply Hk; [exact E|]. intros. apply IH; [lia|done].
  - rewrite <-H2. eapply Hk; [exact E|]. intros. apply IH; [lia|done].
Qed.
End puts.
