(* ===== verification/Uart.v ===== *)
(** * The UART driver: [kernel/uart.c]

    The 16550 is a device behind its registers ([UartDev]); what the driver
    relies on of it is [UartSpec].  The transmit buffer is a ring with 64-bit
    counters.  Busy waiting ends a run with the outcome [Blocked (ChSpin _)].
    The theorem: characters leave the UART in the order [uartputc] got them. *)
From S2P Require Import Prelude Machine Spinlock Sleeplock Ring.

Definition RHR : Z := 0.
Definition THR : Z := 0.
Definition IER : Z := 1.
Definition IER_RX_ENABLE : Z := Z.shiftl 1 0.
Definition IER_TX_ENABLE : Z := Z.shiftl 1 1.
Definition FCR : Z := 2.
Definition FCR_FIFO_ENABLE : Z := Z.shiftl 1 0.
Definition FCR_FIFO_CLEAR : Z := Z.shiftl 3 1.
Definition LCR : Z := 3.
Definition LCR_EIGHT_BITS : Z := Z.shiftl 3 0.
Definition LCR_BAUD_LATCH : Z := Z.shiftl 1 7.
Definition LSR : Z := 5.
Definition LSR_RX_READY : Z := Z.shiftl 1 0.
Definition LSR_TX_IDLE : Z := Z.shiftl 1 5.
Definition UART_TX_BUF_SIZE : Z := 32.

(** The device: its registers, the bytes it has sent, and the bytes it has received and still holds. *)
Class UartDev (V : Type) := {
  ReadReg : Z → M V Z;
  WriteReg : Z → Z → M V unit;
  v_sent : V → list Z;
  v_input : V → list Z;
}.

Record ustate (V : Type) := UState {
  us_ctx : ctx;
  us_buf : list Z;       (** [uart_tx_buf] *)
  us_w : Z;              (** [uart_tx_w] *)
  us_r : Z;              (** [uart_tx_r] *)
  us_panicked : bool;    (** [panicked] of printf.c *)
  us_dev : V;
}.
Arguments UState {V} _ _ _ _ _ _.
Arguments us_ctx {V} _.
Arguments us_buf {V} _.
Arguments us_w {V} _.
Arguments us_r {V} _.
Arguments us_panicked {V} _.
Arguments us_dev {V} _.

Section uart.
Context {V : Type} `{UartDev V}.

Definition ctx_u : lens (ustate V) ctx :=
  Lens us_ctx (λ c s, UState c (us_buf s) (us_w s) (us_r s) (us_panicked s) (us_dev s)).
Definition hart_u : lens (ustate V) hart :=
  Lens (λ s, c_hart (us_ctx s)) (λ h s, lset ctx_u (set_chart h (us_ctx s)) s).
Definition devL : lens (ustate V) V :=
  Lens us_dev (λ v s, UState (us_ctx s) (us_buf s) (us_w s) (us_r s) (us_panicked s) v).
Definition set_tx buf w r (s : ustate V) := UState (us_ctx s) buf w r (us_panicked s) (us_dev s).

Definition uartinit : M (ustate V) unit :=
  zoom devL (WriteReg IER 0) ;;;
  zoom devL (WriteReg LCR LCR_BAUD_LATCH) ;;;
  zoom devL (WriteReg 0 3) ;;;
  zoom devL (WriteReg 1 0) ;;;
  zoom devL (WriteReg LCR LCR_EIGHT_BITS) ;;;
  zoom devL (WriteReg FCR (Z.lor FCR_FIFO_ENABLE FCR_FIFO_CLEAR)) ;;;
  zoom devL (WriteReg IER (Z.lor IER_TX_ENABLE IER_RX_ENABLE)).

(** [while(1)]: every round but the last takes a character from the buffer. *)
Fixpoint uartstart_loop (fuel : nat) : M (ustate V) unit :=
  match fuel with
  | O => ret tt
  | S f =>
      s <- get ;;
      if us_w s =? us_r s then ret tt else
      lsr <- zoom devL (ReadReg LSR) ;;
      if Z.land lsr LSR_TX_IDLE =? 0 then ret tt else
      s <- get ;;
      let c := us_buf s !!! cell UART_TX_BUF_SIZE (us_r s) in
      modify (λ s, set_tx (us_buf s) (us_w s) (u64 (us_r s + 1)) s) ;;;
      zoom ctx_u (wakeup ChUartTx) ;;;
      zoom devL (WriteReg THR c) ;;;
      uartstart_loop f
  end.
Definition uartstart : M (ustate V) unit :=
  s <- get ;; uartstart_loop (S (Z.to_nat (ring_len 64 (us_r s) (us_w s)))).

Definition uartputc (c : Z) : M (ustate V) unit :=
  zoom ctx_u (lock LkUart) ;;;
  s <- get ;;
  if us_panicked s : bool then block (ChSpin LkUart) else
  if us_w s =? u64 (us_r s + UART_TX_BUF_SIZE) then zoom ctx_u (sleep ChUartTx LkUart) else
  modify (λ s, set_tx (<[cell UART_TX_BUF_SIZE (us_w s) := u8 c]> (us_buf s)) (u64 (us_w s + 1)) (us_r s) s) ;;;
  uartstart ;;;
  zoom ctx_u (unlock LkUart).

Definition uartputc_sync (c : Z) : M (ustate V) unit :=
  zoom hart_u push_off ;;;
  s <- get ;;
  if us_panicked s : bool then block (ChSpin LkUart) else
  lsr <- zoom devL (ReadReg LSR) ;;
  if Z.land lsr LSR_TX_IDLE =? 0 then block (ChSpin LkUart) else
  zoom devL (WriteReg THR (u8 c)) ;;;
  zoom hart_u pop_off.

Definition uartgetc : M (ustate V) Z :=
  lsr <- zoom devL (ReadReg LSR) ;;
  if truth (Z.land lsr 1) then zoom devL (ReadReg RHR) else ret (-1).
End uart.

(** What the driver relies on: a character written to [THR] is sent after those
    sent before, [LSR_RX_READY] tells whether input waits, [RHR] yields the
    oldest input, and the other registers do neither. *)
Class UartSpec (V : Type) `{UartDev V} := {
  read_lsr : ∀ v, ∃ x v', ReadReg LSR v = (Ret x, v') ∧ v_sent v' = v_sent v ∧ v_input v' = v_input v ∧
    truth (Z.land x 1) = bool_decide (v_input v ≠ []);
  read_rhr : ∀ v c l, v_input v = c :: l → ∃ v', ReadReg RHR v = (Ret c, v') ∧ v_sent v' = v_sent v ∧ v_input v' = l;
  write_thr : ∀ v c, ∃ v', WriteReg THR c v = (Ret tt, v') ∧ v_sent v' = v_sent v ++ [c] ∧ v_input v' = v_input v;
  input_char : ∀ v, Forall (λ c, 0 <= c < 256) (v_input v);
}.

#[global] Instance uart_dims : RingDims UART_TX_BUF_SIZE 64.
Proof. unfold UART_TX_BUF_SIZE. split; try lia. by exists (2 ^ 59). Qed.

Definition tx_queue {V} (s : ustate V) : list Z := ring UART_TX_BUF_SIZE 64 (us_buf s) (us_r s) (us_w s).

(** Sent and waiting characters, in order. *)
Definition tx_stream {V} `{UartDev V} (s : ustate V) : list Z := v_sent (us_dev s) ++ tx_queue s.

Record uart_ok {V} (s : ustate V) : Prop := {
  uo_buf : length (us_buf s) = Z.to_nat UART_TX_BUF_SIZE;
  uo_r : 0 <= us_r s < 2 ^ 64;
  uo_w : 0 <= us_w s < 2 ^ 64;
  uo_len : ring_len 64 (us_r s) (us_w s) <= UART_TX_BUF_SIZE;
}.

Section uart_run.
Context {V : Type} `{UartSpec V}.

(** The state after some of the waiting characters were sent. *)
Record started (s s' : ustate V) : Prop := {
  st_ok : uart_ok s';
  st_stream : tx_stream s' = tx_stream s;
  st_hart : c_hart (us_ctx s') = c_hart (us_ctx s);
  st_len : ring_len 64 (us_r s') (us_w s') <= ring_len 64 (us_r s) (us_w s);
  st_w : us_w s' = us_w s;
  st_panicked : us_panicked s' = us_panicked s;
  st_input : v_input (us_dev s') = v_input (us_dev s);
}.

Lemma started_refl s : uart_ok s → started s s.
Proof. intros. by split. Qed.

(** One round of [uartstart] sends the oldest character. *)
Lemma send_one s v1 v2 (c : ctx) : uart_ok s → us_w s ≠ us_r s →
  v_sent v1 = v_sent (us_dev s) → v_input v1 = v_input (us_dev s) →
  v_sent v2 = v_sent v1 ++ [us_buf s !!! cell UART_TX_BUF_SIZE (us_r s)] → v_input v2 = v_input v1 →
  c_hart c = c_hart (us_ctx s) →
  let s' := UState c (us_buf s) (us_w s) (u64 (us_r s + 1)) (us_panicked s) v2 in
  started s s' ∧ ring_len 64 (us_r s') (us_w s') = ring_len 64 (us_r s) (us_w s) - 1 ∧ 0 < ring_len 64 (us_r s) (us_w s).
Proof.
  intros [Hb Hr Hw Hl] Hne E1 I1 E2 I2 Hc s'. pose proof (ring_len_bound UART_TX_BUF_SIZE 64 (us_r s) (us_w s)) as Hbd.
  assert (0 < ring_len 64 (us_r s) (us_w s)) as Hp.
  { pose proof (ring_empty UART_TX_BUF_SIZE 64 (us_buf s) _ _ Hr Hw) as Hem.
    pose proof (length_ring UART_TX_BUF_SIZE 64 (us_buf s) (us_r s) (us_w s)) as Hlen.
    destruct (decide (ring_len 64 (us_r s) (us_w s) = 0)) as [E0|?]; [|lia].
    rewrite E0 in Hlen. apply nil_length_inv in Hlen. apply Hem in Hlen. congruence. }
  assert (ring_len 64 (u64 (us_r s + 1)) (us_w s) = ring_len 64 (us_r s) (us_w s) - 1) as El.
  { by apply (ring_len_read UART_TX_BUF_SIZE 64). }
  split; [|done]. split; simpl; try done; try lia; [split; simpl; try done; [by apply Z.mod_pos_bound|lia]| |congruence].
  unfold tx_stream, tx_queue. simpl. rewrite E2, E1, <-app_assoc. f_equal. simpl.
  by rewrite (ring_pop UART_TX_BUF_SIZE 64 (us_buf s) (us_r s)).
Qed.

Lemma started_trans s1 s2 s3 : started s1 s2 → started s2 s3 → started s1 s3.
Proof. intros [] []. split; try done; try lia; congruence. Qed.

Lemma uartstart_loop_run fuel s : uart_ok s → (Z.to_nat (ring_len 64 (us_r s) (us_w s)) < fuel)%nat →
  wp (uartstart_loop fuel) (λ _ s', started s s') s.
Proof.
  revert s. induction fuel as [|f IH]; intros s Hok Hf; [lia|]. cbn [uartstart_loop]. wp_steps.
  destruct (Z.eqb_spec (us_w s) (us_r s)) as [E|E]; [apply wp_ret; by apply started_refl|]. wp_step.
  destruct (read_lsr (us_dev s)) as (x & v1 & R1 & S1 & I1 & _).
  apply wp_zoom. apply (wp_intro _ _ _ _ _ R1). simpl. destruct (_ =? 0).
  { apply wp_ret. destruct Hok. split; simpl; try done. unfold tx_stream, tx_queue. simpl. by rewrite S1. }
  wp_step. apply wp_get. wp_step. apply wp_modify. wp_step. apply wp_zoom. unfold wakeup. apply wp_modify.
  wp_step. apply wp_zoom. simpl.
  destruct (write_thr v1 (us_buf s !!! cell UART_TX_BUF_SIZE (us_r s))) as (v2 & R2 & S2 & I2).
  apply (wp_intro _ _ _ _ _ R2). simpl. set (s' := UState _ _ _ _ _ _).
  destruct (send_one s v1 v2 (us_ctx s') Hok E S1 I1 S2 I2 eq_refl) as (Hst & Hlen & Hpos). fold s' in Hst, Hlen.
  eapply wp_mono; [apply IH; [apply Hst|simpl in *; lia]|]. intros [] s2 Hst2. by eapply started_trans.
Qed.

Lemma uartstart_run s : uart_ok s → wp uartstart (λ _ s', started s s') s.
Proof. intros Hok. unfold uartstart. wp_steps. apply uartstart_loop_run; [done|lia]. Qed.
End uart_run.

(** A UART that has always finished sending: what synchronous output waits for. *)
Class UartIdle (V : Type) `{UartDev V} := {
  lsr_idle : ∀ v x v', ReadReg LSR v = (Ret x, v') → Z.land x LSR_TX_IDLE ≠ 0;
}.

Definition set_dev {V} (v : V) (s : ustate V) : ustate V :=
  UState (us_ctx s) (us_buf s) (us_w s) (us_r s) (us_panicked s) v.

Lemma uartputc_sync_run {V} `{UartSpec V} `{!UartIdle V} c (s : ustate V) :
  hart_ok (c_hart (us_ctx s)) → us_panicked s = false →
  ∃ v, uartputc_sync c s = (Ret tt, set_dev v s) ∧ v_sent v = v_sent (us_dev s) ++ [u8 c] ∧ v_input v = v_input (us_dev s).
Proof.
  intros Ho Hp. destruct (push_pop_run _ Ho) as (h' & E1 & E2).
  destruct (read_lsr (us_dev s)) as (x & v1 & R1 & S1 & I1 & _). pose proof (lsr_idle _ _ _ R1) as Hi.
  destruct (write_thr v1 (u8 c)) as (v2 & R2 & S2 & I2). exists v2. rewrite S2, I2, S1, I1.
  split; [|done]. unfold uartputc_sync, bind, get, zoom. simpl. rewrite E1. simpl. rewrite Hp.
  simpl. rewrite R1. simpl.
  apply Z.eqb_neq in Hi. rewrite Hi. simpl. rewrite R2. simpl. rewrite E2. destruct s as [[] ? ? ? ? ?]; simpl in *. by subst.
Qed.

(** ** Properties of the UART driver *)
Section uart_properties.
Context {V : Type} `{UartSpec V}.

(** [uartputc] keeps the order of the output.  With room in the buffer it
    returns, and the characters sent by the device followed by those waiting
    are the same as before followed by the new one; with 32 characters waiting
    the caller sleeps and nothing changes. *)
Lemma uartputc_order c (s : ustate V) : uart_ok s → hart_ok (c_hart (us_ctx s)) → LkUart ∉ h_held (c_hart (us_ctx s)) →
  us_panicked s = false →
  if ring_len 64 (us_r s) (us_w s) =? UART_TX_BUF_SIZE
  then uartputc c s = (Blocked ChUartTx, s)
  else wp (uartputc c) (λ _ s', uart_ok s' ∧ tx_stream s' = tx_stream s ++ [u8 c] ∧
         c_hart (us_ctx s') = c_hart (us_ctx s)) s.
Proof.
  intros Hok Ho Hl Hp. pose proof Hok as [Hb Hr Hw Hlen].
  assert ((us_w s =? u64 (us_r s + UART_TX_BUF_SIZE)) = (ring_len 64 (us_r s) (us_w s) =? UART_TX_BUF_SIZE)) as Hfull.
  { unfold ring_len, u64, UART_TX_BUF_SIZE in *. destruct (Z.eqb_spec ((us_w s - us_r s) mod 2 ^ 64) 32) as [E|E].
    - apply Z.eqb_eq. zdiv. - apply Z.eqb_neq. intros E'. apply E. zdiv. }
  pose proof (zoom_run ctx_u _ s _ _ (lock_run LkUart (us_ctx s) Ho Hl)) as Elock.
  pose proof (ring_len_bound UART_TX_BUF_SIZE 64 (us_r s) (us_w s)) as Hbd.
  destruct (Z.eqb_spec (ring_len 64 (us_r s) (us_w s)) UART_TX_BUF_SIZE) as [E|E].
  - unfold uartputc. rewrite (bind_Ret _ _ _ _ _ Elock). unfold bind at 1, get. simpl. rewrite Hp, Hfull.
    unfold zoom, sleep, bind, block. simpl. rewrite (unlock_run _ (c_hart (us_ctx s))) by done. simpl.
    rewrite set_chart_id. destruct s; simpl in Hp. by subst.
  - unfold uartputc. wp_step. apply (wp_intro _ _ _ _ _ Elock). wp_steps. simpl. rewrite Hp, Hfull. wp_steps.
    set (s1 := set_tx _ _ _ _).
    assert (uart_ok s1 ∧ tx_stream s1 = tx_stream s ++ [u8 c]) as [Hok1 Hs1].
    { split.
      - split; simpl; [by rewrite length_insert|done|by apply Z.mod_pos_bound|].
        unfold u64. rewrite (ring_len_succ UART_TX_BUF_SIZE 64) by (unfold UART_TX_BUF_SIZE in *; lia). lia.
      - unfold tx_stream. rewrite <-app_assoc. f_equal. apply (ring_push UART_TX_BUF_SIZE 64); [done|simpl; lia]. }
    eapply wp_mono; [by apply uartstart_run|]. intros _ s2 [T1 T2 T3 _ _ _ _].
    apply wp_zoom. apply (wp_intro _ _ _ _ _ (unlock_run LkUart (c_hart (us_ctx s)) _ Ho Hl T3)).
    split_and!; simpl; try done; [by destruct T1|]. by rewrite <-Hs1, <-T2.
Qed.
End uart_properties.

(** ** A UART that is always ready, as an example *)
Module IdleUart.

Record t := Dev { sent : list Z; raw : list Z }.

#[global] Instance dev : UartDev t := {|
  ReadReg r := λ d,
    if r =? LSR then (Ret (Z.lor LSR_TX_IDLE (if decide (raw d = []) then 0 else LSR_RX_READY)), d)
    else (Ret (u8 (raw d !!! O)), Dev (sent d) (List.tl (raw d)));
  WriteReg r c := λ d, if r =? THR then (Ret tt, Dev (sent d ++ [c]) (raw d)) else (Ret tt, d);
  v_sent := sent;
  v_input d := u8 <$> raw d;
|}.

#[global] Instance spec : UartSpec t.
Proof.
  split.
  - intros v. simpl. do 2 eexists. split; [reflexivity|]. split_and!; try done.
    destruct (raw v) as [|c l]; reflexivity.
  - intros v c l E. simpl in *. destruct (raw v) as [|c' l']; [done|]. simpl in E. injection E as <- <-. eexists. done.
  - intros v c. simpl. eexists. by split_and!.
  - intros v. apply Forall_fmap, Forall_true. intros c. by apply Z.mod_pos_bound.
Qed.

#[global] Instance idle : UartIdle t.
Proof. split. intros v x v' E. simpl in E. injection E as <- <-. by destruct (raw v). Qed.

Definition quiet : t := Dev [] [].
Definition boot : ustate t := UState (Ctx (Hart 0 true true []) 1 false []) (replicate 32 0) 0 0 false quiet.

Lemma boot_ok : uart_ok boot ∧ hart_ok (c_hart (us_ctx boot)) ∧ LkUart ∉ h_held (c_hart (us_ctx boot)).
Proof.
  split_and!; [split; vm_compute; split_and?; done| |apply not_elem_of_nil].
  split_and!; simpl; try lia; try done. constructor.
Qed.
End IdleUart.
