(* ===== verification/Proc.v ===== *)
(** * Processes: [kernel/proc.c], [kernel/proc.h]

    The process table, the allocation of processes, [fork], [exit], [wait] and
    [waitx], [sleep] and [wakeup], and [kill].  A process is named by its index
    in [proc]; a file or an inode by its address (0 for none).  A thread gives
    up the CPU in [swtch]: the code before it and the code after it are separate
    definitions, and the calls that can sleep return [Slept]. *)
From S2P Require Import Prelude Machine Cstring Spinlock Sleeplock Kalloc Vm.

Inductive procstate := UNUSED | USED | SLEEPING | RUNNABLE | RUNNING | ZOMBIE.
#[global] Instance procstate_eq_dec : EqDecision procstate.
Proof. solve_decision. Defined.

Record proc := Proc {
  p_state : procstate;
  p_chan : option channel;
  p_killed : Z;
  p_xstate : Z;
  p_pid : Z;
  p_parent : option nat;
  p_kstack : Z;
  p_sz : Z;
  p_pagetable : Z;
  p_trapframe : Z;
  p_context : list Z;      (** [ra], [sp], [s0] to [s11] *)
  p_ofile : list Z;
  p_cwd : Z;
  p_name : list Z;
  p_smask : Z;
  p_interval : Z;
  p_handler : Z;
  p_nticks : Z;
  p_alarmOn : Z;
  p_alarmContext : Z;
  p_ctime : Z;
  p_tickets : Z;
  p_pbs_rtime : Z;
  p_rtime : Z;
  p_stime : Z;
  p_staticP : Z;
  p_niceness : Z;
  p_wtime : Z;
  p_sch_no : Z;
  p_etime : Z;
  p_rticks : Z;
  p_wticks : Z;
  p_pr : Z;
}.
#[global] Instance proc_eta : Eta proc := λ p,
  Proc (p_state p) (p_chan p) (p_killed p) (p_xstate p) (p_pid p) (p_parent p) (p_kstack p) (p_sz p)
    (p_pagetable p) (p_trapframe p) (p_context p) (p_ofile p) (p_cwd p) (p_name p) (p_smask p)
    (p_interval p) (p_handler p) (p_nticks p) (p_alarmOn p) (p_alarmContext p) (p_ctime p) (p_tickets p)
    (p_pbs_rtime p) (p_rtime p) (p_stime p) (p_staticP p) (p_niceness p) (p_wtime p) (p_sch_no p)
    (p_etime p) (p_rticks p) (p_wticks p) (p_pr p).

(** A process of zeroed memory. *)
Definition proc0 : proc :=
  Proc UNUSED None 0 0 0 None 0 0 0 0 (replicate 14 0) (replicate NOFILE 0) 0 (replicate 16 0)
    0 0 0 0 0 0 0 0 0 0 0 0 0 0 0 0 0 0 0.

(** What the process code calls of the file system and the file table, on
    memory and the state [F] of the files. *)
Class FileSys (F : Type) := {
  filedup : Z → M (kstate * F) Z;
  fileclose : Z → M (kstate * F) unit;
  idup : Z → M (kstate * F) Z;
  iput : Z → M (kstate * F) unit;
  begin_op_f : M (kstate * F) unit;
  end_op_f : M (kstate * F) unit;
  namei : list Z → M (kstate * F) Z;
  fsinit : Z → M (kstate * F) unit;
}.

(** The globals of [proc.c], the CPU and the memory, [ticks] of [trap.c], the
    characters printed on the console, and the files. *)
Record pstate (F : Type) := PState {
  ps_k : kstate;
  ps_proc : list proc;
  ps_queue : list (list (option nat));
  ps_initproc : option nat;
  ps_nextpid : Z;
  ps_cur : option nat;       (** [mycpu()->proc] *)
  ps_ticks : Z;
  ps_first : bool;           (** [first] of [forkret] *)
  ps_out : list Z;
  ps_fs : F;
}.
Arguments PState {F} _ _ _ _ _ _ _ _ _ _.
Arguments ps_k {F} _.
Arguments ps_proc {F} _.
Arguments ps_queue {F} _.
Arguments ps_initproc {F} _.
Arguments ps_nextpid {F} _.
Arguments ps_cur {F} _.
Arguments ps_ticks {F} _.
Arguments ps_first {F} _.
Arguments ps_out {F} _.
Arguments ps_fs {F} _.
#[global] Instance pstate_eta F : Eta (pstate F) := λ s,
  PState (ps_k s) (ps_proc s) (ps_queue s) (ps_initproc s) (ps_nextpid s) (ps_cur s) (ps_ticks s)
    (ps_first s) (ps_out s) (ps_fs s).

Definition max (A B : Z) : Z := if B <? A then A else B.
Definition min (A B : Z) : Z := if B <? A then B else A.

(** The addresses of the registers in a trapframe. *)
Definition tf_kernel_satp (tf : Z) : Z := tf + 0.
Definition tf_kernel_sp (tf : Z) : Z := tf + 8.
Definition tf_kernel_trap (tf : Z) : Z := tf + 16.
Definition tf_epc (tf : Z) : Z := tf + 24.
Definition tf_kernel_hartid (tf : Z) : Z := tf + 32.
Definition tf_sp (tf : Z) : Z := tf + 48.
Definition tf_a (i tf : Z) : Z := tf + 112 + 8 * i.
Definition TRAPFRAME_SIZE : Z := 288.

(** [initcode]: a program that calls [exec("/init")]. *)
Definition initcode : list Z :=
  [0x17; 0x05; 0x00; 0x00; 0x13; 0x05; 0x45; 0x02;
   0x97; 0x05; 0x00; 0x00; 0x93; 0x85; 0x35; 0x02;
   0x93; 0x08; 0x70; 0x00; 0x73; 0x00; 0x00; 0x00;
   0x93; 0x08; 0x20; 0x00; 0x73; 0x00; 0x00; 0x00;
   0xef; 0xf0; 0x9f; 0xff; 0x2f; 0x69; 0x6e; 0x69;
   0x74; 0x00; 0x00; 0x24; 0x00; 0x00; 0x00; 0x00;
   0x00; 0x00; 0x00; 0x00].

(** [kend] and [trampoline] are symbols of the linker script, [forkret_pc] the address of [forkret]. *)
Section proc.
Context {F : Type} `{FileSys F} (kend trampoline forkret_pc : Z).
Abbreviation pst := (pstate F).

Definition kL : lens pst kstate := Lens ps_k (λ k s, s <| ps_k := k |>).
Definition hart_p : lens pst hart := Lens (λ s, k_hart (ps_k s)) (λ h s, s <| ps_k ::= set_hart h |>).
Definition fsL : lens pst (kstate * F) :=
  Lens (λ s, (ps_k s, ps_fs s)) (λ kf s, s <| ps_k := fst kf |> <| ps_fs := snd kf |>).

(** [*p]; the process table ends the kernel's knowledge of its memory. *)
Definition pget (i : nat) : M pst proc := λ s,
  match ps_proc s !! i with Some p => (Ret p, s) | None => (Panic "proc: out of bounds", s) end.
Definition pupd (i : nat) (f : proc → proc) : M pst unit :=
  pget i ;;; modify (λ s, s <| ps_proc ::= alter f i |>).

Definition plock (i : nat) : M pst unit := zoom hart_p (acquire (LkProc i)).
Definition punlock (i : nat) : M pst unit := zoom hart_p (release (LkProc i)).
Definition procs : list nat := seq 0 NPROC.

Definition procinit : M pst unit :=
  for_all procs (λ i, pupd i (λ p, p <| p_state := UNUSED |> <| p_kstack := KSTACK (Z.of_nat i) |>)) ;;;
  modify (λ s, s <| ps_queue := replicate NPR (replicate NPROC None) |>).

Definition myproc : M pst (option nat) :=
  zoom hart_p push_off ;;;
  p <- gets ps_cur ;;
  zoom hart_p pop_off ;;;
  ret p.
(** [myproc()->...]: without a process this reads address 0. *)
Definition me : M pst nat :=
  p <- myproc ;; match p with Some i => ret i | None => panic "kerneltrap" end.

Definition allocpid : M pst Z :=
  zoom hart_p (acquire LkPid) ;;;
  pid <- gets ps_nextpid ;;
  modify (λ s, s <| ps_nextpid := i32 (pid + 1) |>) ;;;
  zoom hart_p (release LkPid) ;;;
  ret pid.

Definition proc_pagetable (trapframe : Z) : M kstate Z :=
  pagetable <- uvmcreate ;;
  if pagetable =? 0 then ret 0 else
  r <- mappages pagetable TRAMPOLINE PGSIZE trampoline (Z.lor PTE_R PTE_X) ;;
  if r <? 0 then uvmfree kend pagetable 0 ;;; ret 0 else
  r <- mappages pagetable TRAPFRAME PGSIZE trapframe (Z.lor PTE_R PTE_W) ;;
  if r <? 0 then
    uvmunmap kend pagetable TRAMPOLINE 1 false ;;;
    uvmfree kend pagetable 0 ;;;
    ret 0
  else ret pagetable.

Definition proc_freepagetable (pagetable sz : Z) : M kstate unit :=
  uvmunmap kend pagetable TRAMPOLINE 1 false ;;;
  uvmunmap kend pagetable TRAPFRAME 1 false ;;;
  uvmfree kend pagetable sz.

(** The assignments of [freeproc] after the page table is freed. *)
Definition freed (p : proc) : proc :=
  p <| p_pagetable := 0 |> <| p_sz := 0 |> <| p_pid := 0 |> <| p_parent := None |>
    <| p_name ::= <[O := 0]> |> <| p_chan := None |> <| p_killed := 0 |> <| p_xstate := 0 |>
    <| p_state := UNUSED |> <| p_smask := 0 |> <| p_interval := 0 |> <| p_nticks := 0 |>
    <| p_handler := 0 |> <| p_ctime := 0 |> <| p_rticks := 0 |> <| p_wticks := 0 |> <| p_pr := 0 |>.
Definition freeproc (i : nat) : M pst unit :=
  p <- pget i ;;
  when (truth (p_trapframe p)) (zoom kL (kfree kend (p_trapframe p))) ;;;
  pupd i (λ p, p <| p_trapframe := 0 |>) ;;;
  when (truth (p_pagetable p)) (zoom kL (proc_freepagetable (p_pagetable p) (p_sz p))) ;;;
  pupd i freed.

(** The assignments of [allocproc] to a process that was [UNUSED]. *)
Definition fresh (pid ticks : Z) (p : proc) : proc :=
  p <| p_pid := pid |> <| p_state := USED |> <| p_smask := 0 |> <| p_nticks := 0 |> <| p_alarmOn := 0 |>
    <| p_ctime := ticks |> <| p_etime := 0 |> <| p_tickets := 1 |> <| p_pbs_rtime := 0 |> <| p_rtime := 0 |>
    <| p_stime := 0 |> <| p_staticP := 60 |> <| p_niceness := 5 |> <| p_wtime := 0 |> <| p_sch_no := 0 |>
    <| p_rticks := 0 |> <| p_wticks := 0 |> <| p_pr := 0 |>.
Definition allocproc : M pst (option nat) :=
  found <- for_each procs (λ i,
    plock i ;;;
    p <- pget i ;;
    if decide (p_state p = UNUSED) then ret (Some i) else punlock i ;;; ret None) ;;
  match found with
  | None => ret None
  | Some i =>
      pid <- allocpid ;;
      ticks <- gets ps_ticks ;;
      pupd i (fresh pid ticks) ;;;
      tf <- zoom kL kalloc ;;
      pupd i (λ p, p <| p_trapframe := tf |>) ;;;
      if tf =? 0 then freeproc i ;;; punlock i ;;; ret None else
      pt <- zoom kL (proc_pagetable tf) ;;
      pupd i (λ p, p <| p_pagetable := pt |>) ;;;
      if pt =? 0 then freeproc i ;;; punlock i ;;; ret None else
      pupd i (λ p, p <| p_context := forkret_pc :: u64 (p_kstack p + PGSIZE) :: replicate 12 0 |>) ;;;
      ret (Some i)
  end.

(** [safestrcpy(p->name, s, 16)] *)
Definition copy_name (s dst : list Z) : list Z :=
  let n := Z.of_nat (length dst) in
  bytes (safestrcpy (λ a, if a <? n then lmem dst a else lmem s (a - n)) 0 n n) 0 (length dst).

(** The characters of a C string up to its NUL. *)
Fixpoint cstr (l : list Z) : list Z :=
  match l with [] => [] | c :: l => if c =? 0 then [] else c :: cstr l end.

Definition userinit : M pst unit :=
  p <- allocproc ;;
  modify (λ s, s <| ps_initproc := p |>) ;;;
  match p with
  | None => panic "kerneltrap"
  | Some i =>
      p <- pget i ;;
      zoom kL (uvmfirst (p_pagetable p) initcode (Z.of_nat (length initcode))) ;;;
      pupd i (λ p, p <| p_sz := PGSIZE |>) ;;;
      zoom kL (wr64 (tf_epc (p_trapframe p)) 0) ;;;
      zoom kL (wr64 (tf_sp (p_trapframe p)) PGSIZE) ;;;
      pupd i (λ p, p <| p_name ::= copy_name [105; 110; 105; 116; 99; 111; 100; 101; 0] |>) ;;;
      cwd <- zoom fsL (namei [47; 0]) ;;
      pupd i (λ p, p <| p_cwd := cwd |>) ;;;
      pupd i (λ p, p <| p_state := RUNNABLE |>) ;;;
      punlock i
  end.

Definition growproc (n : Z) : M pst Z :=
  i <- me ;;
  p <- pget i ;;
  let sz := p_sz p in
  if 0 <? n then
    sz <- zoom kL (uvmalloc kend (p_pagetable p) sz (u64 (sz + n)) PTE_W) ;;
    if sz =? 0 then ret (-1) else pupd i (λ p, p <| p_sz := sz |>) ;;; ret 0
  else if n <? 0 then
    sz <- zoom kL (uvmdealloc kend (p_pagetable p) sz (u64 (sz + n))) ;;
    pupd i (λ p, p <| p_sz := sz |>) ;;; ret 0
  else pupd i (λ p, p <| p_sz := sz |>) ;;; ret 0.

(** [*(np->trapframe) = *(p->trapframe)] *)
Definition copy_trapframe (dst src : Z) : M pst unit :=
  zoom kL (modify (λ k, set_mem (memmove (k_mem k) dst src TRAPFRAME_SIZE) k)).

Definition fork : M pst Z :=
  i <- me ;;
  np <- allocproc ;;
  match np with
  | None => ret (-1)
  | Some j =>
      p <- pget i ;;
      np <- pget j ;;
      r <- zoom kL (uvmcopy kend (p_pagetable p) (p_pagetable np) (p_sz p)) ;;
      if r <? 0 then freeproc j ;;; punlock j ;;; ret (-1) else
      pupd j (λ q, q <| p_sz := p_sz p |>) ;;;
      pupd j (λ q, q <| p_staticP := p_staticP p |>) ;;;
      copy_trapframe (p_trapframe np) (p_trapframe p) ;;;
      zoom kL (wr64 (tf_a 0 (p_trapframe np)) 0) ;;;
      for_all (seq 0 NOFILE) (λ fd,
        let f := p_ofile p !!! fd in
        when (truth f) (f' <- zoom fsL (filedup f) ;; pupd j (λ q, q <| p_ofile ::= <[fd := f']> |>))) ;;;
      cwd <- zoom fsL (idup (p_cwd p)) ;;
      pupd j (λ q, q <| p_cwd := cwd |>) ;;;
      pupd j (λ q, q <| p_name ::= copy_name (p_name p) |>) ;;;
      np <- pget j ;;
      let pid := p_pid np in
      punlock j ;;;
      zoom hart_p (acquire LkWait) ;;;
      pupd j (λ q, q <| p_parent := Some i |>) ;;;
      zoom hart_p (release LkWait) ;;;
      plock j ;;;
      pupd j (λ q, q <| p_state := RUNNABLE |>) ;;;
      punlock j ;;;
      pupd j (λ q, q <| p_smask := p_smask p |>) ;;;
      pupd j (λ q, q <| p_tickets := p_tickets p |>) ;;;
      ret pid
  end.

Definition killed (i : nat) : M pst Z :=
  plock i ;;; p <- pget i ;; punlock i ;;; ret (p_killed p).
Definition setkilled (i : nat) : M pst unit :=
  plock i ;;; pupd i (λ p, p <| p_killed := 1 |>) ;;; punlock i.

Definition wakeup (ch : option channel) : M pst unit :=
  for_all procs (λ i,
    m <- myproc ;;
    if decide (m = Some i) then ret tt else
    plock i ;;;
    p <- pget i ;;
    t <- gets ps_ticks ;;
    when (bool_decide (p_state p = SLEEPING ∧ p_chan p = ch))
      (pupd i (λ p, p <| p_state := RUNNABLE |> <| p_wtime := i32 t |>)) ;;;
    punlock i).

(** [sched] up to [swtch], which saves the thread; the result is [intena], kept on its stack. *)
Definition sched : M pst bool :=
  i <- me ;;
  h <- gets (λ s, k_hart (ps_k s)) ;;
  p <- pget i ;;
  if negb (bool_decide (LkProc i ∈ h_held h)) then panic "sched p->lock" else
  if negb (h_noff h =? 1) then panic "sched locks" else
  if decide (p_state p = RUNNING) then panic "sched running" else
  if h_sie h : bool then panic "sched interruptible" else
  ret (h_intena h).
(** [sched] from the return of [swtch]. *)
Definition sched_back (intena : bool) : M pst unit :=
  zoom hart_p (modify (λ h, Hart (h_noff h) intena (h_sie h) (h_held h))).

Definition yield : M pst bool :=
  i <- me ;;
  plock i ;;;
  pupd i (λ p, p <| p_state := RUNNABLE |>) ;;;
  sched.
Definition yield_back (intena : bool) : M pst unit :=
  sched_back intena ;;; i <- me ;; punlock i.

Definition forkret : M pst unit :=
  i <- me ;;
  punlock i ;;;
  first <- gets ps_first ;;
  when first
    (modify (λ s, s <| ps_first := false |>) ;;; zoom fsL (fsinit ROOTDEV)).

(** [sleep] up to [swtch]. *)
Definition sleep (ch : channel) (lk : lockid) : M pst bool :=
  i <- me ;;
  plock i ;;;
  zoom hart_p (release lk) ;;;
  t <- gets ps_ticks ;;
  pupd i (λ p, p <| p_chan := Some ch |>) ;;;
  pupd i (λ p, p <| p_state := SLEEPING |> <| p_stime := i32 t |>) ;;;
  sched.
Definition sleep_back (lk : lockid) (intena : bool) : M pst unit :=
  sched_back intena ;;;
  i <- me ;;
  pupd i (λ p, p <| p_chan := None |>) ;;;
  punlock i ;;;
  zoom hart_p (acquire lk).

Definition kill (pid : Z) : M pst Z :=
  r <- for_each procs (λ i,
    plock i ;;;
    p <- pget i ;;
    if p_pid p =? pid then
      pupd i (λ p, p <| p_killed := 1 |>) ;;;
      when (bool_decide (p_state p = SLEEPING)) (pupd i (λ p, p <| p_state := RUNNABLE |>)) ;;;
      punlock i ;;;
      ret (Some 0)
    else punlock i ;;; ret None) ;;
  ret (default (-1) r).

Definition reparent (i : nat) : M pst unit :=
  for_all procs (λ j,
    pp <- pget j ;;
    when (bool_decide (p_parent pp = Some i))
      (init <- gets ps_initproc ;;
       pupd j (λ q, q <| p_parent := init |>) ;;;
       wakeup (ChProc <$> init))).

(** [exit] up to the [swtch] of [sched], from which a [ZOMBIE] does not return. *)
Definition exit (status : Z) : M pst unit :=
  i <- me ;;
  init <- gets ps_initproc ;;
  if decide (Some i = init) then panic "init exiting" else
  for_all (seq 0 NOFILE) (λ fd,
    p <- pget i ;;
    let f := p_ofile p !!! fd in
    when (truth f) (zoom fsL (fileclose f) ;;; pupd i (λ p, p <| p_ofile ::= <[fd := 0]> |>))) ;;;
  p <- pget i ;;
  zoom fsL begin_op_f ;;;
  zoom fsL (iput (p_cwd p)) ;;;
  zoom fsL end_op_f ;;;
  pupd i (λ p, p <| p_cwd := 0 |>) ;;;
  zoom hart_p (acquire LkWait) ;;;
  reparent i ;;;
  p <- pget i ;;
  wakeup (ChProc <$> p_parent p) ;;;
  plock i ;;;
  t <- gets ps_ticks ;;
  pupd i (λ p, p <| p_xstate := status |> <| p_state := ZOMBIE |> <| p_etime := t |>) ;;;
  zoom hart_p (release LkWait) ;;;
  sched ;;; ret tt.

(** The bytes of a 32-bit value. *)
Definition bytes32 (x : Z) : list Z := bytes (store32 (λ _, 0) 0 x) 0 4.

(** One pass of [wait] over the table, with [wait_lock] held: the result, and
    the exited child it found, whose times [waitx] reports.  The channel of the
    sleep is the process; [is_killed] is how the two calls test for a kill. *)
Definition wait_scan (is_killed : nat → M pst Z) (addr : Z) : M pst (presult * option proc) :=
  i <- me ;;
  havekids <- gets (λ s, existsb (λ q, bool_decide (p_parent q = Some i)) (ps_proc s)) ;;
  r <- for_each procs (λ j,
    pp <- pget j ;;
    if negb (bool_decide (p_parent pp = Some i)) then ret None else
    plock j ;;;
    pp <- pget j ;;
    if decide (p_state pp = ZOMBIE) then
      let pid := p_pid pp in
      p <- pget i ;;
      c <- (if addr =? 0 then ret 0 else zoom kL (copyout (p_pagetable p) addr (bytes32 (p_xstate pp)))) ;;
      if c <? 0 then
        punlock j ;;; zoom hart_p (release LkWait) ;;; ret (Some (-1, pp))
      else
        freeproc j ;;;
        punlock j ;;;
        zoom hart_p (release LkWait) ;;;
        ret (Some (pid, pp))
    else punlock j ;;; ret None) ;;
  match r with
  | Some (r, pp) => ret (Done r, Some pp)
  | None =>
      k <- (if havekids : bool then is_killed i else ret 1) ;;
      if truth k then zoom hart_p (release LkWait) ;;; ret (Done (-1), None)
      else sleep (ChProc i) LkWait ;;; ret (Slept (ChProc i) 0, None)
  end.

Definition wait (addr : Z) : M pst presult :=
  zoom hart_p (acquire LkWait) ;;;
  r <- wait_scan killed addr ;; ret (fst r).
(** [wait] from the return of its [sleep]. *)
Definition wait_back (intena : bool) (addr : Z) : M pst presult :=
  sleep_back LkWait intena ;;;
  r <- wait_scan killed addr ;; ret (fst r).

(** [*wtime] and [*rtime] of the child. *)
Definition times (pp : proc) : Z * Z := (u32 (p_etime pp - p_ctime pp - p_rtime pp), p_rtime pp).
Definition waitx_scan (addr : Z) : M pst (presult * option (Z * Z)) :=
  r <- wait_scan (λ i, p <- pget i ;; ret (p_killed p)) addr ;; ret (fst r, times <$> snd r).
Definition waitx (addr : Z) : M pst (presult * option (Z * Z)) :=
  zoom hart_p (acquire LkWait) ;;; waitx_scan addr.
Definition waitx_back (intena : bool) (addr : Z) : M pst (presult * option (Z * Z)) :=
  sleep_back LkWait intena ;;; waitx_scan addr.

Definition update_time : M pst unit :=
  for_all procs (λ i,
    plock i ;;;
    p <- pget i ;;
    when (bool_decide (p_state p = RUNNING)) (pupd i (λ p, p <| p_rtime := u32 (p_rtime p + 1) |>)) ;;;
    punlock i).
End proc.

(** ** Shared run lemmas *)
Section runs.
Context {F : Type}.
Abbreviation pst := (pstate F).

Definition hart_of (s : pst) : hart := k_hart (ps_k s).

#[global] Instance hart_p_laws : LensLaws (hart_p (F := F)).
Proof. split; intros *; [done|by destruct s as [[] ? ? ? ? ? ? ? ? ?]|done]. Qed.

Lemma pget_run i p (s : pst) : ps_proc s !! i = Some p → pget i s = (Ret p, s).
Proof. unfold pget. by intros ->. Qed.

Lemma pupd_run i p f (s : pst) : ps_proc s !! i = Some p → pupd i f s = (Ret tt, s <| ps_proc ::= alter f i |>).
Proof. intros E. unfold pupd. by rewrite (bind_Ret _ _ _ _ _ (pget_run _ _ _ E)). Qed.

Lemma myproc_run (s : pst) : hart_ok (hart_of s) → myproc s = (Ret (ps_cur s), s).
Proof.
  intros Ho. destruct (push_pop_run _ Ho) as (h' & E1 & E2). unfold myproc.
  rewrite (bind_Ret _ _ _ _ _ (zoom_run hart_p _ s _ _ E1)). unfold bind, gets, zoom. simpl. rewrite E2.
  by destruct s as [[] ? ? ? ? ? ? ? ? ?].
Qed.

Lemma me_run (s : pst) i : hart_ok (hart_of s) → ps_cur s = Some i → me s = (Ret i, s).
Proof. intros Ho E. unfold me. rewrite (bind_Ret _ _ _ _ _ (myproc_run s Ho)). by rewrite E. Qed.
End runs.

(** Files that are never used, for examples. *)
#[global] Instance no_files : FileSys unit := {|
  filedup f := ret f;
  fileclose _ := ret tt;
  idup i := ret i;
  iput _ := ret tt;
  begin_op_f := ret tt;
  end_op_f := ret tt;
  namei _ := ret 0;
  fsinit _ := ret tt;
|}.
