(* ===== verification/Sched.v ===== *)
(** * Schedulers: [scheduler] of [kernel/proc.c] and [kernel/random.c]

    One round of the scheduler chooses a process by one of five policies (the
    build selects one), marks it [RUNNING] and switches to it. *)
From S2P Require Import Prelude Machine Cstring Spinlock Sleeplock Kalloc Vm Proc.

Inductive policy := RR | FCFS | LOTTERY | PBS | MLFQ.
#[global] Instance policy_eq_dec : EqDecision policy.
Proof. solve_decision. Defined.

Definition RAND_MAX : Z := 32767.
Definition rand (seed : Z) : Z :=
  let seed := u64 (seed * 1103515245 + 12345) in
  u32 (seed / 65536) mod 32768.

(** [int] division on RISC-V. *)
Definition div32 (a b : Z) : Z := if b =? 0 then -1 else i32 (Z.quot a b).

Section sched.
Context {F : Type} `{FileSys F}.
Abbreviation pst := (pstate F).

(** ** The multi-level queues *)

(** [queue[l][j]] *)
Definition qget (l : Z) (j : nat) : M pst (option nat) := λ s,
  match ps_queue s !! Z.to_nat l ≫= (.!! j) with
  | Some e => (Ret e, s)
  | None => (Panic "queue: out of bounds", s)
  end.
Definition qset (l : Z) (j : nat) (e : option nat) : M pst unit :=
  modify (λ s, s <| ps_queue ::= alter (<[j := e]>) (Z.to_nat l) |>).

(** [fp && fp->pid == p->pid] *)
Definition same_pid (fp : option nat) (pid : Z) : M pst bool :=
  match fp with None => ret false | Some k => q <- pget k ;; ret (p_pid q =? pid) end.

Definition dequeue_proc (i : nat) : M pst unit :=
  p <- pget i ;;
  for_each (seq 0 NPROC) (λ n,
    fp <- qget (p_pr p) n ;;
    b <- same_pid fp (p_pid p) ;;
    if b then
      for_all (seq (n + 1) (NPROC - (n + 1))) (λ j, e <- qget (p_pr p) j ;; qset (p_pr p) (j - 1) e) ;;;
      ret (Some tt)
    else ret None) ;;;
  ret tt.

Definition queue_proc (i : nat) : M pst unit :=
  p <- pget i ;;
  for_each (seq 0 NPROC) (λ n,
    fp <- qget (p_pr p) n ;;
    b <- same_pid fp (p_pid p) ;;
    if b then ret (Some tt) else
    match fp with
    | None => qset (p_pr p) n (Some i) ;;; ret (Some tt)
    | Some _ => ret None
    end) ;;;
  ret tt.

(** ** Choosing a process *)

(** RR: the first runnable process, or the address behind the table. *)
Definition pick_rr : M pst (option nat) :=
  r <- for_each procs (λ i,
    plock i ;;;
    p <- pget i ;;
    punlock i ;;;
    ret (if decide (p_state p = RUNNABLE) then Some i else None)) ;;
  ret (Some (default NPROC r)).

(** A pass over the runnable processes with an accumulator, for the other
    policies; [inr] leaves the loop. *)
Fixpoint scan {A B} (l : list nat) (body : nat → proc → A → M pst (A + B)) (a : A) : M pst (A + B) :=
  match l with
  | [] => ret (inl a)
  | i :: l =>
      plock i ;;;
      p <- pget i ;;
      r <- (if decide (p_state p = RUNNABLE) then body i p a else ret (inl a)) ;;
      punlock i ;;;
      match r with inl a => scan l body a | inr b => ret (inr b) end
  end.
Definition scan_all {A} (body : nat → proc → A → M pst A) (a : A) : M pst A :=
  r <- scan (B := False) procs (λ i p a, a <- body i p a ;; ret (inl a)) a ;;
  match r with inl a => ret a | inr b => match b with end end.

(** FCFS *)
Definition pick_fcfs : M pst (option nat) :=
  scan_all (λ i fp a,
    match a with
    | None => ret (Some i)
    | Some k => p <- pget k ;; ret (if p_ctime fp <? p_ctime p then Some i else a)
    end) None.

(** LOTTERY *)
Definition total_tickets : M pst Z := scan_all (λ _ fp tot, ret (i32 (tot + p_tickets fp))) 0.
Definition pick_lottery : M pst (option nat) :=
  tot_tk <- total_tickets ;;
  ticks <- gets ps_ticks ;;
  let rv := rand ticks in
  r <- scan procs (λ i fp sv,
    let prob := div32 (i32 (p_tickets fp * RAND_MAX)) tot_tk in
    ret (if (sv <=? rv) && (rv <? i32 (sv + prob)) then inr i else inl (i32 (sv + prob)))) 0 ;;
  ret (match r with inr p => Some p | inl _ => None end).

(** PBS *)
Definition niceness (fp : proc) : Z :=
  let sleep := i32 (p_wtime fp - p_stime fp) in
  if (sleep =? 0) && (p_pbs_rtime fp =? 0) then 5
  else i32 (div32 sleep (i32 (sleep + p_pbs_rtime fp)) * 10).
Definition dyn_priority (fp : proc) : Z :=
  max 0 (min (i32 (p_staticP fp - niceness fp + 5)) 100).
Definition pick_pbs : M pst (option nat) :=
  r <- scan_all (λ i fp (a : option nat * Z),
    let '(best, min_dp) := a in
    pupd i (λ p, p <| p_niceness := niceness fp |>) ;;;
    let dp := dyn_priority fp in
    if dp <? min_dp then ret (Some i, dp)
    else if dp =? min_dp then
      match best with
      | None => panic "kerneltrap"
      | Some k =>
          p <- pget k ;;
          ret (if p_sch_no fp <? p_sch_no p then (Some i, min_dp)
               else if (p_sch_no fp =? p_sch_no p) && (p_ctime fp <? p_ctime p) then (Some i, min_dp)
               else (best, min_dp))
      end
    else ret (best, min_dp)) (None, 103) ;;
  ret (fst r).

(** MLFQ *)
Definition AGE : Z := 30.
Definition pick_mlfq : M pst (option nat) :=
  for_all procs (λ i, p <- pget i ;; when (bool_decide (p_state p = RUNNABLE)) (queue_proc i)) ;;;
  for_all (seq 1 (NPR - 1)) (λ l, for_all (seq 0 NPROC) (λ j,
    fp <- qget (Z.of_nat l) j ;;
    match fp with
    | None => ret tt
    | Some k =>
        p <- pget k ;;
        when (AGE <=? p_wticks p)
          (dequeue_proc k ;;;
           pupd k (λ p, p <| p_pr := p_pr p - 1 |>) ;;;
           pupd k (λ p, p <| p_wticks := 0 |>) ;;;
           queue_proc k)
    end)) ;;;
  r <- for_each (seq 0 NPR) (λ l,
    r <- for_each (seq 0 NPROC) (λ j,
      fp <- qget (Z.of_nat l) j ;;
      match fp with
      | None => ret (Some None)
      | Some k =>
          p <- pget k ;;
          if decide (p_state p = RUNNABLE) then
            dequeue_proc k ;;;
            pupd k (λ p, p <| p_wticks := 0 |>) ;;;
            ret (Some (Some k))
          else dequeue_proc k ;;; ret None
      end) ;;
    ret (default None r)) ;;
  ret r.

Definition pick (pol : policy) : M pst (option nat) :=
  match pol with
  | RR => pick_rr
  | FCFS => pick_fcfs
  | LOTTERY => pick_lottery
  | PBS => pick_pbs
  | MLFQ => pick_mlfq
  end.

(** ** The scheduler *)

(** One round of the loop up to [swtch]: the process it switches to. *)
Definition scheduler (pol : policy) : M pst (option nat) :=
  zoom hart_p intr_on ;;;
  p <- pick pol ;;
  match p with
  | None => ret None
  | Some i =>
      plock i ;;;
      p <- pget i ;;
      if decide (p_state p = RUNNABLE) then
        pupd i (λ p, p <| p_state := RUNNING |>) ;;;
        (if decide (pol = PBS) then
           pupd i (λ p, p <| p_pbs_rtime := 0 |> <| p_stime := 0 |> <| p_niceness := 5 |> <| p_wtime := 0 |>
                          <| p_sch_no := i32 (p_sch_no p + 1) |>)
         else ret tt) ;;;
        modify (λ s, s <| ps_cur := Some i |>) ;;;
        ret (Some i)
      else punlock i ;;; ret None
  end.
(** The rest of the round, when process [i] has switched back. *)
Definition scheduler_back (i : nat) : M pst unit :=
  modify (λ s, s <| ps_cur := None |>) ;;;
  punlock i.
End sched.
