(* ===== verification/SchedSpec.v ===== *)
(** * What the schedulers choose

    First come first served takes the oldest runnable process, the priority
    scheduler the best one by dynamic priority, number of times scheduled and
    age; round robin always takes the first one of the table. *)
From S2P Require Import Prelude Machine Cstring Spinlock Sleeplock Kalloc Vm Proc Sched.

(** ** The first minimum of the runnable processes *)

(** A strict weak order. *)
Class WeakOrder (lt : proc → proc → bool) : Prop := {
  lt_irrefl : ∀ p, lt p p = false;
  lt_asym : ∀ p q, lt p q = true → lt q p = false;
  lt_neg : ∀ p q r, lt p q = false → lt q r = false → lt p r = false;
}.

Section best.
Context (lt : proc → proc → bool) `{!WeakOrder lt}.

(** [k] is runnable, no runnable process is before it in the order, and it is before those ahead of it in the table. *)
Definition is_best (ps : list proc) (k : nat) : Prop :=
  ∃ p, ps !! k = Some p ∧ p_state p = RUNNABLE ∧
    (∀ j q, ps !! j = Some q → p_state q = RUNNABLE → lt q p = false) ∧
    (∀ j q, (j < k)%nat → ps !! j = Some q → p_state q = RUNNABLE → lt p q = true).

Definition choice (ps : list proc) (r : option nat) : Prop :=
  match r with
  | Some k => is_best ps k
  | None => ∀ j q, ps !! j = Some q → p_state q ≠ RUNNABLE
  end.

Definition better (ps : list proc) (a : option nat) (i : nat) (p : proc) : option nat :=
  match a with
  | None => Some i
  | Some k => match ps !! k with Some q => if lt p q then Some i else a | None => a end
  end.

Lemma choice_snoc ps a p : choice ps a → p_state p = RUNNABLE →
  choice (ps ++ [p]) (better ps a (length ps) p).
Proof.
  intros Hc Hp. assert (∀ j q, (ps ++ [p]) !! j = Some q → ps !! j = Some q ∨ j = length ps ∧ q = p) as Hl.
  { intros j q [Hj|[Hj Hq]]%lookup_app_Some; [by left|right]. apply list_lookup_singleton_Some in Hq as [? <-].
    split; [lia|done]. }
  assert (∀ j q, (j < length ps)%nat → (ps ++ [p]) !! j = Some q → ps !! j = Some q) as Hl'.
  { intros j q Hj Hq. destruct (Hl j q Hq) as [|[-> _]]; [done|lia]. }
  assert ((ps ++ [p]) !! length ps = Some p) as Hlast by (by rewrite lookup_app_r, Nat.sub_diag by lia).
  destruct a as [k|]; simpl in *.
  - destruct Hc as (q & Hk & Hq & H1 & H2). rewrite Hk. pose proof (lookup_lt_Some _ _ _ Hk). destruct (lt p q) eqn:E.
    + exists p. split_and!; [done|done|..].
      * intros j r [Hj|[_ ->]]%Hl Hr; [|apply lt_irrefl]. eapply lt_neg; [by eapply H1|by apply lt_asym].
      * intros j r Hj Hr%Hl' Hrr; [|done]. destruct (lt p r) eqn:Er; [done|].
        rewrite <-E. symmetry. eapply lt_neg; [done|by eapply H1].
    + exists q. split_and!; [by apply lookup_app_l_Some|done|..].
      * intros j r [Hj|[_ ->]]%Hl Hr; [by eapply H1|done].
      * intros j r Hj Hr%Hl' Hrr; [by eapply H2|lia].
  - exists p. split_and!; [done|done|..].
    + intros j r [Hj|[_ ->]]%Hl Hr; [by destruct (Hc j r)|apply lt_irrefl].
    + intros j r Hj Hr%Hl' Hrr; [by destruct (Hc j r)|done].
Qed.

Lemma choice_skip ps a p : choice ps a → p_state p ≠ RUNNABLE → choice (ps ++ [p]) a.
Proof.
  intros Hc Hp. assert (∀ j q, (ps ++ [p]) !! j = Some q → p_state q = RUNNABLE → ps !! j = Some q) as Hl.
  { intros j q [Hj|[Hj Hq]]%lookup_app_Some Hr; [done|]. apply list_lookup_singleton_Some in Hq as [? <-]. done. }
  destruct a as [k|]; simpl in *.
  - destruct Hc as (q & Hk & Hq & H1 & H2). exists q. split_and!; [by apply lookup_app_l_Some|done|..].
    + intros j r Hj Hr. eapply H1; [by apply Hl|done].
    + intros j r Hlt Hj Hr. eapply H2; [done|by apply Hl|done].
  - intros j q Hj Hr. by destruct (Hc j q); [apply Hl|].
Qed.
End best.

(** ** Passes over the table *)
Section scan.
Context {F : Type}.
Abbreviation pst := (pstate F).

(** The scheduler's CPU between two processes: no lock held, [intena] as the interrupts are. *)
Record sched_ok (s : pst) : Prop := {
  so_hart : hart_ok (hart_of s);
  so_held : h_held (hart_of s) = [];
  so_len : length (ps_proc s) = NPROC;
}.

(** The state with the lock of process [i] taken. *)
Definition locked (i : nat) (s : pst) : pst := lset hart_p (taken (LkProc i) (hart_of s)) s.

Lemma plock_run i s : sched_ok s → plock i s = (Ret tt, locked i s).
Proof.
  intros [Ho Hh _]. apply (zoom_run hart_p _ s), acquire_run; [done|].
  change (lget hart_p s) with (hart_of s). rewrite Hh. apply not_elem_of_nil.
Qed.

Lemma punlock_run i (s s' : pst) : sched_ok s → hart_of s' = hart_of (locked i s) → punlock i s' = (Ret tt, lset hart_p (hart_of s) s').
Proof.
  intros [Ho Hh _] E. apply (zoom_run hart_p). simpl. unfold hart_of in *. rewrite E. apply release_run; [done|].
  rewrite Hh. apply not_elem_of_nil.
Qed.

Lemma unlock_locked i (s : pst) : lset hart_p (hart_of s) (locked i s) = s.
Proof. by destruct s as [[] ? ? ? ? ? ? ? ? ?]. Qed.

(** A pass whose body changes at most the table, under the lock of its process. *)
Lemma scan_run {A B} (body : nat → proc → A → M pst (A + B)) (I : nat → A → pst → Prop) (Q : A + B → pst → Prop) a s :
  (∀ n a s, I n a s → sched_ok s) →
  (∀ n a s p, I n a s → (n < NPROC)%nat → ps_proc s !! n = Some p → p_state p ≠ RUNNABLE → I (S n) a s) →
  (∀ n a s p, I n a s → (n < NPROC)%nat → ps_proc s !! n = Some p → p_state p = RUNNABLE →
     wp (body n p a) (λ r s', hart_of s' = hart_of (locked n s) ∧
       let t := lset hart_p (hart_of s) s' in match r with inl a => I (S n) a t | inr b => Q (inr b) t end) (locked n s)) →
  (∀ a s, I NPROC a s → Q (inl a) s) →
  I O a s → wp (scan procs body a) Q s.
Proof.
  intros Hok Hskip Hbody Hend H0.
  cut (∀ m n a s, (n + m = NPROC)%nat → I n a s → wp (scan (seq n m) body a) Q s); [intros Hc; by apply (Hc NPROC O)|].
  clear a s H0. induction m as [|m IH]; intros n a s Hn Hi; cbn [seq scan].
  { apply wp_ret, Hend. by replace NPROC with n by lia. }
  pose proof (Hok _ _ _ Hi) as Hs. destruct (lookup_lt_is_Some_2 (ps_proc s) n) as [p Hp]; [rewrite so_len by done; lia|].
  wp_step. apply (wp_intro _ _ _ _ _ (plock_run n s Hs)). wp_step. apply (wp_intro _ _ _ _ _ (pget_run n p (locked n s) Hp)).
  wp_step. case_decide as Hr.
  - eapply wp_mono; [apply Hbody; [done|lia|done|done]|]. intros r s' [Hh Hi']. wp_step.
    apply (wp_intro _ _ _ _ _ (punlock_run n s s' Hs Hh)). destruct r as [a'|b]; [apply IH; [lia|done]|by apply wp_ret].
  - apply wp_ret. wp_step. apply (wp_intro _ _ _ _ _ (punlock_run n s (locked n s) Hs eq_refl)).
    rewrite unlock_locked. apply IH; [lia|]. eapply Hskip; [done|lia|done|done].
Qed.

Lemma take_last {A} (l : list A) n x : l !! n = Some x → take (S n) l = take n l ++ [x].
Proof. apply take_S_r. Qed.
End scan.

(** ** The orders of the policies *)

(** FCFS: by creation time. *)
Definition fcfs_before (p q : proc) : bool := p_ctime p <? p_ctime q.
(** PBS: by dynamic priority, times scheduled, creation time. *)
Definition pbs_before (p q : proc) : bool :=
  (dyn_priority p <? dyn_priority q) ||
  (dyn_priority p =? dyn_priority q) && ((p_sch_no p <? p_sch_no q) ||
    (p_sch_no p =? p_sch_no q) && (p_ctime p <? p_ctime q)).

#[global] Instance fcfs_order : WeakOrder fcfs_before.
Proof. unfold fcfs_before. split; intros *; rewrite ?Z.ltb_ge, ?Z.ltb_lt; lia. Qed.

Lemma pbs_before_spec p q : pbs_before p q = true ↔
  dyn_priority p < dyn_priority q ∨ dyn_priority p = dyn_priority q ∧
    (p_sch_no p < p_sch_no q ∨ p_sch_no p = p_sch_no q ∧ p_ctime p < p_ctime q).
Proof. unfold pbs_before. rewrite !orb_true_iff, !andb_true_iff, !orb_true_iff, !andb_true_iff, !Z.ltb_lt, !Z.eqb_eq. done. Qed.

#[global] Instance pbs_order : WeakOrder pbs_before.
Proof. split; intros *; rewrite <-?not_true_iff_false, ?pbs_before_spec; lia. Qed.

Section policies.
Context {F : Type} `{FileSys F}.
Abbreviation pst := (pstate F).

(** [scan_all] with an invariant. *)
Lemma scan_all_run {A} (body : nat → proc → A → M pst A) (I : nat → A → pst → Prop) a s :
  (∀ n a s, I n a s → sched_ok s) →
  (∀ n a s p, I n a s → (n < NPROC)%nat → ps_proc s !! n = Some p → p_state p ≠ RUNNABLE → I (S n) a s) →
  (∀ n a s p, I n a s → (n < NPROC)%nat → ps_proc s !! n = Some p → p_state p = RUNNABLE →
     wp (body n p a) (λ a s', hart_of s' = hart_of (locked n s) ∧ I (S n) a (lset hart_p (hart_of s) s')) (locked n s)) →
  I O a s → wp (scan_all body a) (λ a s', I NPROC a s') s.
Proof.
  intros Hok Hskip Hbody H0. unfold scan_all. wp_step.
  apply (scan_run _ I (λ r s', wp (match r with inl a => ret a | inr b => match b : False with end end) (λ a s', I NPROC a s') s'));
    [done|done| |by intros; apply wp_ret|done].
  intros n a' t p Hi Hn Hp Hr. wp_step. eapply wp_mono; [by apply Hbody|]. intros a'' t' Ht. by apply wp_ret.
Qed.

Lemma pick_fcfs_run (s : pst) : sched_ok s → wp pick_fcfs (λ r s', s' = s ∧ choice fcfs_before (ps_proc s) r) s.
Proof.
  intros Hs. unfold pick_fcfs. eapply wp_mono; [apply (scan_all_run _ (λ n a t, t = s ∧ choice fcfs_before (take n (ps_proc s)) a))|].
  - by intros n a t [-> _].
  - intros n a t p [-> Hc] Hn Hp Hr. split; [done|]. rewrite (take_last _ _ _ Hp). by apply choice_skip.
  - intros n a t p [-> Hc] Hn Hp Hr. pose proof (so_len _ Hs) as Hl.
    assert (choice fcfs_before (take (S n) (ps_proc s)) (better fcfs_before (take n (ps_proc s)) a n p)) as Hnew.
    { rewrite (take_last _ _ _ Hp). replace n with (length (take n (ps_proc s))) at 3 by (rewrite length_take; lia).
      by apply choice_snoc; [apply _|..]. }
    destruct a as [k|].
    + destruct Hc as (q & Hk & _). simpl in Hnew. rewrite Hk in Hnew. apply lookup_take_Some in Hk as [Hk _].
      wp_step. apply (wp_intro _ _ _ _ _ (pget_run k q (locked n s) Hk)). wp_step. rewrite unlock_locked. split_and!; [done|done|].
      unfold fcfs_before in Hnew. by destruct (_ <? _).
    + wp_step. rewrite unlock_locked. by split_and!.
  - by split.
  - intros a t [-> Hc]. split; [done|]. by rewrite <-(so_len _ Hs), take_ge in Hc.
Qed.

(** The table up to the niceness values, which the order does not depend on. *)
Definition renice : list proc → list proc → Prop := Forall2 (λ p p', ∃ x, p' = p <| p_niceness := x |>).

Lemma renice_refl ps : renice ps ps.
Proof. apply Forall2_same_length_lookup. split; [done|]. intros i p p' E1 E2. rewrite E1 in E2. injection E2 as <-. exists (p_niceness p). by destruct p. Qed.

Lemma renice_alter ps ps' n x : renice ps ps' → renice ps (alter (λ p, p <| p_niceness := x |>) n ps').
Proof.
  intros [Hl Hr]%Forall2_same_length_lookup. apply Forall2_same_length_lookup. rewrite length_alter. split; [done|].
  intros i p p' Hp Hp'. destruct (decide (i = n)) as [->|Hne].
  - rewrite list_lookup_alter_eq in Hp'. destruct (ps' !! n) as [q|] eqn:E; [|done]. injection Hp' as <-.
    destruct (Hr n p q Hp E) as [y ->]. by exists x.
  - rewrite list_lookup_alter_ne in Hp' by done. by eapply Hr.
Qed.

Lemma renice_lookup ps ps' i p : renice ps ps' → ps !! i = Some p → ∃ x, ps' !! i = Some (p <| p_niceness := x |>).
Proof. intros Hr Hp. destruct (Forall2_lookup_l _ _ _ _ _ Hr Hp) as (q & Hq & x & ->). eauto. Qed.

Lemma renice_lookup_r ps ps' i p' : renice ps ps' → ps' !! i = Some p' → ∃ p x, ps !! i = Some p ∧ p' = p <| p_niceness := x |>.
Proof. intros Hr Hp. destruct (Forall2_lookup_r _ _ _ _ _ Hr Hp) as (q & Hq & x & ->). eauto. Qed.

Lemma renice_ok (s : pst) ps : sched_ok s → renice (ps_proc s) ps → sched_ok (s <| ps_proc := ps |>).
Proof. intros [] Hr. split; try done. simpl. by rewrite <-(Forall2_length _ _ _ Hr). Qed.

Definition best_dp (ps : list proc) (best : option nat) : Z :=
  match best ≫= (ps !!.) with Some p => dyn_priority p | None => 103 end.

Lemma dyn_priority_bound p : 0 <= dyn_priority p <= 100.
Proof. unfold dyn_priority, max, min. zbool; lia. Qed.

(** One comparison of the loop. *)
Lemma pbs_better (ps : list proc) best i p : (∀ k, best = Some k → is_Some (ps !! k)) →
  let dp := dyn_priority p in
  better pbs_before ps best i p =
    if dp <? best_dp ps best then Some i
    else if dp =? best_dp ps best then
      match best ≫= (ps !!.) with
      | Some q => if p_sch_no p <? p_sch_no q then Some i
                  else if (p_sch_no p =? p_sch_no q) && (p_ctime p <? p_ctime q) then Some i else best
      | None => best
      end
    else best.
Proof.
  intros Hb dp. pose proof (dyn_priority_bound p). unfold better, best_dp, dp. destruct best as [k|]; simpl.
  - destruct (Hb k eq_refl) as [q Hq]. rewrite Hq. unfold pbs_before.
    destruct (_ <? _); [done|]. destruct (_ =? _); [|done]. simpl. destruct (_ <? _); [done|]. by destruct (_ && _).
  - destruct (Z.ltb_spec (dyn_priority p) 103); [done|lia].
Qed.

Lemma best_dp_step (ps : list proc) n p best : ps !! n = Some p → (∀ k, best = Some k → is_Some (take n ps !! k)) →
  let r := better pbs_before (take n ps) best n p in
  (if decide (r = best) then best_dp (take n ps) best else dyn_priority p) = best_dp (take (S n) ps) r.
Proof.
  intros Hp Hb r. assert (r = Some n ∨ r = best ∧ is_Some best) as Hr.
  { unfold r, better. destruct best as [k|]; [|by left]. destruct (Hb k eq_refl) as [q ->]. destruct (pbs_before p q); eauto. }
  rewrite (take_last _ _ _ Hp). destruct Hr as [->|[-> [k ->]]].
  - assert (Some n ≠ best) as Hne.
    { intros <-. destruct (Hb n eq_refl) as [q Hq]. apply lookup_take_Some in Hq. lia. }
    rewrite decide_False by done. unfold best_dp. simpl.
    rewrite lookup_app_r, length_take_le by (rewrite ?length_take; apply lookup_lt_Some in Hp; lia). by rewrite Nat.sub_diag.
  - rewrite decide_True by done. destruct (Hb k eq_refl) as [q Hq]. unfold best_dp. simpl.
    by rewrite Hq, (lookup_app_l_Some _ _ _ _ Hq).
Qed.

Lemma pick_pbs_run (s : pst) : sched_ok s →
  wp pick_pbs (λ r s', (∃ ps, s' = s <| ps_proc := ps |> ∧ renice (ps_proc s) ps) ∧ choice pbs_before (ps_proc s) r) s.
Proof.
  intros Hs. unfold pick_pbs. wp_step.
  eapply wp_mono; [apply (scan_all_run _ (λ n a t, (∃ ps, t = s <| ps_proc := ps |> ∧ renice (ps_proc s) ps) ∧
    choice pbs_before (take n (ps_proc s)) (fst a) ∧ snd a = best_dp (take n (ps_proc s)) (fst a)))|].
  - intros n a t [(ps & -> & Hr) _]. by apply renice_ok.
  - intros n [best m] t p' [(ps & -> & Hr) [Hc Hm]] Hn Hp Hst. simpl in *.
    destruct (renice_lookup_r _ _ _ _ Hr Hp) as (p & x & Hp0 & ->). split; [eauto|]. rewrite (take_last _ _ _ Hp0).
    split; [by apply choice_skip|]. rewrite Hm. destruct best as [k|]; [|done]. simpl in Hc. destruct Hc as (q & Hk & _).
    unfold best_dp. simpl. by rewrite Hk, (lookup_app_l_Some _ _ _ _ Hk).
  - intros n [best m] t p' [(ps & -> & Hr) [Hc Hm]] Hn Hp Hst. simpl in Hc, Hm, Hp.
    destruct (renice_lookup_r _ _ _ _ Hr Hp) as (p & x & Hp0 & ->). pose proof (so_len _ Hs) as Hl.
    assert (∀ k, best = Some k → is_Some (take n (ps_proc s) !! k)) as Hb.
    { intros k ->. destruct Hc as (q & Hk & _). eauto. }
    assert (choice pbs_before (take (S n) (ps_proc s)) (better pbs_before (take n (ps_proc s)) best n p)) as Hnew.
    { rewrite (take_last _ _ _ Hp0). replace n with (length (take n (ps_proc s))) at 3 by (rewrite length_take; lia).
      by apply choice_snoc; [apply _|..]. }
    set (t := s <| ps_proc := ps |>) in *. set (f := λ q, q <| p_niceness := niceness (p <| p_niceness := x |>) |>).
    assert (∀ r d, r = better pbs_before (take n (ps_proc s)) best n p →
      d = (if decide (r = best) then m else dyn_priority p) →
      wp (ret (r, d)) (λ a s', hart_of s' = hart_of (locked n t) ∧
        (∃ ps0, lset hart_p (hart_of t) s' = s <| ps_proc := ps0 |> ∧ renice (ps_proc s) ps0) ∧
        choice pbs_before (take (S n) (ps_proc s)) (fst a) ∧ snd a = best_dp (take (S n) (ps_proc s)) (fst a))
        ((locked n t) <| ps_proc ::= alter f n |>)) as Hret.
    { intros r d -> ->. wp_step. split_and!; [done| |done|].
      - exists (alter f n ps). split; [by destruct s as [[] ? ? ? ? ? ? ? ? ?]|by apply renice_alter].
      - simpl. rewrite Hm. by apply best_dp_step. }
    wp_step. apply (wp_intro _ _ _ _ _ (pupd_run n _ f (locked n t) Hp)).
    pose proof (pbs_better (take n (ps_proc s)) best n p Hb) as Hcmp. simpl in Hcmp. rewrite <-Hm in Hcmp.
    remember (better pbs_before (take n (ps_proc s)) best n p) as bt eqn:Ebt.
    change (dyn_priority (p <| p_niceness := x |>)) with (dyn_priority p).
    assert (Some n ≠ best) as Hne.
    { intros <-. destruct (Hb n eq_refl) as [q Hq]. apply lookup_take_Some in Hq. lia. }
    destruct (dyn_priority p <? m) eqn:E1; [apply Hret; [done|by rewrite decide_False]|].
    destruct (dyn_priority p =? m) eqn:E2; [|apply Hret; [done|by rewrite decide_True]].
    apply Z.eqb_eq in E2. destruct best as [k|].
    2:{ pose proof (dyn_priority_bound p) as Hd. rewrite Hm in E2. unfold best_dp in E2. simpl in E2. lia. }
    destruct (Hb k eq_refl) as [q Hq]. simpl in Hcmp. rewrite Hq in Hcmp. apply lookup_take_Some in Hq as [Hq Hkn].
    destruct (renice_lookup _ _ _ _ Hr Hq) as [y Hy].
    wp_step. eapply wp_intro; [apply (pget_run k (q <| p_niceness := y |>)); simpl; rewrite list_lookup_alter_ne by lia; exact Hy|].
    simpl. destruct (p_sch_no p <? p_sch_no q); [apply Hret; [done|by rewrite decide_False]|].
    destruct ((p_sch_no p =? p_sch_no q) && (p_ctime p <? p_ctime q)); (apply Hret; [done|]); [by rewrite decide_False|by rewrite decide_True].
  - split; [exists (ps_proc s); split; [by destruct s|apply renice_refl]|]. by split.
  - intros [best m] t [Ht [Hc _]]. wp_step. split; [done|]. by rewrite <-(so_len _ Hs), take_ge in Hc.
Qed.

(** Round robin: the first runnable process, or the address behind the table. *)
Definition first_runnable (ps : list proc) (k : nat) : Prop :=
  (∀ j q, (j < k)%nat → ps !! j = Some q → p_state q ≠ RUNNABLE) ∧
  (k = length ps ∨ ∃ p, ps !! k = Some p ∧ p_state p = RUNNABLE).

Lemma pick_rr_run (s : pst) : sched_ok s → wp pick_rr (λ r s', s' = s ∧ ∃ k, r = Some k ∧ first_runnable (ps_proc s) k) s.
Proof.
  intros Hs. pose proof (so_len _ Hs) as Hl. unfold pick_rr. wp_step.
  apply (wp_for_each _ _ (λ pre t, t = s ∧ ∀ j q, (j < length pre)%nat → ps_proc s !! j = Some q → p_state q ≠ RUNNABLE)
    (λ r t, wp (ret (Some (default NPROC r))) (λ r s', s' = s ∧ ∃ k, r = Some k ∧ first_runnable (ps_proc s) k) t)).
  - split; [done|]. simpl. lia.
  - intros pre i suf t Hpre [-> Hno]. assert (i = length pre ∧ (i < NPROC)%nat) as [-> Hi].
    { pose proof (f_equal (.!! length pre) Hpre) as E. rewrite lookup_app_r, Nat.sub_diag in E by lia. simpl in E.
      apply lookup_seq in E as [E ?]. split; lia. }
    destruct (lookup_lt_is_Some_2 (ps_proc s) (length pre)) as [p Hp]; [lia|].
    wp_step. apply (wp_intro _ _ _ _ _ (plock_run _ s Hs)). wp_step. apply (wp_intro _ _ _ _ _ (pget_run _ p (locked _ s) Hp)).
    wp_step. apply (wp_intro _ _ _ _ _ (punlock_run _ s (locked _ s) Hs eq_refl)). rewrite unlock_locked. wp_step.
    case_decide as Hr.
    + wp_step. split; [done|]. exists (length pre). split; [done|]. split; [done|]. right. eauto.
    + split; [done|]. intros j q Hj Hq. rewrite length_app in Hj. simpl in Hj.
      destruct (decide (j = length pre)) as [->|]; [by simplify_eq|]. apply (Hno j q); [lia|done].
  - intros t [-> Hno]. unfold procs in Hno. rewrite length_seq in Hno. wp_step. split; [done|]. exists NPROC.
    split; [done|]. split; [done|by left].
Qed.

(** ** A round of the scheduler *)

(** The CPU at the start of a round: no locks; [intena] may be stale. *)
Record sched_idle (s : pst) : Prop := {
  si_noff : h_noff (hart_of s) = 0;
  si_held : h_held (hart_of s) = [];
  si_len : length (ps_proc s) = NPROC;
}.
Definition enabled (s : pst) : pst := lset hart_p (Hart 0 true true []) s.

Lemma enabled_ok s : sched_idle s → sched_ok (enabled s).
Proof. intros []. split; try done. split_and!; simpl; try done. constructor. Qed.

(** [intr_on] and the first lock leave the same state whatever [intena] was. *)
Lemma plock_enabled i s : sched_idle s → plock i (lset hart_p (Hart 0 (h_intena (hart_of s)) true []) s) = plock i (enabled s).
Proof. intros Hs. by destruct s as [[] ? ? ? ? ? ? ? ? ?]. Qed.

Lemma intr_on_run s : sched_idle s →
  zoom hart_p intr_on s = (Ret tt, lset hart_p (Hart 0 (h_intena (hart_of s)) true []) s).
Proof. intros [E1 E2 _]. unfold zoom, intr_on, modify, hart_of in *. simpl. by rewrite E1, E2. Qed.

Lemma pick_enabled pol s : sched_idle s → pol ≠ MLFQ →
  pick pol (lset hart_p (Hart 0 (h_intena (hart_of s)) true []) s) = pick pol (enabled s).
Proof. intros Hs Hp. by destruct pol. Qed.

(** The process [i] as it is switched to. *)
Definition dispatched (pol : policy) (p : proc) : proc :=
  let p := p <| p_state := RUNNING |> in
  if decide (pol = PBS) then
    p <| p_pbs_rtime := 0 |> <| p_stime := 0 |> <| p_niceness := 5 |> <| p_wtime := 0 |> <| p_sch_no := i32 (p_sch_no p + 1) |>
  else p.

(** The rest of the round after the choice of a runnable process. *)
Lemma dispatch_run pol i p (s : pst) : sched_ok s → ps_proc s !! i = Some p → p_state p = RUNNABLE →
  (plock i ;;;
   p <- pget i ;;
   if decide (p_state p = RUNNABLE) then
     pupd i (λ p, p <| p_state := RUNNING |>) ;;;
     (if decide (pol = PBS) then
        pupd i (λ p, p <| p_pbs_rtime := 0 |> <| p_stime := 0 |> <| p_niceness := 5 |> <| p_wtime := 0 |>
                       <| p_sch_no := i32 (p_sch_no p + 1) |>)
      else ret tt) ;;;
     modify (λ s, s <| ps_cur := Some i |>) ;;;
     ret (Some i)
   else punlock i ;;; ret None) s =
  (Ret (Some i), (locked i s) <| ps_proc ::= alter (dispatched pol) i |> <| ps_cur := Some i |>).
Proof.
  intros Hs Hp Hr. rewrite (bind_Ret _ _ _ _ _ (plock_run i s Hs)).
  rewrite (bind_Ret _ _ _ _ _ (pget_run i p (locked i s) Hp)), decide_True by done.
  rewrite (bind_Ret _ _ _ _ _ (pupd_run i p _ (locked i s) Hp)). unfold dispatched. case_decide.
  - erewrite bind_Ret; [|eapply pupd_run; simpl; rewrite list_lookup_alter_eq, Hp; reflexivity].
    unfold bind, modify, ret. do 2 f_equal. simpl. by rewrite list_alter_alter_eq.
  - done.
Qed.

Definition before (pol : policy) : proc → proc → bool := if decide (pol = PBS) then pbs_before else fcfs_before.

(** The states of all processes but [i] are as before, and [i] runs. *)
Record switched (i : nat) (s s' : pst) : Prop := {
  sw_cur : ps_cur s' = Some i;
  sw_held : h_held (hart_of s') = [LkProc i];
  sw_state : ∀ j, p_state <$> ps_proc s' !! j = if decide (j = i) then Some RUNNING else p_state <$> ps_proc s !! j;
}.

Lemma dispatched_switched pol i p (s : pst) ps : sched_ok s → renice (ps_proc s) ps → ps_proc s !! i = Some p →
  switched i s ((locked i (s <| ps_proc := ps |>)) <| ps_proc ::= alter (dispatched pol) i |> <| ps_cur := Some i |>).
Proof.
  intros Hs Hr Hp. split; simpl; [done|by rewrite <-(so_held _ Hs)|]. intros j. case_decide as Hj.
  - subst j. destruct (renice_lookup _ _ _ _ Hr Hp) as [x Hx]. rewrite list_lookup_alter_eq, Hx. simpl.
    unfold dispatched. by case_decide.
  - rewrite list_lookup_alter_ne by done. destruct (ps_proc s !! j) as [q|] eqn:Eq.
    + by destruct (renice_lookup _ _ _ _ Hr Eq) as [x ->].
    + apply lookup_ge_None_1 in Eq. rewrite lookup_ge_None_2; [done|]. by rewrite <-(Forall2_length _ _ _ Hr).
Qed.


(** The round-robin scheduler restarts at the head of the table in every
    round: it runs the first runnable process, whatever ran before, and with no
    runnable process it goes on to use the memory behind the table as one. *)
Lemma scheduler_rr_first (s : pst) : sched_idle s →
  (∃ k, first_runnable (ps_proc s) k ∧ (k < NPROC)%nat ∧ wp (scheduler RR) (λ r s', r = Some k ∧ switched k s s') s) ∨
  (∀ j q, ps_proc s !! j = Some q → p_state q ≠ RUNNABLE) ∧ (scheduler RR s).1 = Panic "proc: out of bounds".
Proof.
  intros Hs. pose proof (enabled_ok s Hs) as He. pose proof (pick_rr_run (enabled s) He) as Hw.
  apply wp_run in Hw as (r & s' & E & -> & k & -> & Hf). change (ps_proc (enabled s)) with (ps_proc s) in Hf.
  assert (scheduler RR s = (plock k ;;; p <- pget k ;;
    if decide (p_state p = RUNNABLE) then
      pupd k (λ p, p <| p_state := RUNNING |>) ;;; ret tt ;;;
      modify (λ s, s <| ps_cur := Some k |>) ;;; ret (Some k)
    else punlock k ;;; ret None) (enabled s)) as Hsch.
  { unfold scheduler. rewrite (bind_Ret _ _ _ _ _ (intr_on_run s Hs)). unfold bind at 1. rewrite pick_enabled by done.
    simpl. by rewrite E. }
  destruct Hf as [Hno [->|(p & Hp & Hr)]].
  - right. split; [intros j q Hj; apply (Hno j q); [by eapply lookup_lt_Some|done]|].
    rewrite Hsch, (bind_Ret _ _ _ _ _ (plock_run _ _ He)). unfold bind, pget. simpl. by rewrite lookup_ge_None_2.
  - left. exists k. split; [split; [done|right; eauto]|]. split; [rewrite <-(si_len _ Hs); by eapply lookup_lt_Some|].
    eapply wp_intro; [rewrite Hsch; apply (dispatch_run RR k p (enabled s) He Hp Hr)|]. split; [done|].
    destruct (dispatched_switched RR k p (enabled s) (ps_proc s) He (renice_refl _) Hp) as [E1 E2 E3]. by split.
Qed.
End policies.

(** ** A table with four processes, as an example *)
Module SchedDemo.

Definition mk (st : procstate) (pid ctime prio sched : Z) : proc :=
  proc0 <| p_state := st |> <| p_pid := pid |> <| p_ctime := ctime |> <| p_staticP := prio |> <| p_sch_no := sched |>.
Definition table : list proc :=
  [mk SLEEPING 1 0 60 3; mk RUNNABLE 2 5 60 2; mk RUNNABLE 3 9 40 1; mk RUNNABLE 4 7 40 1] ++ replicate 60 proc0.
Definition s0 : pstate unit :=
  PState (KState (Hart 0 false false []) (λ _, 0) 0 (λ _, 0) 1) table (replicate NPR (replicate NPROC None))
    (Some O) 5 None 0 false [] tt.

Lemma s0_idle : sched_idle s0.
Proof. by split. Qed.
End SchedDemo.

