(* ===== verification/Wakeup.v ===== *)
(** * No lost wakeup: [sleep] and [wakeup] of [kernel/proc.c] interleaved

    A process that waits for a condition under a spin lock [lk]
    ([while(!cond) sleep(chan, lk)]) and another CPU that makes the condition
    true and calls [wakeup(chan)], both as sequences of their accesses to the
    shared memory, in every interleaving.  [lk] is the lock that protects the
    condition, [pl] the lock of the process that sleeps. *)
From S2P Require Import Prelude Machine Proc.

Inductive holder := Sleeper | Waker.

(** The program counter of the sleeper. *)
Inductive spc :=
| SAcquire      (** the caller: [acquire(lk)] *)
| STest         (** the caller, [lk] held: [while(!cond)] *)
| SLockProc     (** [sleep]: [acquire(&p->lock)] *)
| SUnlock       (** [release(lk)] *)
| SMark         (** [p->chan = chan; p->state = SLEEPING] *)
| SSwitch       (** [sched()]: the scheduler, on the same CPU, releases [p->lock] *)
| SAsleep       (** not running, until a scheduler takes it and [p->lock] *)
| STidy         (** [p->chan = 0; release(&p->lock)] *)
| SReacquire    (** [acquire(lk)] *)
| SDone.        (** the loop is left with the condition true and [lk] released *)

(** The program counter of the waker. *)
Inductive wpc :=
| WAcquire      (** the caller: [acquire(lk)] *)
| WSet          (** the caller, [lk] held: [cond = 1] *)
| WLockProc     (** [wakeup]: [acquire(&p->lock)] *)
| WCheck        (** [if(p->state == SLEEPING && p->chan == chan) p->state = RUNNABLE] *)
| WUnlockProc   (** [release(&p->lock)] *)
| WRelease      (** the caller: [release(lk)] *)
| WDone.

Record race := Race {
  r_s : spc;
  r_w : wpc;
  r_lk : option holder;
  r_pl : option holder;
  r_cond : bool;
  r_state : procstate;
  r_chan : bool;              (** [p->chan == chan] *)
}.
#[global] Instance race_eta : Eta race := λ r,
  Race (r_s r) (r_w r) (r_lk r) (r_pl r) (r_cond r) (r_state r) (r_chan r).

Definition init : race := Race SAcquire WAcquire None None false RUNNING false.

Inductive step : race → race → Prop :=
| step_acquire r : r_s r = SAcquire → r_lk r = None →
    step r (r <| r_s := STest |> <| r_lk := Some Sleeper |>)
| step_test_false r : r_s r = STest → r_cond r = false → step r (r <| r_s := SLockProc |>)
| step_test_true r : r_s r = STest → r_cond r = true →
    step r (r <| r_s := SDone |> <| r_lk := None |>)
| step_lock_proc r : r_s r = SLockProc → r_pl r = None →
    step r (r <| r_s := SUnlock |> <| r_pl := Some Sleeper |>)
| step_unlock r : r_s r = SUnlock → step r (r <| r_s := SMark |> <| r_lk := None |>)
| step_mark r : r_s r = SMark →
    step r (r <| r_s := SSwitch |> <| r_state := SLEEPING |> <| r_chan := true |>)
| step_switch r : r_s r = SSwitch → step r (r <| r_s := SAsleep |> <| r_pl := None |>)
| step_run r : r_s r = SAsleep → r_state r = RUNNABLE → r_pl r = None →
    step r (r <| r_s := STidy |> <| r_state := RUNNING |> <| r_pl := Some Sleeper |>)
| step_tidy r : r_s r = STidy →
    step r (r <| r_s := SReacquire |> <| r_chan := false |> <| r_pl := None |>)
| step_reacquire r : r_s r = SReacquire → r_lk r = None →
    step r (r <| r_s := STest |> <| r_lk := Some Sleeper |>)
| step_w_acquire r : r_w r = WAcquire → r_lk r = None →
    step r (r <| r_w := WSet |> <| r_lk := Some Waker |>)
| step_w_set r : r_w r = WSet → step r (r <| r_w := WLockProc |> <| r_cond := true |>)
| step_w_lock_proc r : r_w r = WLockProc → r_pl r = None →
    step r (r <| r_w := WCheck |> <| r_pl := Some Waker |>)
| step_w_check r : r_w r = WCheck →
    step r (r <| r_w := WUnlockProc |>
              <| r_state := if bool_decide (r_state r = SLEEPING) && r_chan r then RUNNABLE else r_state r |>)
| step_w_unlock_proc r : r_w r = WUnlockProc → step r (r <| r_w := WRelease |> <| r_pl := None |>)
| step_w_release r : r_w r = WRelease → step r (r <| r_w := WDone |> <| r_lk := None |>).

(** ** Invariant *)

Definition s_holds_lk (p : spc) : bool := match p with STest | SLockProc | SUnlock => true | _ => false end.
Definition s_holds_pl (p : spc) : bool := match p with SUnlock | SMark | SSwitch | STidy => true | _ => false end.
Definition w_holds_lk (p : wpc) : bool := match p with WAcquire | WDone => false | _ => true end.
Definition w_holds_pl (p : wpc) : bool := match p with WCheck | WUnlockProc => true | _ => false end.
(** The waker has set the condition, and has still to look at the process. *)
Definition w_set (p : wpc) : bool := match p with WAcquire | WSet => false | _ => true end.
Definition w_looks (p : wpc) : bool := match p with WAcquire | WSet | WLockProc | WCheck => true | _ => false end.

Definition holders (s w : bool) : option holder → Prop := λ o,
  match o with
  | None => s = false ∧ w = false
  | Some Sleeper => s = true ∧ w = false
  | Some Waker => s = false ∧ w = true
  end.

(** Between its test and [SLEEPING] the sleeper holds one of the two locks, so
    the waker's look at the process comes after. *)
Definition state_at (r : race) : Prop :=
  match r_s r with
  | SAcquire | STest => r_state r = RUNNING
  | SLockProc | SUnlock => r_state r = RUNNING ∧ r_cond r = false
  | SMark => r_state r = RUNNING ∧ w_looks (r_w r) = true
  | SSwitch => r_state r = SLEEPING ∧ r_chan r = true ∧ w_looks (r_w r) = true
  | SAsleep => r_chan r = true ∧ (r_state r = SLEEPING ∧ w_looks (r_w r) = true ∨ r_state r = RUNNABLE ∧ r_cond r = true)
  | STidy | SReacquire => r_state r = RUNNING ∧ r_cond r = true
  | SDone => r_state r = RUNNING ∧ r_cond r = true
  end.

Record race_inv (r : race) : Prop := {
  ri_lk : holders (s_holds_lk (r_s r)) (w_holds_lk (r_w r)) (r_lk r);
  ri_pl : holders (s_holds_pl (r_s r)) (w_holds_pl (r_w r)) (r_pl r);
  ri_cond : r_cond r = w_set (r_w r);
  ri_state : state_at r;
}.

Lemma race_inv_init : race_inv init.
Proof. by split. Qed.

Lemma race_inv_step r r' : step r r' → race_inv r → race_inv r'.
Proof.
  intros Hs [Hlk Hpl Hc Hst]. destruct Hs as [r|r|r|r|r|r|r|r|r|r|r|r|r|r|r|r];
    destruct r as [s w lk pl c st ch]; unfold state_at in Hst; simpl in *; subst;
    try destruct s; try destruct w; try done; try destruct lk as [[]|]; try destruct pl as [[]|]; simpl in *;
    try (exfalso; naive_solver); (split; unfold state_at; simpl; naive_solver).
Qed.

Lemma race_inv_reachable r : rtc step init r → race_inv r.
Proof.
  intros Hr. cut (race_inv init); [|apply race_inv_init].
  induction Hr as [|r1 r2 r3 H12 _ IH]; [done|]. intros Hi. by apply IH, (race_inv_step r1).
Qed.

(** ** Progress and termination *)

(** The work left; a second pass through [sleep] is not needed once the condition is set. *)
Definition s_left (r : race) : nat :=
  match r_s r with
  | SAcquire => 20 | STest => if r_cond r then 2 else 19 | SLockProc => 18 | SUnlock => 17 | SMark => 16
  | SSwitch => 15 | SAsleep => 14 | STidy => 13 | SReacquire => 12 | SDone => 0
  end.
Definition w_left (r : race) : nat :=
  match r_w r with
  | WAcquire => 6 | WSet => 5 | WLockProc => 4 | WCheck => 3 | WUnlockProc => 2 | WRelease => 1 | WDone => 0
  end.
Definition work (r : race) : nat := s_left r + w_left r.

Lemma step_work r r' : step r r' → race_inv r → (work r' < work r)%nat.
Proof.
  intros Hs [Hlk Hpl Hc Hst]. unfold work, s_left, w_left.
  destruct Hs as [r|r|r|r|r|r|r|r|r|r|r|r|r|r|r|r]; destruct r as [s w lk pl c st ch]; unfold state_at in Hst;
    simpl in *; subst; try lia; try destruct s; try destruct w; simpl in *; try lia; naive_solver.
Qed.

Lemma step_progress r : race_inv r → (r_s r = SDone ∧ r_w r = WDone) ∨ ∃ r', step r r'.
Proof.
  intros [Hlk Hpl Hc Hst]. destruct r as [s w lk pl c st ch]; unfold state_at in Hst; simpl in *.
  destruct w; try (right; eexists; first [by apply step_w_set|by apply step_w_check|by apply step_w_unlock_proc|by apply step_w_release]).
  all: destruct s; try (by left); try destruct c;
    try (right; eexists; first [by apply step_test_true|by apply step_test_false|by apply step_unlock|by apply step_mark|by apply step_switch|by apply step_tidy]);
    destruct lk as [[]|]; simpl in Hlk; try (exfalso; naive_solver); destruct pl as [[]|]; simpl in Hpl; try (exfalso; naive_solver);
    right; eexists; first [by apply step_acquire|by apply step_lock_proc|by apply step_reacquire|by apply step_w_acquire|
      by apply step_w_lock_proc|apply step_run; [done|naive_solver|done]].
Qed.

Lemma finishes r : race_inv r → ∃ r', rtc step r r' ∧ r_s r' = SDone ∧ r_w r' = WDone ∧ r_cond r' = true.
Proof.
  remember (work r) as n eqn:En. revert r En. induction (lt_wf n) as [n _ IH]. intros r -> Hi.
  destruct (step_progress r Hi) as [[E1 E2]|[r1 Hs]].
  - exists r. split_and!; try done. destruct Hi as [_ _ _ Hst]. unfold state_at in Hst. rewrite E1 in Hst. naive_solver.
  - destruct (IH (work r1)) with r1 as (r' & Hr & ?); [by apply step_work|done|by eapply race_inv_step|].
    exists r'. split; [by eapply rtc_l|done].
Qed.

(** C6: No wakeup is lost.  In every interleaving of a process that sleeps until
    a condition holds and of a CPU that sets the condition and calls [wakeup],
    the process is never left asleep: when the waker is done the process is not
    [SLEEPING] any more, no reachable state is a deadlock, every step brings
    the two nearer to their end, and both reach it with the condition true. *)
Theorem no_lost_wakeup r : rtc step init r →
  (r_w r = WDone → r_state r ≠ SLEEPING) ∧
  (∀ r', step r r' → (work r' < work r)%nat) ∧
  ((∀ r', ¬ step r r') → r_s r = SDone ∧ r_w r = WDone) ∧
  ∃ r', rtc step r r' ∧ r_s r' = SDone ∧ r_w r' = WDone ∧ r_cond r' = true.
Proof.
  intros Hr. pose proof (race_inv_reachable r Hr) as Hi. split_and!.
  - intros Hw Hs. destruct Hi as [_ _ _ Hst]. unfold state_at in Hst. rewrite Hw, Hs in Hst. destruct (r_s r); naive_solver.
  - intros r' Hs. by apply step_work.
  - intros Hn. destruct (step_progress r Hi) as [?|[r' Hs]]; [done|]. by destruct (Hn r').
  - by apply finishes.
Qed.

Lemma no_lost_wakeup_witness :
  ∃ r, rtc step init r ∧ r_s r = SAsleep ∧ r_state r = SLEEPING ∧
    ∃ r', rtc step r r' ∧ r_s r' = SDone ∧ r_w r' = WDone ∧ r_cond r' = true.
Proof.
  assert (rtc step init (Race SAsleep WAcquire None None false SLEEPING true)) as Hr.
  { eapply rtc_l; [by apply step_acquire|]. eapply rtc_l; [by apply step_test_false|].
    eapply rtc_l; [by apply step_lock_proc|]. eapply rtc_l; [by apply step_unlock|].
    eapply rtc_l; [by apply step_mark|]. eapply rtc_l; [by apply step_switch|]. apply rtc_refl. }
  eexists. split; [exact Hr|]. split_and!; [reflexivity|reflexivity|].
  destruct (no_lost_wakeup _ Hr) as (_ & _ & _ & Hf). exact Hf.
Defined.
