(* ===== verification/Syscall.v ===== *)
(** * System calls: [kernel/syscall.c] and [kernel/sysproc.c]

    Fetching arguments from the trapframe and the memory of the process, the
    dispatcher with its tracing, and the calls on processes.  A call that
    sleeps gives up the CPU; [others] stands for what the scheduler and the
    other processes do until it runs again.  [fuel] bounds the number of times
    a call sleeps: when it is used up the call is still asleep. *)
From S2P Require Import Prelude Machine Cstring Spinlock Sleeplock Kalloc Vm Printf Proc.

Section syscall.
Context {F : Type} `{FileSys F} (kend trampoline forkret_pc : Z).
Abbreviation pst := (pstate F).
Context (others : M pst unit).

(** [printf]: the characters go to the console. *)
Definition printk (fmt : list Z) (args : list parg) : M pst unit :=
  match kprintf_chars fmt args with
  | Some l => modify (λ s, s <| ps_out ::= (λ out, out ++ l) |>)
  | None => panic "va_arg"
  end.

(** ** Switching away and back *)
Definition yield_full : M pst unit := intena <- yield ;; others ;;; yield_back intena.
Definition sleep_full (ch : channel) (lk : lockid) : M pst unit :=
  intena <- sleep ch lk ;; others ;;; sleep_back lk intena.

(** ** Arguments *)

(** [*ip] after [fetchaddr], 0 for an error. *)
Definition fetchaddr (addr : Z) : M pst (Z * Z) :=
  i <- me ;;
  p <- pget i ;;
  if (p_sz p <=? addr) || (p_sz p <? u64 (addr + 8)) then ret (-1, 0) else
  let* '(rc, bs) := zoom kL (copyin (p_pagetable p) addr 8) in
  if negb (rc =? 0) then ret (-1, 0) else ret (0, load64 (lmem bs) 0).

(** The result and the contents of [buf]. *)
Definition fetchstr (addr max : Z) : M pst (Z * list Z) :=
  i <- me ;;
  p <- pget i ;;
  let* '(rc, buf) := zoom kL (copyinstr (p_pagetable p) addr max) in
  if rc <? 0 then ret (-1, buf) else
  match strlen (S (length buf)) (lmem buf) 0 with
  | Some n => ret (n, buf)
  | None => panic "strlen"
  end.

Definition argraw (n : Z) : M pst Z :=
  i <- me ;;
  p <- pget i ;;
  if (0 <=? n) && (n <=? 5) then zoom kL (rd64 (tf_a n (p_trapframe p))) else panic "argraw".
Definition argint (n : Z) : M pst Z := x <- argraw n ;; ret (i32 x).
Definition argaddr (n : Z) : M pst Z := argraw n.
Definition argstr (n max : Z) : M pst (Z * list Z) := addr <- argaddr n ;; fetchstr addr max.

(** ** [kernel/sysproc.c] *)

Definition sys_exit : M pst Z :=
  n <- argint 0 ;;
  exit n ;;;
  i <- me ;; block (ChProc i).

Definition sys_getpid : M pst Z := i <- me ;; p <- pget i ;; ret (p_pid p).

Definition sys_fork : M pst Z := fork kend trampoline forkret_pc.

(** [wait], woken up at most [fuel] times. *)
Fixpoint wait_full (fuel : nat) (addr : Z) (r : presult) : M pst Z :=
  match r with
  | Done r => ret r
  | Slept ch _ =>
      match fuel with
      | O => block ch
      | S f =>
          h <- gets (λ s, h_intena (k_hart (ps_k s))) ;;
          others ;;;
          r <- wait_back kend h addr ;;
          wait_full f addr r
      end
  end.
Definition sys_wait (fuel : nat) : M pst Z :=
  p <- argaddr 0 ;; r <- wait kend p ;; wait_full fuel p r.

Definition sys_sbrk : M pst Z :=
  n <- argint 0 ;;
  i <- me ;;
  p <- pget i ;;
  let addr := p_sz p in
  r <- growproc kend n ;;
  if r <? 0 then ret (-1) else ret addr.

(** [while (ticks - ticks0 < n)]: both sides as [uint]. *)
Fixpoint sys_sleep_loop (fuel : nat) (ticks0 n : Z) : M pst Z :=
  t <- gets ps_ticks ;;
  if u32 (t - ticks0) <? u32 n then
    i <- me ;;
    k <- killed i ;;
    if truth k then zoom hart_p (release LkTicks) ;;; ret (-1) else
    match fuel with
    | O => block ChTicks
    | S f => sleep_full ChTicks LkTicks ;;; sys_sleep_loop f ticks0 n
    end
  else zoom hart_p (release LkTicks) ;;; ret 0.
Definition sys_sleep (fuel : nat) : M pst Z :=
  n <- argint 0 ;;
  zoom hart_p (acquire LkTicks) ;;;
  ticks0 <- gets ps_ticks ;;
  sys_sleep_loop fuel ticks0 n.

Definition sys_kill : M pst Z := pid <- argint 0 ;; kill pid.

Definition sys_uptime : M pst Z :=
  zoom hart_p (acquire LkTicks) ;;;
  xticks <- gets ps_ticks ;;
  zoom hart_p (release LkTicks) ;;;
  ret xticks.

Definition sys_trace : M pst Z :=
  mask <- argint 0 ;;
  i <- me ;;
  pupd i (λ p, p <| p_smask := mask |>) ;;;
  ret 0.

Definition sys_sigalarm : M pst Z :=
  i <- me ;;
  interval <- argint 0 ;;
  handler <- argaddr 1 ;;
  pupd i (λ p, p <| p_interval := interval |>) ;;;
  pupd i (λ p, p <| p_handler := handler |>) ;;;
  ret 0.

Definition sys_sigreturn : M pst Z :=
  i <- me ;;
  p <- pget i ;;
  (* without an alarm [memmove] reads address 0, which the kernel does not map *)
  if p_alarmContext p =? 0 then panic "kerneltrap" else
  zoom kL (modify (λ k, set_mem (memmove (k_mem k) (p_trapframe p) (p_alarmContext p) PGSIZE) k)) ;;;
  a0 <- zoom kL (rd64 (tf_a 0 (p_alarmContext p))) ;;
  zoom kL (kfree kend (p_alarmContext p)) ;;;
  pupd i (λ p, p <| p_alarmOn := 0 |> <| p_nticks := 0 |> <| p_alarmContext := 0 |>) ;;;
  ret (i32 a0).

Definition sys_settickets : M pst Z :=
  tk <- argint 0 ;;
  i <- me ;;
  pupd i (λ p, p <| p_tickets := i32 (p_tickets p + tk) |>) ;;;
  ret 0.

Definition sys_set_priority : M pst Z :=
  sp <- argint 0 ;;
  pid <- argint 1 ;;
  r <- for_each procs (λ i,
    plock i ;;;
    p <- pget i ;;
    if p_pid p =? pid then
      let old_sp := p_staticP p in
      pupd i (λ p, p <| p_staticP := sp |> <| p_niceness := 5 |> <| p_pbs_rtime := 0 |> <| p_stime := 0 |> <| p_wtime := 0 |>) ;;;
      punlock i ;;;
      when (sp <? old_sp) yield_full ;;;
      ret (Some old_sp)
    else punlock i ;;; ret None) ;;
  ret (default (-1) r).

(** [waitx], woken up at most [fuel] times. *)
Fixpoint waitx_full (fuel : nat) (addr : Z) (r : presult * option (Z * Z)) : M pst (Z * option (Z * Z)) :=
  match r with
  | (Done r, t) => ret (r, t)
  | (Slept ch _, _) =>
      match fuel with
      | O => block ch
      | S f =>
          h <- gets (λ s, h_intena (k_hart (ps_k s))) ;;
          others ;;;
          r <- waitx_back kend h addr ;;
          waitx_full f addr r
      end
  end.
(** The words of [wtime] and [rtime] that [waitx] does not set are what the stack holds. *)
Definition sys_waitx (fuel : nat) (stack : Z * Z) : M pst Z :=
  addr <- argaddr 0 ;;
  addr1 <- argaddr 1 ;;
  addr2 <- argaddr 2 ;;
  r <- waitx kend addr ;;
  let* '(r, t) := waitx_full fuel addr r in
  let '(wtime, rtime) := default stack t in
  i <- me ;;
  p <- pget i ;;
  c <- zoom kL (copyout (p_pagetable p) addr1 (bytes32 wtime)) ;;
  if c <? 0 then ret (-1) else
  c <- zoom kL (copyout (p_pagetable p) addr2 (bytes32 rtime)) ;;
  if c <? 0 then ret (-1) else ret r.

(** ** The dispatcher *)

Definition syscall_table : list (string * Z) :=
  [("fork", 0); ("exit", 1); ("wait", 1); ("pipe", 1); ("read", 3); ("kill", 1); ("exec", 2);
   ("fstat", 2); ("chdir", 1); ("dup", 1); ("getpid", 0); ("sbrk", 1); ("sleep", 1); ("uptime", 0);
   ("open", 2); ("write", 3); ("mknod", 3); ("unlink", 1); ("link", 2); ("mkdir", 1); ("close", 1);
   ("trace", 1); ("sigalarm", 2); ("sigreturn", 0); ("settickets", 1); ("set_priority", 2); ("waitx", 3)]%string.

(** [syscall_names[num]] and [syscall_nargs[num]], [None] outside the table. *)
Definition syscall_info (num : Z) : option (list Z * Z) :=
  if 0 <? num then (λ e, (bytes_of (fst e), snd e)) <$> syscall_table !! Z.to_nat (num - 1) else None.

(** [for (int i = 0; i < nargs; i++) argint(i, &args[i])], from [i] with [k] rounds to go *)
Fixpoint save_args (k : nat) (i : Z) : M pst (list Z) :=
  match k with
  | O => ret []
  | S k => a <- argint i ;; l <- save_args k (i + 1) ;; ret (a :: l)
  end.

Definition print_args (args : list Z) : M pst unit :=
  for_all (seq 0 (length args)) (λ i,
    printk (bytes_of "%d") [AInt (args !!! i)] ;;;
    when (negb (Nat.eqb i (length args - 1))) (printk (bytes_of " ") [])).

(** [handler num] is [syscalls[num]]. *)
Definition syscall (handler : Z → M pst Z) : M pst unit :=
  i <- me ;;
  p <- pget i ;;
  let tf := p_trapframe p in
  a7 <- zoom kL (rd64 (tf_a 7 tf)) ;;
  let num := i32 a7 in
  match syscall_info num with
  | Some (name, nargs) =>
      args <- save_args (Z.to_nat nargs) 0 ;;
      r <- handler num ;;
      zoom kL (wr64 (tf_a 0 tf) (u64 r)) ;;;
      p <- pget i ;;
      if truth (Z.land (p_smask p) (i32 (Z.shiftl 1 num))) then
        printk (bytes_of "%d: syscall %s (") [AInt (p_pid p); AStr (Some name)] ;;;
        print_args args ;;;
        printk (bytes_of ") ") [] ;;;
        v <- zoom kL (rd64 (tf_a 0 tf)) ;;
        printk (bytes_of "-> %d" ++ [10]) [AInt (i32 v)]
      else ret tt
  | None =>
      printk (bytes_of "%d %s: unknown sys call %d" ++ [10]) [AInt (p_pid p); AStr (Some (cstr (p_name p))); AInt num] ;;;
      zoom kL (wr64 (tf_a 0 tf) (u64 (-1)))
  end.
End syscall.

(** ** The trace of a system call *)

Definition dec (x : Z) : list Z := printint_chars digits_lower x 10 true.
Fixpoint spaced (l : list (list Z)) : list Z :=
  match l with [] => [] | [x] => x | x :: l => x ++ [32] ++ spaced l end.

(** [<pid>: syscall <name> (<arguments>) -> <result>] *)
Definition trace_line (pid : Z) (name : list Z) (args : list Z) (r : Z) : list Z :=
  dec pid ++ bytes_of ": syscall " ++ name ++ bytes_of " (" ++ spaced (dec <$> args) ++ bytes_of ") " ++
  bytes_of "-> " ++ dec r ++ [10].

Section dispatch.
Context {F : Type} `{FileSys F}.
Abbreviation pst := (pstate F).

Definition print (l : list Z) (s : pst) : pst := s <| ps_out ::= (λ out, out ++ l) |>.

Lemma print_app a b (s : pst) : print b (print a s) = print (a ++ b) s.
Proof. unfold print. simpl. by rewrite app_assoc. Qed.

Lemma printk_run fmt args l (s : pst) : kprintf_chars fmt args = Some l → printk fmt args s = (Ret tt, print l s).
Proof. unfold printk. by intros ->. Qed.

Lemma print_args_run args (s : pst) : print_args args s = (Ret tt, print (spaced (dec <$> args)) s).
Proof.
  unfold print_args. cut (∀ m k s, (k + m = length args)%nat →
    for_all (seq k m) (λ i, printk (bytes_of "%d") [AInt (args !!! i)] ;;;
      when (negb (Nat.eqb i (length args - 1))) (printk (bytes_of " ") [])) s =
    (Ret tt, print (spaced (dec <$> drop k args)) s)).
  { intros Hc. rewrite (Hc (length args) O s) by lia. done. }
  clear s. induction m as [|m IH]; intros k s Hk; cbn [seq for_all].
  - rewrite drop_ge by lia. unfold print. simpl. destruct s. simpl. by rewrite app_nil_r.
  - destruct (lookup_lt_is_Some_2 args k) as [x Hx]; [lia|]. rewrite (drop_S _ _ _ Hx), fmap_cons.
    rewrite (list_lookup_total_correct _ _ _ Hx), bind_assoc.
    rewrite (bind_Ret _ _ _ _ _ (printk_run (bytes_of "%d") [AInt x] (dec x) s ltac:(simpl; by rewrite app_nil_r))).
    destruct (Nat.eqb_spec k (length args - 1)) as [E|E]; simpl.
    + unfold bind, ret. rewrite IH by lia. rewrite print_app, drop_ge by lia. simpl. by rewrite app_nil_r.
    + erewrite bind_Ret; [|by apply (printk_run _ _ [32])]. rewrite IH by lia. rewrite !print_app.
      destruct (drop (S k) args) as [|y l] eqn:Ed.
      { apply (f_equal length) in Ed. rewrite length_drop in Ed. simpl in Ed. lia. }
      done.
Qed.

Lemma krd_run a (s : pst) : zoom kL (rd64 a) s = (Ret (load64 (k_mem (ps_k s)) a), s).
Proof. unfold zoom, rd64, gets. simpl. by destruct s. Qed.

Definition kstore (a v : Z) (s : pst) : pst := s <| ps_k ::= (λ k, set_mem (store64 (k_mem k) a v) k) |>.
Lemma kwr_run a v (s : pst) : zoom kL (wr64 a v) s = (Ret tt, kstore a v s).
Proof. done. Qed.

(** The arguments that are saved before the call. *)
Definition saved_args (nargs tf : Z) (m : mem) : list Z := (λ n, i32 (load64 m (tf_a (Z.of_nat n) tf))) <$> seq 0 (Z.to_nat nargs).

Lemma argint_run n i p (s : pst) : hart_ok (hart_of s) → ps_cur s = Some i → ps_proc s !! i = Some p → 0 <= n <= 5 →
  argint n s = (Ret (i32 (load64 (k_mem (ps_k s)) (tf_a n (p_trapframe p)))), s).
Proof.
  intros Ho Hc Hp Hn. unfold argint, argraw. rewrite bind_assoc, (bind_Ret _ _ _ _ _ (me_run s i Ho Hc)).
  rewrite bind_assoc, (bind_Ret _ _ _ _ _ (pget_run i p s Hp)).
  rewrite (proj2 (Z.leb_le 0 n)), (proj2 (Z.leb_le n 5)) by lia. simpl. unfold bind, zoom, rd64, gets. simpl.
  by destruct s.
Qed.

Lemma table_nargs num name nargs : syscall_info num = Some (name, nargs) → 0 <= nargs <= 3.
Proof.
  unfold syscall_info. destruct (0 <? num); [|done]. intros ([a b] & E & [= _ <-])%fmap_Some.
  assert (Forall (λ e : string * Z, 0 <= snd e <= 3) syscall_table) as Hall by (repeat constructor; simpl; lia).
  exact (Forall_lookup_1 _ _ _ _ Hall E).
Qed.

Lemma save_args_run k n i p (s : pst) : hart_ok (hart_of s) → ps_cur s = Some i → ps_proc s !! i = Some p →
  0 <= n → n + Z.of_nat k <= 6 →
  save_args k n s = (Ret ((λ j, i32 (load64 (k_mem (ps_k s)) (tf_a (n + Z.of_nat j) (p_trapframe p)))) <$> seq 0 k), s).
Proof.
  intros Ho Hc Hp. revert n. induction k as [|k IH]; intros n Hn Hk; [done|]. cbn [save_args].
  rewrite (bind_Ret _ _ _ _ _ (argint_run n i p s Ho Hc Hp ltac:(lia))).
  rewrite (bind_Ret _ _ _ _ _ (IH (n + 1) ltac:(lia) ltac:(lia))). unfold ret. do 2 f_equal.
  rewrite <-cons_seq, fmap_cons, <-fmap_S_seq, <-list_fmap_compose. simpl. rewrite Z.add_0_r. f_equal.
  apply list_fmap_ext. intros j x _. simpl. do 3 f_equal. lia.
Qed.

(** C35: The dispatcher.  For a number of the table it saves the arguments,
    calls the handler, and stores the result in the trapframe's [a0]; it prints
    one line with the process, the name, the saved arguments and the result
    exactly when the bit of the call is set in the trace mask after the call,
    and changes nothing else. *)
Theorem syscall_dispatch handler (s s1 : pst) i p p1 name nargs r :
  let tf := p_trapframe p in
  let num := i32 (load64 (k_mem (ps_k s)) (tf_a 7 tf)) in
  hart_ok (hart_of s) → ps_cur s = Some i → ps_proc s !! i = Some p →
  syscall_info num = Some (name, nargs) → handler num s = (Ret r, s1) → ps_proc s1 !! i = Some p1 →
  syscall handler s =
    (Ret tt, print (if truth (Z.land (p_smask p1) (i32 (Z.shiftl 1 num)))
                    then trace_line (p_pid p1) name (saved_args nargs tf (k_mem (ps_k s))) (i32 (u64 r)) else [])
               (kstore (tf_a 0 tf) (u64 r) s1)).
Proof.
  intros tf num Ho Hc Hp Hi Hh Hp1. unfold syscall.
  rewrite (bind_Ret _ _ _ _ _ (me_run s i Ho Hc)), (bind_Ret _ _ _ _ _ (pget_run i p s Hp)).
  rewrite (bind_Ret _ _ _ _ _ (krd_run _ s)). fold tf num. cbv zeta. rewrite Hi.
  pose proof (table_nargs _ _ _ Hi) as Hn.
  rewrite (bind_Ret _ _ _ _ _ (save_args_run (Z.to_nat nargs) 0 i p s Ho Hc Hp ltac:(lia) ltac:(lia))). fold tf.
  rewrite (bind_Ret _ _ _ _ _ Hh), (bind_Ret _ _ _ _ _ (kwr_run _ _ s1)). set (s2 := kstore _ _ s1). rewrite (bind_Ret _ _ _ _ _ (pget_run i p1 s2 Hp1)).
  destruct (truth _); [|unfold ret; f_equal; unfold print; destruct s2; simpl; by rewrite app_nil_r].
  erewrite bind_Ret; [|by apply (printk_run _ _ (dec (p_pid p1) ++ bytes_of ": syscall " ++ name ++ bytes_of " ("))].
  rewrite (bind_Ret _ _ _ _ _ (print_args_run _ _)), print_app.
  erewrite bind_Ret; [|by apply (printk_run _ _ (bytes_of ") "))]. rewrite print_app.
  rewrite (bind_Ret _ _ _ _ _ (krd_run _ _)).
  assert (∀ l, load64 (k_mem (ps_k (print l s2))) (tf_a 0 tf) = u64 r) as ->.
  { intros l. simpl. apply load64_store64. by apply Z.mod_pos_bound. }
  erewrite (printk_run _ _ (bytes_of "-> " ++ dec (i32 (u64 r)) ++ [10])) by done.
  rewrite print_app. do 2 f_equal. unfold trace_line, saved_args. by rewrite <-!app_assoc.
Qed.
End dispatch.

(** ** A traced call of [sleep(5)], as an example *)
Module SyscallDemo.

Definition tf : Z := 8192.
Definition p0 : proc := proc0 <| p_state := RUNNING |> <| p_pid := 2 |> <| p_trapframe := tf |> <| p_smask := 8192 |>.
Definition s0 : pstate unit :=
  PState (KState (Hart 0 true true []) (store64 (store64 (λ _, 0) (tf_a 7 tf) 13) (tf_a 0 tf) 5) 0 (λ _, 0) 1)
    [p0] [] None 3 (Some O) 0 false [] tt.
Definition handler (num : Z) : M (pstate unit) Z := ret (-1).
End SyscallDemo.

Lemma syscall_dispatch_witness :
  ps_out (syscall SyscallDemo.handler SyscallDemo.s0).2 = bytes_of "2: syscall sleep (5) -> -1" ++ [10] ∧
  load64 (k_mem (ps_k (syscall SyscallDemo.handler SyscallDemo.s0).2)) (tf_a 0 SyscallDemo.tf) = 2 ^ 64 - 1.
Proof.
  rewrite (syscall_dispatch SyscallDemo.handler SyscallDemo.s0 SyscallDemo.s0 O SyscallDemo.p0 SyscallDemo.p0 (bytes_of "sleep") 1 (-1));
    [|split_and!; simpl; try lia; try done; constructor|vm_compute; reflexivity..].
  split; vm_compute; reflexivity.
Defined.
