(* ===== verification/Trap.v ===== *)
(** * Traps: [kernel/trap.c] and [kernel/plic.c]

    The handlers of traps from user space and from the kernel, the clock, and
    the dispatch of device interrupts.  The CPU's trap registers are part of the
    state; the interrupt controller is a device behind its memory-mapped words,
    and the handlers of the UART and of the disk are arguments. *)
From S2P Require Import Prelude Machine Cstring Spinlock Sleeplock Kalloc Vm VmMap VmSpec VmRefs Cow Printf Proc Sched Syscall.

Definition SSTATUS_SPP : Z := Z.shiftl 1 8.
Definition SSTATUS_SPIE : Z := Z.shiftl 1 5.
Definition PLIC_SENABLE (hart : Z) : Z := PLIC + 0x2080 + hart * 0x100.
Definition PLIC_SPRIORITY (hart : Z) : Z := PLIC + 0x201000 + hart * 0x2000.
Definition PLIC_SCLAIM (hart : Z) : Z := PLIC + 0x201004 + hart * 0x2000.

(** 32-bit accesses to the interrupt controller. *)
Class PlicDev (D : Type) := {
  plic_read : Z → M D Z;
  plic_write : Z → Z → M D unit;
}.

Record tstate (F D : Type) := TState {
  t_p : pstate F;
  t_scause : Z;
  t_sepc : Z;
  t_stval : Z;
  t_sstatus : Z;
  t_stvec : Z;
  t_sip : Z;
  t_satp : Z;
  t_tp : Z;
  t_dev : D;
}.
Arguments TState {F D} _ _ _ _ _ _ _ _ _ _.
Arguments t_p {F D} _.
Arguments t_scause {F D} _.
Arguments t_sepc {F D} _.
Arguments t_stval {F D} _.
Arguments t_sstatus {F D} _.
Arguments t_stvec {F D} _.
Arguments t_sip {F D} _.
Arguments t_satp {F D} _.
Arguments t_tp {F D} _.
Arguments t_dev {F D} _.
#[global] Instance tstate_eta F D : Eta (tstate F D) := λ s,
  TState (t_p s) (t_scause s) (t_sepc s) (t_stval s) (t_sstatus s) (t_stvec s) (t_sip s) (t_satp s) (t_tp s) (t_dev s).

Section trap.
Context {F D : Type} `{FileSys F} `{PlicDev D} (kend : Z).
Abbreviation pst := (pstate F).
Abbreviation tst := (tstate F D).
(** Addresses of code: [kernelvec], [usertrap], and [uservec] and [userret] in the trampoline page. *)
Context (kernelvec usertrap_pc uservec userret trampoline : Z).
(** The policy of the build, the other threads, the system call handlers, and the device handlers. *)
Context (pol : policy) (others : M pst unit) (handler : Z → M pst Z) (uartintr virtio_disk_intr : M tst unit).

Definition pL : lens tst pst := Lens t_p (λ p s, s <| t_p := p |>).
Definition devL : lens tst D := Lens t_dev (λ d s, s <| t_dev := d |>).

(** ** The interrupt controller *)
Definition plicinit : M tst unit :=
  zoom devL (plic_write (PLIC + UART0_IRQ * 4) 1) ;;;
  zoom devL (plic_write (PLIC + VIRTIO0_IRQ * 4) 1).
Definition plicinithart : M tst unit :=
  hart <- gets t_tp ;;
  zoom devL (plic_write (PLIC_SENABLE hart) (Z.lor (Z.shiftl 1 UART0_IRQ) (Z.shiftl 1 VIRTIO0_IRQ))) ;;;
  zoom devL (plic_write (PLIC_SPRIORITY hart) 0).
Definition plic_claim : M tst Z :=
  hart <- gets t_tp ;; irq <- zoom devL (plic_read (PLIC_SCLAIM hart)) ;; ret (i32 irq).
Definition plic_complete (irq : Z) : M tst unit :=
  hart <- gets t_tp ;; zoom devL (plic_write (PLIC_SCLAIM hart) irq).

Definition trapinithart : M tst unit := modify (λ s, s <| t_stvec := kernelvec |>).

(** ** The clock *)
Definition clockintr : M pst unit :=
  zoom hart_p (acquire LkTicks) ;;;
  modify (λ s, s <| ps_ticks := u32 (ps_ticks s + 1) |>) ;;;
  update_time ;;;
  wakeup (Some ChTicks) ;;;
  zoom hart_p (release LkTicks).

(** 2 for the timer, 1 for another device, 0 for anything else. *)
Definition devintr : M tst Z :=
  scause <- gets t_scause ;;
  if truth (Z.land scause 0x8000000000000000) && (Z.land scause 0xff =? 9) then
    irq <- plic_claim ;;
    (if irq =? UART0_IRQ then uartintr
     else if irq =? VIRTIO0_IRQ then virtio_disk_intr
     else if truth irq then zoom pL (printk (bytes_of "unexpected interrupt irq=%d" ++ [10]) [AInt irq])
     else ret tt) ;;;
    when (truth irq) (plic_complete irq) ;;;
    ret 1
  else if scause =? 0x8000000000000001 then
    tp <- gets t_tp ;;
    when (i32 tp =? 0) (zoom pL clockintr) ;;;
    modify (λ s, s <| t_sip := Z.land (t_sip s) (not64 2) |>) ;;;
    ret 2
  else ret 0.

(** ** Accounting at a timer interrupt *)

(** PBS: the running processes have run for one tick more. *)
Definition pbs_tick : M pst unit :=
  for_all procs (λ i,
    plock i ;;;
    p <- pget i ;;
    when (bool_decide (p_state p = RUNNING)) (pupd i (λ p, p <| p_pbs_rtime := i32 (p_pbs_rtime p + 1) |>)) ;;;
    punlock i).

(** Every runnable process in a queue has waited for one tick more. *)
Definition wait_tick : M pst unit :=
  for_all (seq 0 NPR) (λ l, for_all (seq 0 NPROC) (λ j,
    fp <- qget (Z.of_nat l) j ;;
    match fp with
    | None => ret tt
    | Some k =>
        p <- pget k ;;
        when (bool_decide (p_state p = RUNNABLE)) (pupd k (λ p, p <| p_wticks := i32 (p_wticks p + 1) |>))
    end)).

(** [sigalarm]: when the interval has passed the process goes on in its handler. *)
Definition alarm_tick (i : nat) : M pst unit :=
  p <- pget i ;;
  if p_alarmOn p =? 0 then
    pupd i (λ p, p <| p_nticks := i32 (p_nticks p + 1) |>) ;;;
    p <- pget i ;;
    if p_nticks p =? p_interval p then
      context <- zoom kL kalloc ;;
      (* [kalloc] is not checked: [memmove] to address 0 is a fault in the kernel *)
      if context =? 0 then panic "kerneltrap" else
      zoom kL (modify (λ k, set_mem (memmove (k_mem k) context (p_trapframe p) PGSIZE) k)) ;;;
      pupd i (λ p, p <| p_alarmContext := context |> <| p_alarmOn := 1 |>) ;;;
      zoom kL (wr64 (tf_epc (p_trapframe p)) (p_handler p))
    else ret tt
  else ret tt.

Definition run_tick (i : nat) : M pst unit :=
  p <- pget i ;;
  when (bool_decide (p_state p = RUNNING)) (pupd i (λ p, p <| p_rticks := i32 (p_rticks p + 1) |>)) ;;;
  wait_tick.

(** MLFQ: [for(j = 0; j < NPROC; j++) if(!queue[i][j]) break;]: is [j] not 0? *)
Definition level_busy (i : Z) : M pst bool :=
  r <- for_each (seq 0 NPROC) (λ j, fp <- qget i j ;; ret (match fp with None => Some j | Some _ => None end)) ;;
  ret (negb (Nat.eqb (default NPROC r) 0)).
(** [for(i = 0; i < p->pr; i++)] *)
Fixpoint preempt (fuel : nat) (i : Z) (me : nat) : M pst unit :=
  match fuel with
  | O => ret tt
  | S f =>
      q <- pget me ;;
      if i <? p_pr q then
        b <- level_busy i ;;
        when b (yield_full others) ;;;
        preempt f (i + 1) me
      else ret tt
  end.
Definition mlfq_tick (i : nat) : M pst unit :=
  p <- pget i ;;
  when (p_rticks p =? Z.shiftl 1 (p_pr p))
    (pupd i (λ p, p <| p_rticks := 0 |>) ;;;
     pupd i (λ p, if p_pr p =? 4 then p else p <| p_pr := p_pr p + 1 |>) ;;;
     yield_full others) ;;;
  preempt NPR 0 i.

(** ** The handlers *)

(** The address of [userret] and the page table it switches to. *)
Definition usertrapret : M tst (Z * Z) :=
  i <- zoom pL me ;;
  zoom pL (zoom hart_p intr_off) ;;;
  modify (λ s, s <| t_stvec := TRAMPOLINE + (uservec - trampoline) |>) ;;;
  p <- zoom pL (pget i) ;;
  s <- get ;;
  let tf := p_trapframe p in
  zoom pL (zoom kL (wr64 (tf_kernel_satp tf) (t_satp s))) ;;;
  zoom pL (zoom kL (wr64 (tf_kernel_sp tf) (u64 (p_kstack p + PGSIZE)))) ;;;
  zoom pL (zoom kL (wr64 (tf_kernel_trap tf) usertrap_pc)) ;;;
  zoom pL (zoom kL (wr64 (tf_kernel_hartid tf) (t_tp s))) ;;;
  modify (λ s, s <| t_sstatus := Z.lor (Z.land (t_sstatus s) (not64 SSTATUS_SPP)) SSTATUS_SPIE |>) ;;;
  epc <- zoom pL (zoom kL (rd64 (tf_epc tf))) ;;
  modify (λ s, s <| t_sepc := epc |>) ;;;
  ret (TRAMPOLINE + (userret - trampoline), MAKE_SATP (p_pagetable p)).

(** [exit(-1)], which does not return. *)
Definition die : M pst unit := i <- me ;; exit (-1) ;;; block (ChProc i).

Definition usertrap : M tst (Z * Z) :=
  s <- get ;;
  if truth (Z.land (t_sstatus s) SSTATUS_SPP) then panic "usertrap: not from user mode" else
  trapinithart ;;;
  i <- zoom pL me ;;
  p <- zoom pL (pget i) ;;
  let tf := p_trapframe p in
  zoom pL (zoom kL (wr64 (tf_epc tf) (t_sepc s))) ;;;
  which_dev <-
    (if t_scause s =? 8 then
       k <- zoom pL (killed i) ;;
       when (truth k) (zoom pL die) ;;;
       epc <- zoom pL (zoom kL (rd64 (tf_epc tf))) ;;
       zoom pL (zoom kL (wr64 (tf_epc tf) (u64 (epc + 4)))) ;;;
       zoom pL (zoom hart_p intr_on) ;;;
       zoom pL (syscall handler) ;;;
       ret 0
     else if t_scause s =? 15 then
       r <- zoom pL (zoom kL (handleCOW kend (p_pagetable p) (t_stval s))) ;;
       when (truth r) (zoom pL (setkilled i)) ;;;
       ret 0
     else
       which_dev <- devintr ;;
       (if truth which_dev then
          when (bool_decide (pol = PBS) && (which_dev =? 2)) (zoom pL pbs_tick) ;;;
          when (which_dev =? 2) (zoom pL (alarm_tick i)) ;;;
          when (which_dev =? 2) (zoom pL (run_tick i))
        else
          zoom pL (printk (bytes_of "usertrap(): unexpected scause %p pid=%d" ++ [10]) [APtr (t_scause s); AInt (p_pid p)]) ;;;
          zoom pL (printk (bytes_of "            sepc=%p stval=%p" ++ [10]) [APtr (t_sepc s); APtr (t_stval s)]) ;;;
          zoom pL (setkilled i)) ;;;
       ret which_dev) ;;
  k <- zoom pL (killed i) ;;
  when (truth k) (zoom pL die) ;;;
  when (which_dev =? 2)
    (match pol with
     | RR | LOTTERY => zoom pL (yield_full others)
     | MLFQ => zoom pL (mlfq_tick i)
     | FCFS | PBS => ret tt
     end) ;;;
  usertrapret.

Definition kerneltrap : M tst unit :=
  s <- get ;;
  let sepc := t_sepc s in
  let sstatus := t_sstatus s in
  if Z.land sstatus SSTATUS_SPP =? 0 then panic "kerneltrap: not from supervisor mode" else
  if h_sie (k_hart (ps_k (t_p s))) : bool then panic "kerneltrap: interrupts enabled" else
  which_dev <- devintr ;;
  if which_dev =? 0 then
    zoom pL (printk (bytes_of "scause %p" ++ [10]) [APtr (t_scause s)]) ;;;
    zoom pL (printk (bytes_of "sepc=%p stval=%p" ++ [10]) [APtr (t_sepc s); APtr (t_stval s)]) ;;;
    panic "kerneltrap"
  else
    when (bool_decide (pol = MLFQ) && (which_dev =? 2)) (zoom pL wait_tick) ;;;
    when (bool_decide (pol ∈ [RR; MLFQ; LOTTERY]) && (which_dev =? 2))
      (zoom pL (m <- myproc ;;
                match m with
                | None => ret tt
                | Some i => p <- pget i ;; when (bool_decide (p_state p = RUNNING)) (yield_full others)
                end)) ;;;
    modify (λ s, s <| t_sepc := sepc |> <| t_sstatus := sstatus |>).
End trap.

(** ** [sigalarm] and [sigreturn] *)
Section alarm.
Context {F : Type} {kend : Z} (Hk : KERNBASE <= kend).
Abbreviation pst := (pstate F).

Abbreviation mem_of s := (k_mem (ps_k s)).

(** The process while its alarm handler runs. *)
Definition alarmed (p : proc) (ctx : Z) : proc :=
  p <| p_nticks := i32 (p_nticks p + 1) |> <| p_alarmContext := ctx |> <| p_alarmOn := 1 |>.

(** The registers of the interrupted program are in the new page, the trapframe goes on in the handler. *)
Lemma alarm_fires i p ctx (s : pst) : unlocked (ps_k s) → freelist (ps_k s) = ctx → ctx ≠ 0 →
  ps_proc s !! i = Some p → p_alarmOn p = 0 → i32 (p_nticks p + 1) = p_interval p →
  alarm_tick i s = (Ret tt, s
    <| ps_k := set_mem (store64 (memmove (memset (mem_of s) ctx 5 PGSIZE) ctx (p_trapframe p) PGSIZE)
                 (tf_epc (p_trapframe p)) (p_handler p)) (allocated ctx (ps_k s)) |>
    <| ps_proc ::= alter (λ p, alarmed p ctx) i |>).
Proof.
  intros Hu Hf Hc Hp Ha Hn. unfold alarm_tick. rewrite (bind_Ret _ _ _ _ _ (pget_run i p s Hp)), Ha. simpl.
  rewrite (bind_Ret _ _ _ _ _ (pupd_run i p _ s Hp)). set (s1 := s <| ps_proc ::= _ |>).
  assert (ps_proc s1 !! i = Some (p <| p_nticks := i32 (p_nticks p + 1) |>)) as Hp1.
  { simpl. by rewrite list_lookup_alter_eq, Hp. }
  rewrite (bind_Ret _ _ _ _ _ (pget_run i _ s1 Hp1)). cbn -[Z.eqb]. rewrite Hn, Z.eqb_refl.
  pose proof (zoom_run kL _ s1 _ _ (kalloc_some (ps_k s) ctx (unlocked_can_kalloc _ Hu) Hf Hc)) as Ek.
  rewrite (bind_Ret _ _ _ _ _ Ek), (proj2 (Z.eqb_neq ctx 0) Hc).
  erewrite bind_Ret; [|unfold zoom, modify; reflexivity].
  erewrite bind_Ret; [|eapply pupd_run; simpl; rewrite list_lookup_alter_eq, Hp; reflexivity].
  unfold zoom, wr64, modify. do 2 f_equal. simpl. by rewrite list_alter_alter_eq.
Qed.

(** The registers are back, the page is free again. *)
Lemma sigreturn_run i p (s : pst) : unlocked (ps_k s) → ps_cur s = Some i → ps_proc s !! i = Some p →
  ram_page kend (p_alarmContext p) → fr (ps_k s) (fn (p_alarmContext p)) <= 1 →
  let m := memmove (mem_of s) (p_trapframe p) (p_alarmContext p) PGSIZE in
  sys_sigreturn kend s = (Ret (i32 (load64 m (tf_a 0 (p_alarmContext p)))), s
    <| ps_k := Kalloc.freed (p_alarmContext p) (set_mem m (ps_k s)) |>
    <| ps_proc ::= alter (λ p, p <| p_alarmOn := 0 |> <| p_nticks := 0 |> <| p_alarmContext := 0 |>) i |>).
Proof.
  intros Hu Hc Hp Hr Hf m. pose proof (ram_page_nonzero Hk _ Hr) as Hne. pose proof Hu as (Ho & _).
  unfold sys_sigreturn. rewrite (bind_Ret _ _ _ _ _ (me_run s i Ho Hc)), (bind_Ret _ _ _ _ _ (pget_run i p s Hp)).
  rewrite (proj2 (Z.eqb_neq _ 0) Hne). erewrite bind_Ret; [|unfold zoom, modify; reflexivity].
  rewrite (bind_Ret _ _ _ _ _ (krd_run _ _)).
  erewrite bind_Ret; [|apply (zoom_run kL); apply (kfree_last kend (set_mem m (ps_k s))); done].
  erewrite bind_Ret; [|eapply pupd_run; simpl; exact Hp]. done.
Qed.

End alarm.

(** ** A process with an alarm at the next tick, as an example *)
Module AlarmDemo.

Definition kd : Z := PHYSTOP - 16 * PGSIZE.
Definition ctx : Z := PHYSTOP - PGSIZE.
Definition tf : Z := PHYSTOP - 2 * PGSIZE.
Definition p0 : proc :=
  proc0 <| p_state := RUNNING |> <| p_trapframe := tf |> <| p_interval := 3 |> <| p_nticks := 2 |> <| p_handler := 4660 |>.
Definition k0 (m : mem) (r : Z) : kstate := KState (Hart 0 true true []) m ctx (λ _, r) 1.
(** [a0] is [2 ^ 32 + 7]. *)
Definition s0 : pstate unit :=
  PState (k0 (store64 (λ _, 0) (tf_a 0 tf) (2 ^ 32 + 7)) 0) [p0] [] None 2 (Some O) 0 false [] tt.
(** The handler has done nothing to the saved registers. *)
Definition s2 (m : mem) : pstate unit := s0 <| ps_k := k0 m 1 |> <| ps_proc := [alarmed p0 ctx] |>.

Lemma unlocked_k0 m r : unlocked (k0 m r).
Proof. split_and!; simpl; try apply not_elem_of_nil. split_and!; simpl; try done. constructor. Qed.
Lemma ctx_ram : ram_page kd ctx.
Proof. by split. Qed.
End AlarmDemo.

