(* ===== verification/Fs.v ===== *)
(** * The file system: [kernel/fs.c]

    Blocks, inodes, directories and path names, over the log and the buffer
    cache.  An inode in memory is named by its index in [itable]; a NULL inode
    is [None].  Directory entries and path elements live in local arrays of the
    kernel: [Local] names such a destination or source, [Addr] an address. *)
From S2P Require Import Prelude Machine Cstring Spinlock Sleeplock Blocks Bio Log UserMem Printf.

Definition T_DIR : Z := 1.
Definition T_FILE : Z := 2.
Definition T_DEVICE : Z := 3.

Record inode := Inode {
  i_dev : Z;
  i_inum : Z;
  i_ref : Z;
  i_lock : sleeplock;
  i_valid : Z;
  i_type : Z;
  i_major : Z;
  i_minor : Z;
  i_nlink : Z;
  i_size : Z;
  i_addrs : list Z;
}.
#[global] Instance inode_eta : Eta inode := λ i,
  Inode (i_dev i) (i_inum i) (i_ref i) (i_lock i) (i_valid i) (i_type i) (i_major i) (i_minor i) (i_nlink i)
    (i_size i) (i_addrs i).
#[global] Instance inode_inhabited : Inhabited inode :=
  populate (Inode 0 0 0 (SleepLock 0 0) 0 0 0 0 0 0 (replicate 13 0)).

Record fstate (D U : Type) := FState {
  fs_l : lstate D;           (** the log, the cache and the disk *)
  fs_sb : superblock;        (** [sb] *)
  fs_inode : list inode;     (** [itable.inode] *)
  fs_user : U;               (** the memory of the current process *)
  fs_cwd : nat;              (** [myproc()->cwd] *)
  fs_out : list Z;           (** characters printed on the console *)
}.
Arguments FState {D U} _ _ _ _ _ _.
Arguments fs_l {D U} _.
Arguments fs_sb {D U} _.
Arguments fs_inode {D U} _.
Arguments fs_user {D U} _.
Arguments fs_cwd {D U} _.
Arguments fs_out {D U} _.
#[global] Instance fstate_eta D U : Eta (fstate D U) := λ s,
  FState (fs_l s) (fs_sb s) (fs_inode s) (fs_user s) (fs_cwd s) (fs_out s).

(** ** Inodes on disk *)

(** The offset of inode [inum] in its block. *)
Definition dip (inum : Z) : nat := Z.to_nat (inum mod IPB * DINODE).
Definition NADDRS : nat := 13.

Definition dinode_type (b : block) (inum : Z) : Z := i16 (get16 b (dip inum)).

(** [ip->type = dip->type; ...] *)
Definition load_dinode (b : block) (ip : inode) : inode :=
  let o := dip (i_inum ip) in
  ip <| i_type := i16 (get16 b o) |> <| i_major := i16 (get16 b (o + 2)) |> <| i_minor := i16 (get16 b (o + 4)) |>
     <| i_nlink := i16 (get16 b (o + 6)) |> <| i_size := get32 b (o + 8) |>
     <| i_addrs := (λ k, get32 b (o + 12 + 4 * k)) <$> seq 0 NADDRS |>.

(** [dip->type = ip->type; ...] *)
Definition store_dinode (ip : inode) (b : block) : block :=
  let o := dip (i_inum ip) in
  let b := put16 b o (i_type ip) in
  let b := put16 b (o + 2) (i_major ip) in
  let b := put16 b (o + 4) (i_minor ip) in
  let b := put16 b (o + 6) (i_nlink ip) in
  let b := put32 b (o + 8) (i_size ip) in
  fold_left (λ b k, put32 b (o + 12 + 4 * k) (i_addrs ip !!! k)) (seq 0 NADDRS) b.

(** [memset] of the inode to 0, then [dip->type = type] *)
Definition new_dinode (inum type : Z) (b : block) : block :=
  let o := dip inum in
  put16 (take o b ++ replicate (Z.to_nat DINODE) 0 ++ drop (o + Z.to_nat DINODE) b) o type.

(** [l] over the bytes of [b] from [o] *)
Definition splice (b : list Z) (o : nat) (l : list Z) : list Z := take o b ++ l ++ drop (o + length l) b.

(** Where [readi] puts bytes and where [writei] gets them. *)
Inductive dest := ToAddr (user : bool) (a : Z) | ToLocal.
Inductive source := FromAddr (user : bool) (a : Z) | FromLocal (bs : list Z).

Section fs.
Context {D U : Type} `{DiskDriver D} `{UserMem U}.
Abbreviation fst' := (fstate D U).

Definition lL : lens fst' (lstate D) := Lens fs_l (λ l s, s <| fs_l := l |>).
Definition userL : lens fst' U := Lens fs_user (λ u s, s <| fs_user := u |>).
Definition ctx_f : lens fst' ctx :=
  Lens (λ s, bc_ctx (ls_b (fs_l s))) (λ c s, s <| fs_l ::= lset ctx_l c |>).

Definition fbread (dev no : Z) : M fst' nat := zoom lL (zoom bL (bread (u32 dev) (u32 no))).
Definition fdata (b : nat) : M fst' block := zoom lL (zoom bL (bdata b)).
Definition fstore (b : nat) (v : block) : M fst' unit := zoom lL (zoom bL (bstore b v)).
Definition fbrelse (b : nat) : M fst' unit := zoom lL (zoom bL (brelse b)).
Definition flog_write (b : nat) : M fst' unit := zoom lL (log_write b).

(** [*ip] *)
Definition getip (ip : nat) : M fst' inode := gets (λ s, fs_inode s !!! ip).
Definition updip (ip : nat) (f : inode → inode) : M fst' unit := modify (λ s, s <| fs_inode ::= alter f ip |>).
Definition on_inode {A} (ip : nat) (m : sleepid → onlock A) : M fst' A := λ s,
  match m (SlInode ip) (lget ctx_f s, i_lock (fs_inode s !!! ip)) with
  | (o, (c, lk)) => (o, (lset ctx_f c s) <| fs_inode ::= alter (λ i, i <| i_lock := lk |>) ip |>)
  end.

Definition fprint (l : list Z) : M fst' unit := modify (λ s, s <| fs_out ::= (λ o, o ++ l) |>).

Definition readsb (dev : Z) : M fst' unit :=
  bp <- fbread dev 1 ;;
  v <- fdata bp ;;
  modify (λ s, s <| fs_sb := decode_super v |>) ;;;
  fbrelse bp.

Definition fsinit (dev : Z) : M fst' unit :=
  readsb dev ;;;
  sb <- gets fs_sb ;;
  if negb (sb_magic sb =? FSMAGIC) then panic "invalid file system" else
  zoom lL (initlog dev sb).

Definition bzero (dev bno : Z) : M fst' unit :=
  bp <- fbread dev bno ;;
  fstore bp zero_block ;;;
  flog_write bp ;;;
  fbrelse bp.

(** ** Blocks *)

Definition bit_clear (v : block) (bi : Z) : bool :=
  Z.land (v !!! Z.to_nat (bi / 8)) (Z.shiftl 1 (bi mod 8)) =? 0.
Definition set_bit (v : block) (bi : Z) : block :=
  let n := Z.to_nat (bi / 8) in <[n := u8 (Z.lor (v !!! n) (Z.shiftl 1 (bi mod 8)))]> v.
Definition clear_bit (v : block) (bi : Z) : block :=
  let n := Z.to_nat (bi / 8) in <[n := u8 (Z.land (v !!! n) (Z.lnot (Z.shiftl 1 (bi mod 8))))]> v.

(** The inner loop of [balloc]: the first free block of [b .. b + BPB). *)
Definition balloc_scan (dev : Z) (bp : nat) (b size : Z) : M fst' (option Z) :=
  for_each (seqZ 0 BPB) (λ bi,
    if b + bi <? size then
      v <- fdata bp ;;
      if bit_clear v bi then
        fstore bp (set_bit v bi) ;;;
        flog_write bp ;;;
        fbrelse bp ;;;
        bzero dev (b + bi) ;;;
        ret (Some (b + bi))
      else ret None
    else ret None).
Definition balloc (dev : Z) : M fst' Z :=
  sb <- gets fs_sb ;;
  r <- for_each (seqZ 0 ((sb_size sb + BPB - 1) / BPB)) (λ k,
    let b := k * BPB in
    bp <- fbread dev (BBLOCK b sb) ;;
    r <- balloc_scan dev bp b (sb_size sb) ;;
    match r with
    | Some x => ret (Some x)
    | None => fbrelse bp ;;; ret None
    end) ;;
  match r with
  | Some x => ret x
  | None => fprint (bytes_of "balloc: out of blocks" ++ [10]) ;;; ret 0
  end.

Definition bfree (dev b : Z) : M fst' unit :=
  sb <- gets fs_sb ;;
  bp <- fbread dev (BBLOCK b sb) ;;
  let bi := b mod BPB in
  v <- fdata bp ;;
  if bit_clear v bi then panic "freeing free block" else
  fstore bp (clear_bit v bi) ;;;
  flog_write bp ;;;
  fbrelse bp.

(** ** Inodes *)

Definition iinit : M fst' unit := for_all (seq 0 NINODE) (λ i, on_inode i (λ _, initsleeplock)).

Definition iget_is (dev inum : Z) (ip : inode) : bool :=
  (0 <? i_ref ip) && (i_dev ip =? dev) && (i_inum ip =? inum).

Definition iget (dev inum : Z) : M fst' nat :=
  zoom ctx_f (lock LkItable) ;;;
  s <- get ;;
  match list_find (λ ip, Is_true (iget_is dev inum ip)) (fs_inode s) with
  | Some (ip, _) =>
      updip ip (λ i, i <| i_ref := i_ref i + 1 |>) ;;;
      zoom ctx_f (unlock LkItable) ;;;
      ret ip
  | None =>
      match list_find (λ ip, i_ref ip = 0) (fs_inode s) with
      | None => panic "iget: no inodes"
      | Some (ip, _) =>
          updip ip (λ i, i <| i_dev := dev |> <| i_inum := inum |> <| i_ref := 1 |> <| i_valid := 0 |>) ;;;
          zoom ctx_f (unlock LkItable) ;;;
          ret ip
      end
  end.

Definition ialloc (dev type : Z) : M fst' (option nat) :=
  sb <- gets fs_sb ;;
  r <- for_each (seqZ 1 (sb_ninodes sb - 1)) (λ inum,
    bp <- fbread dev (IBLOCK inum sb) ;;
    v <- fdata bp ;;
    if dinode_type v inum =? 0 then
      fstore bp (new_dinode inum type v) ;;;
      flog_write bp ;;;
      fbrelse bp ;;;
      ip <- iget dev inum ;;
      ret (Some ip)
    else fbrelse bp ;;; ret None) ;;
  match r with
  | Some ip => ret (Some ip)
  | None => fprint (bytes_of "ialloc: no inodes" ++ [10]) ;;; ret None
  end.

Definition iupdate (ip : nat) : M fst' unit :=
  sb <- gets fs_sb ;;
  i <- getip ip ;;
  bp <- fbread (i_dev i) (IBLOCK (i_inum i) sb) ;;
  v <- fdata bp ;;
  fstore bp (store_dinode i v) ;;;
  flog_write bp ;;;
  fbrelse bp.

Definition idup (ip : nat) : M fst' nat :=
  zoom ctx_f (lock LkItable) ;;;
  updip ip (λ i, i <| i_ref := i_ref i + 1 |>) ;;;
  zoom ctx_f (unlock LkItable) ;;;
  ret ip.

Definition ilock (ip : nat) : M fst' unit :=
  i <- getip ip ;;
  if i_ref i <? 1 then panic "ilock" else
  on_inode ip acquiresleep ;;;
  i <- getip ip ;;
  if i_valid i =? 0 then
    sb <- gets fs_sb ;;
    bp <- fbread (i_dev i) (IBLOCK (i_inum i) sb) ;;
    v <- fdata bp ;;
    updip ip (load_dinode v) ;;;
    fbrelse bp ;;;
    updip ip (λ i, i <| i_valid := 1 |>) ;;;
    i <- getip ip ;;
    if i_type i =? 0 then panic "ilock: no type" else ret tt
  else ret tt.

Definition iunlock (ip : nat) : M fst' unit :=
  h <- on_inode ip holdingsleep ;;
  i <- getip ip ;;
  if negb h || (i_ref i <? 1) then panic "iunlock" else
  on_inode ip releasesleep.

Definition itrunc (ip : nat) : M fst' unit :=
  for_all (seq 0 (Z.to_nat NDIRECT)) (λ k,
    i <- getip ip ;;
    let a := i_addrs i !!! k in
    when (truth a) (bfree (i_dev i) a ;;; updip ip (λ i, i <| i_addrs ::= <[k := 0]> |>))) ;;;
  i <- getip ip ;;
  let a := i_addrs i !!! Z.to_nat NDIRECT in
  (if truth a then
     bp <- fbread (i_dev i) a ;;
     for_all (seq 0 (Z.to_nat NINDIRECT)) (λ j,
       v <- fdata bp ;;
       let x := get32 v (4 * j) in
       when (truth x) (bfree (i_dev i) x)) ;;;
     fbrelse bp ;;;
     bfree (i_dev i) a ;;;
     updip ip (λ i, i <| i_addrs ::= <[Z.to_nat NDIRECT := 0]> |>)
   else ret tt) ;;;
  updip ip (λ i, i <| i_size := 0 |>) ;;;
  iupdate ip.

Definition iput (ip : nat) : M fst' unit :=
  zoom ctx_f (lock LkItable) ;;;
  i <- getip ip ;;
  (if (i_ref i =? 1) && truth (i_valid i) && (i_nlink i =? 0) then
     on_inode ip acquiresleep ;;;
     zoom ctx_f (unlock LkItable) ;;;
     itrunc ip ;;;
     updip ip (λ i, i <| i_type := 0 |>) ;;;
     iupdate ip ;;;
     updip ip (λ i, i <| i_valid := 0 |>) ;;;
     on_inode ip releasesleep ;;;
     zoom ctx_f (lock LkItable)
   else ret tt) ;;;
  updip ip (λ i, i <| i_ref := i_ref i - 1 |>) ;;;
  zoom ctx_f (unlock LkItable).

Definition iunlockput (ip : nat) : M fst' unit := iunlock ip ;;; iput ip.

(** ** Contents *)

Definition bmap (ip : nat) (bn : Z) : M fst' Z :=
  i <- getip ip ;;
  if bn <? NDIRECT then
    let addr := i_addrs i !!! Z.to_nat bn in
    if addr =? 0 then
      addr <- balloc (i_dev i) ;;
      if addr =? 0 then ret 0 else
      updip ip (λ i, i <| i_addrs ::= <[Z.to_nat bn := addr]> |>) ;;;
      ret addr
    else ret addr
  else
  let bn := bn - NDIRECT in
  if bn <? NINDIRECT then
    let addr := i_addrs i !!! Z.to_nat NDIRECT in
    addr <- (if addr =? 0 then
               addr <- balloc (i_dev i) ;;
               when (truth addr) (updip ip (λ i, i <| i_addrs ::= <[Z.to_nat NDIRECT := addr]> |>)) ;;;
               ret addr
             else ret addr) ;;
    if addr =? 0 then ret 0 else
    bp <- fbread (i_dev i) addr ;;
    a <- fdata bp ;;
    let addr := get32 a (4 * Z.to_nat bn) in
    addr <- (if addr =? 0 then
               addr <- balloc (i_dev i) ;;
               (if truth addr then
                  a <- fdata bp ;;
                  fstore bp (put32 a (4 * Z.to_nat bn) addr) ;;;
                  flog_write bp
                else ret tt) ;;;
               ret addr
             else ret addr) ;;
    fbrelse bp ;;;
    ret addr
  else panic "bmap: out of range".

(** [struct stat]: dev, ino, type, nlink, size *)
Definition stati (ip : nat) : M fst' (Z * Z * Z * Z * Z) :=
  i <- getip ip ;; ret (i_dev i, i_inum i, i_type i, i_nlink i, i_size i).

(** The loop of [readi] with [tot] of [n] bytes read; the result and the bytes put so far. *)
Fixpoint readi_loop (fuel : nat) (ip : nat) (to : dest) (off n tot : Z) (got : list Z) : M fst' (Z * list Z) :=
  match fuel with
  | O => ret (tot, got)
  | S f =>
      if tot <? n then
        addr <- bmap ip (off / BSIZE) ;;
        if addr =? 0 then ret (tot, got) else
        i <- getip ip ;;
        bp <- fbread (i_dev i) addr ;;
        let m := Z.min (n - tot) (BSIZE - off mod BSIZE) in
        v <- fdata bp ;;
        let bs := take (Z.to_nat m) (drop (Z.to_nat (off mod BSIZE)) v) in
        rc <- (match to with
               | ToAddr user a => zoom userL (either_copyout user (u64 (a + tot)) bs)
               | ToLocal => ret 0
               end) ;;
        fbrelse bp ;;;
        if rc =? -1 then ret (-1, got)
        else readi_loop f ip to (off + m) n (tot + m) (got ++ bs)
      else ret (tot, got)
  end.
Definition readi (ip : nat) (to : dest) (off n : Z) : M fst' (Z * list Z) :=
  i <- getip ip ;;
  if (i_size i <? off) || (u32 (off + n) <? off) then ret (0, []) else
  let n := if i_size i <? off + n then i_size i - off else n in
  readi_loop (S (Z.to_nat (n / BSIZE + 2))) ip to off n 0 [].

(** The loop of [writei]: the result [tot] and the final [off]. *)
Fixpoint writei_loop (fuel : nat) (ip : nat) (from : source) (off n tot : Z) : M fst' (Z * Z) :=
  match fuel with
  | O => ret (tot, off)
  | S f =>
      if tot <? n then
        addr <- bmap ip (off / BSIZE) ;;
        if addr =? 0 then ret (tot, off) else
        i <- getip ip ;;
        bp <- fbread (i_dev i) addr ;;
        let m := Z.min (n - tot) (BSIZE - off mod BSIZE) in
        v <- fdata bp ;;
        let* '(rc, bs) :=
          match from with
          | FromAddr user a => zoom userL (either_copyin user (u64 (a + tot)) m)
          | FromLocal l => ret (0, take (Z.to_nat m) (drop (Z.to_nat tot) l))
          end in
        fstore bp (splice v (Z.to_nat (off mod BSIZE)) bs) ;;;
        if rc =? -1 then fbrelse bp ;;; ret (tot, off)
        else
          flog_write bp ;;;
          fbrelse bp ;;;
          writei_loop f ip from (off + m) n (tot + m)
      else ret (tot, off)
  end.
Definition writei (ip : nat) (from : source) (off n : Z) : M fst' Z :=
  i <- getip ip ;;
  if (i_size i <? off) || (u32 (off + n) <? off) then ret (-1) else
  if MAXFILE * BSIZE <? off + n then ret (-1) else
  let* '(tot, off) := writei_loop (S (Z.to_nat (n / BSIZE + 2))) ip from off n 0 in
  i <- getip ip ;;
  when (i_size i <? off) (updip ip (λ i, i <| i_size := off |>)) ;;;
  iupdate ip ;;;
  ret tot.

(** ** Directories *)

(** [strncmp(s, t, DIRSIZ)] *)
Definition namecmp (s t : list Z) : Z := strncmp (lmem s) (lmem t) 0 0 DIRSIZ.

Definition de_inum (de : list Z) : Z := get16 de 0.
Definition de_name (de : list Z) : list Z := drop 2 de.

(** The offsets of the entries of a directory of [size] bytes. *)
Definition entries (size : Z) : list Z := (λ k, k * DIRENT) <$> seqZ 0 ((size + DIRENT - 1) / DIRENT).

(** The inode and the offset of the entry. *)
Definition dirlookup (dp : nat) (name : list Z) : M fst' (option (nat * Z)) :=
  d <- getip dp ;;
  if negb (i_type d =? T_DIR) then panic "dirlookup not DIR" else
  for_each (entries (i_size d)) (λ off,
    let* '(r, de) := readi dp ToLocal off DIRENT in
    if negb (r =? DIRENT) then panic "dirlookup read" else
    if de_inum de =? 0 then ret None else
    if namecmp name (de_name de) =? 0 then
      ip <- iget (i_dev d) (de_inum de) ;;
      ret (Some (ip, off))
    else ret None).

(** [strncpy(de.name, name, DIRSIZ); de.inum = inum] *)
Definition dirent (name : list Z) (inum : Z) : list Z :=
  put16 (replicate 2 0 ++ bytes (strncpy (λ a, if a <? DIRSIZ then 0 else lmem name (a - DIRSIZ)) 0 DIRSIZ DIRSIZ) 0 (Z.to_nat DIRSIZ)) 0 inum.

Definition dirlink (dp : nat) (name : list Z) (inum : Z) : M fst' Z :=
  r <- dirlookup dp name ;;
  match r with
  | Some (ip, _) => iput ip ;;; ret (-1)
  | None =>
      d <- getip dp ;;
      r <- for_each (entries (i_size d)) (λ off,
        let* '(r, de) := readi dp ToLocal off DIRENT in
        if negb (r =? DIRENT) then panic "dirlink read" else
        ret (if de_inum de =? 0 then Some off else None)) ;;
      let off := default (Z.of_nat (length (entries (i_size d))) * DIRENT) r in
      n <- writei dp (FromLocal (dirent name inum)) off DIRENT ;;
      if negb (n =? DIRENT) then ret (-1) else ret 0
  end.

(** ** Paths: the bytes of a string without its NUL *)

Fixpoint skip_slashes (path : list Z) : list Z :=
  match path with 47 :: p => skip_slashes p | _ => path end.
(** The first element and what follows it. *)
Fixpoint span_elem (path : list Z) : list Z * list Z :=
  match path with
  | [] => ([], [])
  | c :: p => if c =? 47 then ([], path) else let '(e, r) := span_elem p in (c :: e, r)
  end.
(** The rest of the path and the contents of [name]. *)
Definition skipelem (path name : list Z) : option (list Z * list Z) :=
  match skip_slashes path with
  | [] => None
  | p =>
      let '(s, rest) := span_elem p in
      let name := if DIRSIZ <=? Z.of_nat (length s) then take (Z.to_nat DIRSIZ) s
                  else s ++ [0] ++ drop (S (length s)) name in
      Some (skip_slashes rest, name)
  end.

Fixpoint namex_loop (fuel : nat) (path name : list Z) (nameiparent : bool) (ip : nat) : M fst' (option nat * list Z) :=
  match fuel with
  | O => ret (None, name)
  | S f =>
      match skipelem path name with
      | None => if nameiparent then iput ip ;;; ret (None, name) else ret (Some ip, name)
      | Some (path, name) =>
          ilock ip ;;;
          i <- getip ip ;;
          if negb (i_type i =? T_DIR) then iunlockput ip ;;; ret (None, name) else
          if nameiparent && bool_decide (path = []) then iunlock ip ;;; ret (Some ip, name) else
          next <- dirlookup ip name ;;
          match next with
          | None => iunlockput ip ;;; ret (None, name)
          | Some (next, _) => iunlockput ip ;;; namex_loop f path name nameiparent next
          end
      end
  end.
Definition namex (path : list Z) (nameiparent : bool) (name : list Z) : M fst' (option nat * list Z) :=
  ip <- (match path with
         | 47 :: _ => iget ROOTDEV ROOTINO
         | _ => s <- get ;; idup (fs_cwd s)
         end) ;;
  namex_loop (S (length path)) path name nameiparent ip.

Definition namei (path : list Z) : M fst' (option nat) :=
  r <- namex path false (replicate (Z.to_nat DIRSIZ) 0) ;; ret (fst r).
Definition nameiparent (path name : list Z) : M fst' (option nat * list Z) := namex path true name.
End fs.
