(* ===== verification/FsFrame.v ===== *)
(** * What the file system leaves of the process

    The functions of [kernel/fs.c] reach the process only through copies to and
    from its memory: a part [h] of the process that those keep, they all keep. *)
From S2P Require Import Prelude Frame Machine Cstring Spinlock Sleeplock Blocks Bio Log UserMem Printf Fs.

Section frame.
Context {D U X : Type} `{DiskDriver D} `{UserMem U} {h : U → X}.
Context (Hci : ∀ a n, keeps h (copyin_u a n)) (Hco : ∀ a bs, keeps h (copyout_u a bs)).
Context (Hki : ∀ a n, keeps h (copyin_k a n)) (Hko : ∀ a bs, keeps h (copyout_k a bs)).
Abbreviation fst' := (fstate D U).

(** The part of the process, in the state of the file system. *)
Definition fs_part (s : fst') : X := h (fs_user s).

Lemma keeps_lL {A} (m : M (lstate D) A) : keeps fs_part (zoom lL m).
Proof. by apply keeps_zoom_out. Qed.
Lemma keeps_ctx_f {A} (m : M ctx A) : keeps fs_part (zoom ctx_f m).
Proof. by apply keeps_zoom_out. Qed.
Lemma keeps_userL {A} (m : M U A) : keeps h m → keeps fs_part (zoom userL m).
Proof. by apply keeps_zoom_in. Qed.
Lemma keeps_updip ip g : keeps fs_part (updip ip g).
Proof. by apply keeps_modify. Qed.
Lemma keeps_on_inode {A} ip (m : sleepid → onlock A) : keeps fs_part (on_inode ip m).
Proof. intros s. unfold on_inode. by destruct (m _ _) as [o [c lk]]. Qed.
Lemma keeps_fprint l : keeps fs_part (fprint l).
Proof. by apply keeps_modify. Qed.
Lemma keeps_getip ip : keeps fs_part (getip ip).
Proof. done. Qed.

Lemma keeps_either_copyout b a bs : keeps h (either_copyout b a bs).
Proof using Hco Hko. unfold either_copyout. frame. Qed.
Lemma keeps_either_copyin b a n : keeps h (either_copyin b a n).
Proof using Hci Hki. unfold either_copyin. frame. Qed.

#[local] Hint Resolve keeps_lL keeps_ctx_f keeps_userL keeps_updip keeps_on_inode keeps_fprint keeps_getip
  keeps_either_copyout keeps_either_copyin : frame.

Lemma keeps_fbread dev no : keeps fs_part (fbread dev no).
Proof. unfold fbread. frame. Qed.
Lemma keeps_fdata b : keeps fs_part (fdata b).
Proof. unfold fdata. frame. Qed.
Lemma keeps_fstore b v : keeps fs_part (fstore b v).
Proof. unfold fstore. frame. Qed.
Lemma keeps_fbrelse b : keeps fs_part (fbrelse b).
Proof. unfold fbrelse. frame. Qed.
Lemma keeps_flog_write b : keeps fs_part (flog_write b).
Proof. unfold flog_write. frame. Qed.
#[local] Hint Resolve keeps_fbread keeps_fdata keeps_fstore keeps_fbrelse keeps_flog_write : frame.

Lemma keeps_bzero dev b : keeps fs_part (bzero dev b).
Proof. unfold bzero. frame. Qed.
#[local] Hint Resolve keeps_bzero : frame.
Lemma keeps_balloc dev : keeps fs_part (balloc dev).
Proof. unfold balloc, balloc_scan. frame. Qed.
Lemma keeps_bfree dev b : keeps fs_part (bfree dev b).
Proof. unfold bfree. frame. Qed.
#[local] Hint Resolve keeps_balloc keeps_bfree : frame.

Lemma keeps_iget dev inum : keeps fs_part (iget dev inum).
Proof. unfold iget. frame. Qed.
Lemma keeps_idup ip : keeps fs_part (idup ip).
Proof. unfold idup. frame. Qed.
Lemma keeps_iupdate ip : keeps fs_part (iupdate ip).
Proof. unfold iupdate. frame. Qed.
#[local] Hint Resolve keeps_iget keeps_idup keeps_iupdate : frame.
Lemma keeps_ialloc dev type : keeps fs_part (ialloc dev type).
Proof. unfold ialloc. frame. Qed.
Lemma keeps_ilock ip : keeps fs_part (ilock ip).
Proof. unfold ilock. frame. Qed.
Lemma keeps_iunlock ip : keeps fs_part (iunlock ip).
Proof. unfold iunlock. frame. Qed.
Lemma keeps_itrunc ip : keeps fs_part (itrunc ip).
Proof. unfold itrunc. frame. Qed.
#[local] Hint Resolve keeps_ialloc keeps_ilock keeps_iunlock keeps_itrunc : frame.
Lemma keeps_iput ip : keeps fs_part (iput ip).
Proof. unfold iput. frame. Qed.
#[local] Hint Resolve keeps_iput : frame.
Lemma keeps_iunlockput ip : keeps fs_part (iunlockput ip).
Proof. unfold iunlockput. frame. Qed.
Lemma keeps_bmap ip bn : keeps fs_part (bmap ip bn).
Proof. unfold bmap. frame. Qed.
#[local] Hint Resolve keeps_iunlockput keeps_bmap : frame.

Lemma keeps_readi_loop fuel ip to off n tot got : keeps fs_part (readi_loop fuel ip to off n tot got).
Proof using Hco Hko. revert off tot got. induction fuel as [|fuel IH]; intros off tot got; cbn [readi_loop]; frame. Qed.
Lemma keeps_writei_loop fuel ip from off n tot : keeps fs_part (writei_loop fuel ip from off n tot).
Proof using Hci Hki. revert off tot. induction fuel as [|fuel IH]; intros off tot; cbn [writei_loop]; frame. Qed.
#[local] Hint Resolve keeps_readi_loop keeps_writei_loop : frame.
Lemma keeps_readi ip to off n : keeps fs_part (readi ip to off n).
Proof using Hco Hko. unfold readi. frame. Qed.
Lemma keeps_writei ip from off n : keeps fs_part (writei ip from off n).
Proof using Hci Hki. unfold writei. frame. Qed.
#[local] Hint Resolve keeps_readi keeps_writei : frame.

Lemma keeps_dirlookup dp name : keeps fs_part (dirlookup dp name).
Proof using Hco Hko. unfold dirlookup. frame. Qed.
#[local] Hint Resolve keeps_dirlookup : frame.
Lemma keeps_dirlink dp name inum : keeps fs_part (dirlink dp name inum).
Proof using Hci Hco Hki Hko. unfold dirlink. frame. Qed.
Lemma keeps_namex_loop fuel path name parent ip : keeps fs_part (namex_loop fuel path name parent ip).
Proof using Hco Hko. revert path name ip. induction fuel as [|fuel IH]; intros path name ip; cbn [namex_loop]; frame. Qed.
#[local] Hint Resolve keeps_namex_loop : frame.
Lemma keeps_namei path : keeps fs_part (namei path).
Proof using Hco Hko. unfold namei, namex. frame. Qed.
Lemma keeps_nameiparent path name : keeps fs_part (nameiparent path name).
Proof using Hco Hko. unfold nameiparent, namex. frame. Qed.
End frame.
