(* ===== verification/FsSpec.v ===== *)
(** * Properties of the file system's blocks and inodes

    The allocator of disk blocks on the free map, and the layout of inodes on
    disk, inside a transaction ([logged] of LogSpec.v). *)
From S2P Require Import Prelude Machine Cstring Spinlock Sleeplock Blocks Bio Log LogSpec UserMem Printf Fs.

Section rules.
Context {D U : Type} `{DiskSpec D} `{UserMem U} {c : ctx} {d : Z}.
Abbreviation fst' := (fstate D U).

(** [logged] of the log part of the state. *)
Definition flogged (held : gmap Z nat) (v dk : Z → block) (tr : list (Z * block)) (g : log) (s : fst') : Prop :=
  logged c d held v dk tr g (fs_l s).

Lemma wp_fbread dev no x held v dk tr g (s : fst') (Q : nat → fst' → Prop) : u32 dev = d → u32 no = x →
  flogged held v dk tr g s → held !! x = None → home g x → (size held + Z.to_nat (lg_n g) < NBUF)%nat →
  (∀ b l, logged c d (<[x := b]> held) v dk tr g l → Q b (s <| fs_l := l |>)) → wp (fbread dev no) Q s.
Proof.
  intros Ed Ex HL Hx Hh Hr HQ. unfold fbread. rewrite Ed, Ex. apply wp_zoom. simpl.
  eapply wp_lread; [exact HL|done|done|done|]. intros b l Hl. by apply HQ.
Qed.

Lemma wp_fdata x b held v dk tr g (s : fst') (Q : block → fst' → Prop) : flogged held v dk tr g s →
  held !! x = Some b → Q (v x) s → wp (fdata b) Q s.
Proof.
  intros HL Hx HQ. unfold fdata. apply wp_zoom. simpl. eapply wp_ldata; [exact HL|exact Hx|]. by destruct s.
Qed.

Lemma wp_fbrelse x b held v dk tr g (s : fst') (Q : unit → fst' → Prop) : flogged held v dk tr g s →
  held !! x = Some b → (∀ l, logged c d (delete x held) v dk tr g l → Q tt (s <| fs_l := l |>)) → wp (fbrelse b) Q s.
Proof.
  intros HL Hx HQ. unfold fbrelse. apply wp_zoom. simpl. eapply wp_lrelse; [exact HL|exact Hx|]. intros l Hl. by apply HQ.
Qed.

(** A store and its [log_write], as they always come together. *)
Lemma wp_fwrite {A} x b w held v dk tr g (s : fst') (k : M fst' A) (Q : A → fst' → Prop) :
  hart_ok (c_hart c) → LkLog ∉ h_held (c_hart c) → flogged held v dk tr g s → held !! x = Some b → log_room g →
  (∀ l, logged c d held (bupd v x w) dk tr (add_block x g) l → wp k Q (s <| fs_l := l |>)) →
  wp (fstore b w ;;; flog_write b ;;; k) Q s.
Proof.
  intros Ho Hl HL Hx Hr HQ. unfold fstore, flog_write. wp_step. apply wp_zoom. simpl.
  eapply wp_lstore; [exact HL|exact Hx|]. intros l1 Hl1. wp_step. apply wp_zoom. simpl.
  eapply wp_log_write; [done|done|exact Hl1|exact Hx|exact Hr|]. intros l2 Hl2. by apply HQ.
Qed.
End rules.

(** ** Room in the log *)
Definition room (k : Z) (g : log) : Prop :=
  lg_n g + k <= LOGSIZE ∧ lg_n g + k <= lg_size g - 1 ∧ 1 <= lg_outstanding g.

Lemma room_log k g : room k g → 1 <= k → log_room g.
Proof. intros (H1 & H2 & H3) Hk. unfold log_room. lia. Qed.

Lemma room_le j k g : room k g → j <= k → room j g.
Proof. intros (H1 & H2 & H3) Hk. unfold room. lia. Qed.

Lemma room_add k g x : room k g → room (k - 1) (add_block x g).
Proof. intros (H1 & H2 & H3). unfold room, add_block. case_decide; simpl; lia. Qed.

Lemma room_nbuf k g held : room k g → 1 <= k → 0 <= lg_n g → (size (held : gmap Z nat) <= Z.to_nat k - 1)%nat →
  (size held + Z.to_nat (lg_n g) < NBUF)%nat.
Proof. intros (H1 & _ & _) Hk Hn Hs. unfold LOGSIZE, MAXOPBLOCKS, NBUF in *. lia. Qed.

(** ** The free map *)

(** Is block [b] in use? *)
Definition used (sb : superblock) (v : Z → block) (b : Z) : bool := negb (bit_clear (v (BBLOCK b sb)) (b mod BPB)).

(** The bitmap covers the disk, and its free blocks are outside the log. *)
Record bitmap_ok (sb : superblock) (g : log) (v : Z → block) : Prop := {
  bo_size : 0 <= sb_size sb < 2 ^ 31;
  bo_start : 0 <= sb_bmapstart sb;
  bo_home : ∀ b, 0 <= b < sb_size sb → home g (BBLOCK b sb);
  bo_wf : ∀ b, 0 <= b < sb_size sb → wf_block (v (BBLOCK b sb));
  bo_free : ∀ b, 0 <= b < sb_size sb → used sb v b = false → home g b;
  bo_self : ∀ b, 0 <= b < sb_size sb → 0 <= BBLOCK b sb < sb_size sb ∧ used sb v (BBLOCK b sb) = true;
}.

Lemma bit_index v bi : wf_block v → 0 <= bi < BPB → (Z.to_nat (bi / 8) < length v)%nat.
Proof. intros [-> _] Hb. unfold BPB, BSIZE in *. zdiv. Qed.

Lemma bit_clear_testbit v bi : bit_clear v bi = negb (Z.testbit (v !!! Z.to_nat (bi / 8)) (bi mod 8)).
Proof.
  unfold bit_clear. rewrite Z.shiftl_1_l. set (x := v !!! _).
  assert (0 <= bi mod 8) as Hm by (apply Z.mod_pos_bound; lia).
  destruct (Z.eqb_spec (Z.land x (2 ^ (bi mod 8))) 0) as [E|E].
  - apply (f_equal (λ y, Z.testbit y (bi mod 8))) in E. rewrite Z.land_spec, Z.pow2_bits_true, Z.bits_0, andb_true_r in E by done.
    by rewrite E.
  - destruct (Z.testbit x (bi mod 8)) eqn:Et; [done|]. exfalso. apply E. apply Z.bits_inj'. intros n Hn.
    rewrite Z.land_spec, Z.bits_0, Z.pow2_bits_eqb by done. destruct (Z.eqb_spec (bi mod 8) n) as [<-|]; [by rewrite Et|by rewrite andb_false_r].
Qed.

Lemma u8_testbit x n : 0 <= n < 8 → Z.testbit (u8 x) n = Z.testbit x n.
Proof. intros Hn. unfold u8. rewrite Z.mod_pow2_bits_low by lia. done. Qed.

(** Changing a bit changes that bit only. *)
Lemma bit_clear_update v bi bj y b : wf_block v → 0 <= bi < BPB → 0 <= bj < BPB →
  (∀ k, 0 <= k < 8 → Z.testbit y k = if bi mod 8 =? k then b else Z.testbit (v !!! Z.to_nat (bi / 8)) k) →
  bit_clear (<[Z.to_nat (bi / 8) := u8 y]> v) bj = if decide (bj = bi) then negb b else bit_clear v bj.
Proof.
  intros Hv Hi Hj Hy. rewrite !bit_clear_testbit. pose proof (bit_index v bi Hv Hi) as Hlt.
  assert (0 <= bj mod 8 < 8) as Hmj by (by apply Z.mod_pos_bound). destruct (decide (bi / 8 = bj / 8)) as [E|E].
  - rewrite <-E, list_lookup_total_insert_eq, u8_testbit, Hy by done.
    destruct (decide (bj = bi)) as [->|Hne]; [by rewrite Z.eqb_refl|].
    rewrite (proj2 (Z.eqb_neq (bi mod 8) (bj mod 8))); [done|]. zdiv.
  - rewrite list_lookup_total_insert_ne by (unfold BPB in *; zdiv). rewrite decide_False; [done|]. intros ->. done.
Qed.

Lemma bit_clear_set v bi bj : wf_block v → 0 <= bi < BPB → 0 <= bj < BPB →
  bit_clear (set_bit v bi) bj = if decide (bj = bi) then false else bit_clear v bj.
Proof.
  intros Hv Hi Hj. apply (bit_clear_update _ _ _ _ true); try done. intros k Hk.
  rewrite Z.lor_spec, Z.shiftl_1_l, Z.pow2_bits_eqb by (apply Z.mod_pos_bound; lia).
  destruct (_ =? _); [apply orb_true_r|apply orb_false_r].
Qed.

Lemma bit_clear_clear v bi bj : wf_block v → 0 <= bi < BPB → 0 <= bj < BPB →
  bit_clear (clear_bit v bi) bj = if decide (bj = bi) then true else bit_clear v bj.
Proof.
  intros Hv Hi Hj. apply (bit_clear_update _ _ _ _ false); try done. intros k Hk.
  rewrite Z.land_spec, Z.lnot_spec, Z.shiftl_1_l, Z.pow2_bits_eqb by (lia || apply Z.mod_pos_bound; lia).
  destruct (_ =? _); [apply andb_false_r|apply andb_true_r].
Qed.

Lemma wf_set_bit v bi : wf_block v → wf_block (set_bit v bi).
Proof.
  intros [Hl Hf]. split; [unfold set_bit; by rewrite length_insert|]. apply Forall_insert; [done|]. by apply Z.mod_pos_bound.
Qed.
Lemma wf_clear_bit v bi : wf_block v → wf_block (clear_bit v bi).
Proof.
  intros [Hl Hf]. split; [unfold clear_bit; by rewrite length_insert|]. apply Forall_insert; [done|]. by apply Z.mod_pos_bound.
Qed.

Lemma seqZ_pre m n pre x suf : seqZ m n = pre ++ x :: suf →
  x = m + Z.of_nat (length pre) ∧ m <= x < m + n ∧ (∀ y, y ∈ pre ↔ m <= y < x).
Proof.
  intros E. assert (seqZ m n !! length pre = Some x) as Hx by (by rewrite E, lookup_app_r, Nat.sub_diag by lia).
  apply lookup_seqZ in Hx as [Hx Hlt]. split_and!; [lia|lia|lia|]. intros y. rewrite list_elem_of_lookup. split.
  - intros [k Hk]. pose proof (lookup_lt_Some _ _ _ Hk). assert (seqZ m n !! k = Some y) as Hy by (by rewrite E, lookup_app_l).
    apply lookup_seqZ in Hy. lia.
  - intros Hy. exists (Z.to_nat (y - m)). assert (seqZ m n !! Z.to_nat (y - m) = Some y) as Hs by (apply lookup_seqZ; lia).
    rewrite E, lookup_app_l in Hs; [done|lia].
Qed.

Section alloc.
Context {D U : Type} `{DiskSpec D} `{UserMem U} {c : ctx} {d : Z}.
Context (Ho : hart_ok (c_hart c)) (Hl : LkLog ∉ h_held (c_hart c)).
Abbreviation fst' := (fstate D U).
Abbreviation flog := (flogged (c := c) (d := d)).

Lemma flogged_n held v dk tr g (s : fst') : flog held v dk tr g s → 0 <= lg_n g.
Proof. intros (a & _ & T & _). pose proof (lw_n _ _ (tx_wf _ _ _ _ T)). lia. Qed.

(** What an operation does that changes only the log part of the state, to the view [v] and the log [g]. *)
Definition now (held : gmap Z nat) (v dk : Z → block) tr (g : log) (s s' : fst') : Prop :=
  ∃ l, s' = s <| fs_l := l |> ∧ logged c d held v dk tr g l.

Lemma now_flog held v dk tr g s s' : now held v dk tr g s s' → flog held v dk tr g s'.
Proof. by intros (l & -> & Hl'). Qed.

Lemma now_trans held v dk tr g held' v' dk' tr' g' s s' s'' :
  now held v dk tr g s s' → now held' v' dk' tr' g' s' s'' → now held' v' dk' tr' g' s s''.
Proof. intros (l & -> & _) (l' & -> & Hl'). by exists l'. Qed.

Lemma bzero_run dev b held v dk tr g (s : fst') : u32 dev = d → flog held v dk tr g s → held !! b = None → home g b →
  room (1 + Z.of_nat (size held)) g → wp (bzero dev b) (λ _ s', now held (bupd v b zero_block) dk tr (add_block b g) s s') s.
Proof.
  intros Ed HL Hb Hh Hr. pose proof (flogged_n _ _ _ _ _ _ HL) as Hn. unfold bzero. wp_step.
  eapply (wp_fbread dev b b); [done|apply u32_id; destruct Hh; lia|exact HL|done|done|eapply room_nbuf; [done|lia|done|lia]|].
  intros bp l1 L1. cbv beta. eapply wp_fwrite; [done|done|exact L1|apply lookup_insert_eq|exact (room_log _ _ Hr ltac:(lia))|].
  intros l2 L2. eapply wp_fbrelse; [exact L2|apply lookup_insert_eq|]. intros l3 L3. exists l3. split; [done|].
  by rewrite delete_insert_id in L3.
Qed.

Lemma BBLOCK_in sb k bi : 0 <= bi < BPB → BBLOCK (k * BPB + bi) sb = BBLOCK (k * BPB) sb ∧ (k * BPB + bi) mod BPB = bi.
Proof. intros Hb. unfold BBLOCK. change BPB with 8192 in *. split; [f_equal; zdiv|zdiv]. Qed.

(** The free map after [b] was allocated. *)
Definition allocate (sb : superblock) (v : Z → block) (b : Z) : Z → block :=
  bupd (bupd v (BBLOCK b sb) (set_bit (v (BBLOCK b sb)) (b mod BPB))) b zero_block.

(** The blocks that the caller holds are in use, and not of the free map. *)
Definition aside (sb : superblock) (v : Z → block) (held : gmap Z nat) : Prop :=
  ∀ x, is_Some (held !! x) → used sb v x = true ∧ ∀ z, 0 <= z < sb_size sb → x ≠ BBLOCK z sb.

Lemma aside_empty sb v : aside sb v ∅.
Proof. clear. intros x [y Hy]. by rewrite lookup_empty in Hy. Qed.

Lemma balloc_scan_run dev sb k bp held v dk tr g (s : fst') : u32 dev = d → bitmap_ok sb g v → 0 <= k → k * BPB < sb_size sb →
  let x := BBLOCK (k * BPB) sb in aside sb v held → held !! x = None →
  flog (<[x := bp]> held) v dk tr g s → room (3 + Z.of_nat (size held)) g →
  wp (balloc_scan dev bp (k * BPB) (sb_size sb)) (λ r s',
    match r with
    | Some y => k * BPB <= y < (k + 1) * BPB ∧ y < sb_size sb ∧ used sb v y = false ∧ (∀ z, k * BPB <= z < y → used sb v z = true) ∧
        now held (allocate sb v y) dk tr (add_block y (add_block x g)) s s'
    | None => s' = s ∧ ∀ z, k * BPB <= z < (k + 1) * BPB → z < sb_size sb → used sb v z = true
    end) s.
Proof.
  intros Ed Hbm Hk Hks x Has Hx HL Hr. unfold balloc_scan.
  eapply (wp_for_each _ _ (λ pre t, t = s ∧ ∀ bi, bi ∈ pre → k * BPB + bi < sb_size sb → used sb v (k * BPB + bi) = true)).
  - split; [done|]. intros bi Hbi. by apply elem_of_nil in Hbi.
  - intros pre bi suf t (Ebi & Hbi & Hpre)%seqZ_pre [-> Hused]. destruct (BBLOCK_in sb k bi Hbi) as [Ex Em].
    destruct (Z.ltb_spec (k * BPB + bi) (sb_size sb)) as [Hlt|Hge].
    2:{ wp_step. split; [done|]. intros bj [Hj|Hj%list_elem_of_singleton]%elem_of_app Hjl; [by apply Hused|lia]. }
    assert (used sb v (k * BPB + bi) = negb (bit_clear (v x) bi)) as Hu by (unfold used; by rewrite Ex, Em).
    wp_step. eapply wp_fdata; [exact HL|apply lookup_insert_eq|]. destruct (bit_clear (v x) bi) eqn:Eb.
    + eapply wp_fwrite; [done|done|exact HL|apply lookup_insert_eq|exact (room_log _ _ Hr ltac:(lia))|]. intros l1 L1.
      wp_step. eapply wp_fbrelse; [exact L1|apply lookup_insert_eq|]. intros l2 L2. rewrite delete_insert_id in L2 by done.
      assert (home g (k * BPB + bi)) as Hh by (apply (bo_free _ _ _ Hbm); [unfold BPB, BSIZE in *; lia|by rewrite Hu]).
      assert (held !! (k * BPB + bi) = None) as Hfree.
      { apply eq_None_not_Some. intros Hs. apply Has in Hs as [Hs _]. rewrite Hu in Hs. discriminate. }
      wp_step. eapply wp_mono; [apply (bzero_run dev (k * BPB + bi) held); [done|exact L2|exact Hfree|by apply add_block_home|apply (room_add _ _ x) in Hr; eapply room_le; [exact Hr|lia]]|].
      intros [] s3 N3. wp_step. split_and!; [lia|lia|lia|by rewrite Hu| |].
      * intros z Hz. replace z with (k * BPB + (z - k * BPB)) by lia. apply Hused; [apply Hpre; lia|lia].
      * eapply now_trans; [by exists l2; split; [|exact L2]|]. unfold allocate. by rewrite Ex, Em.
    + wp_step. split; [done|]. intros bj [Hj|Hj%list_elem_of_singleton]%elem_of_app Hjl; [by apply Hused|subst bj; by rewrite Hu].
  - intros t [-> Hused]. split; [done|]. intros z Hz Hzs. replace z with (k * BPB + (z - k * BPB)) by lia.
    apply Hused; [apply elem_of_seqZ; lia|lia].
Qed.

Lemma now_refl held v dk tr g s : flog held v dk tr g s → now held v dk tr g s s.
Proof. intros HL. exists (fs_l s). split; [by destruct s|done]. Qed.

(** What [balloc] leaves when it finds no free block. *)
Definition no_blocks (s : fst') : fst' := s <| fs_out ::= (λ o, o ++ bytes_of "balloc: out of blocks" ++ [10]) |>.

Lemma balloc_run dev sb held v dk tr g (s : fst') : u32 dev = d → fs_sb s = sb → bitmap_ok sb g v → aside sb v held →
  flog held v dk tr g s → room (3 + Z.of_nat (size held)) g →
  wp (balloc dev) (λ r s',
    (0 <= r < sb_size sb ∧ used sb v r = false ∧ (∀ z, 0 <= z < r → used sb v z = true) ∧
       now held (allocate sb v r) dk tr (add_block r (add_block (BBLOCK r sb) g)) s s') ∨
    (r = 0 ∧ (∀ z, 0 <= z < sb_size sb → used sb v z = true) ∧ now held v dk tr g (no_blocks s) s')) s.
Proof.
  intros Ed Esb Hbm Has HL Hr. unfold balloc. wp_steps. rewrite Esb.
  pose proof (bo_size _ _ _ Hbm) as Hsz. pose proof (bo_start _ _ _ Hbm) as Hst.
  set (Q := λ (r : Z) (s' : fst'), (0 <= r < sb_size sb ∧ used sb v r = false ∧ (∀ z, 0 <= z < r → used sb v z = true) ∧
       now held (allocate sb v r) dk tr (add_block r (add_block (BBLOCK r sb) g)) s s') ∨ _).
  eapply (wp_for_each _ _ (λ pre t, now held v dk tr g s t ∧
    ∀ z, 0 <= z < Z.of_nat (length pre) * BPB → z < sb_size sb → used sb v z = true)
    (λ r t, wp (match r with Some x => ret x | None => fprint (bytes_of "balloc: out of blocks" ++ [10]) ;;; ret 0 end) Q t)).
  - split; [by apply now_refl|]. simpl. lia.
  - intros pre k suf t (Ek & Hk & _)%seqZ_pre [Nt Hused]. rewrite Z.add_0_l in Ek, Hk.
    assert (k * BPB < sb_size sb) as Hks by (change BPB with 8192 in *; zdiv).
    pose proof (now_flog _ _ _ _ _ _ _ Nt) as HLt. pose proof (flogged_n _ _ _ _ _ _ HLt) as Hn.
    assert (home g (BBLOCK (k * BPB) sb)) as Hh by (apply (bo_home _ _ _ Hbm); change BPB with 8192 in *; lia).
    assert (held !! BBLOCK (k * BPB) sb = None) as Hnot.
    { apply eq_None_not_Some. intros Hs. apply Has in Hs as [_ Hs]. apply (Hs (k * BPB)); [change BPB with 8192 in *; lia|done]. }
    wp_step. eapply (wp_fbread dev _ (BBLOCK (k * BPB) sb)); [done|apply u32_id; destruct Hh; lia|exact HLt|done|done| |].
    { destruct Hr as (Hr & _). unfold LOGSIZE, MAXOPBLOCKS, NBUF in *. lia. }
    intros bp l1 L1. wp_step.
    eapply wp_mono; [eapply (balloc_scan_run dev sb k bp held v); [done|done|lia|done|done|done|exact L1|done]|].
    intros [y|] t' Ht'; cbv beta iota in Ht'.
    + destruct Ht' as (Hy & Hys & Huy & Hz & N). assert (0 <= k * BPB) by (change BPB with 8192 in *; lia).
      wp_step. wp_step. left. split_and!; [lia|lia|done| |].
      * intros z Hzy. destruct (Z.lt_ge_cases z (k * BPB)); [apply Hused; [rewrite <-Ek|]; lia|apply Hz; lia].
      * replace (BBLOCK y sb) with (BBLOCK (k * BPB) sb).
        2:{ replace y with (k * BPB + (y - k * BPB)) by lia. symmetry. apply BBLOCK_in. lia. }
        eapply now_trans; [exact Nt|]. eapply now_trans; [by exists l1; split; [|exact L1]|exact N].
    + destruct Ht' as [-> Hz]. wp_step. eapply wp_fbrelse; [exact L1|apply lookup_insert_eq|]. intros l2 L2.
      rewrite delete_insert_id in L2 by done. wp_step. split.
      * eapply now_trans; [exact Nt|]. by exists l2.
      * intros z Hz1 Hz2. rewrite length_app, Nat2Z.inj_add in Hz1. simpl in Hz1.
        destruct (Z.lt_ge_cases z (k * BPB)); [apply Hused; [rewrite <-Ek|]; lia|apply Hz; lia].
  - intros t [(l & -> & L) Hused]. unfold fprint. wp_steps. right. split_and!; [done| |by exists l].
    intros z Hz. apply Hused; [|lia]. rewrite length_seqZ. change BPB with 8192 in *. zdiv.
Qed.

(** The free map after [b] was freed. *)
Definition deallocate (sb : superblock) (v : Z → block) (b : Z) : Z → block :=
  bupd v (BBLOCK b sb) (clear_bit (v (BBLOCK b sb)) (b mod BPB)).

Lemma fbread_run dev x v dk tr g (s : fst') : u32 dev = d → flog ∅ v dk tr g s → home g x → room 1 g →
  ∃ bp l, fbread dev x s = (Ret bp, s <| fs_l := l |>) ∧ logged c d {[x := bp]} v dk tr g l.
Proof.
  intros Ed HL Hh Hr. pose proof (flogged_n _ _ _ _ _ _ HL) as Hn.
  assert (wp (fbread dev x) (λ bp s', ∃ l, s' = s <| fs_l := l |> ∧ logged c d {[x := bp]} v dk tr g l) s) as Hw.
  { eapply (wp_fbread dev x x); [done|apply u32_id; destruct Hh; lia|exact HL|done|done|eapply room_nbuf; [done|lia|done|by rewrite map_size_empty]|].
    intros b l L. rewrite insert_empty in L. eauto. }
  apply wp_run in Hw as (bp & s' & E & l & -> & L). eauto.
Qed.
End alloc.

(** Two blocks with a bit in the same block of the free map differ in the bit. *)
Lemma BBLOCK_inj sb b z : BBLOCK z sb = BBLOCK b sb → z mod BPB = b mod BPB → z = b.
Proof. unfold BBLOCK. change BPB with 8192. intros. zdiv. Qed.

Lemma used_update sb v b z w r : wf_block (v (BBLOCK b sb)) →
  (∀ bj, 0 <= bj < BPB → bit_clear w bj = if decide (bj = b mod BPB) then r else bit_clear (v (BBLOCK b sb)) bj) →
  used sb (bupd v (BBLOCK b sb) w) z = if decide (z = b) then negb r else used sb v z.
Proof.
  intros Hwf Hw. unfold used, bupd. assert (0 <= z mod BPB < BPB) by (by apply Z.mod_pos_bound).
  destruct (decide (BBLOCK z sb = BBLOCK b sb)) as [E|E].
  - rewrite Hw by done. destruct (decide (z mod BPB = b mod BPB)) as [Em|Em].
    + rewrite decide_True by (by eapply BBLOCK_inj). done.
    + rewrite decide_False by (intros ->; done). by rewrite E.
  - rewrite decide_False by (intros ->; done). done.
Qed.

Section map.
Context {sb : superblock} {g : log} {v : Z → block} (Hbm : bitmap_ok sb g v) {b : Z} (Hb : 0 <= b < sb_size sb).

Lemma mod_BPB x : 0 <= x mod BPB < BPB.
Proof. by apply Z.mod_pos_bound. Qed.

Lemma used_allocate z : used sb v b = false → 0 <= z < sb_size sb →
  used sb (allocate sb v b) z = if decide (z = b) then true else used sb v z.
Proof.
  intros Hu Hz. destruct (bo_self _ _ _ Hbm z Hz) as [Hzr Hzu]. unfold allocate.
  assert (used sb (bupd (bupd v (BBLOCK b sb) (set_bit (v (BBLOCK b sb)) (b mod BPB))) b zero_block) z =
          used sb (bupd v (BBLOCK b sb) (set_bit (v (BBLOCK b sb)) (b mod BPB))) z) as ->.
  { unfold used, bupd at 1. rewrite decide_False; [done|]. intros E. rewrite E in Hzu. congruence. }
  apply (used_update _ _ _ _ _ false); [by apply (bo_wf _ _ _ Hbm)|]. intros bj Hj.
  apply bit_clear_set; [by apply (bo_wf _ _ _ Hbm)|apply mod_BPB|done].
Qed.

Lemma used_deallocate z : used sb (deallocate sb v b) z = if decide (z = b) then false else used sb v z.
Proof.
  apply (used_update _ _ _ _ _ true); [by apply (bo_wf _ _ _ Hbm)|]. intros bj Hj.
  apply bit_clear_clear; [by apply (bo_wf _ _ _ Hbm)|apply mod_BPB|done].
Qed.
End map.

(** ** The allocator of disk blocks *)
Section alloc_theorems.
Context {D U : Type} `{DiskSpec D} `{UserMem U} {c : ctx} {d : Z}.
Context (Ho : hart_ok (c_hart c)) (Hl : LkLog ∉ h_held (c_hart c)).
Abbreviation fst' := (fstate D U).
Abbreviation flog := (flogged (c := c) (d := d)).

(** [balloc] takes the first free block: inside a transaction it returns the
    lowest block number that the free map has not in use, the free map then has
    exactly that block more, the block reads as zeros, and at most two blocks
    are added to the transaction.  It returns 0, with a message and no change,
    only when every block is in use. *)
Lemma balloc_first_free dev sb v dk tr g (s : fst') : u32 dev = d → fs_sb s = sb → bitmap_ok sb g v →
  flog ∅ v dk tr g s → room 3 g →
  wp (balloc dev) (λ b s',
    (∃ v' g', used sb v b = false ∧ 0 <= b < sb_size sb ∧ (∀ z, 0 <= z < b → used sb v z = true) ∧
       (∀ z, 0 <= z < sb_size sb → used sb v' z = if decide (z = b) then true else used sb v z) ∧
       v' b = zero_block ∧ (∀ z, z ≠ b → z ≠ BBLOCK b sb → v' z = v z) ∧
       now (c := c) (d := d) ∅ v' dk tr g' s s' ∧ lg_n g' <= lg_n g + 2) ∨
    (b = 0 ∧ (∀ z, 0 <= z < sb_size sb → used sb v z = true) ∧ now (c := c) (d := d) ∅ v dk tr g (no_blocks s) s')) s.
Proof.
  intros Ed Esb Hbm HL Hr. eapply wp_mono; [apply (balloc_run (d := d) Ho Hl dev sb ∅ v dk tr g); [done|done|done|apply aside_empty|done|by rewrite map_size_empty]|]. intros b s' [(Hb & Hu & Hz & N)|?]; [left|by right].
  eexists _, _. split_and!; [done|lia|lia|done|intros z Hz'; by apply (used_allocate Hbm)| | |exact N|].
  - unfold allocate, bupd. by rewrite decide_True.
  - intros z H1' H2'. unfold allocate, bupd. by rewrite !decide_False.
  - unfold add_block. repeat case_decide; simpl; lia.
Qed.

(** [bfree] gives a block back: the free map then has exactly that block
    less, and nothing else on the disk changes; a block that is already free
    is a panic. *)
Lemma bfree_frees dev sb v dk tr g b (s : fst') : u32 dev = d → fs_sb s = sb → bitmap_ok sb g v →
  flog ∅ v dk tr g s → room 1 g → 0 <= b < sb_size sb →
  if used sb v b then
    wp (bfree dev b) (λ _ s', ∃ v',
      (∀ z, used sb v' z = if decide (z = b) then false else used sb v z) ∧ (∀ z, z ≠ BBLOCK b sb → v' z = v z) ∧
      now (c := c) (d := d) ∅ v' dk tr (add_block (BBLOCK b sb) g) s s') s
  else (bfree dev b s).1 = Panic "freeing free block".
Proof.
  intros Ed Esb Hbm HL Hr Hb. pose proof (bo_home _ _ _ Hbm b Hb) as Hh.
  destruct (fbread_run dev (BBLOCK b sb) v dk tr g s Ed HL Hh Hr) as (bp & l & E & L).
  assert (bfree dev b s = (v <- fdata bp ;; if bit_clear v (b mod BPB) then panic "freeing free block" else
    fstore bp (clear_bit v (b mod BPB)) ;;; flog_write bp ;;; fbrelse bp) (s <| fs_l := l |>)) as Eb.
  { unfold bfree, bind at 1, gets. rewrite Esb. by rewrite (bind_Ret _ _ _ _ _ E). }
  assert (wp (fdata bp) (λ w s', w = v (BBLOCK b sb) ∧ s' = s <| fs_l := l |>) (s <| fs_l := l |>)) as Hd.
  { eapply wp_fdata; [exact L|apply lookup_singleton_eq|done]. }
  apply wp_run in Hd as (w & s1 & Ed1 & -> & ->). rewrite (bind_Ret _ _ _ _ _ Ed1) in Eb.
  unfold used. destruct (bit_clear _ _) eqn:Ebit; simpl; [by rewrite Eb|].
  unfold wp. rewrite Eb. change (wp (fstore bp (clear_bit (v (BBLOCK b sb)) (b mod BPB)) ;;; flog_write bp ;;; fbrelse bp)
    (λ _ s', ∃ v', (∀ z, used sb v' z = if decide (z = b) then false else used sb v z) ∧ (∀ z, z ≠ BBLOCK b sb → v' z = v z) ∧
      now (c := c) (d := d) ∅ v' dk tr (add_block (BBLOCK b sb) g) s s') (s <| fs_l := l |>)).
  eapply wp_fwrite; [done|done|exact L|apply lookup_singleton_eq|exact (room_log _ _ Hr ltac:(lia))|]. intros l1 L1.
  eapply wp_fbrelse; [exact L1|apply lookup_singleton_eq|]. intros l2 L2. rewrite delete_singleton_eq in L2.
  exists (deallocate sb v b). split_and!; [intros z; by apply (used_deallocate Hbm)| |by exists l2].
  intros z Hz. unfold deallocate, bupd. by rewrite decide_False.
Qed.
End alloc_theorems.

(** A disk of 60 blocks with the log in blocks 2 to 31 and the free map in
    block 45, which has the blocks up to itself in use, inside a transaction. *)
Module FsDemo.

Definition sb0 : superblock := SuperBlock FSMAGIC 60 14 16 30 2 32 45.
Definition bm0 : block := [255; 255; 255; 255; 255; 63] ++ replicate (Z.to_nat BSIZE - 6) 0.
Definition v0 : Z → block := bupd (λ _, zero_block) 45 bm0.
Definition g1 : log := add_block 45 (set_outstanding 1 LogDemo.g0).

Lemma open : ∃ l : lstate RamDisk.t, logged LogDemo.c0 1 ∅ v0 (λ _, zero_block) [] g1 l.
Proof.
  destruct LogDemo.c0_ok as [Ho Hl].
  assert (wp (begin_op ;;; log_block (d := 1) 45 bm0)
    (λ _ s, logged LogDemo.c0 1 ∅ v0 (λ _, zero_block) [] g1 s) LogDemo.s0) as Hw.
  { wp_step. eapply (begin_op_run Ho Hl); [exact LogDemo.s0_logged|reflexivity|vm_compute; discriminate|]. intros s1 L1.
    eapply (log_block_run 45); [done|done|exact L1|split; simpl; lia|unfold log_room; simpl; unfold LOGSIZE, MAXOPBLOCKS; lia|].
    intros s2 L2. exact L2. }
  apply wp_reaches in Hw. destruct Hw as (s & L). by exists s.
Qed.

Lemma BBLOCK0 b : 0 <= b < 60 → BBLOCK b sb0 = 45.
Proof. intros. unfold BBLOCK. simpl. change BPB with 8192. zdiv. Qed.

Lemma used0 b : 0 <= b < 60 → used sb0 v0 b = (b <=? 45).
Proof.
  intros Hb. assert (Forall (λ b, used sb0 v0 b = (b <=? 45)) (seqZ 0 60)) as HF.
  { apply Forall_forall. intros x Hx. assert (forallb (λ b, Bool.eqb (used sb0 v0 b) (b <=? 45)) (seqZ 0 60) = true) as E
      by (vm_compute; reflexivity).
    rewrite forallb_forall in E. apply Bool.eqb_prop, E. by apply list_elem_of_In. }
  rewrite Forall_forall in HF. apply HF. apply elem_of_seqZ. lia.
Qed.

Lemma bitmap0 : bitmap_ok sb0 g1 v0.
Proof.
  split; [simpl; lia|simpl; lia| | | |].
  - intros b Hb. rewrite BBLOCK0 by exact Hb. split; simpl; lia.
  - intros b Hb. rewrite BBLOCK0 by exact Hb. split; [reflexivity|]. unfold v0, bupd. rewrite decide_True by done.
    unfold bm0. apply Forall_app_2; [repeat constructor; unfold byte; lia|apply Forall_replicate; unfold byte; lia].
  - intros b Hb Hu. rewrite used0 in Hu by exact Hb. split; simpl in *; lia.
  - intros b Hb. rewrite BBLOCK0 by exact Hb. split; [simpl; lia|reflexivity].
Qed.

Lemma room1 : room 3 g1.
Proof. unfold room. simpl. unfold LOGSIZE, MAXOPBLOCKS. lia. Qed.

Definition mk (l : lstate RamDisk.t) : fstate RamDisk.t FlatUser.t := 
  FState l sb0 (replicate 50 inhabitant) (FlatUser.Flat (λ _, 0) (λ _, 0) 4096) 0 [].
End FsDemo.
