(* ===== verification/FsInode.v ===== *)
(** * Inodes: their layout on disk and the inode table

    [iupdate] followed by [ilock] restores an inode and leaves its neighbours in
    the block alone; the table has at most one entry for each inode, with the
    number of references that were taken. *)
From S2P Require Import Prelude Machine Cstring Spinlock Sleeplock Blocks Bio Log LogSpec UserMem Printf Fs FsSpec.

(** ** The layout of an inode *)

(** The fields have the range of their types. *)
Record inode_typed (i : inode) : Prop := {
  it_type : -2 ^ 15 <= i_type i < 2 ^ 15;
  it_major : -2 ^ 15 <= i_major i < 2 ^ 15;
  it_minor : -2 ^ 15 <= i_minor i < 2 ^ 15;
  it_nlink : -2 ^ 15 <= i_nlink i < 2 ^ 15;
  it_size : 0 <= i_size i < 2 ^ 32;
  it_len : length (i_addrs i) = NADDRS;
  it_addrs : Forall (λ a, 0 <= a < 2 ^ 32) (i_addrs i);
}.

(** [j] with what the disk keeps of [i]. *)
Definition with_disk (i j : inode) : inode :=
  j <| i_type := i_type i |> <| i_major := i_major i |> <| i_minor := i_minor i |> <| i_nlink := i_nlink i |>
    <| i_size := i_size i |> <| i_addrs := i_addrs i |>.

Lemma i16_u16 x : -2 ^ 15 <= x < 2 ^ 15 → i16 (u16 x) = x.
Proof. unfold i16, u16. intros. zdiv. Qed.

Lemma dip_range inum : (dip inum + 64 <= Z.to_nat BSIZE)%nat.
Proof. unfold dip. pose proof (Z.mod_pos_bound inum IPB ltac:(done)). change IPB with 16 in *. change DINODE with 64. change BSIZE with 1024. lia. Qed.

Lemma dip_apart i j : i mod IPB ≠ j mod IPB → (dip i + 64 <= dip j ∨ dip j + 64 <= dip i)%nat.
Proof.
  unfold dip. pose proof (Z.mod_pos_bound i IPB ltac:(done)). pose proof (Z.mod_pos_bound j IPB ltac:(done)).
  change DINODE with 64. lia.
Qed.

Lemma get16_put16_ne l o o' v : (o + 2 <= o' ∨ o' + 2 <= o)%nat → get16 (put16 l o' v) o = get16 l o.
Proof. intros. unfold get16, put16. apply getn_putn_ne. lia. Qed.

Section codec.
Context {b : block} (Hb : length b = Z.to_nat BSIZE).

(** [store_dinode] before the addresses. *)
Definition store_head (i : inode) (b : block) : block :=
  let o := dip (i_inum i) in
  put32 (put16 (put16 (put16 (put16 b o (i_type i)) (o + 2) (i_major i)) (o + 4) (i_minor i)) (o + 6) (i_nlink i)) (o + 8) (i_size i).

Lemma length_head i : length (store_head i b) = Z.to_nat BSIZE.
Proof. unfold store_head, put32, put16. by rewrite !length_putn. Qed.

Lemma head_out i k : (k < dip (i_inum i) ∨ dip (i_inum i) + 12 <= k)%nat → store_head i b !! k = b !! k.
Proof. intros. unfold store_head, put32, put16. by rewrite !putn_lookup_out by lia. Qed.

Lemma store_dinode_out i k : (k < dip (i_inum i) ∨ dip (i_inum i) + 64 <= k)%nat → store_dinode i b !! k = b !! k.
Proof.
  intros Hk. pose proof (dip_range (i_inum i)). rewrite <-(head_out i k) by lia.
  apply (put32s_run (λ k, i_addrs i !!! k) (dip (i_inum i) + 12) NADDRS (store_head i b)); [rewrite length_head|]; unfold NADDRS; lia.
Qed.

Lemma store_dinode_head i k : (k < dip (i_inum i) + 12)%nat → store_dinode i b !! k = store_head i b !! k.
Proof.
  intros Hk. pose proof (dip_range (i_inum i)).
  apply (put32s_run (λ k, i_addrs i !!! k) (dip (i_inum i) + 12) NADDRS (store_head i b)); [rewrite length_head|]; unfold NADDRS; lia.
Qed.

Lemma length_store_dinode i : length (store_dinode i b) = Z.to_nat BSIZE.
Proof.
  pose proof (dip_range (i_inum i)). rewrite <-(length_head i).
  apply (put32s_run (λ k, i_addrs i !!! k) (dip (i_inum i) + 12) NADDRS (store_head i b)). rewrite length_head. unfold NADDRS. lia.
Qed.

Lemma store_dinode_addr i k : (k < NADDRS)%nat →
  get32 (store_dinode i b) (dip (i_inum i) + 12 + 4 * k) = u32 (i_addrs i !!! k).
Proof.
  intros Hk. pose proof (dip_range (i_inum i)).
  apply (put32s_run (λ k, i_addrs i !!! k) (dip (i_inum i) + 12) NADDRS (store_head i b)); [rewrite length_head; unfold NADDRS; lia|done].
Qed.

Lemma load_store i j : inode_typed i → i_inum j = i_inum i → load_dinode (store_dinode i b) j = with_disk i j.
Proof.
  intros T E. unfold load_dinode, with_disk. rewrite E. pose proof (dip_range (i_inum i)) as Hd.
  assert (∀ n o, (o + n <= dip (i_inum i) + 12)%nat → getn n (store_dinode i b) o = getn n (store_head i b) o) as Hh.
  { intros n o Ho. apply getn_ext. intros k Hk. apply store_dinode_head. lia. }
  unfold get16, get32. rewrite !Hh by lia.
  assert ((λ k, get32 (store_dinode i b) (dip (i_inum i) + 12 + 4 * k)) <$> seq 0 NADDRS = i_addrs i) as Ha.
  { apply list_eq_same_length with NADDRS; [by rewrite (it_len _ T)|by rewrite length_fmap, length_seq|].
    intros k x y Hk Hx Hy. rewrite list_lookup_fmap, lookup_seq_lt in Hx by done. injection Hx as <-.
    etrans; [exact (store_dinode_addr i k Hk)|]. rewrite (list_lookup_total_correct _ _ _ Hy). apply u32_id.
    apply (Forall_lookup_1 _ _ _ _ (it_addrs _ T) Hy). }
  unfold get32 in Ha. rewrite Ha. unfold store_head, put32, get16, get32, put16.
  assert (∀ l o v, (o + 2 <= length l)%nat → getn 2 (putn 2 l o v) o = u16 v) as G16 by (exact get16_put16).
  assert (∀ l o v, (o + 4 <= length l)%nat → getn 4 (putn 4 l o v) o = u32 v) as G32 by (exact get32_put32).
  repeat first [rewrite G16 by (rewrite ?length_putn, Hb; lia)|rewrite G32 by (rewrite ?length_putn, Hb; lia)|rewrite getn_putn_ne by lia].
  rewrite !i16_u16, u32_id by apply T. done.
Qed.

Lemma load_store_other i j : i_inum j mod IPB ≠ i_inum i mod IPB → load_dinode (store_dinode i b) j = load_dinode b j.
Proof.
  intros Hne. pose proof (dip_apart _ _ Hne) as Ha.
  assert (∀ n o, (dip (i_inum j) <= o)%nat → (o + n <= dip (i_inum j) + 64)%nat → getn n (store_dinode i b) o = getn n b o) as Hg.
  { intros n o H1 H2. apply getn_ext. intros k Hk. apply store_dinode_out. lia. }
  unfold load_dinode, get16, get32. rewrite !Hg by lia.
  rewrite (list_fmap_ext _ (λ k, getn 4 b (dip (i_inum j) + 12 + 4 * k)) (seq 0 NADDRS)); [done|].
  intros k x [-> Hk]%lookup_seq. unfold NADDRS in Hk. apply Hg; lia.
Qed.
End codec.

(** ** [iupdate] and [ilock] *)
Section ops.
Context {D U : Type} `{DiskSpec D} `{UserMem U} {c : ctx} {d : Z}.
Context (Ho : hart_ok (c_hart c)) (Hl : LkLog ∉ h_held (c_hart c)).
Abbreviation fst' := (fstate D U).
Abbreviation flog := (flogged (c := c) (d := d)).
Abbreviation now' := (now (c := c) (d := d)).

(** The block of the slot's inode. *)
Definition iblock (s : fst') (ip : nat) : Z := IBLOCK (i_inum (fs_inode s !!! ip)) (fs_sb s).

Lemma iupdate_run ip v dk tr g (s : fst') : let i := fs_inode s !!! ip in
  u32 (i_dev i) = d → flog ∅ v dk tr g s → home g (iblock s ip) → room 1 g →
  wp (iupdate ip) (λ _ s', now' ∅ (bupd v (iblock s ip) (store_dinode i (v (iblock s ip)))) dk tr (add_block (iblock s ip) g) s s') s.
Proof.
  intros i Ed HL Hh Hr. pose proof (flogged_n _ _ _ _ _ _ HL) as Hn. unfold iupdate, getip. wp_steps.
  eapply (wp_fbread _ _ (iblock s ip)); [done|apply u32_id; destruct Hh; lia|exact HL|done|done|eapply room_nbuf; [done|lia|done|by rewrite map_size_empty]|].
  intros b l L. rewrite insert_empty in L. wp_step. eapply wp_fdata; [exact L|apply lookup_singleton_eq|].
  eapply wp_fwrite; [done|done|exact L|apply lookup_singleton_eq|exact (room_log _ _ Hr ltac:(lia))|]. intros l1 L1.
  eapply wp_fbrelse; [exact L1|apply lookup_singleton_eq|]. intros l2 L2. rewrite delete_singleton_eq in L2. by exists l2.
Qed.

(** The slot [ip] is an inode that nobody has locked. *)
Record unlocked_slot (ip : nat) (s : fst') : Prop := {
  us_in : (ip < length (fs_inode s))%nat;
  us_ref : 1 <= i_ref (fs_inode s !!! ip);
  us_free : sl_locked (i_lock (fs_inode s !!! ip)) = 0;
}.

(** The slot locked by the process. *)
Definition locked (i : inode) : inode := i <| i_lock := SleepLock 1 (c_pid c) |>.

Lemma alter_twice {A} (f h : A → A) i (l : list A) : alter f i (alter h i l) = alter (λ x, f (h x)) i l.
Proof. revert i. induction l as [|x l IH]; intros [|i]; [done..|]. cbn [alter list_alter]. by f_equal. Qed.

Lemma lookup_total_alter (f : inode → inode) ip (l : list inode) : (ip < length l)%nat → alter f ip l !!! ip = f (l !!! ip).
Proof.
  intros Hi. destruct (lookup_lt_is_Some_2 l ip Hi) as [x Hx].
  rewrite !list_lookup_total_alt, list_lookup_alter_eq, Hx. done.
Qed.

Lemma acquire_slot ip v held dk tr g (s : fst') : LkSleep (SlInode ip) ∉ h_held (c_hart c) → flog held v dk tr g s →
  unlocked_slot ip s → on_inode ip acquiresleep s = (Ret tt, s <| fs_inode ::= alter locked ip |>).
Proof.
  intros Hk (a & (_ & (E1 & E2 & E3) & _) & _) [Hi _ Hf]. unfold on_inode. simpl.
  rewrite acquiresleep_free by (rewrite ?E1; done). unfold locked. rewrite E2. simpl. by destruct s as [[[] ?]].
Qed.

(** [ilock] of an inode that is not in memory yet reads it from disk. *)
Lemma ilock_reads ip v dk tr g (s : fst') : let i := fs_inode s !!! ip in let i' := load_dinode (v (iblock s ip)) i in
  LkSleep (SlInode ip) ∉ h_held (c_hart c) → u32 (i_dev i) = d → flog ∅ v dk tr g s →
  unlocked_slot ip s → i_valid i = 0 → home g (iblock s ip) → (Z.to_nat (lg_n g) < NBUF)%nat → i_type i' ≠ 0 →
  wp (ilock ip) (λ _ s', ∃ l, s' = s <| fs_l := l |> <| fs_inode ::= alter (λ i, (locked (load_dinode (v (iblock s ip)) i)) <| i_valid := 1 |>) ip |> ∧
    logged c d ∅ v dk tr g l) s.
Proof.
  intros i i' Hk Ed HL Hu Hv Hh Hn Ht. pose proof (us_in _ _ Hu) as Hin. unfold ilock, getip. wp_steps.
  rewrite (proj2 (Z.ltb_ge _ _)) by apply Hu. wp_step.
  apply (wp_intro _ _ _ _ _ (acquire_slot ip _ _ _ _ _ _ Hk HL Hu)). wp_step. apply wp_gets.
  simpl (fs_inode _). rewrite lookup_total_alter by done. unfold locked at 1. simpl (i_valid _). fold i. rewrite Hv. simpl (0 =? 0). cbv iota.
  wp_steps. simpl (fs_sb _). simpl (i_dev _). simpl (i_inum _).
  eapply (wp_fbread _ _ (iblock s ip)); [done|apply u32_id; destruct Hh; lia|exact HL|done|done|rewrite map_size_empty; lia|].
  intros b l L. rewrite insert_empty in L. wp_step. eapply wp_fdata; [exact L|apply lookup_singleton_eq|].
  unfold updip. wp_step. wp_step. wp_step. eapply wp_fbrelse; [exact L|apply lookup_singleton_eq|]. intros l2 L2. rewrite delete_singleton_eq in L2.
  wp_steps. simpl (fs_inode _). rewrite !alter_twice, lookup_total_alter by done.
  simpl (i_type _). fold i. change (i_type (locked i)) with (i_type i). rewrite (proj2 (Z.eqb_neq _ _)) by exact Ht.
  wp_step. exists l2. split; [|done]. simpl. by rewrite !alter_twice.
Qed.

Lemma store_apart (sb : superblock) (v : Z → block) (i j : inode) : length (v (IBLOCK (i_inum i) sb)) = Z.to_nat BSIZE → i_inum j ≠ i_inum i →
  load_dinode (bupd v (IBLOCK (i_inum i) sb) (store_dinode i (v (IBLOCK (i_inum i) sb))) (IBLOCK (i_inum j) sb)) j =
  load_dinode (v (IBLOCK (i_inum j) sb)) j.
Proof.
  intros Hb Hne. unfold bupd. case_decide as E; [|done]. rewrite E. apply load_store_other; [done|].
  intros Em. apply Hne. unfold IBLOCK in E. change IPB with 16 in *. zdiv.
Qed.

(** C22: an inode survives on disk: after [iupdate], [ilock] of any slot for the
    same inode that is not in memory, in any later state with the same disk
    contents, restores type, device numbers, link count, size and block
    addresses exactly, and every other inode of the disk, also in the same
    block, reads as before. *)
Theorem iupdate_ilock_roundtrip ip v dk tr g (s : fst') : let i := fs_inode s !!! ip in
  inode_typed i → u32 (i_dev i) = d → flog ∅ v dk tr g s → home g (iblock s ip) → room 1 g →
  length (v (iblock s ip)) = Z.to_nat BSIZE → i_type i ≠ 0 →
  wp (iupdate ip) (λ _ s', ∃ v', now' ∅ v' dk tr (add_block (iblock s ip) g) s s' ∧
    (∀ x, x ≠ iblock s ip → v' x = v x) ∧
    (∀ j, i_inum j ≠ i_inum i → load_dinode (v' (IBLOCK (i_inum j) (fs_sb s))) j = load_dinode (v (IBLOCK (i_inum j) (fs_sb s))) j) ∧
    (∀ dk' tr' g' (t : fst') jp, flog ∅ v' dk' tr' g' t → fs_sb t = fs_sb s → home g' (iblock s ip) → (Z.to_nat (lg_n g') < NBUF)%nat →
       unlocked_slot jp t → LkSleep (SlInode jp) ∉ h_held (c_hart c) → let j := fs_inode t !!! jp in
       u32 (i_dev j) = d → i_inum j = i_inum i → i_valid j = 0 →
       wp (ilock jp) (λ _ t', flog ∅ v' dk' tr' g' t' ∧ fs_inode t' !!! jp = (locked (with_disk i j)) <| i_valid := 1 |>) t)) s.
Proof.
  intros i T Ed HL Hh Hr Hb Ht. eapply wp_mono; [by apply iupdate_run|]. intros [] s' N.
  eexists. split; [exact N|]. split_and!.
  - intros x Hx. unfold bupd. by rewrite decide_False.
  - intros j Hj. by apply store_apart.
  - intros dk' tr' g' t jp L Esb Hh' Hn Hu Hk j Ej Ein Hv.
    assert (iblock t jp = iblock s ip) as Eb by (unfold iblock; fold j; fold i; by rewrite Ein, Esb).
    assert (load_dinode (bupd v (iblock s ip) (store_dinode i (v (iblock s ip))) (iblock t jp)) j = with_disk i j) as El.
    { rewrite Eb. unfold bupd. rewrite decide_True by done. by apply load_store. }
    eapply wp_mono; [apply ilock_reads; [done|done|exact L|done|done|by rewrite Eb|done|cbv zeta; fold i j; by rewrite El]|].
    intros [] t' (l & -> & L'). split; [exact L'|].
    etrans; [exact (lookup_total_alter _ jp (fs_inode t) (us_in _ _ Hu))|]. cbv beta. fold i j. by rewrite El.
Qed.
End ops.

(** ** The inode table *)

(** At most one entry for each inode that is referenced. *)
Record table_ok (t : list inode) : Prop := {
  to_ref : ∀ k x, t !! k = Some x → 0 <= i_ref x;
  to_one : ∀ k l x y, t !! k = Some x → t !! l = Some y → 0 < i_ref x → 0 < i_ref y →
    i_dev x = i_dev y → i_inum x = i_inum y → k = l;
}.

(** The number of references to an inode. *)
Definition refs (t : list inode) (dev inum : Z) : Z :=
  match list_find (λ x, Is_true (iget_is dev inum x)) t with Some (_, x) => i_ref x | None => 0 end.

Definition key_is (dev inum : Z) (x : inode) : Prop := 0 < i_ref x ∧ i_dev x = dev ∧ i_inum x = inum.

Lemma iget_is_key dev inum x : Is_true (iget_is dev inum x) ↔ key_is dev inum x.
Proof.
  unfold iget_is, key_is. rewrite Is_true_true, !andb_true_iff, Z.ltb_lt, !Z.eqb_eq. tauto.
Qed.

Lemma refs_cases t dev inum :
  (∃ k x, list_find (λ x, Is_true (iget_is dev inum x)) t = Some (k, x) ∧ t !! k = Some x ∧ key_is dev inum x ∧ refs t dev inum = i_ref x) ∨
  (list_find (λ x, Is_true (iget_is dev inum x)) t = None ∧ (∀ k x, t !! k = Some x → ¬ key_is dev inum x) ∧ refs t dev inum = 0).
Proof.
  unfold refs. destruct (list_find _ t) as [[k x]|] eqn:E.
  - left. exists k, x. apply list_find_Some in E as (E1 & E2 & _). by rewrite <-iget_is_key.
  - right. split_and!; [done| |done]. intros k x Hx. rewrite <-iget_is_key.
    rewrite list_find_None, Forall_forall in E. apply E. by eapply list_elem_of_lookup_2.
Qed.

Section table.
Context {t : list inode} (T : table_ok t).

Lemma refs_in k x dev inum : t !! k = Some x → key_is dev inum x → refs t dev inum = i_ref x.
Proof.
  intros Hk (Hr & Ed & Ei). destruct (refs_cases t dev inum) as [(l & y & _ & Hl & (Hr' & Ed' & Ei') & ->)|(_ & Hn & _)].
  - assert (k = l) as -> by (eapply (to_one _ T); eauto; congruence). congruence.
  - by destruct (Hn k x Hk).
Qed.

(** Changing the entry [k] from [x] to [y]. *)
Lemma refs_alter f k x dev inum : t !! k = Some x → table_ok (alter f k t) →
  refs (alter f k t) dev inum =
  if bool_decide (key_is dev inum (f x)) then i_ref (f x) else if bool_decide (key_is dev inum x) then 0 else refs t dev inum.
Proof.
  intros Hk T'. assert (alter f k t !! k = Some (f x)) as Hk' by (by rewrite list_lookup_alter_eq, Hk).
  assert (∀ l, l ≠ k → alter f k t !! l = t !! l) as Hl by (intros; by apply list_lookup_alter_ne).
  case_bool_decide as Hy.
  { destruct (refs_cases (alter f k t) dev inum) as [(l & y & _ & Hy' & (Hr & Ed & Ei) & ->)|(_ & Hn & _)]; [|by destruct (Hn k _ Hk')].
    destruct Hy as (? & ? & ?). assert (l = k) as -> by (eapply (to_one _ T'); eauto; congruence). congruence. }
  destruct (refs_cases (alter f k t) dev inum) as [(l & y & _ & Hy' & Hkey & ->)|(_ & Hn & ->)].
  - destruct (decide (l = k)) as [->|Hne]; [congruence|]. rewrite Hl in Hy' by done. case_bool_decide as Hx.
    + destruct Hkey as (? & ? & ?), Hx as (? & ? & ?). destruct Hne. eapply (to_one _ T); eauto; congruence.
    + symmetry. by eapply refs_in.
  - case_bool_decide as Hx; [done|]. destruct (refs_cases t dev inum) as [(l & y & _ & Hy' & Hkey & _)|(_ & _ & ->)]; [|done].
    exfalso. destruct (decide (l = k)) as [->|Hne]; [congruence|]. apply (Hn l y); [by rewrite Hl|done].
Qed.

(** An entry keeps its inode, or becomes an inode that was not in the table. *)
Lemma table_alter f k x : t !! k = Some x → 0 <= i_ref (f x) →
  (0 < i_ref (f x) → (0 < i_ref x ∧ i_dev (f x) = i_dev x ∧ i_inum (f x) = i_inum x) ∨ refs t (i_dev (f x)) (i_inum (f x)) = 0) →
  table_ok (alter f k t).
Proof.
  intros Hk Hr Hf.
  assert (∀ l y, l ≠ k → t !! l = Some y → 0 < i_ref y → 0 < i_ref (f x) → i_dev (f x) = i_dev y → i_inum (f x) = i_inum y → False) as Hno.
  { intros l y Hne Hy Hry Hrf Ed Ei. destruct (Hf Hrf) as [(Hrx & Ed' & Ei')|Hz].
    - apply Hne. eapply (to_one _ T); eauto; congruence.
    - rewrite (refs_in l y) in Hz by (unfold key_is; eauto). lia. }
  split.
  - intros l y. rewrite list_lookup_alter. destruct (decide (k = l)) as [<-|]; rewrite ?Hk; simpl; [by intros [= <-]|apply T].
  - intros l m y z. rewrite !list_lookup_alter.
    destruct (decide (k = l)) as [<-|], (decide (k = m)) as [<-|]; rewrite ?Hk; simpl; intros; simplify_eq; [done| | |].
    + exfalso. eapply (Hno m); eauto.
    + exfalso. eapply (Hno l); eauto.
    + by eapply (to_one _ T).
Qed.

(** One entry's count changes by [δ]. *)
Lemma refs_count k x δ : t !! k = Some x → 0 < i_ref x → 0 <= i_ref x + δ →
  let t' := alter (λ i, i <| i_ref := i_ref i + δ |>) k t in
  table_ok t' ∧ ∀ dev inum, refs t' dev inum = refs t dev inum + if decide (dev = i_dev x ∧ inum = i_inum x) then δ else 0.
Proof.
  intros Hk Hr Hd t'. assert (table_ok t') as T' by (apply (table_alter _ _ _ Hk); simpl; [done|by left]).
  split; [done|]. intros dev inum. unfold t'. rewrite (refs_alter _ _ _ _ _ Hk T'). simpl.
  destruct (decide (dev = i_dev x ∧ inum = i_inum x)) as [[-> ->]|Hne].
  - rewrite (refs_in k x) by done. rewrite (bool_decide_true (key_is _ _ x)) by done.
    case_bool_decide as Hy; [done|]. unfold key_is in Hy. simpl in Hy. lia.
  - rewrite !bool_decide_false; [lia|unfold key_is; simpl; naive_solver..].
Qed.

(** A free entry becomes the entry of an inode that had none. *)
Lemma refs_new f k x dev inum : t !! k = Some x → i_ref x = 0 → refs t dev inum = 0 →
  i_dev (f x) = dev → i_inum (f x) = inum → i_ref (f x) = 1 →
  table_ok (alter f k t) ∧
  ∀ dev' inum', refs (alter f k t) dev' inum' = refs t dev' inum' + if decide (dev' = dev ∧ inum' = inum) then 1 else 0.
Proof.
  intros Hk Hr Hz Ed Ei Er.
  assert (table_ok (alter f k t)) as T' by (apply (table_alter _ _ _ Hk); [lia|right; by rewrite Ed, Ei]).
  split; [done|]. intros dev' inum'. rewrite (refs_alter _ _ _ _ _ Hk T').
  rewrite (bool_decide_false (key_is _ _ x)) by (unfold key_is; lia).
  destruct (decide _) as [[-> ->]|Hne]; [rewrite bool_decide_true by (split_and!; [lia|done..]); lia|].
  rewrite bool_decide_false; [lia|]. unfold key_is. naive_solver.
Qed.
End table.

Section itable.
Context {D U : Type} `{DiskDriver D} `{UserMem U}.
Abbreviation fst' := (fstate D U).

(** [itable.lock] is free and this CPU may take it. *)
Definition itable_free (s : fst') : Prop :=
  hart_ok (c_hart (lget ctx_f s)) ∧ LkItable ∉ h_held (c_hart (lget ctx_f s)).

Lemma ctx_f_id (s : fst') : lset ctx_f (lget ctx_f s) s = s.
Proof. by destruct s as [[[] ?]]. Qed.

(** An update of an entry under [itable.lock]. *)
Lemma locked_update f k (s : fst') : itable_free s →
  (zoom ctx_f (lock LkItable) ;;; updip k f ;;; zoom ctx_f (unlock LkItable)) s =
  (Ret tt, s <| fs_inode ::= alter f k |>).
Proof.
  intros [Ho Hl]. rewrite (bind_Ret _ _ _ _ _ (zoom_run ctx_f _ s _ _ (lock_run _ _ Ho Hl))).
  unfold updip, modify, bind, zoom. simpl. rewrite (unlock_run _ (c_hart (bc_ctx (ls_b (fs_l s))))) by done.
  rewrite set_chart_id. by destruct s as [[[] ?]].
Qed.

Lemma iget_eq dev inum (s : fst') : itable_free s → iget dev inum s =
  match list_find (λ x, Is_true (iget_is dev inum x)) (fs_inode s) with
  | Some (k, _) => (Ret k, s <| fs_inode ::= alter (λ i, i <| i_ref := i_ref i + 1 |>) k |>)
  | None =>
      match list_find (λ x, i_ref x = 0) (fs_inode s) with
      | Some (k, _) => (Ret k, s <| fs_inode ::= alter (λ i, i <| i_dev := dev |> <| i_inum := inum |> <| i_ref := 1 |> <| i_valid := 0 |>) k |>)
      | None => (Panic "iget: no inodes", lset ctx_f (set_chart (taken LkItable (c_hart (lget ctx_f s))) (lget ctx_f s)) s)
      end
  end.
Proof.
  intros F. pose proof F as [Ho Hl].
  assert (∀ k f, (updip k f ;;; zoom ctx_f (unlock LkItable) ;;; ret k) (lset ctx_f (set_chart (taken LkItable (c_hart (lget ctx_f s))) (lget ctx_f s)) s) =
    (Ret k, s <| fs_inode ::= alter f k |>)) as Hu.
  { intros k f. pose proof (locked_update f k s F) as E.
    rewrite (bind_Ret _ _ _ _ _ (zoom_run ctx_f _ s _ _ (lock_run _ _ Ho Hl))) in E.
    unfold bind in E |- *. destruct (updip k f _) as [[]]; [|done..]. by rewrite E. }
  unfold iget. rewrite (bind_Ret _ _ _ _ _ (zoom_run ctx_f _ s _ _ (lock_run _ _ Ho Hl))).
  unfold bind at 1, get. change (fs_inode (lset ctx_f _ s)) with (fs_inode s).
  destruct (list_find _ (fs_inode s)) as [[k x]|]; [apply Hu|].
  destruct (list_find _ (fs_inode s)) as [[k x]|]; [apply Hu|done].
Qed.

Lemma idup_eq k (s : fst') : itable_free s → idup k s = (Ret k, s <| fs_inode ::= alter (λ i, i <| i_ref := i_ref i + 1 |>) k |>).
Proof.
  intros F. pose proof (locked_update (λ i, i <| i_ref := i_ref i + 1 |>) k s F) as E. unfold idup, bind in E |- *.
  destruct (zoom ctx_f (lock LkItable) s) as [[] ?]; [|done..]. destruct (updip _ _ _) as [[] ?]; [|done..]. by rewrite E.
Qed.

(** [iput] frees the inode on disk: the last reference to an inode without links. *)
Definition frees (x : inode) : bool := (i_ref x =? 1) && truth (i_valid x) && (i_nlink x =? 0).

Lemma iput_eq k (s : fst') : itable_free s → frees (fs_inode s !!! k) = false →
  iput k s = (Ret tt, s <| fs_inode ::= alter (λ i, i <| i_ref := i_ref i - 1 |>) k |>).
Proof.
  intros F Hf. pose proof (locked_update (λ i, i <| i_ref := i_ref i - 1 |>) k s F) as E. destruct F as [Ho Hl].
  rewrite (bind_Ret _ _ _ _ _ (zoom_run ctx_f _ s _ _ (lock_run _ _ Ho Hl))) in E.
  unfold iput. rewrite (bind_Ret _ _ _ _ _ (zoom_run ctx_f _ s _ _ (lock_run _ _ Ho Hl))).
  unfold bind at 1, getip, gets. change (fs_inode (lset ctx_f _ s)) with (fs_inode s).
  unfold frees in Hf. rewrite Hf. unfold bind at 1, ret. exact E.
Qed.

Lemma iget_counts dev inum (s : fst') : itable_free s → table_ok (fs_inode s) →
  match iget dev inum s with
  | (Ret k, s') => ∃ t, s' = s <| fs_inode := t |> ∧ table_ok t ∧ (∃ x, t !! k = Some x ∧ key_is dev inum x) ∧
      (∀ j, j ≠ k → t !! j = fs_inode s !! j) ∧
      (∀ dev' inum', refs t dev' inum' = refs (fs_inode s) dev' inum' + if decide (dev' = dev ∧ inum' = inum) then 1 else 0)
  | (Panic msg, _) => msg = "iget: no inodes" ∧ refs (fs_inode s) dev inum = 0 ∧ Forall (λ x, i_ref x ≠ 0) (fs_inode s)
  | (Blocked _, _) => False
  end.
Proof.
  intros F T. rewrite iget_eq by done.
  destruct (refs_cases (fs_inode s) dev inum) as [(k & x & -> & Hk & Hkey & E)|(-> & Hn & E)].
  - destruct Hkey as (Hr & <- & <-). destruct (refs_count T k x 1 Hk Hr) as [T' R']; [lia|].
    eexists. split_and!; [by destruct s|exact T'| |intros j Hj; by apply list_lookup_alter_ne|exact R'].
    exists (x <| i_ref := i_ref x + 1 |>). rewrite list_lookup_alter_eq, Hk. split; [done|]. split_and!; simpl; [lia|done..].
  - destruct (list_find _ (fs_inode s)) as [[k x]|] eqn:Ef.
    + apply list_find_Some in Ef as (Hk & Hr & _).
      destruct (refs_new T (λ i, i <| i_dev := dev |> <| i_inum := inum |> <| i_ref := 1 |> <| i_valid := 0 |>) k x dev inum) as [T' R']; [done..|].
      eexists. split_and!; [by destruct s|exact T'| |intros j Hj; by apply list_lookup_alter_ne|exact R'].
      eexists. rewrite list_lookup_alter_eq, Hk. by split; [done|].
    + split_and!; [done|done|]. by apply list_find_None in Ef.
Qed.

(** C24: the inode table counts references.  Each inode that is in use has one
    entry; [iget] returns its entry, or a free one that it makes the entry of
    this inode, and adds one reference to this inode and to no other; it panics
    only when no entry is free and the inode has none.  [idup] adds one reference and
    [iput], unless it is the last one to an inode without links, drops one, and
    both leave the other inodes alone. *)
Theorem itable_refcounts (s : fst') : itable_free s → table_ok (fs_inode s) →
  (∀ dev inum, match iget dev inum s with
     | (Ret k, s') => ∃ t, s' = s <| fs_inode := t |> ∧ table_ok t ∧ (∃ x, t !! k = Some x ∧ key_is dev inum x) ∧
         (∀ j, j ≠ k → t !! j = fs_inode s !! j) ∧
         (∀ dev' inum', refs t dev' inum' = refs (fs_inode s) dev' inum' + if decide (dev' = dev ∧ inum' = inum) then 1 else 0)
     | (Panic msg, _) => msg = "iget: no inodes" ∧ refs (fs_inode s) dev inum = 0 ∧ Forall (λ x, i_ref x ≠ 0) (fs_inode s)
     | (Blocked _, _) => False
     end) ∧
  (∀ k x, fs_inode s !! k = Some x → 0 < i_ref x →
     (∃ t, idup k s = (Ret k, s <| fs_inode := t |>) ∧ table_ok t ∧
       ∀ dev' inum', refs t dev' inum' = refs (fs_inode s) dev' inum' + if decide (dev' = i_dev x ∧ inum' = i_inum x) then 1 else 0) ∧
     (frees x = false → ∃ t, iput k s = (Ret tt, s <| fs_inode := t |>) ∧ table_ok t ∧
       ∀ dev' inum', refs t dev' inum' = refs (fs_inode s) dev' inum' - if decide (dev' = i_dev x ∧ inum' = i_inum x) then 1 else 0)).
Proof.
  intros F T. split.
  - intros dev inum. by apply iget_counts.
  - intros k x Hk Hx. split.
    + destruct (refs_count T k x 1 Hk Hx) as [T' R']; [lia|]. eexists. split_and!; [|exact T'|exact R'].
      rewrite idup_eq by done. by destruct s.
    + intros Hf. destruct (refs_count T k x (-1) Hk Hx) as [T' R']; [lia|]. eexists. split_and!; [|exact T'|].
      * rewrite iput_eq; [by destruct s|done|by rewrite (list_lookup_total_correct _ _ _ Hk)].
      * intros dev' inum'. rewrite R'. case_decide; lia.
Qed.
End itable.

Module InodeDemo.

Definition file5 : inode := Inode 1 5 1 (SleepLock 0 0) 1 T_FILE 0 0 1 1500 (46 :: 47 :: replicate 11 0).
Definition cold5 : inode := Inode 1 5 1 (SleepLock 0 0) 0 0 0 0 0 0 (replicate 13 0).
Definition with_slot (i : inode) (l : lstate RamDisk.t) : fstate RamDisk.t FlatUser.t :=
  (FsDemo.mk l) <| fs_inode ::= <[0%nat := i]> |>.

Lemma file5_typed : inode_typed file5.
Proof. split; simpl; unfold T_FILE, NADDRS; try lia. repeat constructor; lia. Qed.
End InodeDemo.

Lemma iupdate_ilock_roundtrip_witness : ∃ s : fstate RamDisk.t FlatUser.t,
  wp (iupdate 0) (λ _ s', wp (ilock 0) (λ _ t, i_addrs (fs_inode t !!! 0%nat) = 46 :: 47 :: replicate 11 0 ∧
    i_size (fs_inode t !!! 0%nat) = 1500) (InodeDemo.with_slot InodeDemo.cold5 (fs_l s'))) s.
Proof.
  destruct FsDemo.open as [l L]. destruct LogDemo.c0_ok as [Ho Hl]. exists (InodeDemo.with_slot InodeDemo.file5 l).
  eapply wp_mono; [apply (iupdate_ilock_roundtrip (c := LogDemo.c0) (d := 1) Ho Hl 0 FsDemo.v0 (λ _, zero_block) [] FsDemo.g1);
    [exact InodeDemo.file5_typed|reflexivity|exact L|split; vm_compute; [split; [discriminate|reflexivity]|intros [_ Hx]; discriminate]|
     exact (room_le 1 3 _ FsDemo.room1 ltac:(lia))|reflexivity|discriminate]|].
  intros [] s' (v' & (l' & -> & L') & _ & _ & Hlock).
  eapply wp_mono; [eapply (Hlock _ _ _ (InodeDemo.with_slot InodeDemo.cold5 l') 0%nat L' eq_refl)|].
  - split; vm_compute; [split; [discriminate|reflexivity]|intros [_ Hx]; discriminate].
  - vm_compute. lia.
  - split; vm_compute; [lia|discriminate|reflexivity].
  - apply not_elem_of_nil.
  - reflexivity.
  - reflexivity.
  - reflexivity.
  - intros [] t (_ & E). rewrite E. split; reflexivity.
Defined.

Lemma itable_refcounts_witness : ∃ k s', iget 1 7 (FsDemo.mk LogDemo.s0) = (Ret k, s') ∧ refs (fs_inode s') 1 7 = 1.
Proof.
  assert (itable_free (FsDemo.mk LogDemo.s0)) as F by (split; [apply RamDisk.boot_quiet|apply not_elem_of_nil]).
  assert (table_ok (fs_inode (FsDemo.mk LogDemo.s0))) as T.
  { split.
    - intros k x [-> _]%lookup_replicate. simpl. lia.
    - intros k l x y [-> _]%lookup_replicate _ Hx. simpl in Hx. lia. }
  destruct (itable_refcounts _ F T) as [Hg _]. specialize (Hg 1 7).
  destruct (iget 1 7 _) as [[k|m|ch] s']; [|destruct Hg as (_ & _ & Hf); inversion Hf as [|? ? Hz]; destruct Hz; reflexivity|contradiction].
  destruct Hg as (t & -> & _ & _ & _ & R). exists k. eexists. split; [reflexivity|]. simpl. rewrite R. reflexivity.
Defined.
