(* ===== verification/FsFile.v ===== *)
(** * The contents of files and path names

    [readi] delivers exactly the bytes of the file, [skipelem] walks the
    elements of a path, and the walk of [namex] ends. *)
From S2P Require Import Prelude Machine Cstring Spinlock Sleeplock Blocks Bio Log LogSpec UserMem Printf Fs FsSpec FsInode.

(** ** The blocks of a file *)

(** The address of block [bn] of the file. *)
Definition baddr (v : Z → block) (i : inode) (bn : Z) : Z :=
  if bn <? NDIRECT then i_addrs i !!! Z.to_nat bn
  else get32 (v (i_addrs i !!! Z.to_nat NDIRECT)) (4 * Z.to_nat (bn - NDIRECT)).

(** Byte [k] of the file. *)
Definition fbyte (v : Z → block) (i : inode) (k : Z) : Z := v (baddr v i (k / BSIZE)) !!! Z.to_nat (k mod BSIZE).
Definition slice (v : Z → block) (i : inode) (off n : Z) : list Z := fbyte v i <$> seqZ off n.

(** The blocks of the first [n] bytes are there. *)
Record file_ok (v : Z → block) (g : log) (i : inode) (n : Z) : Prop := {
  fo_max : n <= MAXFILE * BSIZE;
  fo_addr : ∀ bn, 0 <= bn → bn * BSIZE < n → baddr v i bn ≠ 0 ∧ home g (baddr v i bn) ∧ length (v (baddr v i bn)) = Z.to_nat BSIZE;
  fo_ind : NDIRECT * BSIZE < n → i_addrs i !!! Z.to_nat NDIRECT ≠ 0 ∧ home g (i_addrs i !!! Z.to_nat NDIRECT);
}.

Lemma file_ok_le v g i n m : file_ok v g i n → m <= n → file_ok v g i m.
Proof. intros [F1 F2 F3] Hm. split; [lia|intros; apply F2; lia|intros; apply F3; lia]. Qed.

(** A piece of the file within one block. *)
Lemma slice_block v i off m : 0 <= off → 0 <= m → off mod BSIZE + m <= BSIZE →
  length (v (baddr v i (off / BSIZE))) = Z.to_nat BSIZE →
  take (Z.to_nat m) (drop (Z.to_nat (off mod BSIZE)) (v (baddr v i (off / BSIZE)))) = slice v i off m.
Proof.
  intros Ho Hm Hr Hl. assert (0 <= off mod BSIZE < BSIZE) by (by apply Z.mod_pos_bound).
  change (Z.to_nat BSIZE) with 1024%nat in Hl. change BSIZE with 1024 in *.
  apply list_eq_same_length with (Z.to_nat m).
  - unfold slice. by rewrite length_fmap, length_seqZ.
  - rewrite length_take, length_drop. lia.
  - intros k x y Hk. rewrite lookup_take_lt, lookup_drop by done. unfold slice. rewrite list_lookup_fmap.
    rewrite (proj2 (lookup_seqZ _ _ _ _)) by (split; [reflexivity|lia]). simpl. intros Hx [= <-]. unfold fbyte. change BSIZE with 1024.
    replace ((off + Z.of_nat k) / 1024) with (off / 1024) by zdiv.
    replace (Z.to_nat ((off + Z.of_nat k) mod 1024)) with (Z.to_nat (off mod 1024) + k)%nat by zdiv.
    symmetry. by apply list_lookup_total_correct.
Qed.

Lemma slice_app v i off m n : 0 <= m → 0 <= n → slice v i off (m + n) = slice v i off m ++ slice v i (off + m) n.
Proof. intros. unfold slice. by rewrite seqZ_app, fmap_app by lia. Qed.

Lemma length_slice v i off n : length (slice v i off n) = Z.to_nat n.
Proof. unfold slice. by rewrite length_fmap, length_seqZ. Qed.

Lemma over_app (f : Z → option Z) a bs1 bs2 x :
  over (over f Some a bs1) Some (a + Z.of_nat (length bs1)) bs2 x = over f Some a (bs1 ++ bs2) x.
Proof.
  unfold over. destruct (decide (a <= x)) as [Hx|Hx].
  - destruct (decide (a + Z.of_nat (length bs1) <= x)) as [Hy|Hy].
    + rewrite lookup_app_r by lia. replace (Z.to_nat (x - a) - length bs1)%nat with (Z.to_nat (x - (a + Z.of_nat (length bs1)))) by lia.
      destruct (bs2 !! _); [done|]. by rewrite lookup_ge_None_2 by lia.
    + by rewrite lookup_app_l by lia.
  - by rewrite decide_False by lia.
Qed.

Lemma over_ext (f h : Z → option Z) a bs x : (∀ y, f y = h y) → over f Some a bs x = over h Some a bs x.
Proof. intros E. unfold over. by rewrite E. Qed.

Lemma over_none (f : Z → option Z) a bs x : over f Some a bs x = None → f x = None.
Proof. unfold over. case_decide; [destruct (bs !! _)|]; naive_solver. Qed.

Section read.
Context {D U : Type} `{DiskSpec D} `{UserMemSpec U} {c : ctx} {d : Z}.
Abbreviation fst' := (fstate D U).
Abbreviation flog := (flogged (c := c) (d := d)).
Abbreviation now' := (now (c := c) (d := d)).

Lemma bmap_run ip bn v dk tr g (s : fst') : let i := fs_inode s !!! ip in
  u32 (i_dev i) = d → flog ∅ v dk tr g s → room 1 g → 0 <= bn < MAXFILE → baddr v i bn ≠ 0 →
  (NDIRECT <= bn → i_addrs i !!! Z.to_nat NDIRECT ≠ 0 ∧ home g (i_addrs i !!! Z.to_nat NDIRECT)) →
  wp (bmap ip bn) (λ a s', a = baddr v i bn ∧ now' ∅ v dk tr g s s') s.
Proof.
  intros i Ed HL Hr Hb Ha Hi. pose proof (flogged_n _ _ _ _ _ _ HL) as Hn. unfold bmap, getip. wp_steps. fold i. unfold baddr in *.
  destruct (Z.ltb_spec bn NDIRECT).
  { rewrite (proj2 (Z.eqb_neq _ _)) by done. wp_steps. split; [done|by apply now_refl]. }
  rewrite (proj2 (Z.ltb_lt (bn - NDIRECT) NINDIRECT)) by (unfold MAXFILE in Hb; lia).
  destruct Hi as [Hnz Hh]; [done|]. rewrite (proj2 (Z.eqb_neq _ _) Hnz). wp_steps. rewrite (proj2 (Z.eqb_neq _ _) Hnz). wp_steps.
  eapply (wp_fbread _ _ (i_addrs i !!! Z.to_nat NDIRECT)); [done|apply u32_id; destruct Hh; lia|exact HL|done|done|eapply room_nbuf; [done|lia|done|by rewrite map_size_empty]|].
  intros b l L. rewrite insert_empty in L. wp_step. eapply wp_fdata; [exact L|apply lookup_singleton_eq|].
  rewrite (proj2 (Z.eqb_neq _ _) Ha). wp_steps.
  eapply wp_fbrelse; [exact L|apply lookup_singleton_eq|]. intros l2 L2. rewrite delete_singleton_eq in L2. wp_steps.
  split; [done|]. by exists l2.
Qed.

(** The process memory [u] is [u0] with [bs] delivered to [to]. *)
Definition delivered (to : dest) (u0 u : U) (bs : list Z) : Prop :=
  match to with
  | ToLocal => u = u0
  | ToAddr true a => u_wf u ∧ ∀ x, u_byte u x = over (u_byte u0) Some a bs x
  | ToAddr false _ => False
  end.
(** A local array, or a buffer of the process that does not wrap around. *)
Definition dest_ok (to : dest) (n : Z) : Prop :=
  match to with ToLocal => True | ToAddr true a => 0 <= a ∧ a + n < 2 ^ 64 | ToAddr false _ => False end.
(** The buffer has a byte that is not mapped. *)
Definition unmapped (to : dest) (u : U) (n : Z) : Prop := ∃ a k, to = ToAddr true a ∧ 0 <= k < n ∧ u_byte u (a + k) = None.

Lemma deliver_run to u0 n tot got bs (s : fst') : dest_ok to n → delivered to u0 (fs_user s) got → tot = Z.of_nat (length got) →
  tot + Z.of_nat (length bs) <= n →
  wp (match to with ToAddr user a => zoom userL (either_copyout user (u64 (a + tot)) bs) | ToLocal => ret 0 end)
    (λ rc s', ∃ u, s' = s <| fs_user := u |> ∧ ((rc = 0 ∧ delivered to u0 u (got ++ bs)) ∨ (rc = -1 ∧ unmapped to u0 n))) s.
Proof.
  intros Hd Hg Et Hn. destruct to as [[] a|]; [|done|].
  - destruct Hd as [Ha Han], Hg as [Hwf Hb]. rewrite u64_id by lia.
    apply wp_zoom. unfold either_copyout, wp. simpl (lget userL s).
    destruct (copyout_ok (fs_user s) (a + tot) bs Hwf ltac:(lia) ltac:(lia)) as [(u' & E & Hw' & Hu')|(u' & k & E & Hw' & Hk & Hnone & _)];
      rewrite E; exists u'; (split; [done|]); [left|right]; (split; [done|]).
    + split; [done|]. intros x. rewrite Hu', Et, <-over_app. by apply over_ext.
    + exists a, (tot + k). rewrite Hb, <-Z.add_assoc in Hnone. split_and!; [done|lia|lia|]. by eapply over_none.
  - wp_step. exists (fs_user s). split; [by destruct s|]. by left.
Qed.

Lemma readi_done to off n got u0 i v dk tr g (s : fst') : flog ∅ v dk tr g s → delivered to u0 (fs_user s) got →
  wp (ret (n, got)) (λ r s', ∃ l u, s' = s <| fs_l := l |> <| fs_user := u |> ∧ logged c d ∅ v dk tr g l ∧
    ((r = (n, got ++ slice v i off (n - n)) ∧ delivered to u0 u (got ++ slice v i off (n - n))) ∨ (r.1 = -1 ∧ unmapped to u0 n))) s.
Proof.
  intros HL Hg. wp_step. rewrite Z.sub_diag. exists (fs_l s), (fs_user s). unfold slice. simpl. rewrite app_nil_r.
  split_and!; [by destruct s|exact HL|by left].
Qed.

Lemma readi_loop_run fuel : ∀ ip to off n tot got u0 v dk tr g (s : fst'), let i := fs_inode s !!! ip in
  u32 (i_dev i) = d → flog ∅ v dk tr g s → room 1 g → file_ok v g i (off + (n - tot)) → 0 <= off → 0 <= tot <= n →
  dest_ok to n → delivered to u0 (fs_user s) got → tot = Z.of_nat (length got) →
  (tot < n → (off + (n - tot) + BSIZE - 1) / BSIZE - off / BSIZE <= Z.of_nat fuel) →
  wp (readi_loop fuel ip to off n tot got) (λ r s', ∃ l u, s' = s <| fs_l := l |> <| fs_user := u |> ∧ logged c d ∅ v dk tr g l ∧
    ((r = (n, got ++ slice v i off (n - tot)) ∧ delivered to u0 u (got ++ slice v i off (n - tot))) ∨ (r.1 = -1 ∧ unmapped to u0 n))) s.
Proof.
  induction fuel as [|fuel IH]; intros ip to off n tot got u0 v dk tr g s i Ed HL Hr Hf Ho Ht Hd Hg Et Hfuel.
  { assert (tot = n) as -> by (change BSIZE with 1024 in *; zdiv). cbn [readi_loop]. by apply readi_done. }
  cbn [readi_loop]. destruct (Z.ltb_spec tot n) as [Hlt|Hge].
  2:{ assert (tot = n) as -> by lia. by apply readi_done. }
  set (m := Z.min (n - tot) (BSIZE - off mod BSIZE)).
  assert (0 <= off mod BSIZE < BSIZE) as Hmod by (by apply Z.mod_pos_bound). assert (0 < m) as Hm by (unfold m; lia).
  assert (off / BSIZE * BSIZE <= off) as Hdiv by (change BSIZE with 1024; zdiv).
  assert (0 <= off / BSIZE) as Hdiv0 by (change BSIZE with 1024; zdiv).
  destruct (fo_addr _ _ _ _ Hf (off / BSIZE)) as (Hnz & Hh & Hlen); [done|lia|].
  pose proof (flogged_n _ _ _ _ _ _ HL) as Hn0.
  wp_step. eapply wp_mono; [apply (bmap_run ip (off / BSIZE) v dk tr g); [done|done|done| |done|]|].
  { pose proof (fo_max _ _ _ _ Hf). change BSIZE with 1024 in *. zdiv. }
  { intros Hi. apply (fo_ind _ _ _ _ Hf). change BSIZE with 1024 in *. change NDIRECT with 12 in *. lia. }
  intros addr t (-> & l1 & -> & L1). fold i. rewrite (proj2 (Z.eqb_neq _ _) Hnz). unfold getip. wp_steps.
  eapply (wp_fbread _ _ (baddr v i (off / BSIZE))); [done|apply u32_id; destruct Hh; lia|exact L1|done|done|eapply room_nbuf; [done|lia|done|by rewrite map_size_empty]|].
  intros b l2 L2. rewrite insert_empty in L2. wp_step. eapply wp_fdata; [exact L2|apply lookup_singleton_eq|].
  fold m. rewrite slice_block by (try done; unfold m; lia).
  wp_step. eapply wp_mono; [eapply (deliver_run to u0 n tot got); [done|exact Hg|done|rewrite length_slice; lia]|].
  intros rc t (u & -> & Hrc). wp_step.
  eapply wp_fbrelse; [exact L2|apply lookup_singleton_eq|]. intros l3 L3. rewrite delete_singleton_eq in L3.
  destruct Hrc as [[-> Hgot]|[-> Hun]].
  2:{ simpl (-1 =? -1). wp_steps. exists l3, u. split_and!; [by destruct s|done|by right]. }
  simpl (0 =? -1). cbv iota.
  eapply wp_mono; [apply (IH ip to (off + m) n (tot + m) (got ++ slice v i off m) u0 v dk tr g)|].
  - done.
  - exact L3.
  - done.
  - by replace (off + m + (n - (tot + m))) with (off + (n - tot)) by lia.
  - lia.
  - unfold m. lia.
  - done.
  - exact Hgot.
  - rewrite length_app, length_slice. lia.
  - replace (off + m + (n - (tot + m))) with (off + (n - tot)) by lia. intros Hlt'. specialize (Hfuel Hlt). unfold m in *.
    change BSIZE with 1024 in *. zdiv.
  - intros r t (l & u' & -> & L & Hr'). exists l, u'. split_and!; [by destruct s|done|].
    replace (n - tot) with (m + (n - (tot + m))) by lia. rewrite slice_app by (unfold m; lia). rewrite app_assoc. exact Hr'.
Qed.

(** What [readi] reads of [n] bytes at [off]. *)
Definition read_len (i : inode) (off n : Z) : Z :=
  if decide (off <= i_size i ∧ off + n < 2 ^ 32) then Z.min n (i_size i - off) else 0.

Lemma delivered_nil to n (s : fst') : u_wf (fs_user s) → dest_ok to n → delivered to (fs_user s) (fs_user s) [].
Proof.
  intros Hu Hd. destruct to as [[] a|]; [|done|done]. split; [done|]. intros x. unfold over. by case_decide.
Qed.

(** C25: [readi] reads the file: at any offset it delivers the bytes of the file
    from there, [n] of them or as many as the file has, through direct and
    indirect blocks, to a kernel array or to the memory of the process, of which
    it changes nothing else; it changes nothing on disk.  Beyond the end, and
    when [off + n] overflows, it reads 0 bytes.  It returns -1 only when the
    buffer of the process has a byte that is not mapped. *)
Theorem readi_reads ip to off n v dk tr g (s : fst') : let i := fs_inode s !!! ip in let m := read_len i off n in
  0 <= off < 2 ^ 32 → 0 <= n < 2 ^ 32 → u32 (i_dev i) = d → flog ∅ v dk tr g s → room 1 g → file_ok v g i (i_size i) →
  dest_ok to n → u_wf (fs_user s) →
  wp (readi ip to off n) (λ r s', ∃ l u, s' = s <| fs_l := l |> <| fs_user := u |> ∧ logged c d ∅ v dk tr g l ∧
    ((r = (m, slice v i off m) ∧ delivered to (fs_user s) u (slice v i off m)) ∨ (r.1 = -1 ∧ unmapped to (fs_user s) n))) s.
Proof.
  intros i m Ho Hn Ed HL Hr Hf Hd Hu. pose proof (delivered_nil to n s Hu Hd) as Hnil.
  unfold readi, getip. wp_steps. fold i. unfold read_len in m.
  destruct (Z.ltb_spec (i_size i) off) as [Hs|Hs].
  { simpl (true || _). cbv iota. unfold m. rewrite decide_False by lia. wp_step. exists (fs_l s), (fs_user s). split_and!; [by destruct s|exact HL|by left]. }
  destruct (Z.ltb_spec (u32 (off + n)) off) as [Hw|Hw]; simpl (false || _); cbv iota.
  { unfold m. rewrite decide_False by (unfold u32 in Hw; zdiv). wp_step. exists (fs_l s), (fs_user s). split_and!; [by destruct s|exact HL|by left]. }
  assert (off + n < 2 ^ 32) as Hno by (unfold u32 in Hw; zdiv).
  assert ((if i_size i <? off + n then i_size i - off else n) = m) as ->.
  { unfold m. rewrite decide_True by done. destruct (Z.ltb_spec (i_size i) (off + n)); lia. }
  assert (0 <= m <= n ∧ off + m <= i_size i) as [Hm Hmi] by (unfold m; rewrite decide_True by done; lia).
  assert (file_ok v g i (off + (m - 0))) as Hf' by (eapply file_ok_le; [exact Hf|lia]).
  eapply wp_mono; [apply (readi_loop_run (S (Z.to_nat (m / BSIZE + 2))) ip to off m 0 [] (fs_user s) v dk tr g); try done; [lia|lia| |]|].
  - destruct to as [[] a|]; simpl in *; [lia|done..].
  - intros _. change BSIZE with 1024. zdiv.
  - rewrite Z.sub_0_r. intros r t (l & u & -> & L & Hr'). exists l, u. split_and!; [done|done|].
    destruct Hr' as [Hr'|[? (a & k & -> & Hk & ?)]]; [by left|right]. split; [done|]. exists a, k. split_and!; [done|lia|lia|done].
Qed.
End read.

(** A file of two blocks, the second of them block 45 of the demo disk. *)
Lemma readi_reads_witness : ∃ s : fstate RamDisk.t FlatUser.t,
  wp (readi 0 (ToAddr true 100) 1020 10) (λ r s', r = (10, [0; 0; 0; 0; 255; 255; 255; 255; 255; 63]) ∧ u_byte (fs_user s') 109 = Some 63) s.
Proof.
  destruct FsDemo.open as [l L].
  set (i := Inode 1 5 1 (SleepLock 0 0) 1 T_FILE 0 0 1 1500 (46 :: 45 :: replicate 11 0)).
  assert (file_ok FsDemo.v0 FsDemo.g1 i 1500) as Hf.
  { split; [vm_compute; discriminate| |vm_compute; discriminate]. intros bn H1 H2. change BSIZE with 1024 in H2.
    assert (bn = 0 ∨ bn = 1) as [-> | ->] by lia;
      (split_and!; [discriminate|split; vm_compute; [split; [discriminate|reflexivity]|intros [_ Hx]; discriminate]|reflexivity]). }
  exists (InodeDemo.with_slot i l).
  eapply wp_mono; [apply (readi_reads (c := LogDemo.c0) (d := 1) 0 (ToAddr true 100) 1020 10 FsDemo.v0 (λ _, zero_block) [] FsDemo.g1);
    [lia|lia|reflexivity|exact L|exact (room_le 1 3 _ FsDemo.room1 ltac:(lia))|exact Hf|simpl; lia|simpl; lia]|].
  intros r s' (l' & u & -> & _ & [[-> [_ Hb]]|[_ (a & k & [= <-] & Hk & Hn)]]).
  - split; [vm_compute; reflexivity|]. simpl (fs_user _). rewrite Hb. vm_compute. reflexivity.
  - exfalso. simpl in Hn. rewrite (proj2 (Z.leb_le 0 _)), (proj2 (Z.ltb_lt _ 4096)) in Hn by lia. discriminate.
Defined.

(** ** Path names *)

(** The pieces between slashes, and those that are not empty. *)
Fixpoint pieces (path : list Z) : list (list Z) :=
  match path with
  | [] => [[]]
  | c :: p => if c =? 47 then [] :: pieces p else match pieces p with e :: r => (c :: e) :: r | [] => [[c]] end
  end.
Definition elems (path : list Z) : list (list Z) := filter (λ e, e ≠ []) (pieces path).

(** The C string in [name], an array of DIRSIZ bytes. *)
Fixpoint cname (name : list Z) : list Z :=
  match name with c :: n => if c =? 0 then [] else c :: cname n | [] => [] end.

Lemma elems_skip path : elems (skip_slashes path) = elems path.
Proof.
  induction path as [|c p IH]; [done|]. cbn [skip_slashes]. destruct (decide (c = 47)) as [->|Hc].
  - rewrite IH. unfold elems. simpl. done.
  - by repeat case_match.
Qed.

Lemma skip_length path : (length (skip_slashes path) <= length path)%nat.
Proof. induction path as [|c p IH]; [done|]. cbn [skip_slashes]. repeat case_match; simpl in *; lia. Qed.

Lemma skip_sub path x : x ∈ skip_slashes path → x ∈ path.
Proof.
  induction path as [|c p IH]; [done|]. cbn [skip_slashes]. destruct (decide (c = 47)) as [->|Hc]; [set_solver|].
  by repeat case_match.
Qed.

Lemma skip_head path c p : skip_slashes path = c :: p → c ≠ 47.
Proof.
  induction path as [|c' p' IH]; [done|]. cbn [skip_slashes]. destruct (decide (c' = 47)) as [->|Hc]; [done|].
  intros E. assert (c' :: p' = c :: p) as [= <- <-] by (by repeat case_match). done.
Qed.

Lemma span_pieces path : let '(e, r) := span_elem path in
  path = e ++ r ∧ (∀ x, x ∈ e → x ≠ 47) ∧ (r = [] ∨ ∃ r', r = 47 :: r') ∧
  ∃ es, pieces path = e :: es ∧ filter (λ e, e ≠ []) es = elems r.
Proof.
  induction path as [|c p IH]; [simpl; split_and!; [done|set_solver|by left|by exists []]|].
  cbn [span_elem pieces]. destruct (Z.eqb_spec c 47) as [->|Hc].
  - simpl. split_and!; [done|set_solver|eauto|]. eexists. split; [done|]. unfold elems. simpl. done.
  - destruct (span_elem p) as [e r]. destruct IH as (-> & He & Hr & es & -> & Hes).
    split_and!; [done|set_solver|done|eauto].
Qed.

Lemma cname_nul s r : 0 ∉ s → cname (s ++ 0 :: r) = s.
Proof. induction s as [|c s IH]; intros Hs; simpl; [done|]. rewrite (proj2 (Z.eqb_neq c 0)) by set_solver. rewrite IH; set_solver. Qed.
Lemma cname_full s : 0 ∉ s → cname s = s.
Proof. induction s as [|c s IH]; intros Hs; simpl; [done|]. rewrite (proj2 (Z.eqb_neq c 0)) by set_solver. rewrite IH; set_solver. Qed.

(** [skipelem] walks a path: it returns NULL exactly when no element is
    left; otherwise it stores the first element, cut to DIRSIZ bytes and
    NUL-terminated when it is shorter, and returns the path of the remaining
    elements, without leading slashes, strictly shorter than the path. *)
Lemma skipelem_elements path name : 0 ∉ path → length name = Z.to_nat DIRSIZ →
  match skipelem path name with
  | None => elems path = []
  | Some (rest, name') => ∃ e, elems path = e :: elems rest ∧ cname name' = take (Z.to_nat DIRSIZ) e ∧
      length name' = Z.to_nat DIRSIZ ∧ (length rest < length path)%nat ∧ (∀ c p, rest = c :: p → c ≠ 47) ∧ 0 ∉ rest
  end.
Proof.
  intros Hp Hn. unfold skipelem. rewrite <-(elems_skip path). pose proof (skip_length path) as Hs.
  pose proof (skip_sub path) as Hsub. destruct (skip_slashes path) as [|c p] eqn:E; [done|].
  pose proof (skip_head _ _ _ E) as Hc. pose proof (span_pieces (c :: p)) as Hsp.
  destruct (span_elem (c :: p)) as [e r]. destruct Hsp as (Ep & He & Hr & es & Epc & Hes).
  assert (e ≠ []) as Hne. { intros ->. simpl in Ep. subst r. destruct Hr as [Hr|[r' Hr]]; [done|]. congruence. }
  assert (0 ∉ e) as He0 by (intros Hx; apply Hp, Hsub; rewrite Ep; set_solver).
  exists e. rewrite elems_skip. pose proof (skip_length r) as Hsr.
  assert (length (c :: p) = length e + length r)%nat as El by (by rewrite Ep, length_app).
  split_and!.
  - unfold elems. rewrite Epc, filter_cons_True by done. by f_equal.
  - destruct (Z.leb_spec DIRSIZ (Z.of_nat (length e))).
    + apply cname_full. intros (k & Hk)%list_elem_of_lookup. apply lookup_take_Some in Hk as [Hk _]. by apply He0, list_elem_of_lookup_2 with k.
    + simpl. rewrite cname_nul by done. by rewrite take_ge by lia.
  - destruct (Z.leb_spec DIRSIZ (Z.of_nat (length e))); [rewrite length_take; lia|].
    rewrite length_app. simpl. rewrite length_drop. lia.
  - destruct e; [done|]. simpl in *. lia.
  - intros c' p' E'. by eapply skip_head.
  - intros Hx%skip_sub. apply Hp, Hsub. rewrite Ep. set_solver.
Qed.

Lemma skipelem_shorter path name rest name' : skipelem path name = Some (rest, name') → (length rest < length path)%nat.
Proof.
  unfold skipelem. pose proof (skip_length path) as Hs. destruct (skip_slashes path) as [|c p] eqn:E; [done|].
  pose proof (skip_head _ _ _ E) as Hc. pose proof (span_pieces (c :: p)) as Hsp.
  destruct (span_elem (c :: p)) as [e r]. destruct Hsp as (Ep & _ & Hr & _). intros [= <- _].
  pose proof (skip_length r). assert (e ≠ []). { intros ->. simpl in Ep. subst r. destruct Hr as [Hr|[r' Hr]]; [done|]. congruence. }
  apply (f_equal length) in Ep. rewrite length_app in Ep. destruct e; [done|]. simpl in *. lia.
Qed.

Lemma bind_ext {S A B} (m : M S A) (k k' : A → M S B) s : (∀ a t, k a t = k' a t) → bind m k s = bind m k' s.
Proof. intros E. unfold bind. destruct (m s) as [[]]; [apply E|done..]. Qed.

Section walk.
Context {D U : Type} `{DiskDriver D} `{UserMem U}.
Abbreviation fst' := (fstate D U).

(** C39: the walk along a path ends: each round of [namex] shortens the path, so
    that the loop of [namex] has the same result with any bound on the number of rounds above
    the length of the path, and [namex] returns what the unbounded loop would. *)
Theorem namex_terminates fuel path name parent ip (s : fst') : (length path < fuel)%nat →
  namex_loop fuel path name parent ip s = namex_loop (S (length path)) path name parent ip s.
Proof.
  assert (∀ f f' path name ip (s : fst'), (length path < f)%nat → (length path < f')%nat →
    namex_loop f path name parent ip s = namex_loop f' path name parent ip s) as Hg; [|intros; apply Hg; lia].
  clear. induction f as [|f IH]; intros f' path name ip s Hf Hf'; [lia|]. destruct f' as [|f']; [lia|].
  cbn [namex_loop]. destruct (skipelem path name) as [[rest name']|] eqn:E; [|done]. apply skipelem_shorter in E.
  apply bind_ext. intros [] t. apply bind_ext. intros i t'. destruct (negb _); [done|]. destruct (parent && _); [done|].
  apply bind_ext. intros [[next off]|] t2; [|done]. apply bind_ext. intros [] t3. apply IH; lia.
Qed.
End walk.

(** The walk along "/a/b" needs no more rounds than [namex] gives it. *)
Lemma namex_terminates_witness :
  namex_loop 100 (bytes_of "/a/b") (replicate 14 0) false 0 (FsDemo.mk LogDemo.s0) = namex_loop 5 (bytes_of "/a/b") (replicate 14 0) false 0 (FsDemo.mk LogDemo.s0).
Proof. apply (namex_terminates 100 (bytes_of "/a/b")). vm_compute. lia. Defined.
