(* ===== verification/FsWrite.v ===== *)
(** * Writing files

    [bmap] and [writei] with allocation.  A file is the array of its slots, one
    per block of the contents and one for the indirect block; [grows] says what
    an operation on the file may do to the disk and to the log. *)
From S2P Require Import Prelude Machine Cstring Spinlock Sleeplock Blocks Bio Log LogSpec UserMem Printf Fs FsSpec FsInode FsFile.

(** ** The blocks of a file, allocated or not *)

Definition indirect (i : inode) : Z := i_addrs i !!! Z.to_nat NDIRECT.

(** The address in slot [k], 0 when nothing is allocated; slot [MAXFILE] is the
    indirect block. *)
Definition saddr (v : Z → block) (i : inode) (k : Z) : Z :=
  if k <? NDIRECT then i_addrs i !!! Z.to_nat k
  else if k =? MAXFILE then indirect i
  else if indirect i =? 0 then 0
  else get32 (v (indirect i)) (4 * Z.to_nat (k - NDIRECT)).

(** Byte [k] of the contents: 0 where nothing is allocated. *)
Definition cbyte (v : Z → block) (i : inode) (k : Z) : Z :=
  let a := saddr v i (k / BSIZE) in if a =? 0 then 0 else v a !!! Z.to_nat (k mod BSIZE).

(** A disk with one block of free map, block 0 in use. *)
Record fs_ok (sb : superblock) (g : log) (v : Z → block) : Prop := {
  fk_map : bitmap_ok sb g v;
  fk_boot : used sb v 0 = true;
  fk_one : 0 < sb_size sb <= BPB;
}.

(** A block that holds data of the file system: not the free map. *)
Definition in_use (sb : superblock) (g : log) (v : Z → block) (x : Z) : Prop :=
  0 <= x < sb_size sb ∧ used sb v x = true ∧ home g x ∧ length (v x) = Z.to_nat BSIZE ∧ x ≠ sb_bmapstart sb.

Record file_wf (sb : superblock) (g : log) (v : Z → block) (i : inode) : Prop := {
  fw_len : length (i_addrs i) = NADDRS;
  fw_own : ∀ k, 0 <= k <= MAXFILE → saddr v i k ≠ 0 → in_use sb g v (saddr v i k) ∧ saddr v i k ≠ IBLOCK (i_inum i) sb;
  fw_inj : ∀ k k', 0 <= k <= MAXFILE → 0 <= k' <= MAXFILE → saddr v i k ≠ 0 → saddr v i k = saddr v i k' → k = k';
  fw_ino : in_use sb g v (IBLOCK (i_inum i) sb);
}.

Lemma BBLOCK_one sb g v b : fs_ok sb g v → 0 <= b < sb_size sb → BBLOCK b sb = sb_bmapstart sb.
Proof. intros [_ _ H] Hb. unfold BBLOCK. rewrite Z.div_small by lia. lia. Qed.

Lemma bmap_home sb g v : fs_ok sb g v → home g (sb_bmapstart sb).
Proof.
  intros K. pose proof (fk_one _ _ _ K). rewrite <-(BBLOCK_one _ _ _ 0 K) by lia. apply (bo_home _ _ _ (fk_map _ _ _ K)). lia.
Qed.

(** ** Allocation *)
Section allocate.
Context {sb : superblock} {g : log} {v : Z → block} (K : fs_ok sb g v) {a : Z} (Ha : 0 <= a < sb_size sb) (Hu : used sb v a = false).

Lemma fresh_boot : a ≠ 0.
Proof. intros E. pose proof (fk_boot _ _ _ K) as H0. rewrite E in Hu. congruence. Qed.

Lemma bmap_used : used sb v (sb_bmapstart sb) = true ∧ 0 <= sb_bmapstart sb < sb_size sb.
Proof.
  clear Hu. destruct (bo_self _ _ _ (fk_map _ _ _ K) a Ha) as [H1 H2]. by rewrite (BBLOCK_one _ _ _ _ K Ha) in *.
Qed.

Lemma fresh_bmap : a ≠ sb_bmapstart sb.
Proof. destruct bmap_used as [H1 _]. intros E. rewrite <-E in H1. congruence. Qed.

Lemma allocate_other y : y ≠ a → y ≠ sb_bmapstart sb → allocate sb v a y = v y.
Proof. intros H1 H2. unfold allocate, bupd. rewrite (BBLOCK_one _ _ _ _ K Ha), !decide_False by done. done. Qed.

Lemma allocate_new : allocate sb v a a = zero_block.
Proof. clear. unfold allocate, bupd. by rewrite decide_True. Qed.

Lemma allocate_bmap : allocate sb v a (sb_bmapstart sb) = set_bit (v (sb_bmapstart sb)) (a mod BPB).
Proof.
  pose proof fresh_bmap. unfold allocate, bupd. rewrite (BBLOCK_one _ _ _ _ K Ha), decide_False by done. by rewrite decide_True.
Qed.

Lemma allocate_used z : 0 <= z < sb_size sb → used sb (allocate sb v a) z = if decide (z = a) then true else used sb v z.
Proof. intros Hz. by apply (used_allocate (fk_map _ _ _ K) Ha). Qed.

Lemma used_ext v' z : 0 <= z < sb_size sb → v' (sb_bmapstart sb) = v (sb_bmapstart sb) → used sb v' z = used sb v z.
Proof. clear Hu. intros Hz E. unfold used. by rewrite (BBLOCK_one _ _ _ _ K Hz), E. Qed.
End allocate.

(** The free map with more blocks in use. *)
Lemma fs_ok_more sb g v g' v' : fs_ok sb g v → wf_block (v' (sb_bmapstart sb)) →
  (∀ z, 0 <= z < sb_size sb → used sb v z = true → used sb v' z = true) → (∀ y, home g' y ↔ home g y) → fs_ok sb g' v'.
Proof.
  intros K Hw Hm Hg. pose proof K as [[M1 M2 M3 M4 M5 M6] K2 K3].
  assert (∀ b, 0 <= b < sb_size sb → BBLOCK b sb = sb_bmapstart sb) as EB by (intros; by eapply BBLOCK_one).
  split; [|apply Hm; [lia|done]|done]. split; try done.
  - intros b Hb. by apply Hg, M3.
  - intros b Hb. by rewrite EB.
  - intros b Hb Hu. apply Hg, M5; [done|]. destruct (used sb v b) eqn:E; [|done]. rewrite Hm in Hu; done.
  - intros b Hb. destruct (M6 b Hb) as [H1 H2]. split; [done|]. by apply Hm.
Qed.

(** The log but for its blocks. *)
Definition same_log (g g' : log) : Prop :=
  lg_size g' = lg_size g ∧ lg_start g' = lg_start g ∧ lg_outstanding g' = lg_outstanding g ∧ lg_committing g' = lg_committing g.

Lemma same_log_trans g g1 g2 : same_log g g1 → same_log g1 g2 → same_log g g2.
Proof. intros (A1 & A2 & A3 & A4) (B1 & B2 & B3 & B4). split_and!; congruence. Qed.

Lemma same_log_add x g : same_log g (add_block x g).
Proof. by destruct (add_block_counts x g) as (_ & ? & ? & ? & ?). Qed.

(** ** What an operation on a file does

    [grows lo hi]: slots that were free may have got blocks that were free, the
    contents of the other blocks of the disk are the same, and the log has got
    the free map, the indirect block and blocks [lo] to [hi] of the file only. *)
Record grows (sb : superblock) (lo hi : Z) (g : log) (v : Z → block) (i : inode) (g' : log) (v' : Z → block) (i' : inode) : Prop := {
  gr_i : i' = i <| i_addrs := i_addrs i' |>;
  gr_wf : file_wf sb g' v' i';
  gr_fs : fs_ok sb g' v';
  gr_keep : ∀ k, 0 <= k <= MAXFILE → saddr v i k ≠ 0 → saddr v' i' k = saddr v i k;
  gr_new : ∀ k, 0 <= k <= MAXFILE → saddr v' i' k = saddr v i k ∨ used sb v (saddr v' i' k) = false;
  gr_used : ∀ z, 0 <= z < sb_size sb → used sb v z = true → used sb v' z = true;
  gr_only : ∀ z, 0 <= z < sb_size sb → used sb v' z = true → used sb v z = true ∨
    ∃ k, (lo <= k < hi ∨ k = MAXFILE) ∧ z = saddr v' i' k ∧ z ≠ 0;
  gr_frame : ∀ y, 0 <= y < sb_size sb → used sb v y = true → y ≠ sb_bmapstart sb →
    (∀ k, 0 <= k <= MAXFILE → saddr v i k = y → y = 0) → v' y = v y;
  gr_same : same_log g g';
  gr_log : ∀ y, y ∈ blocks g' → y ∈ blocks g ∨ y = sb_bmapstart sb ∨
    ∃ k, (lo <= k < hi ∨ k = MAXFILE) ∧ y = saddr v' i' k ∧ y ≠ 0;
}.

Section grows.
Context {sb : superblock}.

Lemma fgrows_refl lo hi g v i : file_wf sb g v i → fs_ok sb g v → grows sb lo hi g v i g v i.
Proof. intros. split; try done; [by destruct i|by left|by left|by intros; left]. Qed.

Lemma fgrows_trans lo hi lo' hi' g v i g1 v1 i1 g2 v2 i2 : 0 <= lo → hi' <= MAXFILE → lo <= lo' <= hi → hi <= hi' →
  grows sb lo hi g v i g1 v1 i1 → grows sb lo' hi' g1 v1 i1 g2 v2 i2 → grows sb lo hi' g v i g2 v2 i2.
Proof.
  intros H0 Hm Hl Hh [A1 A2 A3 A4 A5 A6 A0 A7 A8 A9] [B1 B2 B3 B4 B5 B6 B0 B7 B8 B9]. split; try done.
  - rewrite B1, A1. done.
  - intros k Hk Hz. rewrite <-(A4 k Hk Hz). apply B4; [done|]. by rewrite (A4 k Hk Hz).
  - intros k Hk. destruct (decide (saddr v1 i1 k = 0)) as [Ez|Hz].
    + destruct (B5 k Hk) as [->|Hf]; [by apply A5|]. right. destruct (used sb v _) eqn:E; [|done].
      destruct (decide (saddr v2 i2 k = 0)) as [E2|E2].
      * rewrite E2 in Hf. by rewrite (fk_boot _ _ _ A3) in Hf.
      * rewrite A6 in Hf; [done| |done]. by destruct (fw_own _ _ _ _ B2 k Hk E2) as [[? _] _].
    + rewrite (B4 k Hk Hz). by apply A5.
  - intros z Hz Hu. apply B6; [done|]. by apply A6.
  - intros z Hz Hu. destruct (B0 z Hz Hu) as [Hu1|(k & Hk & E & Hn)]; [|right; exists k; split_and!; [lia|done..]].
    destruct (A0 z Hz Hu1) as [|(k & Hk & -> & Hn)]; [by left|]. right. exists k. split_and!; [lia| |done]. symmetry. apply B4; [lia|done].
  - intros y Hy Hu Hb Hn. rewrite (B7 y), (A7 y); [done|done|done|done|done|done| |done|].
    + by apply A6.
    + intros k Hk E. destruct (A5 k Hk) as [E'|Hf]; [apply (Hn k Hk); congruence|]. rewrite E in Hf. congruence.
  - by eapply same_log_trans.
  - intros y Hy. destruct (B9 y Hy) as [Hy1|[->|(k & Hk & -> & Hz)]]; [|by right; left|right; right; exists k; split_and!; [lia|done..]].
    destruct (A9 y Hy1) as [|[->|(k & Hk & -> & Hz)]]; [by left|by right; left|]. right; right. exists k. split_and!; [lia| |done].
    symmetry. apply B4; [lia|done].
Qed.
End grows.

Lemma home_same g g' y : lg_size g' = lg_size g → lg_start g' = lg_start g → home g' y ↔ home g y.
Proof. intros E1 E2. unfold home. by rewrite E1, E2. Qed.

Lemma used_bmap sb g v0 v v' z : fs_ok sb g v0 → 0 <= z < sb_size sb → v' (sb_bmapstart sb) = v (sb_bmapstart sb) → used sb v' z = used sb v z.
Proof. intros K Hz E. unfold used. by rewrite (BBLOCK_one _ _ _ _ K Hz), E. Qed.

(** A free slot gets a free block. *)
Section alloc_step.
Context {sb : superblock} {g : log} {v : Z → block} {i : inode} (K : fs_ok sb g v) (W : file_wf sb g v i).
Context {k a : Z} (Hk : 0 <= k <= MAXFILE) (Hz : saddr v i k = 0) (Ha : 0 <= a < sb_size sb) (Hu : used sb v a = false).
Context {g' : log} {v' : Z → block} {i' : inode}.
Context (Hi : i' = i <| i_addrs := i_addrs i' |>) (Hl : length (i_addrs i') = NADDRS).
Context (Hs : ∀ j, 0 <= j <= MAXFILE → saddr v' i' j = if decide (j = k) then a else saddr v i j).
Context (Hv : ∀ y, (indirect i ≠ 0 → y ≠ indirect i) → v' y = allocate sb v a y).
Context (Hw : indirect i ≠ 0 → length (v' (indirect i)) = Z.to_nat BSIZE).

Lemma MAXFILE_indirect (u : Z → block) (j : inode) : saddr u j MAXFILE = indirect j.
Proof. clear. done. Qed.

Lemma indirect_in_use : indirect i ≠ 0 → in_use sb g v (indirect i) ∧ indirect i ≠ IBLOCK (i_inum i) sb.
Proof. clear -W. intros Hn. by apply (fw_own _ _ _ _ W MAXFILE). Qed.

Lemma step_bmap : v' (sb_bmapstart sb) = allocate sb v a (sb_bmapstart sb).
Proof. clear -W Hv. apply Hv. intros Hn E. destruct (indirect_in_use Hn) as [(_ & _ & _ & _ & H) _]. by rewrite E in H. Qed.

Lemma step_used z : 0 <= z < sb_size sb → used sb v' z = if decide (z = a) then true else used sb v z.
Proof.
  clear -K W Ha Hu Hv. intros Hr. rewrite (used_bmap sb g v (allocate sb v a) v' z K Hr step_bmap). by apply (allocate_used K Ha Hu).
Qed.

Lemma step_new : v' a = zero_block.
Proof.
  clear -W Hv Hu. rewrite Hv; [apply allocate_new|]. intros Hn E. destruct (indirect_in_use Hn) as [(_ & H & _) _]. congruence.
Qed.

Lemma step_same y : in_use sb g v y → (indirect i ≠ 0 → y ≠ indirect i) → v' y = v y.
Proof.
  clear -K Ha Hv Hu. intros (Hy & Hyu & _ & _ & Hb) Hn. rewrite (Hv y Hn). apply (allocate_other K Ha); [|done]. intros ->. congruence.
Qed.

Lemma step_in_use y : lg_size g' = lg_size g → lg_start g' = lg_start g → in_use sb g v y → in_use sb g' v' y.
Proof.
  clear -K W Ha Hu Hv Hw. intros E1 E2 Hy. pose proof Hy as (H1 & H2 & H3 & H4 & H5). split_and!; [lia|lia| | | |done].
  - rewrite step_used by done. by case_decide.
  - by apply (home_same g g').
  - destruct (decide (indirect i ≠ 0 ∧ y = indirect i)) as [[Hn ->]|Hn]; [by apply Hw|]. rewrite step_same; [done|done|tauto].
Qed.

Lemma step_bytes j : 0 <= j < MAXFILE * BSIZE → cbyte v' i' j = cbyte v i j.
Proof.
  clear Hl Hw Hi. intros Hj. unfold cbyte. assert (0 <= j / BSIZE < MAXFILE) as Hb by (change BSIZE with 1024 in *; zdiv).
  rewrite Hs by lia. destruct (decide (j / BSIZE = k)) as [E|E].
  - rewrite E, Hz, Z.eqb_refl, (proj2 (Z.eqb_neq a 0)) by (by apply (fresh_boot K Hu)). rewrite step_new. apply lookup_total_replicate_2.
    assert (0 <= j mod BSIZE < BSIZE) by (by apply Z.mod_pos_bound). lia.
  - destruct (Z.eqb_spec (saddr v i (j / BSIZE)) 0) as [|Hn]; [done|].
    rewrite step_same; [done|by apply (fw_own _ _ _ _ W (j / BSIZE)); [lia|]|].
    intros Hn' Ei. apply (fw_inj _ _ _ _ W (j / BSIZE) MAXFILE) in Ei; lia || done.
Qed.

Lemma step_file_wf : lg_size g' = lg_size g → lg_start g' = lg_start g → file_wf sb g' v' i'.
Proof.
  intros E1 E2. assert (i_inum i' = i_inum i) as Ei by (by rewrite Hi). pose proof (fw_ino _ _ _ _ W) as Wi.
  assert (in_use sb g' v' a) as Hau.
  { split_and!; [lia|lia| | | |by apply (fresh_bmap K Ha Hu)].
    - rewrite step_used by done. by rewrite decide_True.
    - apply (home_same g g'); [done..|]. by apply (bo_free _ _ _ (fk_map _ _ _ K)).
    - rewrite step_new. apply length_replicate. }
  split; [done| | |rewrite Ei; by apply step_in_use].
  - intros j Hj. rewrite Hs, Ei by done. case_decide as Ej.
    + intros _. split; [done|]. intros E. destruct Wi as (_ & Hiu & _). rewrite E in Hu. congruence.
    + intros Hn. destruct (fw_own _ _ _ _ W j Hj Hn). by split; [apply step_in_use|].
  - intros j j' Hj Hj'. rewrite !Hs by done.
    assert (∀ j, 0 <= j <= MAXFILE → a ≠ saddr v i j) as Hne.
    { intros q Hq E. assert (saddr v i q ≠ 0) as Hn by (rewrite <-E; by apply (fresh_boot K Hu)).
      destruct (fw_own _ _ _ _ W q Hq Hn) as [(_ & Hqu & _) _]. congruence. }
    repeat case_decide; subst; try done.
    + intros _ E. by apply Hne in E.
    + intros _ E. symmetry in E. by apply Hne in E.
    + intros Hn E. by apply (fw_inj _ _ _ _ W).
Qed.

Lemma alloc_grows lo hi : same_log g g' → lo <= k < hi ∨ k = MAXFILE →
  (∀ y, y ∈ blocks g' → y ∈ blocks g ∨ y = sb_bmapstart sb ∨ y = a ∨ (y = indirect i ∧ y ≠ 0)) → grows sb lo hi g v i g' v' i'.
Proof.
  intros Hsame Hkr Hb. pose proof Hsame as (E1 & E2 & _). pose proof (step_file_wf E1 E2) as W'. split; try done.
  - eapply fs_ok_more; [exact K| | |intros; by apply home_same].
    + rewrite step_bmap, (allocate_bmap K Ha Hu). apply wf_set_bit.
      rewrite <-(BBLOCK_one _ _ _ _ K Ha). by apply (bo_wf _ _ _ (fk_map _ _ _ K)).
    + intros z Hzr Hzu. rewrite step_used by done. by case_decide.
  - intros j Hj Hn. rewrite Hs by done. rewrite decide_False; [done|]. intros ->. done.
  - intros j Hj. rewrite Hs by done. case_decide; [by right|by left].
  - intros z Hzr Hzu. rewrite step_used by done. by case_decide.
  - intros z Hzr. rewrite step_used by done. case_decide as E; [|by left]. intros _. right. exists k. rewrite Hs, decide_True by done.
    split_and!; [done|done|]. rewrite E. by apply (fresh_boot K Hu).
  - intros y Hy Hyu Hyb Hown. rewrite Hv; [apply (allocate_other K Ha); [|done]; intros ->; congruence|].
    intros Hn' ->. apply Hn', (Hown MAXFILE); [change MAXFILE with 268; lia|done].
  - intros y Hy. destruct (Hb y Hy) as [|[|[->|[-> Hn]]]]; [by left|by right; left|right; right..].
    + exists k. rewrite Hs, decide_True by done. split_and!; [done|done|by apply (fresh_boot K Hu)].
    + exists MAXFILE. rewrite Hs by (change MAXFILE with 268; lia). rewrite decide_False; [by split_and!; [right|..]|].
      intros <-. by rewrite MAXFILE_indirect in Hz.
Qed.
End alloc_step.

(** A block of the contents is written. *)
Section write_step.
Context {sb : superblock} {g : log} {v : Z → block} {i : inode} (K : fs_ok sb g v) (W : file_wf sb g v i).
Context {k : Z} (Hk : 0 <= k < MAXFILE) (Hn : saddr v i k ≠ 0) {w : block} (Hw : length w = Z.to_nat BSIZE).

Lemma write_other j : 0 <= j <= MAXFILE → j ≠ k → saddr v i j ≠ 0 → bupd v (saddr v i k) w (saddr v i j) = v (saddr v i j).
Proof.
  clear Hn Hw K. intros Hj Hne Hz. unfold bupd. rewrite decide_False; [done|]. intros E. apply Hne. apply (fw_inj _ _ _ _ W); done || lia.
Qed.

Lemma write_saddr j : saddr (bupd v (saddr v i k) w) i j = saddr v i j.
Proof.
  clear Hn Hw K. unfold saddr at 1 3. destruct (j <? NDIRECT); [done|]. destruct (j =? MAXFILE); [done|].
  destruct (Z.eqb_spec (indirect i) 0) as [|Hz]; [done|]. rewrite <-(MAXFILE_indirect v i) in Hz |- *.
  rewrite write_other; [done|change MAXFILE with 268; lia|lia|done].
Qed.

Lemma write_grows lo hi g' : same_log g g' → lo <= k < hi →
  (∀ y, y ∈ blocks g' → y ∈ blocks g ∨ y = saddr v i k) → grows sb lo hi g v i g' (bupd v (saddr v i k) w) i.
Proof.
  intros Hsame Hkr Hb. pose proof Hsame as (E1 & E2 & _). destruct (fw_own _ _ _ _ W k ltac:(lia) Hn) as [(Hr & Hu & Hh & Hlen & Hbm) Hib].
  assert (bupd v (saddr v i k) w (sb_bmapstart sb) = v (sb_bmapstart sb)) as Em by (unfold bupd; by rewrite decide_False).
  assert (∀ z, 0 <= z < sb_size sb → used sb (bupd v (saddr v i k) w) z = used sb v z) as Eu by (intros; by apply (used_bmap sb g v)).
  assert (∀ y, in_use sb g v y → in_use sb g' (bupd v (saddr v i k) w) y) as Hin.
  { intros y (H1 & H2 & H3 & H4 & H5). split_and!; [lia|lia|by rewrite Eu|by apply (home_same g g')| |done].
    unfold bupd. case_decide; [by subst|done]. }
  split; try done.
  - by destruct i.
  - destruct W as [W1 W2 W3 W4]. split; [done| | |by apply Hin]; intros j; [|intros j']; rewrite ?write_saddr; [|by apply W3].
    intros Hj Hz. destruct (W2 j Hj Hz). by split; [apply Hin|].
  - eapply fs_ok_more; [exact K|rewrite Em|intros; by rewrite Eu|intros; by apply home_same].
    rewrite <-(BBLOCK_one _ _ _ _ K Hr). by apply (bo_wf _ _ _ (fk_map _ _ _ K)).
  - intros j _ _. apply write_saddr.
  - intros j _. left. apply write_saddr.
  - intros z Hz. by rewrite Eu.
  - intros z Hz. rewrite Eu by done. by left.
  - intros y _ _ _ Hown. unfold bupd. rewrite decide_False; [done|]. intros ->. apply Hn, (Hown k); [lia|done].
  - intros y Hy. destruct (Hb y Hy) as [| ->]; [by left|]. right; right. exists k. rewrite write_saddr. split_and!; [by left|done..].
Qed.

Lemma write_bytes j : 0 <= j < MAXFILE * BSIZE →
  cbyte (bupd v (saddr v i k) w) i j = if decide (j / BSIZE = k) then w !!! Z.to_nat (j mod BSIZE) else cbyte v i j.
Proof.
  clear K Hw. intros Hj. unfold cbyte. rewrite write_saddr. case_decide as E.
  - rewrite E, (proj2 (Z.eqb_neq _ _) Hn). unfold bupd. by rewrite decide_True.
  - destruct (Z.eqb_spec (saddr v i (j / BSIZE)) 0) as [|Hz]; [done|]. rewrite write_other; [done| |done|done].
    change BSIZE with 1024 in *. zdiv.
Qed.
End write_step.

(** The inode is written. *)
Section inode_step.
Context {sb : superblock} {g : log} {v : Z → block} {i : inode} (K : fs_ok sb g v) (W : file_wf sb g v i).
Context {w : block} (Hw : length w = Z.to_nat BSIZE) {i' : inode} (Ea : i_addrs i' = i_addrs i) (Ei : i_inum i' = i_inum i).
Abbreviation v' := (bupd v (IBLOCK (i_inum i) sb) w).

Lemma inode_other k : 0 <= k <= MAXFILE → saddr v i k ≠ 0 → v' (saddr v i k) = v (saddr v i k).
Proof. clear Ea Hw Ei. intros Hk Hn. unfold bupd. rewrite decide_False; [done|]. by apply (fw_own _ _ _ _ W). Qed.

Lemma inode_saddr k : saddr v' i' k = saddr v i k.
Proof.
  clear Ei Hw. unfold saddr at 1, indirect. rewrite !Ea. fold (indirect i). unfold saddr.
  destruct (k <? NDIRECT); [done|]. destruct (k =? MAXFILE); [done|]. destruct (Z.eqb_spec (indirect i) 0) as [|Hn]; [done|].
  pose proof (inode_other MAXFILE) as Ho. rewrite MAXFILE_indirect in Ho. rewrite Ho; [done|change MAXFILE with 268; lia|done].
Qed.

Lemma inode_bytes j : 0 <= j < MAXFILE * BSIZE → cbyte v' i' j = cbyte v i j.
Proof.
  clear Ei Hw. intros Hj. unfold cbyte. rewrite inode_saddr. destruct (Z.eqb_spec (saddr v i (j / BSIZE)) 0) as [|Hn]; [done|].
  rewrite inode_other; [done| |done]. change BSIZE with 1024 in *. zdiv.
Qed.

Lemma inode_ok g' : lg_size g' = lg_size g → lg_start g' = lg_start g → file_wf sb g' v' i' ∧ fs_ok sb g' v' ∧
  ∀ z, 0 <= z < sb_size sb → used sb v' z = used sb v z.
Proof.
  intros E1 E2. pose proof (fw_ino _ _ _ _ W) as (Hr & Hu & Hh & Hlen & Hbm).
  assert (v' (sb_bmapstart sb) = v (sb_bmapstart sb)) as Em by (unfold bupd; by rewrite decide_False).
  assert (∀ z, 0 <= z < sb_size sb → used sb v' z = used sb v z) as Eu by (intros; by apply (used_bmap sb g v)).
  assert (∀ y, in_use sb g v y → in_use sb g' v' y) as Hin.
  { intros y (H1 & H2 & H3 & H4 & H5). split_and!; [lia|lia|by rewrite Eu|by apply (home_same g g')| |done].
    unfold bupd. by case_decide. }
  split_and!; [|eapply fs_ok_more; [exact K|rewrite Em|intros; by rewrite Eu|intros; by apply home_same]|done].
  - destruct W as [W1 W2 W3 W4]. split; [by rewrite Ea| | |rewrite Ei; by apply Hin]; intros k; [|intros k']; rewrite ?inode_saddr; [|by apply W3].
    rewrite Ei. intros Hk Hz. destruct (W2 k Hk Hz). by split; [apply Hin|].
  - rewrite <-(BBLOCK_one _ _ _ _ K Hr). by apply (bo_wf _ _ _ (fk_map _ _ _ K)).
Qed.
End inode_step.

(** ** The room it takes in the log *)
Section count.
Context {sb : superblock} {lo hi : Z} {g g' : log} {v v' : Z → block} {i i' : inode} {d : Z}.
Context (W : log_wf d g) (W' : log_wf d g') (ND : NoDup (blocks g')) (G : grows sb lo hi g v i g' v' i') (Hlo : lo <= hi).

Lemma grows_count : lg_n g' <= lg_n g + (hi - lo) + 1 + if indirect i' =? 0 then 0 else 1.
Proof.
  set (new := sb_bmapstart sb :: (if indirect i' =? 0 then [] else [indirect i']) ++ (saddr v' i' <$> seqZ lo (hi - lo))).
  assert (length (blocks g') <= length (blocks g ++ new))%nat as Hl.
  { apply submseteq_length, NoDup_submseteq; [done|]. intros y Hy. unfold new. rewrite elem_of_app, elem_of_cons, elem_of_app.
    destruct (gr_log _ _ _ _ _ _ _ _ _ G y Hy) as [|[|(k & [Hk| ->] & -> & Hn)]]; [by left|by right; left|right; right; right|right; right; left].
    - apply list_elem_of_fmap_2. apply elem_of_seqZ. lia.
    - rewrite MAXFILE_indirect in *. rewrite (proj2 (Z.eqb_neq _ _) Hn). by apply list_elem_of_here. }
  rewrite length_app, (blocks_length W), (blocks_length W') in Hl. unfold new in Hl. simpl in Hl.
  rewrite length_app, length_fmap, length_seqZ in Hl. pose proof (lw_n _ _ W). pose proof (lw_n _ _ W').
  destruct (indirect i' =? 0); simpl in Hl; lia.
Qed.
End count.

(** ** The slots after each kind of allocation *)
Lemma get32_zero o : (o + 4 <= Z.to_nat BSIZE)%nat → get32 zero_block o = 0.
Proof.
  intros Hb. unfold get32, zero_block. cbn [getn]. by rewrite !lookup_total_replicate_2 by lia.
Qed.

Section slots.
Context {sb : superblock} {g : log} {v : Z → block} {i : inode} (K : fs_ok sb g v) (W : file_wf sb g v i).
Context {a : Z} (Ha : 0 <= a < sb_size sb) (Hu : used sb v a = false).

Lemma allocate_indirect : indirect i ≠ 0 → allocate sb v a (indirect i) = v (indirect i).
Proof.
  intros Hn. destruct (indirect_in_use W Hn) as [(_ & Hiu & _ & _ & Hb) _]. apply (allocate_other K Ha); [|done]. intros E. congruence.
Qed.

Definition set_slot (n : nat) (x : Z) : inode := i <| i_addrs := <[n := x]> (i_addrs i) |>.

Lemma addrs_set n n' : (n < NADDRS)%nat → i_addrs (set_slot n a) !!! n' = if decide (n' = n) then a else i_addrs i !!! n'.
Proof.
  clear K Ha Hu. intros Hn. unfold set_slot. simpl. case_decide as E.
  - subst n'. apply list_lookup_total_insert_eq. by rewrite (fw_len _ _ _ _ W).
  - by apply list_lookup_total_insert_ne.
Qed.

Lemma saddr_direct k j : 0 <= k < NDIRECT → 0 <= j <= MAXFILE →
  saddr (allocate sb v a) (set_slot (Z.to_nat k) a) j = if decide (j = k) then a else saddr v i j.
Proof.
  intros Hk Hj. change NDIRECT with 12 in *. unfold saddr, indirect. change NDIRECT with 12. change MAXFILE with 268 in *.
  rewrite !addrs_set by (unfold NADDRS; lia). rewrite (decide_False (P := Z.to_nat 12 = Z.to_nat k)) by lia.
  destruct (Z.ltb_spec j 12).
  { destruct (decide (j = k)) as [->|]; [by rewrite decide_True|by rewrite decide_False by lia]. }
  rewrite decide_False by lia. destruct (j =? 268); [done|]. destruct (Z.eqb_spec (i_addrs i !!! Z.to_nat 12) 0) as [|Hn]; [done|].
  change (i_addrs i !!! Z.to_nat 12) with (indirect i) in *. by rewrite allocate_indirect.
Qed.

Lemma saddr_indirect j : indirect i = 0 → 0 <= j <= MAXFILE →
  saddr (allocate sb v a) (set_slot (Z.to_nat NDIRECT) a) j = if decide (j = MAXFILE) then a else saddr v i j.
Proof.
  intros Hz Hj. assert (indirect (set_slot (Z.to_nat NDIRECT) a) = a) as Ei.
  { unfold indirect. rewrite addrs_set by (vm_compute; lia). by rewrite decide_True. }
  unfold saddr. rewrite Ei, Hz, Z.eqb_refl, (proj2 (Z.eqb_neq a 0)) by (by apply (fresh_boot K Hu)).
  change MAXFILE with 268 in *. change NDIRECT with 12. destruct (Z.ltb_spec j 12).
  { rewrite addrs_set by (vm_compute; lia). change (Z.to_nat NDIRECT) with 12%nat. by rewrite !decide_False by lia. }
  destruct (Z.eqb_spec j 268) as [->|]; [by rewrite decide_True|]. rewrite decide_False by done.
  rewrite allocate_new. apply get32_zero. change (Z.to_nat BSIZE) with 1024%nat. lia.
Qed.

(** The view after the entry [k] of the indirect block was set. *)
Definition set_entry (k : Z) : Z → block :=
  bupd (allocate sb v a) (indirect i) (put32 (v (indirect i)) (4 * Z.to_nat (k - NDIRECT)) a).

Lemma saddr_entry k j : indirect i ≠ 0 → NDIRECT <= k < MAXFILE → 0 <= j <= MAXFILE →
  saddr (set_entry k) i j = if decide (j = k) then a else saddr v i j.
Proof.
  intros Hn Hk Hj. destruct (indirect_in_use W Hn) as [(_ & _ & _ & Hlen & _) _].
  unfold saddr. rewrite (proj2 (Z.eqb_neq _ _) Hn). unfold set_entry, bupd. rewrite (decide_True (P := indirect i = indirect i)) by done.
  change MAXFILE with 268 in *. change NDIRECT with 12 in *. change (Z.to_nat BSIZE) with 1024%nat in Hlen. destruct (Z.ltb_spec j 12); [by rewrite decide_False by lia|].
  destruct (Z.eqb_spec j 268) as [->|]; [by rewrite decide_False by lia|]. case_decide as E.
  - subst j. rewrite get32_put32 by lia. apply u32_id. pose proof (bo_size _ _ _ (fk_map _ _ _ K)). lia.
  - apply get32_put32_ne. lia.
Qed.
End slots.

Section write.
Context {D U : Type} `{DiskSpec D} `{UserMemSpec U} {c : ctx} {d : Z}.
Context (Ho : hart_ok (c_hart c)) (Hl : LkLog ∉ h_held (c_hart c)).
Abbreviation fst' := (fstate D U).
Abbreviation flog := (flogged (c := c) (d := d)).
Abbreviation now' := (now (c := c) (d := d)).

(** [s'] is [s] with the inode [i'] in slot [ip], the log part in view [v'] and log [g'],
    and possibly more on the console. *)
Definition after (ip : nat) (held : gmap Z nat) (v' dk : Z → block) tr (g' : log) (i' : inode) (s s' : fst') : Prop :=
  ∃ l o, s' = s <| fs_l := l |> <| fs_inode := <[ip := i']> (fs_inode s) |> <| fs_out := o |> ∧ logged c d held v' dk tr g' l.

Lemma now_after ip held v dk tr g i o (s s' : fst') : fs_inode s !!! ip = i → (ip < length (fs_inode s))%nat →
  now' held v dk tr g (s <| fs_out := o |>) s' → after ip held v dk tr g i s s'.
Proof.
  intros Hi Hlt (l & -> & L). exists l, o. split; [|done]. rewrite list_insert_id; [by destruct s|].
  rewrite <-Hi. apply list_lookup_lookup_total_lt. done.
Qed.

Lemma now_out held v dk tr g (s s' : fst') : now' held v dk tr g s s' → now' held v dk tr g (s <| fs_out := fs_out s |>) s'.
Proof. by destruct s. Qed.

Lemma alter_insert {A} `{Inhabited A} (f : A → A) ip (t : list A) : (ip < length t)%nat → alter f ip t = <[ip := f (t !!! ip)]> t.
Proof.
  intros Hlt. apply list_eq. intros j. destruct (decide (j = ip)) as [->|Hne].
  - rewrite list_lookup_alter_eq, list_lookup_insert_eq by done. by rewrite (list_lookup_lookup_total_lt _ _ Hlt).
  - by rewrite list_lookup_alter_ne, list_lookup_insert_ne by done.
Qed.

Lemma update_slot ip f l (s : fst') : (ip < length (fs_inode s))%nat →
  (s <| fs_l := l |>) <| fs_inode ::= alter f ip |> =
  s <| fs_l := l |> <| fs_inode := <[ip := f (fs_inode s !!! ip)]> (fs_inode s) |> <| fs_out := fs_out s |>.
Proof. intros Hlt. destruct s as [l0 sb t u w o]. simpl in *. by rewrite alter_insert by done. Qed.

(** The blocks that [balloc] logs. *)
Lemma balloc_logs sb x g : log_wf d g → home g (sb_bmapstart sb) → room 2 g → let g' := add_block x (add_block (sb_bmapstart sb) g) in
  same_log g g' ∧
  (∀ y, y ∈ blocks g' → y ∈ blocks g ∨ y = sb_bmapstart sb ∨ y = x).
Proof.
  clear. intros W Hh Hr g'. split; [eapply same_log_trans; apply same_log_add|]. subst g'.
  assert (log_room g) as Hr1 by (eapply room_log; [exact Hr|lia]). pose proof (add_block_wf W Hh Hr1) as W1.
  intros y [->|Hy]%(elem_blocks_add W1); [by right; right| |apply (room_add _ _ (sb_bmapstart sb)) in Hr; by apply (room_log _ _ Hr)].
  apply (elem_blocks_add W) in Hy as [->|Hy]; [by right; left|by left|done].
Qed.

Lemma balloc_slot dev sb held v dk tr g (s : fst') : u32 dev = d → fs_sb s = sb → fs_ok sb g v → aside sb v held →
  flog held v dk tr g s → room (3 + Z.of_nat (size held)) g →
  wp (balloc dev) (λ r s',
    (r ≠ 0 ∧ 0 <= r < sb_size sb ∧ used sb v r = false ∧
       now' held (allocate sb v r) dk tr (add_block r (add_block (sb_bmapstart sb) g)) s s') ∨
    (r = 0 ∧ (∀ z, 0 <= z < sb_size sb → used sb v z = true) ∧ now' held v dk tr g (no_blocks s) s')) s.
Proof.
  intros Ed Es K Ha L Hr. eapply wp_mono; [apply (balloc_run (d := d) Ho Hl dev sb held v dk tr g); try done; apply K|].
  intros r s' [(Hb & Hu & _ & N)|?]; [left|by right]. rewrite (BBLOCK_one _ _ _ _ K Hb) in N.
  split_and!; [by apply (fresh_boot K Hu)|lia|lia|done|done].
Qed.

(** What [bmap] promises of block [bn]. *)
Definition bmapped (sb : superblock) (ip : nat) (bn : Z) (v dk : Z → block) tr (g : log) (s : fst') (a : Z) (s' : fst') : Prop :=
  ∃ v' g' i', after ip ∅ v' dk tr g' i' s s' ∧ grows sb bn (bn + 1) g v (fs_inode s !!! ip) g' v' i' ∧
    (∀ j, 0 <= j < MAXFILE * BSIZE → cbyte v' i' j = cbyte v (fs_inode s !!! ip) j) ∧
    a = saddr v' i' bn ∧ (a = 0 → ∀ z, 0 <= z < sb_size sb → used sb v' z = true).

Section bmap.
Context {sb : superblock} {ip : nat} {bn : Z} {v dk : Z → block} {tr : list (Z * block)} {g : log} {s : fst'} {i : inode}.
Context (Hi : fs_inode s !!! ip = i) (Hip : (ip < length (fs_inode s))%nat) (Ed : u32 (i_dev i) = d) (Es : fs_sb s = sb).
Context (K : fs_ok sb g v) (W : file_wf sb g v i) (HL : flog ∅ v dk tr g s).

Lemma bmap_nothing a : saddr v i bn = a → (a = 0 → ∀ z, 0 <= z < sb_size sb → used sb v z = true) → ∀ o s',
  now' ∅ v dk tr g (s <| fs_out := o |>) s' → bmapped sb ip bn v dk tr g s a s'.
Proof.
  intros Ea Hz o s' N. exists v, g, i. rewrite Hi. split_and!; [by eapply now_after|by apply fgrows_refl|done|done|done].
Qed.

Lemma bmap_direct : room 3 g → 0 <= bn < NDIRECT → wp (bmap ip bn) (bmapped sb ip bn v dk tr g s) s.
Proof.
  intros Hr Hb. assert (saddr v i bn = i_addrs i !!! Z.to_nat bn) as Ea by (unfold saddr; by rewrite (proj2 (Z.ltb_lt bn NDIRECT)) by lia).
  pose proof (bmap_home _ _ _ K) as Hh.
  destruct HL as (ac & _ & T & _).
  unfold bmap, getip. wp_steps. rewrite Hi, (proj2 (Z.ltb_lt bn NDIRECT)), <-Ea by lia.
  destruct (Z.eqb_spec (saddr v i bn) 0) as [Ez|Hn].
  2:{ wp_step. apply (bmap_nothing _ eq_refl ltac:(done) (fs_out s)), now_out. by apply now_refl. }
  wp_step. eapply wp_mono; [eapply (balloc_slot _ sb ∅); [done|done|exact K|apply aside_empty|exact HL|by rewrite map_size_empty]|].
  intros r s1 [(Hrn & Hrr & Hu & l & -> & L)|(-> & Hall & N)].
  2:{ simpl. wp_step. exact (bmap_nothing 0 Ez (λ _, Hall) _ _ N). }
  rewrite (proj2 (Z.eqb_neq _ _) Hrn). unfold updip. wp_steps.
  destruct (balloc_logs sb r g (tx_wf _ _ _ _ T) Hh) as [G1 G2]; [eapply room_le; [exact Hr|lia]|].
  assert (∀ j, 0 <= j <= MAXFILE → saddr (allocate sb v r) (set_slot (i := i) (Z.to_nat bn) r) j = if decide (j = bn) then r else saddr v i j) as Hs
    by (intros; by apply (saddr_direct K W)).
  assert (0 <= bn <= MAXFILE) as Hbm by (change MAXFILE with 268; change NDIRECT with 12 in *; lia).
  exists (allocate sb v r), (add_block r (add_block (sb_bmapstart sb) g)), (set_slot (i := i) (Z.to_nat bn) r). rewrite Hi. split_and!.
  - exists l, (fs_out s). split; [|done]. rewrite update_slot, Hi by done. done.
  - eapply (alloc_grows K W Hbm Ez Hrr Hu); try done; [simpl; rewrite length_insert; apply W| |left; lia|].
    + intros Hn. rewrite (allocate_indirect K W Hrr Hu Hn). by apply (indirect_in_use W).
    + intros y Hy. destruct (G2 y Hy) as [|[|]]; tauto.
  - intros j Hj. by eapply (step_bytes K W Hbm Ez Hrr Hu).
  - rewrite Hs, decide_True by done. done.
  - done.
Qed.

(** The first step of the indirect case: the indirect block is there. *)
Definition with_indirect (i : inode) : M fst' Z :=
  if indirect i =? 0 then
    addr <- balloc (i_dev i) ;;
    when (truth addr) (updip ip (λ i, i <| i_addrs ::= <[Z.to_nat NDIRECT := addr]> |>)) ;;;
    ret addr
  else ret (indirect i).

Lemma with_indirect_run : room (if indirect i =? 0 then 6 else 4) g → 0 <= bn < MAXFILE → wp (with_indirect i) (λ a s',
  ∃ v' g' i', after ip ∅ v' dk tr g' i' s s' ∧ grows sb bn (bn + 1) g v i g' v' i' ∧
    (∀ j, 0 <= j < MAXFILE * BSIZE → cbyte v' i' j = cbyte v i j) ∧ saddr v' i' bn = saddr v i bn ∧
    a = indirect i' ∧ room 4 g' ∧ (a = 0 → v' = v ∧ ∀ z, 0 <= z < sb_size sb → used sb v' z = true)) s.
Proof.
  intros Hr Hb. unfold with_indirect. destruct (Z.eqb_spec (indirect i) 0) as [Ez|Hn].
  2:{ wp_step. exists v, g, i. split_and!; try done; [|by apply fgrows_refl]. eapply now_after; [done|done|]. by apply now_out, now_refl. }
  destruct HL as (ac & _ & T & _).
  wp_step. eapply wp_mono; [eapply (balloc_slot _ sb ∅); [done|done|exact K|apply aside_empty|exact HL|rewrite map_size_empty; by eapply room_le; [exact Hr|]]|].
  intros r s1 [(Hrn & Hrr & Hu & l & -> & L)|(-> & Hall & N)].
  2:{ simpl. wp_steps. exists v, g, i. split_and!; try done; [exact (now_after ip ∅ v dk tr g i _ s _ Hi Hip N)|by apply fgrows_refl|]. by eapply room_le; [exact Hr|]. }
  rewrite truth_nonzero by done. unfold updip. wp_steps.
  destruct (balloc_logs sb r g (tx_wf _ _ _ _ T) (bmap_home _ _ _ K)) as [G1 G2]; [eapply room_le; [exact Hr|lia]|].
  assert (∀ j, 0 <= j <= MAXFILE → saddr (allocate sb v r) (set_slot (i := i) (Z.to_nat NDIRECT) r) j = if decide (j = MAXFILE) then r else saddr v i j) as Hs
    by (intros; by apply (saddr_indirect K W)).
  assert (0 <= MAXFILE <= MAXFILE) as Hbm by (change MAXFILE with 268; lia).
  exists (allocate sb v r), (add_block r (add_block (sb_bmapstart sb) g)), (set_slot (i := i) (Z.to_nat NDIRECT) r). split_and!; try done.
  - exists l, (fs_out s). split; [|done]. rewrite update_slot, Hi by done. done.
  - eapply (alloc_grows K W Hbm Ez Hrr Hu); try done; [simpl; rewrite length_insert; apply W|by right|].
    intros y Hy. destruct (G2 y Hy) as [|[|]]; tauto.
  - intros j Hj. by eapply (step_bytes K W Hbm Ez Hrr Hu).
  - rewrite Hs, decide_False by lia. done.
  - rewrite <-(MAXFILE_indirect (allocate sb v r)), Hs, decide_True by done. done.
  - apply (room_add _ _ (sb_bmapstart sb)), (room_add _ _ r) in Hr. by eapply room_le; [exact Hr|].
Qed.

(** The second step: the entry of block [bn] in the indirect block. *)
Definition with_entry (dev ind : Z) : M fst' Z :=
  bp <- fbread dev ind ;;
  a <- fdata bp ;;
  let addr := get32 a (4 * Z.to_nat (bn - NDIRECT)) in
  addr <- (if addr =? 0 then
             addr <- balloc dev ;;
             (if truth addr then
                a <- fdata bp ;;
                fstore bp (put32 a (4 * Z.to_nat (bn - NDIRECT)) addr) ;;;
                flog_write bp
              else ret tt) ;;;
             ret addr
           else ret addr) ;;
  fbrelse bp ;;;
  ret addr.

Lemma entry_logs x : let ind := indirect i in let g1 := add_block x (add_block (sb_bmapstart sb) g) in room 3 g → home g x →
  same_log g (add_block ind g1) ∧
  (∀ y, y ∈ blocks (add_block ind g1) → y ∈ blocks g ∨ y = sb_bmapstart sb ∨ y = x ∨ y = ind).
Proof.
  intros ind g1 Hr Hx. destruct HL as (ac & _ & T & _). pose proof (tx_wf _ _ _ _ T) as Wl. pose proof (bmap_home _ _ _ K) as Hh.
  destruct (balloc_logs sb x g Wl Hh) as [G1 G4]; [by eapply room_le; [exact Hr|]|].
  split; [eapply same_log_trans; [exact G1|apply same_log_add]|].
  pose proof (room_add _ _ (sb_bmapstart sb) Hr) as R1. pose proof (room_add _ _ x R1) as R2.
  assert (log_wf d (add_block (sb_bmapstart sb) g)) as W1 by (apply add_block_wf; [done|done|by apply (room_log _ _ Hr)]).
  assert (log_wf d g1) as W2 by (apply add_block_wf; [done|by apply add_block_home|by apply (room_log _ _ R1)]).
  intros y [->|Hy]%(elem_blocks_add W2); [by right; right; right| |by apply (room_log _ _ R2)].
  destruct (G4 y Hy) as [|[|]]; [by left|by right; left|by right; right; left].
Qed.

Lemma wp_fwrite_end x b w held u g0 (s0 : fst') (Q : unit → fst' → Prop) : flog held u dk tr g0 s0 → held !! x = Some b → log_room g0 →
  (∀ l, logged c d held (bupd u x w) dk tr (add_block x g0) l → Q tt (s0 <| fs_l := l |>)) → wp (fstore b w ;;; flog_write b) Q s0.
Proof.
  intros L Hx Hr HQ. unfold fstore, flog_write. wp_step. apply wp_zoom. simpl.
  eapply wp_lstore; [exact L|exact Hx|]. intros l1 L1. apply wp_zoom. simpl.
  eapply wp_log_write; [done|done|exact L1|exact Hx|exact Hr|]. intros l2 L2. by apply HQ.
Qed.

Lemma with_entry_run : indirect i ≠ 0 → room 4 g → NDIRECT <= bn < MAXFILE →
  wp (with_entry (i_dev i) (indirect i)) (bmapped sb ip bn v dk tr g s) s.
Proof.
  intros Hn Hr Hb. destruct (indirect_in_use W Hn) as [(Hir & Hiu & Hih & Hil & Hib) _].
  assert (get32 (v (indirect i)) (4 * Z.to_nat (bn - NDIRECT)) = saddr v i bn) as Ea.
  { unfold saddr. rewrite (proj2 (Z.eqb_neq _ _) Hn), (proj2 (Z.ltb_ge _ _)), (proj2 (Z.eqb_neq bn MAXFILE)) by lia. done. }
  pose proof (flogged_n _ _ _ _ _ _ HL) as Hn0. unfold with_entry. wp_step.
  eapply (wp_fbread _ _ (indirect i)); [done|apply u32_id; destruct Hih; lia|exact HL|done|done|eapply room_nbuf; [done|lia|done|rewrite map_size_empty; lia]|].
  intros b l L. rewrite insert_empty in L. wp_step. eapply wp_fdata; [exact L|apply lookup_singleton_eq|]. rewrite Ea.
  destruct (Z.eqb_spec (saddr v i bn) 0) as [Ez|Hz].
  2:{ wp_steps. eapply wp_fbrelse; [exact L|apply lookup_singleton_eq|]. intros l2 L2. rewrite delete_singleton_eq in L2. wp_steps.
      apply (bmap_nothing _ eq_refl ltac:(done) (fs_out s)), now_out. by exists l2. }
  wp_steps. eapply wp_mono; [eapply (balloc_slot _ sb {[indirect i := b]}); [done|done|exact K| |exact L|by rewrite map_size_singleton]|].
  { intros x [y [<- _]%lookup_singleton_Some]. split; [done|]. intros z Hzr. by rewrite (BBLOCK_one _ _ _ _ K Hzr). }
  intros r s1 [(Hrn & Hrr & Hu & l2 & -> & L2)|(-> & Hall & (l2 & -> & L2))].
  2:{ simpl. wp_steps. eapply wp_fbrelse; [exact L2|apply lookup_singleton_eq|]. intros l3 L3. rewrite delete_singleton_eq in L3. wp_steps.
      apply (bmap_nothing 0 Ez (λ _, Hall) (fs_out (no_blocks s))). by exists l3. }
  rewrite truth_nonzero by done. wp_steps. eapply wp_fdata; [exact L2|apply lookup_singleton_eq|].
  rewrite (allocate_indirect K W Hrr Hu Hn).
  pose proof (room_add _ _ r (room_add _ _ (sb_bmapstart sb) Hr)) as R2.
  eapply wp_fwrite_end; [exact L2|apply lookup_singleton_eq|by apply (room_log _ _ R2)|]. intros l3 L3. wp_steps.
  eapply wp_fbrelse; [exact L3|apply lookup_singleton_eq|]. intros l4 L4. rewrite delete_singleton_eq in L4. wp_steps.
  destruct (entry_logs r) as [G1 G2]; [by eapply room_le; [exact Hr|]|by apply (bo_free _ _ _ (fk_map _ _ _ K))|].
  assert (∀ j, 0 <= j <= MAXFILE → saddr (set_entry (sb := sb) (v := v) (i := i) (a := r) bn) i j = if decide (j = bn) then r else saddr v i j) as Hs
    by (intros; by apply (saddr_entry K W Hrr)).
  assert (0 <= bn <= MAXFILE) as Hbm by (change NDIRECT with 12 in *; lia).
  assert (∀ y, (indirect i ≠ 0 → y ≠ indirect i) → set_entry (sb := sb) (v := v) (i := i) (a := r) bn y = allocate sb v r y) as Hv
    by (intros y Hy; unfold set_entry, bupd; rewrite decide_False by tauto; done).
  eexists (set_entry bn), _, i. rewrite Hi. split_and!.
  - exists l4, (fs_out s). split; [|exact L4]. rewrite list_insert_id; [by destruct s|]. rewrite <-Hi. by apply list_lookup_lookup_total_lt.
  - eapply (alloc_grows K W Hbm Ez Hrr Hu); try done; [by destruct i|apply W| |left; lia|].
    + intros _. unfold set_entry, bupd. rewrite decide_True by done. unfold put32. by rewrite length_putn.
    + intros y Hy. destruct (G2 y Hy) as [|[|[|]]]; [tauto..|]. right; right; right. split; [done|congruence].
  - intros j Hj. by eapply (step_bytes K W Hbm Ez Hrr Hu).
  - rewrite Hs, decide_True by done. done.
  - done.
Qed.
End bmap.

Lemma after_trans ip held v dk tr g i held' v' g' i' (s s1 s2 : fst') :
  after ip held v dk tr g i s s1 → after ip held' v' dk tr g' i' s1 s2 → after ip held' v' dk tr g' i' s s2.
Proof. intros (l & o & -> & _) (l' & o' & -> & L). exists l', o'. split; [|done]. simpl. by rewrite list_insert_insert_eq. Qed.

(** The slot of the inode after the operation, and the rest of the state. *)
Lemma after_slot ip held v dk tr g i (s s' : fst') : after ip held v dk tr g i s s' → (ip < length (fs_inode s))%nat →
  fs_inode s' !!! ip = i ∧ (ip < length (fs_inode s'))%nat ∧ fs_sb s' = fs_sb s ∧ fs_user s' = fs_user s ∧ flog held v dk tr g s'.
Proof.
  intros (l & o & -> & L) Hip. simpl. rewrite length_insert, list_lookup_total_insert_eq by done. done.
Qed.

Lemma bmapped_trans sb ip bn v dk tr g (s : fst') v1 g1 i1 s1 a s' : 0 <= bn < MAXFILE → (ip < length (fs_inode s))%nat →
  after ip ∅ v1 dk tr g1 i1 s s1 → grows sb bn (bn + 1) g v (fs_inode s !!! ip) g1 v1 i1 →
  (∀ j, 0 <= j < MAXFILE * BSIZE → cbyte v1 i1 j = cbyte v (fs_inode s !!! ip) j) →
  bmapped sb ip bn v1 dk tr g1 s1 a s' → bmapped sb ip bn v dk tr g s a s'.
Proof.
  intros Hb Hip A1 G1 C1 (v2 & g2 & i2 & A2 & G2 & C2 & Ea & Hz). destruct (after_slot _ _ _ _ _ _ _ _ _ A1 Hip) as [E1 _].
  rewrite E1 in *. exists v2, g2, i2. split_and!; [by eapply after_trans| | |done|done].
  - eapply (fgrows_trans bn (bn + 1) bn (bn + 1)); [lia|lia|lia|lia|exact G1|exact G2].
  - intros j Hj. by rewrite C2, C1.
Qed.

(** [bmap] with allocation. *)
Lemma bmap_alloc_run ip bn sb v dk tr g (s : fst') : let i := fs_inode s !!! ip in
  (ip < length (fs_inode s))%nat → u32 (i_dev i) = d → fs_sb s = sb → fs_ok sb g v → file_wf sb g v i → flog ∅ v dk tr g s →
  room (if indirect i =? 0 then 6 else 4) g → 0 <= bn < MAXFILE → wp (bmap ip bn) (bmapped sb ip bn v dk tr g s) s.
Proof.
  intros i Hip Ed Es K W HL Hr Hb. destruct (Z.lt_ge_cases bn NDIRECT) as [Hd|Hd].
  { apply (bmap_direct eq_refl Hip Ed Es K W HL); [|lia]. eapply room_le; [exact Hr|]. by destruct (_ =? _). }
  unfold bmap, getip. wp_steps. fold i. rewrite (proj2 (Z.ltb_ge _ _) Hd), (proj2 (Z.ltb_lt (bn - NDIRECT) NINDIRECT)) by (unfold MAXFILE in Hb; lia).
  change (wp (addr <- with_indirect (ip := ip) i ;; if addr =? 0 then ret 0 else with_entry (bn := bn) (i_dev i) addr) (bmapped sb ip bn v dk tr g s) s).
  wp_step. eapply wp_mono; [apply (with_indirect_run eq_refl Hip Ed Es K W HL Hr Hb)|].
  intros a s1 (v1 & g1 & i1 & A1 & G1 & C1 & Esa & -> & R1 & Hz). fold i in G1, C1, Esa.
  destruct (after_slot _ _ _ _ _ _ _ _ _ A1 Hip) as (E1 & Hip1 & Es1 & _ & L1).
  destruct (Z.eqb_spec (indirect i1) 0) as [Ez|Hn].
  - wp_step. exists v1, g1, i1. fold i. split_and!; [done|done|done| |intros _; by apply Hz].
    unfold saddr. rewrite (proj2 (Z.ltb_ge _ _) Hd), Ez, Z.eqb_refl. by destruct (bn =? MAXFILE).
  - assert (i_dev i1 = i_dev i) as Edv by (by rewrite (gr_i _ _ _ _ _ _ _ _ _ G1)). rewrite <-Edv in Ed |- *.
    eapply wp_mono; [apply (with_entry_run E1 Hip1 Ed (eq_trans Es1 Es) (gr_fs _ _ _ _ _ _ _ _ _ G1) (gr_wf _ _ _ _ _ _ _ _ _ G1) L1 Hn R1); lia|].
    intros a s2 B. by eapply bmapped_trans.
Qed.

(** The process or the kernel array supplies [bs]. *)
Definition supplies (from : source) (u : U) (bs : list Z) : Prop :=
  match from with
  | FromLocal l => ∃ r, l = bs ++ r
  | FromAddr true a => u_wf u ∧ 0 <= a ∧ a + Z.of_nat (length bs) < 2 ^ 64 ∧
      ∀ k b, bs !! k = Some b → u_byte u (a + Z.of_nat k) = Some b
  | FromAddr false _ => False
  end.

Lemma fetch_run from bs tot m (s : fst') : supplies from (fs_user s) bs → 0 <= tot → 0 <= m → tot + m <= Z.of_nat (length bs) →
  wp (match from with
      | FromAddr user a => zoom userL (either_copyin user (u64 (a + tot)) m)
      | FromLocal l => ret (0, take (Z.to_nat m) (drop (Z.to_nat tot) l))
      end) (λ r s', r = (0, take (Z.to_nat m) (drop (Z.to_nat tot) bs)) ∧ s' = s) s.
Proof.
  intros Hs Ht Hm Hb. destruct from as [[] a|l]; [|done|].
  - destruct Hs as (Hwf & Ha & Han & Hbs). rewrite u64_id by lia. apply wp_zoom. unfold either_copyin, wp. simpl (lget userL s).
    assert (∀ k, 0 <= k < m → ∃ b, u_byte (fs_user s) (a + tot + k) = Some b ∧ bs !! (Z.to_nat tot + Z.to_nat k)%nat = Some b) as Hk.
    { intros k Hk. destruct (lookup_lt_is_Some_2 bs (Z.to_nat tot + Z.to_nat k)) as [b Eb]; [lia|]. exists b. split; [|done].
      rewrite <-(Hbs _ _ Eb). f_equal. lia. }
    destruct (copyin_ok (fs_user s) (a + tot) m Hwf) as [(bs' & -> & E)|(bs' & k & _ & Hkr & Hnone)]; [lia..| |].
    2:{ destruct (Hk k Hkr) as (b & Eb & _). congruence. }
    split; [|by destruct s]. do 2 f_equal.
    assert (length bs' = Z.to_nat m) as Hlen by (apply (f_equal length) in E; by rewrite !length_fmap, length_seq in E).
    apply list_eq_same_length with (Z.to_nat m); [rewrite length_take, length_drop; lia|done|].
    intros k x y Hkm Hx Hy. rewrite lookup_take_lt, lookup_drop in Hy by done.
    apply (f_equal (lookup k)) in E. rewrite !list_lookup_fmap, lookup_seq_lt, Hx in E by done. simpl in E.
    destruct (Hk (Z.of_nat k)) as (b & Eb & Eb'); [lia|]. rewrite Nat2Z.id in Eb'. congruence.
  - destruct Hs as [r ->]. wp_step. split; [|done]. f_equal. rewrite drop_app_le by lia. rewrite take_app_le; [done|]. rewrite length_drop. lia.
Qed.
End write.

(** The block with [bs] over it. *)
Lemma splice_length w o bs : (o + length bs <= length w)%nat → length (splice w o bs) = length w.
Proof. intros Hb. unfold splice. rewrite !length_app, length_take, length_drop. lia. Qed.

Lemma splice_lookup w o bs k : (o + length bs <= length w)%nat →
  splice w o bs !!! k = if decide (o <= k < o + length bs)%nat then bs !!! (k - o)%nat else w !!! k.
Proof.
  intros Hb. unfold splice. rewrite !list_lookup_total_alt. case_decide.
  - rewrite lookup_app_r; rewrite length_take, Nat.min_l by lia; [|lia]. by rewrite lookup_app_l by lia.
  - destruct (decide (k < o)%nat); [rewrite lookup_app_l by (rewrite length_take; lia); by rewrite lookup_take_lt|].
    rewrite lookup_app_r; rewrite length_take, Nat.min_l by lia; [|lia]. rewrite lookup_app_r by lia. rewrite lookup_drop. do 2 f_equal. lia.
Qed.

Lemma write_piece {sb g v i} off m tot bs j : file_wf sb g v i → 0 <= off → 0 < m → off mod BSIZE + m <= BSIZE → off + m <= MAXFILE * BSIZE →
  saddr v i (off / BSIZE) ≠ 0 → 0 <= tot → tot + m <= Z.of_nat (length bs) → 0 <= j < MAXFILE * BSIZE →
  let a := saddr v i (off / BSIZE) in
  cbyte (bupd v a (splice (v a) (Z.to_nat (off mod BSIZE)) (take (Z.to_nat m) (drop (Z.to_nat tot) bs)))) i j =
  if decide (off <= j < off + m) then bs !!! Z.to_nat (tot + (j - off)) else cbyte v i j.
Proof.
  intros W Ho Hm Hr Hmax Hn Ht Hb Hj a. assert (0 <= off mod BSIZE < BSIZE) as Hmod by (by apply Z.mod_pos_bound).
  assert (0 <= off / BSIZE < MAXFILE) as Hbn by (change BSIZE with 1024 in *; zdiv).
  destruct (fw_own _ _ _ _ W (off / BSIZE)) as [(_ & _ & _ & Hlen & _) _]; [lia|done|].
  assert (length (take (Z.to_nat m) (drop (Z.to_nat tot) bs)) = Z.to_nat m) as Hl by (rewrite length_take, length_drop; lia).
  unfold a. rewrite (write_bytes W Hbn Hn) by done. change BSIZE with 1024 in *. change (Z.to_nat 1024) with 1024%nat in Hlen.
  assert (0 <= j mod 1024 < 1024) by (by apply Z.mod_pos_bound).
  destruct (decide (j / 1024 = off / 1024)) as [E|E].
  - rewrite splice_lookup by (rewrite Hl, Hlen; lia). rewrite Hl.
    destruct (decide (off <= j < off + m)) as [Hin|Hout].
    + rewrite decide_True by (clear Hlen; zdiv). rewrite !list_lookup_total_alt, lookup_take_lt, lookup_drop by (clear Hlen; zdiv).
      f_equal. f_equal. clear Hlen; zdiv.
    + rewrite decide_False by (clear Hlen; zdiv). unfold cbyte. change BSIZE with 1024. rewrite E. by rewrite (proj2 (Z.eqb_neq _ _) Hn).
  - rewrite decide_False; [done|]. clear Hlen. zdiv.
Qed.

(** ** [writei] *)
Section writei.
Context {D U : Type} `{DiskSpec D} `{UserMemSpec U} {c : ctx} {d : Z}.
Context (Ho : hart_ok (c_hart c)) (Hl : LkLog ∉ h_held (c_hart c)).
Abbreviation fst' := (fstate D U).
Abbreviation flog := (flogged (c := c) (d := d)).
Abbreviation after' := (after (c := c) (d := d)).

(** The blocks of the file that a write of [n] bytes at [off] touches. *)
Definition span (off n : Z) : Z := (off + n + BSIZE - 1) / BSIZE - off / BSIZE.

(** The contents after [bs] was written at [off]. *)
Definition overwritten (bs : list Z) (off : Z) (v : Z → block) (i : inode) (v' : Z → block) (i' : inode) : Prop :=
  ∀ j, 0 <= j < MAXFILE * BSIZE → cbyte v' i' j = if decide (off <= j < off + Z.of_nat (length bs)) then bs !!! Z.to_nat (j - off) else cbyte v i j.

Section loop.
Context {sb : superblock} {ip : nat} {from : source} {bs : list Z} {dk : Z → block} {tr : list (Z * block)}.
Context {lo N : Z} {g0 : log} {v0 : Z → block} {i0 : inode} (W0 : log_wf d g0) (R0 : room (N + 6) g0) (Hlo : 0 <= lo).

(** Room for the next block, by the count of the blocks logged so far. *)
Lemma grows_room hi g v i k (s : fst') : grows sb lo hi g0 v0 i0 g v i → lo <= hi → flog ∅ v dk tr g s →
  hi - lo + k + 1 + (if indirect i =? 0 then 0 else 1) <= N + 6 → room k g.
Proof.
  intros G Hh (a & _ & T & _) Hk. pose proof (grows_count W0 (tx_wf _ _ _ _ T) (tx_nodup _ _ _ _ T) G Hh) as Hc.
  destruct (gr_same _ _ _ _ _ _ _ _ _ G) as (E1 & _ & E3 & _). destruct R0 as (R1 & R2 & R3). unfold room. rewrite E1, E3. lia.
Qed.

(** The state of the loop of [writei] with [tot] bytes written, from [v] and [i]. *)
Definition loop_post (off n tot : Z) (v : Z → block) (i : inode) (s : fst') (r : Z * Z) (s' : fst') : Prop :=
  ∃ v' g' i' hi, after' ip ∅ v' dk tr g' i' s s' ∧ grows sb lo hi g0 v0 i0 g' v' i' ∧ lo <= hi <= lo + N ∧
    (∀ k, 0 <= k <= MAXFILE → saddr v i k ≠ 0 → saddr v' i' k = saddr v i k) ∧
    (∀ k, off / BSIZE <= k → k * BSIZE < r.2 → tot < r.1 → saddr v' i' k ≠ 0) ∧
    tot <= r.1 <= n ∧ r.2 = off + (r.1 - tot) ∧ (r.1 < n → ∀ z, 0 <= z < sb_size sb → used sb v' z = true) ∧
    overwritten (take (Z.to_nat (r.1 - tot)) (drop (Z.to_nat tot) bs)) off v i v' i'.

Lemma overwritten_app bs1 bs2 off v i v1 i1 v2 i2 : overwritten bs1 off v i v1 i1 →
  overwritten bs2 (off + Z.of_nat (length bs1)) v1 i1 v2 i2 → overwritten (bs1 ++ bs2) off v i v2 i2.
Proof.
  clear. intros C1 C2 j Hj. rewrite C2, C1 by done. rewrite length_app.
  destruct (decide (off <= j < off + Z.of_nat (length bs1 + length bs2))) as [Hin|Hout].
  - destruct (decide (j < off + Z.of_nat (length bs1))).
    + rewrite decide_False, decide_True by lia. by rewrite !list_lookup_total_alt, lookup_app_l by lia.
    + rewrite decide_True by lia. rewrite !list_lookup_total_alt, lookup_app_r by lia. do 2 f_equal. lia.
  - by rewrite !decide_False by lia.
Qed.

Lemma overwritten_nil off v i : overwritten [] off v i v i.
Proof. clear. intros j Hj. rewrite decide_False; [done|]. simpl. lia. Qed.

Lemma loop_stop off n tot v g i hi (s : fst') : fs_inode s !!! ip = i → (ip < length (fs_inode s))%nat → flog ∅ v dk tr g s →
  grows sb lo hi g0 v0 i0 g v i → lo <= hi <= lo + N → tot <= n → (tot < n → ∀ z, 0 <= z < sb_size sb → used sb v z = true) →
  loop_post off n tot v i s (tot, off) s.
Proof.
  clear. intros Hi Hip HL G Hh Ht Hz. exists v, g, i, hi. simpl. rewrite Z.sub_diag. split_and!; try done || lia.
  - eapply now_after; [done|done|]. by apply now_out, now_refl.
  - apply overwritten_nil.
Qed.

(** The loop goes on after a piece of [m] bytes. *)
Lemma loop_next off n tot m v i s v1 g1 i1 s1 r s' : 0 <= tot → 0 < m → tot + m <= n → n <= Z.of_nat (length bs) → 0 <= off →
  off mod BSIZE + m <= BSIZE → off + m <= MAXFILE * BSIZE → (tot + m < n → off + m = (off / BSIZE + 1) * BSIZE) →
  after' ip ∅ v1 dk tr g1 i1 s s1 → overwritten (take (Z.to_nat m) (drop (Z.to_nat tot) bs)) off v i v1 i1 →
  (∀ k, 0 <= k <= MAXFILE → saddr v i k ≠ 0 → saddr v1 i1 k = saddr v i k) → saddr v1 i1 (off / BSIZE) ≠ 0 →
  loop_post (off + m) n (tot + m) v1 i1 s1 r s' → loop_post off n tot v i s r s'.
Proof.
  clear. intros Ht Hm Hn Hb Hof Hmod Hmax Hnext A1 C1 K1 Hx (v2 & g2 & i2 & hi & A2 & G2 & Hh & K2 & Hal & Hr & Hoff & Hz & C2).
  assert (0 <= off / BSIZE <= MAXFILE) as Hd by (change MAXFILE with 268 in *; change BSIZE with 1024 in *; zdiv).
  exists v2, g2, i2, hi. split_and!; [by eapply after_trans|done|lia|lia| | |lia..|done|].
  { intros k Hk Hn0. rewrite <-(K1 k Hk Hn0). apply K2; [done|]. by rewrite (K1 k Hk Hn0). }
  { intros k Hk Hlt _. destruct (decide (k = off / BSIZE)) as [->|Hne]; [rewrite K2; done|].
    assert (tot + m < r.1) by (change BSIZE with 1024 in *; zdiv).
    apply Hal; [rewrite Hnext, Z.div_mul by (lia || done); lia|done|done]. }
  replace (take (Z.to_nat (r.1 - tot)) (drop (Z.to_nat tot) bs)) with
    (take (Z.to_nat m) (drop (Z.to_nat tot) bs) ++ take (Z.to_nat (r.1 - (tot + m))) (drop (Z.to_nat (tot + m)) bs)).
  - eapply overwritten_app; [exact C1|]. rewrite length_take, length_drop, Nat.min_l, Z2Nat.id by lia. exact C2.
  - replace (Z.to_nat (r.1 - tot)) with (Z.to_nat m + Z.to_nat (r.1 - (tot + m)))%nat by lia. rewrite <-take_take_drop, drop_drop.
    do 2 f_equal. f_equal. lia.
Qed.

(** One piece of the write, in a block that is there. *)
Lemma write_one off m tot v g i (s : fst') {A} (e : nat → M fst' A) (k : M fst' A) (Q : A → fst' → Prop) :
  fs_inode s !!! ip = i → (ip < length (fs_inode s))%nat → u32 (i_dev i) = d → flog ∅ v dk tr g s → fs_ok sb g v → file_wf sb g v i →
  room 4 g → supplies from (fs_user s) bs → 0 <= off → 0 < m → off mod BSIZE + m <= BSIZE → off + m <= MAXFILE * BSIZE →
  saddr v i (off / BSIZE) ≠ 0 → 0 <= tot → tot + m <= Z.of_nat (length bs) →
  (∀ v' g' s', after' ip ∅ v' dk tr g' i s s' → grows sb (off / BSIZE) (off / BSIZE + 1) g v i g' v' i →
     overwritten (take (Z.to_nat m) (drop (Z.to_nat tot) bs)) off v i v' i → wp k Q s') →
  wp (bp <- fbread (i_dev i) (saddr v i (off / BSIZE)) ;;
      w <- fdata bp ;;
      let* '(rc, bs) :=
        match from with
        | FromAddr user a => zoom userL (either_copyin user (u64 (a + tot)) m)
        | FromLocal l => ret (0, take (Z.to_nat m) (drop (Z.to_nat tot) l))
        end in
      fstore bp (splice w (Z.to_nat (off mod BSIZE)) bs) ;;;
      if rc =? -1 then e bp else flog_write bp ;;; fbrelse bp ;;; k) Q s.
Proof.
  clear W0 R0 Hlo. intros Hi Hip Ed HL K W Hr Hsup Hof Hm Hmod Hmax Hn Ht Hb HQ.
  assert (0 <= off / BSIZE < MAXFILE) as Hbn by (change BSIZE with 1024 in *; zdiv).
  destruct (fw_own _ _ _ _ W (off / BSIZE)) as [(_ & _ & Hxh & Hxl & _) _]; [lia|done|]. pose proof (flogged_n _ _ _ _ _ _ HL) as Hn1.
  set (x := saddr v i (off / BSIZE)) in *. wp_step.
  eapply (wp_fbread _ _ x); [done|apply u32_id; destruct Hxh; lia|exact HL|done|done|eapply room_nbuf; [exact Hr|lia|done|rewrite map_size_empty; lia]|].
  intros b l2 L2. rewrite insert_empty in L2. wp_step. eapply wp_fdata; [exact L2|apply lookup_singleton_eq|].
  wp_step. eapply wp_mono; [by apply (fetch_run from bs tot m); [exact Hsup|lia..]|].
  intros r t [-> ->]. cbv beta iota zeta. simpl (0 =? -1). cbv iota. set (ps := take (Z.to_nat m) (drop (Z.to_nat tot) bs)).
  assert (length ps = Z.to_nat m) as Hps by (unfold ps; rewrite length_take, length_drop; lia).
  assert (length (splice (v x) (Z.to_nat (off mod BSIZE)) ps) = Z.to_nat BSIZE) as Hw.
  { rewrite splice_length; [done|]. rewrite Hps, Hxl. assert (0 <= off mod BSIZE) by (by apply Z.mod_pos_bound). lia. }
  eapply (wp_fwrite (c := c) (d := d)); [done|done|exact L2|apply lookup_singleton_eq|exact (room_log _ _ Hr ltac:(lia))|]. intros l3 L3.
  wp_step. eapply wp_fbrelse; [exact L3|apply lookup_singleton_eq|]. intros l4 L4. rewrite delete_singleton_eq in L4.
  eapply HQ.
  - exists l4, (fs_out s). split; [|exact L4]. rewrite list_insert_id; [by destruct s|]. rewrite <-Hi. by apply list_lookup_lookup_total_lt.
  - destruct HL as (ac & _ & T & _). apply (write_grows K W Hbn Hn Hw); [apply same_log_add|lia|].
    intros y [->|Hy]%(elem_blocks_add (tx_wf _ _ _ _ T)); [by right|by left|exact (room_log _ _ Hr ltac:(lia))].
  - intros j Hj. unfold x, ps. rewrite (write_piece off m tot bs j W) by done. fold ps. rewrite Hps, Z2Nat.id by lia.
    case_decide; [|done]. unfold ps. rewrite !list_lookup_total_alt, lookup_take_lt, lookup_drop by lia. do 2 f_equal. lia.
Qed.

Lemma writei_loop_run fuel : ∀ off n tot v g i hi s, fs_inode s !!! ip = i → (ip < length (fs_inode s))%nat → u32 (i_dev i) = d → fs_sb s = sb →
  flog ∅ v dk tr g s → grows sb lo hi g0 v0 i0 g v i → lo <= hi <= lo + N → (tot < n → hi = off / BSIZE) →
  (tot < n → off / BSIZE + span off (n - tot) <= lo + N) → supplies from (fs_user s) bs → 0 <= off → 0 <= tot <= n →
  n <= Z.of_nat (length bs) → off + (n - tot) <= MAXFILE * BSIZE → (tot < n → span off (n - tot) <= Z.of_nat fuel) →
  wp (writei_loop fuel ip from off n tot) (loop_post off n tot v i s) s.
Proof.
  induction fuel as [|fuel IH]; intros off n tot v g i hi s Hi Hip Ed Es HL G Hh Hhi HN Hsup Hof Ht Hb Hmax Hfuel.
  { assert (tot = n) as -> by (unfold span in Hfuel; change BSIZE with 1024 in *; zdiv). cbn [writei_loop]. wp_step. apply (loop_stop off n n v g i hi); try done || lia. }
  cbn [writei_loop]. destruct (Z.ltb_spec tot n) as [Hlt|Hge].
  2:{ assert (tot = n) as -> by lia. wp_step. apply (loop_stop off n n v g i hi); try done || lia. }
  specialize (Hhi Hlt). specialize (HN Hlt). specialize (Hfuel Hlt).
  set (m := Z.min (n - tot) (BSIZE - off mod BSIZE)).
  assert (0 <= off mod BSIZE < BSIZE) as Hmod by (by apply Z.mod_pos_bound). assert (0 < m) as Hm by (unfold m; lia).
  assert (0 <= off / BSIZE < MAXFILE) as Hbn by (change BSIZE with 1024 in *; zdiv).
  assert (1 <= span off (n - tot)) as Hspan by (unfold span; change BSIZE with 1024 in *; zdiv).
  wp_step. subst i. eapply wp_mono; [apply (bmap_alloc_run Ho Hl ip (off / BSIZE) sb v dk tr g s Hip Ed Es (gr_fs _ _ _ _ _ _ _ _ _ G) (gr_wf _ _ _ _ _ _ _ _ _ G) HL); [|done]|].
  { eapply grows_room; [exact G|lia|exact HL|]. destruct (_ =? 0); lia. }
  intros a s1 (v1 & g1 & i1 & A1 & G1 & C1 & -> & Hz).
  destruct (after_slot _ _ _ _ _ _ _ _ _ A1 Hip) as (E1 & Hip1 & Es1 & Eu1 & L1).
  assert (grows sb lo (off / BSIZE + 1) g0 v0 i0 g1 v1 i1) as G01.
  { eapply (fgrows_trans lo hi (off / BSIZE)); [lia|lia|lia|lia|exact G|exact G1]. }
  destruct (Z.eqb_spec (saddr v1 i1 (off / BSIZE)) 0) as [Ez|Hn].
  { wp_step. exists v1, g1, i1, (off / BSIZE + 1). simpl. rewrite Z.sub_diag. split_and!; try done || lia; [by apply G1|intros; by apply Hz|].
    intros j Hj. rewrite C1 by done. rewrite decide_False; [done|]. simpl. lia. }
  assert (i_dev i1 = i_dev (fs_inode s !!! ip)) as Edv by (by rewrite (gr_i _ _ _ _ _ _ _ _ _ G1)). rewrite <-Edv in Ed.
  assert (room 4 g1) as R1 by (eapply grows_room; [exact G01|lia|exact L1|destruct (_ =? 0); lia]).
  unfold getip. wp_step. apply wp_gets. rewrite E1. fold m. rewrite <-Eu1 in Hsup.
  eapply (write_one off m tot v1 g1 i1 s1 (λ bp, fbrelse bp ;;; ret (tot, off)));
    [done|done|done|exact L1|exact (gr_fs _ _ _ _ _ _ _ _ _ G1)|exact (gr_wf _ _ _ _ _ _ _ _ _ G1)|done|done|lia|lia|unfold m; lia|unfold m; lia|done|lia|unfold m; lia|].
  intros v2 g2 s2 A2 G2 C2. destruct (after_slot _ _ _ _ _ _ _ _ _ A2 Hip1) as (E2 & Hip2 & Es2 & Eu2 & L2).
  assert (tot + m < n → off + m = (off / BSIZE + 1) * BSIZE) as Hnext by (unfold m; change BSIZE with 1024 in *; intros; zdiv).
  assert (tot + m < n → (off + m) / BSIZE = off / BSIZE + 1 ∧ span (off + m) (n - (tot + m)) = span off (n - tot) - 1) as Hsp.
  { intros Hlt2. specialize (Hnext Hlt2). split; [by rewrite Hnext, Z.div_mul|]. unfold span.
    replace (off + m + (n - (tot + m))) with (off + (n - tot)) by lia. rewrite Hnext, Z.div_mul by done. lia. }
  eapply wp_mono; [apply (IH (off + m) n (tot + m) v2 g2 i1 (off / BSIZE + 1) s2); try done || lia|].
  - congruence.
  - eapply (fgrows_trans lo (off / BSIZE + 1) (off / BSIZE)); [lia|lia|lia|lia|exact G01|exact G2].
  - by rewrite Eu2.
  - intros r s' Hpost. eapply (loop_next off n tot m); [lia|lia|unfold m; lia|lia|lia|unfold m; lia|unfold m; lia|done| | | | |exact Hpost].
    + by eapply after_trans.
    + intros j Hj. rewrite C2 by done. by rewrite C1.
    + intros k Hk Hk0. rewrite <-(gr_keep _ _ _ _ _ _ _ _ _ G1 k Hk Hk0). apply (gr_keep _ _ _ _ _ _ _ _ _ G2); [done|]. by rewrite (gr_keep _ _ _ _ _ _ _ _ _ G1 k Hk Hk0).
    + rewrite (gr_keep _ _ _ _ _ _ _ _ _ G2); [done|lia|done].
Qed.
End loop.

Lemma span_nonneg off n : 0 <= off → 0 <= n → 0 <= span off n ∧ (0 < n → span off n <= n / BSIZE + 2).
Proof. clear. intros. unfold span. change BSIZE with 1024. zdiv. Qed.

(** What a write of [bs] at [off] did, when [r] bytes of it went through. *)
Record written (bs : list Z) (off r : Z) (sb : superblock) (g : log) (v : Z → block) (i : inode) (g' : log) (v' : Z → block) (i' : inode) : Prop := {
  wr_n : 0 <= r <= Z.of_nat (length bs);
  wr_full : r < Z.of_nat (length bs) → ∀ z, 0 <= z < sb_size sb → used sb v' z = true;
  wr_bytes : overwritten (take (Z.to_nat r) bs) off v i v' i';
  wr_inode : i' = i <| i_size := Z.max (i_size i) (off + r) |> <| i_addrs := i_addrs i' |>;
  wr_disk : v' (IBLOCK (i_inum i) sb) = store_dinode i' (v (IBLOCK (i_inum i) sb));
  wr_wf : file_wf sb g' v' i' ∧ fs_ok sb g' v';
  wr_frame : ∀ y, 0 <= y < sb_size sb → used sb v y = true → y ≠ sb_bmapstart sb → y ≠ IBLOCK (i_inum i) sb →
    (∀ k, 0 <= k <= MAXFILE → saddr v i k = y → y = 0) → v' y = v y;
  wr_only : ∀ z, 0 <= z < sb_size sb → used sb v' z = true → used sb v z = true ∨
    ∃ k, (off / BSIZE <= k < off / BSIZE + span off (Z.of_nat (length bs)) ∨ k = MAXFILE) ∧ z = saddr v' i' k;
  wr_keep : ∀ k, 0 <= k <= MAXFILE → saddr v i k ≠ 0 → saddr v' i' k = saddr v i k;
  wr_alloc : ∀ k, off / BSIZE <= k → k * BSIZE < off + r → 0 < r → saddr v' i' k ≠ 0;
  wr_same : same_log g g';
  wr_log : lg_n g' <= lg_n g + span off (Z.of_nat (length bs)) + 3;
}.

Lemma set_size_run ip v dk tr g i n (s s1 : fst') : (ip < length (fs_inode s))%nat → after' ip ∅ v dk tr g i s s1 →
  wp (when (i_size i <? n) (updip ip (λ j, j <| i_size := n |>))) (λ _ s2, after' ip ∅ v dk tr g (i <| i_size := Z.max (i_size i) n |>) s s2) s1.
Proof.
  intros Hip (l & o & -> & L). unfold when, updip. destruct (Z.ltb_spec (i_size i) n); wp_step.
  - exists l, o. split; [|done]. simpl.
    rewrite alter_insert by (by rewrite length_insert). rewrite list_insert_insert_eq, list_lookup_total_insert_eq by done.
    by rewrite Z.max_r by lia.
  - exists l, o. split; [|done]. rewrite Z.max_l by lia. by destruct i.
Qed.

(** The end of [writei]: the size and the inode on disk. *)
Lemma writei_end ip bs off r sb v dk tr g (s : fst') v1 g1 i1 hi s1 : let i := fs_inode s !!! ip in let n := Z.of_nat (length bs) in
  (ip < length (fs_inode s))%nat → u32 (i_dev i) = d → fs_sb s = sb → file_wf sb g v i → log_wf d g → room (span off n + 6) g →
  after' ip ∅ v1 dk tr g1 i1 s s1 → grows sb (off / BSIZE) hi g v i g1 v1 i1 → off / BSIZE <= hi <= off / BSIZE + span off n →
  0 <= r <= n → (r < n → ∀ z, 0 <= z < sb_size sb → used sb v1 z = true) → overwritten (take (Z.to_nat r) bs) off v i v1 i1 →
  (∀ k, off / BSIZE <= k → k * BSIZE < off + r → 0 < r → saddr v1 i1 k ≠ 0) →
  wp (j <- getip ip ;; when (i_size j <? off + r) (updip ip (λ j, j <| i_size := off + r |>)) ;;; iupdate ip ;;; ret r)
    (λ r' s', r' = r ∧ ∃ v' g' i', after' ip ∅ v' dk tr g' i' s s' ∧ written bs off r sb g v i g' v' i') s1.
Proof.
  intros i n Hip Ed Es W Wl Hr A1 G Hh Hrn Hz C Hal.
  destruct (after_slot _ _ _ _ _ _ _ _ _ A1 Hip) as (E1 & _ & _ & _ & L1).
  assert (i_size i1 = i_size i ∧ i_inum i1 = i_inum i ∧ i_dev i1 = i_dev i) as (Esz & Ein & Edv) by (by rewrite (gr_i _ _ _ _ _ _ _ _ _ G)).
  assert (room 4 g1) as R1 by (eapply (grows_room Wl Hr); [exact G|lia|exact L1|destruct (_ =? 0); lia]).
  unfold getip. wp_step. apply wp_gets. rewrite E1. wp_step. eapply wp_mono; [by apply set_size_run|]. intros ? s2 A2.
  destruct (after_slot _ _ _ _ _ _ _ _ _ A2 Hip) as (E2 & _ & Es2 & _ & L2). set (i2 := i1 <| i_size := _ |>) in *.
  pose proof (gr_wf _ _ _ _ _ _ _ _ _ G) as W1. pose proof (gr_fs _ _ _ _ _ _ _ _ _ G) as K1.
  set (ib := IBLOCK (i_inum i1) sb). assert (iblock s2 ip = ib) as Eib by (unfold iblock; by rewrite E2, Es2, Es).
  assert (IBLOCK (i_inum i) sb = ib) as Ei by (unfold ib; by rewrite Ein).
  pose proof (fw_ino _ _ _ _ W1) as (_ & _ & Hih & Hil & _). fold ib in Hih, Hil.
  wp_step. eapply wp_mono; [apply (iupdate_run (d := d) Ho Hl ip v1 dk tr g1 s2); [by rewrite E2; simpl; rewrite Edv|done|by rewrite Eib|by apply (room_le _ 4)]|].
  rewrite E2, Eib. intros [] s3 N. wp_step. split; [done|].
  pose proof (fw_ino _ _ _ _ W) as (Hjr & Hju & _ & _ & Hjb).
  assert (v1 ib = v ib) as Ev.
  { rewrite <-Ei. apply (gr_frame _ _ _ _ _ _ _ _ _ G); [done..|]. intros k Hk E. destruct (decide (saddr v i k = 0)); [congruence|].
    by apply (fw_own _ _ _ _ W k) in E. }
  destruct (add_block_counts ib g1) as (B1 & B2 & B3 & _). set (w := store_dinode i2 (v1 ib)) in *.
  assert (length w = Z.to_nat BSIZE) as Hw by (by apply length_store_dinode).
  destruct (inode_ok K1 W1 Hw (i' := i2) eq_refl eq_refl (add_block ib g1) B2 B3) as (W2 & K2 & Eu). fold ib in W2, K2, Eu.
  exists (bupd v1 ib w), (add_block ib g1), i2. split; [|split]; rewrite ?Ei; try done.
  - eapply after_trans; [exact A2|]. eapply now_after; [exact E2| |by apply now_out]. destruct A2 as (? & ? & -> & _). simpl. by rewrite length_insert.
  - intros Hlt z Hzr. rewrite Eu by done. by apply Hz.
  - intros j Hj. rewrite (inode_bytes W1 (i' := i2) eq_refl) by done. by apply C.
  - unfold i2. rewrite Esz. by rewrite (gr_i _ _ _ _ _ _ _ _ _ G).
  - unfold bupd, w. rewrite decide_True by done. by rewrite Ev.
  - intros y Hy Hyu Hyb Hyi Hown. unfold bupd. rewrite decide_False by done. by apply (gr_frame _ _ _ _ _ _ _ _ _ G).
  - intros z Hzr. rewrite Eu by done. intros Hzu. destruct (gr_only _ _ _ _ _ _ _ _ _ G z Hzr Hzu) as [|(k & Hk & -> & _)]; [by left|].
    right. exists k. rewrite (inode_saddr W1 (i' := i2) eq_refl). split; [fold n; lia|done].
  - intros k. rewrite (inode_saddr W1 (i' := i2) eq_refl). apply (gr_keep _ _ _ _ _ _ _ _ _ G).
  - intros k. rewrite (inode_saddr W1 (i' := i2) eq_refl). apply Hal.
  - eapply same_log_trans; [apply (gr_same _ _ _ _ _ _ _ _ _ G)|apply same_log_add].
  - destruct L1 as (ac & _ & T & _). pose proof (grows_count Wl (tx_wf _ _ _ _ T) (tx_nodup _ _ _ _ T) G ltac:(lia)) as Hc. fold n. destruct (indirect i1 =? 0); lia.
Qed.

Lemma writei_run ip from bs off v dk tr g (s : fst') : let i := fs_inode s !!! ip in let n := Z.of_nat (length bs) in
  (ip < length (fs_inode s))%nat → u32 (i_dev i) = d → fs_ok (fs_sb s) g v → file_wf (fs_sb s) g v i → flog ∅ v dk tr g s →
  room (span off n + 6) g → 0 <= off <= i_size i → off + n <= MAXFILE * BSIZE → supplies from (fs_user s) bs →
  wp (writei ip from off n) (λ r s', ∃ v' g' i', after' ip ∅ v' dk tr g' i' s s' ∧ written bs off r (fs_sb s) g v i g' v' i') s.
Proof.
  intros i n Hip Ed K W HL Hr Hof Hn Hsup. unfold writei, getip. assert (MAXFILE * BSIZE = 274432) as EM by done.
  wp_step. apply wp_gets. fold i. rewrite (proj2 (Z.ltb_ge _ _)), (proj2 (Z.ltb_ge (u32 _) _)), (proj2 (Z.ltb_ge (MAXFILE * BSIZE) _)) by (rewrite ?u32_id; lia).
  cbn [orb]. wp_step. pose proof HL as (ac & _ & T & _). destruct (span_nonneg off n ltac:(lia) ltac:(lia)) as [S1 S2].
  assert (0 <= off / BSIZE) as Hlo by (apply Z.div_pos; [lia|done]).
  eapply wp_mono; [apply (writei_loop_run (sb := fs_sb s) (dk := dk) (tr := tr) (N := span off n) (bs := bs) (v0 := v) (i0 := i) (tx_wf _ _ _ _ T) Hr Hlo
    (S (Z.to_nat (n / BSIZE + 2))) off n 0 v g i (off / BSIZE) s); rewrite ?Z.sub_0_r; try done || lia|]; [by apply fgrows_refl|].
  intros [r o] s1 (v1 & g1 & i1 & hi & A1 & G & Hh & _ & Hal & Hr1 & Ho1 & Hz & C). simpl in *. rewrite Z.sub_0_r in *. subst o.
  cbv beta iota. eapply wp_mono; [apply (writei_end ip bs off r (fs_sb s) v dk tr g s v1 g1 i1 hi s1); try done; by apply T|].
  intros r' s' (-> & ?). done.
Qed.

(** C9: [writei] writes.  When the offset is within the file and the end within
    the largest file, it stores the bytes of the caller in the file and nothing
    else: the contents are the old ones with the first [r] bytes of the caller's
    over them from [off], in the blocks that the file has and in new ones,
    direct and indirect; the size and the inode on disk are brought up to date,
    every block of another file keeps its contents, the blocks newly in use are
    the ones that the file got, and the result [r] is short only when every block
    of the disk is in use.  Otherwise it returns -1 and
    changes nothing.  It takes at most three blocks of the log more than the
    blocks of the file that it touches. *)
Theorem writei_writes ip from bs off v dk tr g (s : fst') : let i := fs_inode s !!! ip in let n := Z.of_nat (length bs) in
  (ip < length (fs_inode s))%nat → u32 (i_dev i) = d → fs_ok (fs_sb s) g v → file_wf (fs_sb s) g v i → flog ∅ v dk tr g s →
  room (span off n + 6) g → 0 <= off < 2 ^ 32 → n < 2 ^ 32 → supplies from (fs_user s) bs →
  if decide (off <= i_size i ∧ off + n <= MAXFILE * BSIZE) then
    wp (writei ip from off n) (λ r s', ∃ v' g' i', after' ip ∅ v' dk tr g' i' s s' ∧ written bs off r (fs_sb s) g v i g' v' i') s
  else writei ip from off n s = (Ret (-1), s).
Proof.
  intros i n Hip Ed K W HL Hr Hof Hn Hsup. case_decide as Hd; [destruct Hd; apply writei_run; try done; split; [lia|done]|].
  assert (u32 (off + n) < off ↔ 2 ^ 32 <= off + n) as Hu by (unfold u32; zdiv). assert (MAXFILE * BSIZE = 274432) as EM by done.
  unfold writei, bind at 1, getip, gets. fold i.
  assert ((i_size i <? off) || (u32 (off + n) <? off) = true ∨ (MAXFILE * BSIZE <? off + n) = true) as [-> | ->].
  - rewrite orb_true_iff, !Z.ltb_lt. lia.
  - done.
  - by destruct (_ || _).
Qed.
End writei.

(** An empty file on the demo disk. *)
Module WriteDemo.

Definition empty5 : inode := Inode 1 5 1 (SleepLock 0 0) 1 T_FILE 0 0 1 0 (replicate 13 0).

Lemma saddr_empty v k : 0 <= k <= MAXFILE → saddr v empty5 k = 0.
Proof.
  intros Hk. unfold saddr. change (indirect empty5) with 0. rewrite Z.eqb_refl. destruct (Z.ltb_spec k NDIRECT) as [Hd|_].
  - change (i_addrs empty5) with (replicate 13 0). apply lookup_total_replicate_2. change NDIRECT with 12 in Hd. lia.
  - by destruct (k =? MAXFILE).
Qed.

Lemma disk_ok : fs_ok FsDemo.sb0 FsDemo.g1 FsDemo.v0.
Proof. split; [exact FsDemo.bitmap0|reflexivity|vm_compute; split; [reflexivity|discriminate]]. Qed.

Lemma empty_wf : file_wf FsDemo.sb0 FsDemo.g1 FsDemo.v0 empty5.
Proof.
  split; [reflexivity| | |].
  - intros k Hk. by rewrite saddr_empty.
  - intros k k' Hk _. by rewrite saddr_empty.
  - split_and!; [vm_compute; discriminate|reflexivity|reflexivity|split; vm_compute; intuition discriminate|reflexivity|discriminate].
Qed.
End WriteDemo.

(** Five bytes written to an empty file: the disk has free blocks, so that all of them are. *)
Lemma writei_writes_witness : ∃ s : fstate RamDisk.t FlatUser.t,
  wp (writei 0 (FromLocal (bytes_of "hello")) 0 5) (λ r s', r = 5 ∧ i_size (fs_inode s' !!! 0%nat) = 5 ∧
    ∃ v dk tr g, flogged (c := LogDemo.c0) (d := 1) ∅ v dk tr g s' ∧ cbyte v (fs_inode s' !!! 0%nat) 1 = 101) s.
Proof.
  destruct FsDemo.open as [l L]. destruct LogDemo.c0_ok as [Ho Hl]. exists (InodeDemo.with_slot WriteDemo.empty5 l).
  pose proof (writei_writes (d := 1) Ho Hl 0 (FromLocal (bytes_of "hello")) (bytes_of "hello") 0 FsDemo.v0 (λ _, zero_block) [] FsDemo.g1
    (InodeDemo.with_slot WriteDemo.empty5 l) ltac:(vm_compute; lia) eq_refl WriteDemo.disk_ok WriteDemo.empty_wf L) as Hw.
  specialize (Hw ltac:(unfold room; vm_compute; intuition discriminate) ltac:(lia) ltac:(vm_compute; reflexivity) ltac:(by exists [])).
  rewrite decide_True in Hw by (vm_compute; intuition discriminate).
  eapply wp_mono; [exact Hw|]. intros r s' (v' & g' & i' & A & [W1 W2 W3 W4 _ _ _ W8 _ _ _ _]).
  change (Z.of_nat (length (bytes_of "hello"))) with 5 in *.
  assert (∀ z, 46 <= z <= 48 → r < 5 → z = saddr v' i' 0 ∨ z = saddr v' i' MAXFILE) as Hnew.
  { intros z Hz Hr. assert (0 <= z < sb_size FsDemo.sb0) as Hzr by (simpl; lia). destruct (W8 z Hzr (W2 Hr z Hzr)) as [Hu|(k & [Hk| ->] & ->)]; [|left|by right].
    - change (used FsDemo.sb0 FsDemo.v0 z = true) in Hu. rewrite FsDemo.used0 in Hu by lia. lia.
    - change (0 / BSIZE) with 0 in Hk. change (span 0 5) with 1 in Hk. by replace k with 0 by lia. }
  assert (r = 5) as ->. { destruct (Z.eq_dec r 5); [done|]. pose proof (Hnew 46). pose proof (Hnew 47). pose proof (Hnew 48). lia. }
  destruct (after_slot _ _ _ _ _ _ _ _ _ A ltac:(vm_compute; lia)) as (E & _ & _ & _ & L'). rewrite E. split; [done|].
  split; [by rewrite W4|]. eexists _, _, _, _. split; [exact L'|]. rewrite W3 by (vm_compute; intuition discriminate). reflexivity.
Defined.
