(* ===== verification/FsDir.v ===== *)
(** * Directories

    A directory is a finite map from names to inode numbers: [dirlookup] looks a
    name up in it and [dirlink] adds one. *)
From S2P Require Import Prelude Machine Cstring Spinlock Sleeplock Blocks Bio Log LogSpec UserMem Printf Fs FsSpec FsInode FsFile FsWrite.

(** ** Names *)

(** The name that a string stands for: at most DIRSIZ bytes, up to a NUL. *)
Definition name_of (s : list Z) : list Z := cname (take (Z.to_nat DIRSIZ) s).

Lemma strncmp_cname k s t p q : strncmp_loop k (lmem s) (lmem t) (Z.of_nat p) (Z.of_nat q) = 0 ↔
  cname (take k (drop p s)) = cname (take k (drop q t)).
Proof.
  revert p q. induction k as [|k IH]; intros p q; [done|]. cbn [strncmp_loop].
  assert (∀ l n, lmem l (Z.of_nat n) = default 0 (l !! n)) as El by (intros; unfold lmem; by rewrite Nat2Z.id). rewrite !El.
  replace (Z.of_nat p + 1) with (Z.of_nat (S p)) by lia. replace (Z.of_nat q + 1) with (Z.of_nat (S q)) by lia. specialize (IH (S p) (S q)).
  assert (∀ (l : list Z) n, take (S k) (drop n l) = match l !! n with Some c => c :: take k (drop (S n) l) | None => [] end) as Et.
  { intros l n. destruct (l !! n) as [c|] eqn:E; [by rewrite (drop_S _ _ _ E)|]. by rewrite drop_ge by (by apply lookup_ge_None). }
  rewrite !Et. destruct (s !! p) as [a|], (t !! q) as [b|]; cbn [default cname]; unfold truth, id.
  - destruct (Z.eqb_spec a 0), (Z.eqb_spec b 0), (Z.eqb_spec a b); cbn [negb andb]; subst; try (done || lia).
    + split; [lia|done].
    + split; [lia|done].
    + rewrite IH. split; [by intros ->|by intros [= ?]].
    + split; [lia|]. by intros [= ?].
  - destruct (Z.eqb_spec a 0), (Z.eqb_spec a 0); simpl; subst; try done. split; [lia|done].
  - destruct (Z.eqb_spec b 0); simpl; subst; [done|]. split; [lia|done].
  - done.
Qed.

Lemma namecmp_name s t : (namecmp s t =? 0) = bool_decide (name_of s = name_of t).
Proof.
  pose proof (strncmp_cname (Z.to_nat DIRSIZ) s t 0 0) as E. rewrite !drop_0 in E. change (Z.of_nat 0) with 0 in E.
  unfold namecmp, strncmp, name_of. case_bool_decide; [apply Z.eqb_eq|apply Z.eqb_neq]; by rewrite E.
Qed.

(** [strncpy] copies the name. *)
Lemma zero_fill_before k m s x : x < s → zero_fill k m s x = m x.
Proof. revert m s. induction k as [|k IH]; intros m s Hx; cbn [zero_fill]; [done|]. rewrite IH by lia. apply wr_ne. lia. Qed.

Lemma strncpy_before k m s t x : x < s → strncpy_loop k m s t x = m x.
Proof.
  revert m s t. induction k as [|k IH]; intros m s t Hx; cbn [strncpy_loop]; [done|].
  destruct (truth (m t)); [rewrite IH by lia|rewrite zero_fill_before by lia]; apply wr_ne; lia.
Qed.

Lemma bytes_S m a n : bytes m a (S n) = m a :: bytes m (a + 1) n.
Proof.
  unfold bytes. cbn [seq fmap list_fmap]. rewrite Z.add_0_r. f_equal. rewrite <-fmap_S_seq, <-list_fmap_compose. apply list_fmap_ext.
  intros i x _. simpl. f_equal. lia.
Qed.

Lemma bytes_ext m m' a n : (∀ x, a <= x < a + Z.of_nat n → m x = m' x) → bytes m a n = bytes m' a n.
Proof. intros E. unfold bytes. apply list_fmap_ext. intros i x [-> Hi]%lookup_seq. apply E. lia. Qed.

Lemma strncpy_cname k m s t : s + Z.of_nat k <= t → cname (bytes (strncpy_loop k m s t) s k) = cname (bytes m t k).
Proof.
  revert m s t. induction k as [|k IH]; intros m s t Hst; [done|]. cbn [strncpy_loop]. rewrite !bytes_S. unfold truth.
  destruct (Z.eqb_spec (m t) 0) as [E|E]; simpl.
  - rewrite zero_fill_before, wr_eq by lia. by rewrite E.
  - rewrite strncpy_before, wr_eq, IH by lia. rewrite (proj2 (Z.eqb_neq _ _) E). do 2 f_equal. apply bytes_ext. intros x Hx. apply wr_ne. lia.
Qed.

(** ** Entries *)
Lemma cname_pad (l : list Z) k : cname ((λ i, default 0 (l !! i)) <$> seq 0 k) = cname (take k l).
Proof.
  revert l. induction k as [|k IH]; intros l; [done|]. cbn [seq fmap list_fmap]. rewrite <-fmap_S_seq, <-list_fmap_compose.
  destruct l as [|c l]; [done|]. cbn [take cname]. change (default 0 ((c :: l) !! O)) with c. destruct (c =? 0); [done|]. f_equal. apply (IH l).
Qed.

Section dirent.
Context (name : list Z) (inum : Z).

Lemma length_dirent : length (dirent name inum) = Z.to_nat DIRENT.
Proof. unfold dirent, put16. rewrite length_putn, length_app, length_replicate. unfold bytes. by rewrite length_fmap, length_seq. Qed.

Lemma dirent_inum : de_inum (dirent name inum) = u16 inum.
Proof. unfold de_inum, dirent. apply get16_put16. rewrite length_app, length_replicate. lia. Qed.

Lemma dirent_name : name_of (de_name (dirent name inum)) = name_of name.
Proof.
  assert (de_name (dirent name inum) = bytes (strncpy (λ a, if a <? DIRSIZ then 0 else lmem name (a - DIRSIZ)) 0 DIRSIZ DIRSIZ) 0 (Z.to_nat DIRSIZ)) as ->.
  { apply list_eq. intros j. unfold de_name, dirent, put16. rewrite lookup_drop, putn_lookup_out by lia.
    rewrite lookup_app_r by (rewrite length_replicate; lia). rewrite length_replicate. f_equal. lia. }
  unfold name_of, strncpy. rewrite take_ge by (unfold bytes; rewrite length_fmap, length_seq; done). rewrite strncpy_cname by (vm_compute; discriminate).
  by rewrite <-cname_pad.
Qed.
End dirent.

Lemma u16_id x : 0 <= x < 2 ^ 16 → u16 x = x.
Proof. intros. unfold u16. by apply Z.mod_small. Qed.

(** Entry [k] of the directory, all of them, and the one of a name. *)
Definition dent (v : Z → block) (i : inode) (k : Z) : list Z := cbyte v i <$> seqZ (k * DIRENT) DIRENT.
Definition dents (v : Z → block) (i : inode) : list (list Z) := dent v i <$> seqZ 0 (i_size i / DIRENT).
Definition named (nm de : list Z) : Prop := de_inum de ≠ 0 ∧ nm = name_of (de_name de).
#[global] Instance named_dec nm de : Decision (named nm de).
Proof. unfold named. apply _. Defined.

(** The inode number of a name. *)
Definition dir_get (v : Z → block) (i : inode) (nm : list Z) : option Z := (λ e, de_inum e.2) <$> list_find (named nm) (dents v i).

Record dir_ok (sb : superblock) (g : log) (v : Z → block) (i : inode) : Prop := {
  do_file : file_wf sb g v i;
  do_type : i_type i = T_DIR;
  do_size : 0 <= i_size i <= MAXFILE * BSIZE ∧ i_size i mod DIRENT = 0;
  do_alloc : ∀ bn, 0 <= bn → bn * BSIZE < i_size i → saddr v i bn ≠ 0;
}.

Lemma saddr_baddr v i bn : 0 <= bn < MAXFILE → saddr v i bn ≠ 0 → baddr v i bn = saddr v i bn ∧ (NDIRECT <= bn → indirect i ≠ 0).
Proof.
  intros Hb. unfold saddr, baddr. destruct (Z.ltb_spec bn NDIRECT); [intros; split; [done|lia]|].
  rewrite (proj2 (Z.eqb_neq bn MAXFILE)) by lia. destruct (Z.eqb_spec (indirect i) 0); [done|]. done.
Qed.

Section contents.
Context {sb : superblock} {g : log} {v : Z → block} {i : inode} (Hd : dir_ok sb g v i).

Lemma dir_file_ok : file_ok v g i (i_size i).
Proof.
  destruct Hd as [W _ [[S1 S2] _] A]. split; [done| |].
  - intros bn H0 Hb. assert (bn < MAXFILE) by (change BSIZE with 1024 in *; lia). pose proof (A bn H0 Hb) as Hn.
    destruct (saddr_baddr v i bn ltac:(lia) Hn) as [-> _]. split; [done|]. by destruct (fw_own _ _ _ _ W bn ltac:(lia) Hn) as [(_ & _ & ? & ? & _) _].
  - intros Hb. pose proof (A NDIRECT ltac:(done) Hb) as Hn. destruct (saddr_baddr v i NDIRECT ltac:(done) Hn) as [_ Hi].
    specialize (Hi (Z.le_refl _)). split; [done|]. by destruct (indirect_in_use W Hi) as [(_ & _ & ? & _) _].
Qed.

Lemma slice_dent k : 0 <= k < i_size i / DIRENT → slice v i (k * DIRENT) DIRENT = dent v i k.
Proof.
  intros Hk. unfold slice, dent. apply list_fmap_ext. intros j x [-> Hj]%lookup_seqZ. destruct Hd as [_ _ [[S1 S2] _] A].
  assert (0 <= (k * DIRENT + Z.of_nat j) / BSIZE < MAXFILE ∧ (k * DIRENT + Z.of_nat j) / BSIZE * BSIZE < i_size i) as [H1 H2].
  { change DIRENT with 16 in *. change BSIZE with 1024 in *. zdiv. }
  pose proof (A _ (proj1 H1) H2) as Hn. unfold fbyte, cbyte. rewrite (proj1 (saddr_baddr v i _ H1 Hn)). by rewrite (proj2 (Z.eqb_neq _ _) Hn).
Qed.

Lemma dents_lookup k de : dents v i !! k = Some de ↔ de = dent v i (Z.of_nat k) ∧ Z.of_nat k < i_size i / DIRENT.
Proof.
  clear. unfold dents. rewrite list_lookup_fmap. destruct (seqZ 0 (i_size i / DIRENT) !! k) as [z|] eqn:E; simpl.
  - apply lookup_seqZ in E as [-> Hk]. rewrite Z.add_0_l. split; [intros [= <-]|intros [-> _]]; done.
  - split; [done|]. intros [-> Hk]. exfalso. assert (seqZ 0 (i_size i / DIRENT) !! k = Some (Z.of_nat k)) as E' by (apply lookup_seqZ; lia). congruence.
Qed.

Lemma entries_dir : entries (i_size i) = (λ k, k * DIRENT) <$> seqZ 0 (i_size i / DIRENT).
Proof.
  destruct Hd as [_ _ [_ S] _]. unfold entries. do 2 f_equal. change DIRENT with 16 in *. zdiv.
Qed.
End contents.

(** ** Adding an entry *)
Section list_find.
Context {A : Type} (P : A → Prop) `{!∀ x, Decision (P x)}.

Lemma list_find_insert_neg l k x y : l !! k = Some y → ¬ P y → ¬ P x → snd <$> list_find P (<[k := x]> l) = snd <$> list_find P l.
Proof.
  revert k. induction l as [|z l IH]; intros [|k] Hk Hy Hx; try done.
  - injection Hk as ->. simpl. by rewrite !decide_False.
  - simpl in *. case_decide; [done|]. specialize (IH k Hk Hy Hx). destruct (list_find P (<[k := x]> l)), (list_find P l); simpl in *; congruence.
Qed.

Lemma list_find_insert_pos l k x : list_find P l = None → (k < length l)%nat → P x → snd <$> list_find P (<[k := x]> l) = Some x.
Proof.
  revert k. induction l as [|z l IH]; intros [|k] Hn Hk Hx; simpl in *; try lia; [by rewrite decide_True|].
  destruct (decide (P z)); [done|]. destruct (list_find P l) eqn:E; [done|]. specialize (IH k eq_refl ltac:(lia) Hx). by destruct (list_find P (<[k := x]> l)).
Qed.

Lemma list_find_snoc l x : snd <$> list_find P (l ++ [x]) = if decide (list_find P l = None) then (if decide (P x) then Some x else None) else snd <$> list_find P l.
Proof.
  destruct (list_find P l) as [[n y]|] eqn:E.
  - rewrite decide_False by done. by rewrite (list_find_app_l _ _ _ _ _ E).
  - rewrite decide_True by done. rewrite (list_find_app_r _ _ _ E). simpl. by case_decide.
Qed.
End list_find.

Lemma dir_get_snd v i nm : dir_get v i nm = de_inum <$> (snd <$> list_find (named nm) (dents v i)).
Proof. unfold dir_get. by destruct (list_find _ _) as [[]|]. Qed.

Section put.
Context {v v' : Z → block} {i i' : inode} {k : nat} {de : list Z} (Hlen : length de = Z.to_nat DIRENT).
Context (Hw : overwritten de (Z.of_nat k * DIRENT) v i v' i') (Hs : i_size i' = Z.max (i_size i) (Z.of_nat k * DIRENT + DIRENT)).
Context (Hm : 0 <= i_size i ∧ i_size i mod DIRENT = 0) (Hmax : i_size i + DIRENT <= MAXFILE * BSIZE) (Hk : Z.of_nat k <= i_size i / DIRENT).

Lemma dent_put m : 0 <= m → m * DIRENT + DIRENT <= MAXFILE * BSIZE → dent v' i' m = if decide (m = Z.of_nat k) then de else dent v i m.
Proof.
  clear Hs Hm Hmax Hk. intros Hm0 Hmx. case_decide as E.
  - subst m. apply list_eq_same_length with (Z.to_nat DIRENT); [done|unfold dent; by rewrite length_fmap, length_seqZ|].
    intros j x y Hj. unfold dent. rewrite list_lookup_fmap, (proj2 (lookup_seqZ _ _ _ (Z.of_nat k * DIRENT + Z.of_nat j))) by (split; [done|lia]).
    intros [= <-] Hy. rewrite Hw by lia. rewrite decide_True by (rewrite Hlen; lia).
    replace (Z.to_nat (Z.of_nat k * DIRENT + Z.of_nat j - Z.of_nat k * DIRENT)) with j by lia. by apply list_lookup_total_correct.
  - unfold dent. apply list_fmap_ext. intros j x [-> Hj]%lookup_seqZ. rewrite Hw by lia. rewrite decide_False; [done|].
    rewrite Hlen. change DIRENT with 16 in *. lia.
Qed.

Lemma dents_put_lookup m : dents v' i' !! m = if decide (m = k) then Some de else dents v i !! m.
Proof.
  assert (i_size i' / DIRENT = Z.max (i_size i / DIRENT) (Z.of_nat k + 1)) as En by (rewrite Hs; change DIRENT with 16 in *; zdiv).
  assert (∀ n, n < i_size i' / DIRENT → n * DIRENT + DIRENT <= MAXFILE * BSIZE) as Hin by (rewrite En; change DIRENT with 16 in *; intros; zdiv).
  apply option_eq. intros x. rewrite dents_lookup, En. case_decide as Em.
  - subst m. split.
    + intros [-> Hlt]. rewrite dent_put, decide_True by (done || lia || apply Hin; lia). done.
    + intros [= <-]. rewrite dent_put, decide_True by (done || lia || apply Hin; lia). split; [done|lia].
  - rewrite dents_lookup. split; intros [-> Hlt].
    + rewrite dent_put, decide_False by (done || lia || apply Hin; lia). split; [done|lia].
    + rewrite dent_put, decide_False by (done || lia || apply Hin; lia). split; [done|lia].
Qed.

Lemma length_dents (u : Z → block) (j : inode) : length (dents u j) = Z.to_nat (i_size j / DIRENT).
Proof. clear. unfold dents. by rewrite length_fmap, length_seqZ. Qed.

Lemma dents_put : dents v' i' = if decide (k < length (dents v i))%nat then <[k := de]> (dents v i) else dents v i ++ [de].
Proof.
  apply list_eq. intros m. rewrite dents_put_lookup. pose proof (length_dents v i) as El. destruct (decide (k < length (dents v i))%nat) as [Hlt|Hge].
  - destruct (decide (m = k)) as [->|Hne]; [by rewrite list_lookup_insert_eq|by rewrite list_lookup_insert_ne].
  - assert (k = length (dents v i)) as Ek by lia. destruct (decide (m = k)) as [->|Hne]; [by rewrite lookup_app_r, Ek, Nat.sub_diag by lia|].
    destruct (decide (m < k)%nat); [by rewrite lookup_app_l by lia|]. rewrite (lookup_ge_None_2 (dents v i)), lookup_ge_None_2; [done| |lia].
    rewrite length_app. simpl. lia.
Qed.

(** The new entry is in a free place, or after the last one. *)
Lemma dir_get_put nm0 nm : list_find (named nm0) (dents v i) = None → named nm0 de →
  (∀ e, dents v i !! k = Some e → de_inum e = 0) → dir_get v' i' nm = if decide (nm = nm0) then Some (de_inum de) else dir_get v i nm.
Proof.
  intros Hno Hde Hfree. rewrite !dir_get_snd, dents_put. pose proof Hde as [Hz Hnm].
  assert (nm ≠ nm0 → ¬ named nm de) as Hother by (intros Hne [_ E]; congruence).
  destruct (decide (k < length (dents v i))%nat) as [Hlt|Hge].
  - destruct (lookup_lt_is_Some_2 _ _ Hlt) as [e He]. assert (∀ q, ¬ named q e) as Hne by (intros q [Hq _]; by apply Hq, Hfree).
    destruct (decide (nm = nm0)) as [->|Hn]; [by rewrite (list_find_insert_pos (named nm0) _ k de)|].
    by rewrite (list_find_insert_neg (named nm) _ k de e) by auto.
  - rewrite list_find_snoc. destruct (decide (nm = nm0)) as [->|Hn]; [by rewrite !decide_True by done|].
    rewrite (decide_False (P := named nm de)) by auto. case_decide as E; [by rewrite E|done].
Qed.
End put.

Section ops.
Context {D U : Type} `{DiskSpec D} `{UserMemSpec U} {c : ctx} {d : Z}.
Context (Ho : hart_ok (c_hart c)) (Hl : LkLog ∉ h_held (c_hart c)) (Hit : LkItable ∉ h_held (c_hart c)).
Abbreviation fst' := (fstate D U).
Abbreviation flog := (flogged (c := c) (d := d)).
Abbreviation now' := (now (c := c) (d := d)).
Abbreviation after' := (after (c := c) (d := d)).

(** The directory in slot [dp], inside a transaction. *)
Record in_dir (dp : nat) (v dk : Z → block) tr (g : log) (s : fst') : Prop := {
  id_in : flog ∅ v dk tr g s;
  id_room : room 1 g;
  id_dir : dir_ok (fs_sb s) g v (fs_inode s !!! dp);
  id_device : u32 (i_dev (fs_inode s !!! dp)) = d;
}.

Section scan.
Context {dp : nat} {v dk : Z → block} {tr : list (Z * block)} {g : log} {s : fst'} (I : in_dir dp v dk tr g s).
Abbreviation i := (fs_inode s !!! dp).

Lemma readi_dent k (t : fst') : now' ∅ v dk tr g s t → 0 <= k < i_size i / DIRENT →
  wp (readi dp ToLocal (k * DIRENT) DIRENT) (λ r t', r = (DIRENT, dent v i k) ∧ now' ∅ v dk tr g s t') t.
Proof.
  intros (l & -> & L) Hk. destruct I as [_ Hr Hd Ed]. pose proof (dir_file_ok Hd) as Hf. destruct (do_size _ _ _ _ Hd) as [[S1 S2] Sm].
  assert (k * DIRENT + DIRENT <= i_size i) as Hin by (change DIRENT with 16 in *; zdiv). assert (MAXFILE * BSIZE = 274432) as EM by done.
  assert (0 <= k * DIRENT) as Hk0 by (change DIRENT with 16; lia).
  unfold readi, getip. wp_step. apply wp_gets. simpl (fs_inode _).
  rewrite (proj2 (Z.ltb_ge (i_size _) _)), (proj2 (Z.ltb_ge (u32 _) _)) by (rewrite ?u32_id; change DIRENT with 16 in *; lia). cbn [orb]. cbv zeta.
  rewrite (proj2 (Z.ltb_ge (i_size _) _)) by done. eapply wp_mono; [eapply (readi_loop_run (c := c) (d := d) _ dp ToLocal (k * DIRENT) DIRENT 0 [] _ v dk tr g)|].
  - done.
  - exact L.
  - done.
  - eapply file_ok_le; [exact Hf|lia].
  - done.
  - done.
  - done.
  - reflexivity.
  - done.
  - intros _. change BSIZE with 1024. change DIRENT with 16 in *. zdiv.
  - rewrite Z.sub_0_r, app_nil_l. simpl (fs_inode _). rewrite (slice_dent Hd k Hk). intros r t' (l' & u & -> & L' & [[-> Hu]|[_ (a & j & Ht & _)]]); [|done].
    simpl in Hu. subst u. split; [done|]. exists l'. split; [by destruct s|done].
Qed.

(** The loop over the entries, up to the first that satisfies [P]. *)
Lemma entries_run {R} msg (P : list Z → Prop) `{!∀ de, Decision (P de)} (k : Z → list Z → M fst' (option R)) (Q : option R → fst' → Prop) :
  (∀ off de t, ¬ P de → k off de t = (Ret None, t)) →
  (∀ t, now' ∅ v dk tr g s t → list_find P (dents v i) = None → Q None t) →
  (∀ n de t, now' ∅ v dk tr g s t → list_find P (dents v i) = Some (n, de) →
     wp (k (Z.of_nat n * DIRENT) de) (λ r t', is_Some r ∧ Q r t') t) →
  wp (for_each (entries (i_size i)) (λ off, let* '(r, de) := readi dp ToLocal off DIRENT in if negb (r =? DIRENT) then panic msg else k off de)) Q s.
Proof.
  intros Hskip Hnone Hfound. pose proof (id_dir _ _ _ _ _ _ I) as Hd. rewrite (entries_dir Hd).
  eapply (wp_for_each _ _ (λ pre t, now' ∅ v dk tr g s t ∧ ∀ m, (m < length pre)%nat → ¬ P (dent v i (Z.of_nat m)))).
  - split; [apply now_refl, I|]. simpl. lia.
  - intros pre off suf t E [Nt Hpre].
    assert (off = Z.of_nat (length pre) * DIRENT ∧ Z.of_nat (length pre) < i_size i / DIRENT) as [-> Hlt].
    { assert (((λ k, k * DIRENT) <$> seqZ 0 (i_size i / DIRENT)) !! length pre = Some off) as Hx by (by rewrite E, lookup_app_r, Nat.sub_diag by lia).
      rewrite list_lookup_fmap in Hx. apply fmap_Some in Hx as (z & Hx & ->). apply lookup_seqZ in Hx as [-> Hz]. rewrite Z.add_0_l. split; [done|lia]. }
    wp_step. eapply wp_mono; [by apply (readi_dent (Z.of_nat (length pre))); [exact Nt|lia]|]. intros r t' [-> Nt'].
    cbv beta iota. rewrite Z.eqb_refl. simpl (negb true). cbv iota. destruct (decide (P (dent v i (Z.of_nat (length pre))))) as [Hp|Hp].
    + assert (list_find P (dents v i) = Some (length pre, dent v i (Z.of_nat (length pre)))) as Hf.
      { apply list_find_Some. split_and!; [by apply dents_lookup|done|]. intros j y [-> _]%dents_lookup Hj. by apply Hpre. }
      eapply wp_mono; [by apply (Hfound _ _ _ Nt' Hf)|]. intros [r|] t2 [[x Hx] HQ]; done.
    + apply (wp_intro _ _ _ _ _ (Hskip _ _ _ Hp)). split; [done|]. intros m Hm. rewrite length_app in Hm. simpl in Hm.
      destruct (decide (m = length pre)) as [->|]; [done|]. apply Hpre. lia.
  - intros t [Nt Hall]. apply Hnone; [done|]. apply list_find_None, Forall_forall. intros de [m [-> Hm]%dents_lookup]%list_elem_of_lookup.
    apply Hall. rewrite length_fmap, length_seqZ. lia.
Qed.

Lemma now_itable (t : fst') : now' ∅ v dk tr g s t → itable_free t ∧ fs_inode t = fs_inode s.
Proof.
  clear Hl. intros (l & -> & (a & (_ & (E1 & E2 & E3) & _) & _)). split; [|done].
  unfold itable_free. change (lget ctx_f (s <| fs_l := l |>)) with (bc_ctx (ls_b l)). by rewrite E1.
Qed.
End scan.

(** [s'] has one reference more to inode [inum], in slot [ip]. *)
Definition got (ip : nat) (dev inum : Z) (v dk : Z → block) tr (g : log) (s s' : fst') : Prop :=
  ∃ l t, s' = s <| fs_l := l |> <| fs_inode := t |> ∧ logged c d ∅ v dk tr g l ∧ table_ok t ∧
    (∃ x, t !! ip = Some x ∧ key_is dev inum x) ∧ (∀ j, j ≠ ip → t !! j = fs_inode s !! j) ∧
    (∀ dev' inum', refs t dev' inum' = refs (fs_inode s) dev' inum' + if decide (dev' = dev ∧ inum' = inum) then 1 else 0).

Lemma iget_got dev inum v dk tr g (s t : fst') : table_ok (fs_inode s) → Exists (λ x, i_ref x = 0) (fs_inode s) → now' ∅ v dk tr g s t →
  wp (iget dev inum) (λ ip s', got ip dev inum v dk tr g s s') t.
Proof.
  intros T Hx N. destruct (now_itable (v := v) (s := s) t N) as [F E]. pose proof (iget_counts dev inum t F) as Hc. rewrite E in Hc. specialize (Hc T).
  unfold wp. destruct (iget dev inum t) as [[ip|msg|ch] s']; [|destruct Hc as (_ & _ & Hf)|done].
  - destruct N as (l & -> & L). destruct Hc as (t' & -> & Ht). exists l, t'. done.
  - apply Exists_exists in Hx as (x & Hin & Hz). rewrite Forall_forall in Hf. by apply (Hf x).
Qed.

(** The outcome of a lookup. *)
Definition looked_up (dp : nat) (name : list Z) (v dk : Z → block) tr (g : log) (s : fst') (r : option (nat * Z)) (s' : fst') : Prop :=
  let i := fs_inode s !!! dp in
  match list_find (named (name_of name)) (dents v i), r with
  | None, None => now' ∅ v dk tr g s s'
  | Some (n, de), Some (ip, off) => off = Z.of_nat n * DIRENT ∧ got ip (i_dev i) (de_inum de) v dk tr g s s'
  | _, _ => False
  end.

Lemma dirlookup_run dp name v dk tr g (s : fst') : let i := fs_inode s !!! dp in in_dir dp v dk tr g s →
  (dir_get v i (name_of name) ≠ None → table_ok (fs_inode s) ∧ Exists (λ x, i_ref x = 0) (fs_inode s)) →
  wp (dirlookup dp name) (looked_up dp name v dk tr g s) s.
Proof.
  intros i I T. unfold dirlookup, getip. wp_step. apply wp_gets. rewrite (do_type _ _ _ _ (id_dir _ _ _ _ _ _ I)). simpl (negb _). cbv iota. fold i.
  apply (entries_run I "dirlookup read" (named (name_of name)) (λ off de, if de_inum de =? 0 then ret None else
    if namecmp name (de_name de) =? 0 then ip <- iget (i_dev i) (de_inum de) ;; ret (Some (ip, off)) else ret None)).
  - intros off de t Hn. rewrite namecmp_name. destruct (Z.eqb_spec (de_inum de) 0); [done|]. case_bool_decide; [|done]. by destruct Hn.
  - intros t Nt E. unfold looked_up. by rewrite E.
  - intros n de t Nt Hf. unfold dir_get in T. fold i in Hf. rewrite Hf in T. destruct (T ltac:(done)) as [T1 T2].
    unfold looked_up. fold i. rewrite Hf. apply list_find_Some in Hf as (_ & [Hn0 Hnm] & _). rewrite namecmp_name, bool_decide_true by done.
    rewrite (proj2 (Z.eqb_neq _ _) Hn0). wp_step. eapply wp_mono; [by apply (iget_got (i_dev i) (de_inum de) v dk tr g s t)|].
    intros ip s' G. wp_step. done.
Qed.

(** C26: [dirlookup] finds a name.  It returns the first entry in use that has the
    name, compared as strings of at most DIRSIZ bytes: the offset of the entry and a
    reference to its inode, one more than there were, and the directory is not
    changed; NULL when no entry has the name.  On an inode that is not a directory it
    panics. *)
Theorem dirlookup_finds dp name v dk tr g (s : fst') :
  (i_type (fs_inode s !!! dp) ≠ T_DIR → dirlookup dp name s = (Panic "dirlookup not DIR", s)) ∧
  (in_dir dp v dk tr g s → table_ok (fs_inode s) → Exists (λ x, i_ref x = 0) (fs_inode s) →
   wp (dirlookup dp name) (looked_up dp name v dk tr g s) s).
Proof.
  split; [|intros I T Hx; by apply dirlookup_run].
  intros Ht. unfold dirlookup, bind, getip, gets. by rewrite (proj2 (Z.eqb_neq _ _) Ht).
Qed.

(** The place of a new entry. *)
Definition free_place (v : Z → block) (i : inode) : nat :=
  match list_find (λ de, de_inum de = 0) (dents v i) with Some (k, _) => k | None => length (dents v i) end.

Lemma free_place_ok v i : (free_place v i <= length (dents v i))%nat ∧ ∀ e, dents v i !! free_place v i = Some e → de_inum e = 0.
Proof.
  clear. unfold free_place. destruct (list_find _ _) as [[k x]|] eqn:E.
  - apply list_find_Some in E as (Hk & Hz & _). split; [apply Nat.lt_le_incl; by eapply lookup_lt_Some|]. intros e He. congruence.
  - split; [done|]. intros e He. apply lookup_lt_Some in He. lia.
Qed.

(** The directory after [writei] put an entry in it. *)
Lemma dir_ok_put sb v i v' i' g g' k de : dir_ok sb g v i → length de = Z.to_nat DIRENT → i_size i + DIRENT <= MAXFILE * BSIZE → Z.of_nat k <= i_size i / DIRENT →
  written de (Z.of_nat k * DIRENT) DIRENT sb g v i g' v' i' → dir_ok sb g' v' i'.
Proof.
  clear. intros [W Ht [S1 S2] A] Hlen Hmax Hk Wr.
  assert (i_size i' = Z.max (i_size i) (Z.of_nat k * DIRENT + DIRENT) ∧ i_type i' = i_type i) as [Es Et] by (by rewrite (wr_inode _ _ _ _ _ _ _ _ _ _ Wr)).
  assert (Z.of_nat k * DIRENT <= i_size i) as Hoff by (change DIRENT with 16 in *; zdiv).
  split; [apply Wr|by rewrite Et|rewrite Es; change DIRENT with 16 in *; split; [lia|zdiv]|].
  intros bn H0 Hb. destruct (Z.lt_ge_cases (bn * BSIZE) (i_size i)) as [Hlt|Hge].
  - pose proof (A bn H0 Hlt) as Hn. rewrite (wr_keep _ _ _ _ _ _ _ _ _ _ Wr); [done| |done]. change BSIZE with 1024 in *. lia.
  - apply (wr_alloc _ _ _ _ _ _ _ _ _ _ Wr); [|rewrite Es in Hb; lia|done]. change BSIZE with 1024 in *. zdiv.
Qed.

Lemma now_same held v dk tr g (s t : fst') : now' held v dk tr g s t → fs_inode t = fs_inode s ∧ fs_sb t = fs_sb s ∧ flog held v dk tr g t.
Proof. clear. by intros (l & -> & L). Qed.

Lemma in_dir_now dp v dk tr g (s t : fst') : in_dir dp v dk tr g s → now' ∅ v dk tr g s t → in_dir dp v dk tr g t.
Proof. clear. intros [_ Hr Hd Ed] (E1 & E2 & L)%now_same. split; [done|done|by rewrite E1, E2|by rewrite E1]. Qed.

(** The search for a free place. *)
Lemma free_scan dp v dk tr g (s : fst') : let i := fs_inode s !!! dp in in_dir dp v dk tr g s →
  wp (for_each (entries (i_size i)) (λ off, let* '(r, de) := readi dp ToLocal off DIRENT in
        if negb (r =? DIRENT) then panic "dirlink read" else ret (if de_inum de =? 0 then Some off else None)))
    (λ r s', default (Z.of_nat (length (entries (i_size i))) * DIRENT) r = Z.of_nat (free_place v i) * DIRENT ∧ now' ∅ v dk tr g s s') s.
Proof.
  intros i I. pose proof (entries_dir (id_dir _ _ _ _ _ _ I)) as Een. fold i in Een. apply (entries_run I "dirlink read" (λ de, de_inum de = 0) (λ off de, ret (if de_inum de =? 0 then Some off else None))).
  - intros off de t Hn. by rewrite (proj2 (Z.eqb_neq _ _) Hn).
  - intros t Nt E. fold i in E. unfold free_place. rewrite E. split; [|done]. simpl. rewrite length_dents, Een.
    by rewrite length_fmap, length_seqZ.
  - intros n de t Nt E. fold i in E. unfold free_place. rewrite E. apply list_find_Some in E as (_ & Ez & _). rewrite Ez. simpl (0 =? 0). cbv iota.
    wp_step. done.
Qed.

End ops.

(** A directory in block 40 of the demo disk, with the entry "a" for inode 7. *)
Module DirDemo.

Definition blk : block := dirent (bytes_of "a") 7 ++ replicate (Z.to_nat BSIZE - 16) 0.
Definition dir5 : inode := Inode 1 5 1 (SleepLock 0 0) 1 T_DIR 0 0 1 32 (40 :: replicate 12 0).
Definition v1 : Z → block := bupd FsDemo.v0 40 blk.
Definition g3 : log := add_block 40 FsDemo.g1.

Lemma dir_open : ∃ l : lstate RamDisk.t, logged LogDemo.c0 1 ∅ v1 (λ _, zero_block) [] g3 l.
Proof.
  destruct FsDemo.open as [l L]. destruct LogDemo.c0_ok as [Ho Hl].
  assert (wp (log_block (d := 1) 40 blk) (λ _ s, logged LogDemo.c0 1 ∅ v1 (λ _, zero_block) [] g3 s) l) as Hw.
  { eapply (log_block_run 40); [done|done|exact L|split; simpl; lia|unfold log_room; vm_compute; intuition discriminate|]. intros s2 L2. exact L2. }
  apply wp_reaches in Hw as (s & L'). by exists s.
Qed.

Lemma dir_disk_ok : fs_ok FsDemo.sb0 g3 v1.
Proof.
  eapply fs_ok_more; [exact WriteDemo.disk_ok| |intros z Hz; by rewrite (used_bmap FsDemo.sb0 FsDemo.g1 FsDemo.v0 FsDemo.v0 v1 z WriteDemo.disk_ok)|done].
  exact (bo_wf _ _ _ FsDemo.bitmap0 0 ltac:(simpl; lia)).
Qed.

Lemma saddr_dir k : 0 <= k <= MAXFILE → saddr v1 dir5 k = if decide (k = 0) then 40 else 0.
Proof.
  intros Hk. case_decide as E; [by subst|]. unfold saddr. change (indirect dir5) with 0. rewrite Z.eqb_refl. destruct (Z.ltb_spec k NDIRECT) as [Hd|_].
  - change (i_addrs dir5) with (40 :: replicate 12 0). replace (Z.to_nat k) with (S (Z.to_nat (k - 1))) by lia.
    change (replicate 12 0 !!! Z.to_nat (k - 1) = 0). apply lookup_total_replicate_2. change NDIRECT with 12 in Hd. lia.
  - by destruct (k =? MAXFILE).
Qed.

Lemma dir_wf : dir_ok FsDemo.sb0 g3 v1 dir5.
Proof.
  split; [split| | |].
  - reflexivity.
  - intros k Hk. rewrite saddr_dir by done. case_decide; [|done]. intros _. split; [|discriminate].
    split_and!; [discriminate|reflexivity|reflexivity|split; vm_compute; intuition discriminate|reflexivity|discriminate].
  - intros k k' Hk Hk'. rewrite !saddr_dir by done. repeat case_decide; congruence || lia.
  - split_and!; [vm_compute; discriminate|reflexivity|reflexivity|split; vm_compute; intuition discriminate|reflexivity|discriminate].
  - reflexivity.
  - split; [vm_compute; intuition discriminate|reflexivity].
  - intros bn H0 Hb. assert (bn = 0) as -> by (change (i_size dir5) with 32 in Hb; change BSIZE with 1024 in Hb; lia). discriminate.
Qed.

Lemma in_dir5 l : logged LogDemo.c0 1 ∅ v1 (λ _, zero_block) [] g3 l →
  in_dir (c := LogDemo.c0) (d := 1) 0 v1 (λ _, zero_block) [] g3 (InodeDemo.with_slot dir5 l).
Proof. intros L. split; [exact L|unfold room; vm_compute; intuition discriminate|exact dir_wf|reflexivity]. Qed.

Lemma table5 l : table_ok (fs_inode (InodeDemo.with_slot dir5 l)) ∧ Exists (λ x, i_ref x = 0) (fs_inode (InodeDemo.with_slot dir5 l)).
Proof.
  change (fs_inode (InodeDemo.with_slot dir5 l)) with (dir5 :: replicate 49 inhabitant). split; [split|by right; left].
  - intros [|k] x Hx; [injection Hx as <-; simpl; lia|]. apply lookup_replicate in Hx as [-> _]. simpl. lia.
  - intros [|k] [|k'] x y Hx Hy Hrx Hry; [done|apply lookup_replicate in Hy as [-> _]; simpl in Hry; lia|apply lookup_replicate in Hx as [-> _]; simpl in Hrx; lia..].
Qed.
End DirDemo.

(** The entry "a" is found, at offset 0. *)
Lemma dirlookup_finds_witness : ∃ s : fstate RamDisk.t FlatUser.t,
  wp (dirlookup 0 (bytes_of "a")) (λ r s', ∃ ip, r = Some (ip, 0) ∧ refs (fs_inode s') 1 7 = 1) s.
Proof.
  destruct DirDemo.dir_open as [l L]. destruct LogDemo.c0_ok as [Ho Hl]. destruct (DirDemo.table5 l) as [T Hx]. exists (InodeDemo.with_slot DirDemo.dir5 l).
  destruct (dirlookup_finds (d := 1) Ho (not_elem_of_nil LkItable) 0 (bytes_of "a") DirDemo.v1 (λ _, zero_block) [] DirDemo.g3 (InodeDemo.with_slot DirDemo.dir5 l)) as [_ Hd].
  eapply wp_mono; [exact (Hd (DirDemo.in_dir5 l L) T Hx)|]. unfold looked_up.
  assert (list_find (named (name_of (bytes_of "a"))) (dents DirDemo.v1 (fs_inode (InodeDemo.with_slot DirDemo.dir5 l) !!! 0%nat)) =
    Some (0%nat, dirent (bytes_of "a") 7)) as -> by (vm_compute; reflexivity).
  intros [[ip off]|] s' Hr; [|contradiction]. destruct Hr as (-> & l' & t & -> & _ & _ & _ & _ & R). exists ip. split; [reflexivity|].
  change (refs t 1 7 = 1). rewrite R. reflexivity.
Defined.

