(* ===== verification/Mkfs.v ===== *)
(** * Making the file system: [mkfs/mkfs.c]

    The program that builds the disk image from the files of its command line.
    The image is the list of its sectors, as long as the file is; a [struct
    dinode] and a [struct dirent] are their bytes, as the program copies them to
    and from the sectors.  The host is little-endian.  Whether a call of the host
    succeeds is an argument: [lseek_ok], [write_ok] and [read_ok] for the accesses
    to a sector of the image, and for each file of the command line what [open] and
    the calls of [read] give. *)
From S2P Require Import Prelude Machine Cstring Blocks Printf Fs.

Definition NINODES : Z := 200.

Definition nbitmap : Z := FSSIZE / (BSIZE * 8) + 1.
Definition ninodeblocks : Z := NINODES / IPB + 1.
Definition nlog : Z := LOGSIZE.
Definition nmeta : Z := 2 + nlog + ninodeblocks + nbitmap.
Definition nblocks : Z := FSSIZE - nmeta.

Record mkstate := MkState {
  m_img : list block;         (** the sectors of the file [fsfd] *)
  m_sb : superblock;
  m_freeinode : Z;
  m_freeblock : Z;
}.
#[global] Instance mkstate_eta : Eta mkstate := λ s, MkState (m_img s) (m_sb s) (m_freeinode s) (m_freeblock s).

Abbreviation mk := (M mkstate).

(** The bytes of [x] from the lowest, read as an integer of the host. *)
Definition xshort (x : Z) : Z := getn 2 [u8 x; u8 (Z.shiftr x 8)] 0.
Definition xint (x : Z) : Z := getn 4 [u8 x; u8 (Z.shiftr x 8); u8 (Z.shiftr x 16); u8 (Z.shiftr x 24)] 0.

Definition die {A} (s : string) : mk A := panic s.
Definition assert_ (b : bool) : mk unit := if b then ret tt else panic "assert".

(** ** [struct dinode], by its bytes *)
Definition zero_dinode : list Z := replicate (Z.to_nat DINODE) 0.
Definition set_type (din : list Z) (v : Z) : list Z := put16 din 0 v.
Definition set_nlink (din : list Z) (v : Z) : list Z := put16 din 6 v.
Definition din_size (din : list Z) : Z := get32 din 8.
Definition set_size (din : list Z) (v : Z) : list Z := put32 din 8 v.
Definition din_addr (din : list Z) (k : Z) : Z := get32 din (12 + 4 * Z.to_nat k).
Definition set_addr (din : list Z) (k v : Z) : list Z := put32 din (12 + 4 * Z.to_nat k) v.

Section mkfs.
Context (lseek_ok write_ok read_ok : Z → bool).

(** The sector at the offset [sec * BSIZE], of 32 bits. *)
Definition sector (sec : Z) : nat := Z.to_nat (u32 (sec * BSIZE) / BSIZE).

(** A write after the end of the file leaves zeroes before it. *)
Definition write_sector (n : nat) (buf : block) (img : list block) : list block :=
  if decide (n < length img)%nat then <[n := buf]> img else img ++ replicate (n - length img) zero_block ++ [buf].

Definition wsect (sec : Z) (buf : block) : mk unit :=
  if negb (lseek_ok sec) then die "lseek" else
  if negb (write_ok sec) then die "write" else
  modify (λ s, s <| m_img ::= write_sector (sector sec) buf |>).

(** A read at the end of the file or after it is short. *)
Definition rsect (sec : Z) : mk block :=
  if negb (lseek_ok sec) then die "lseek" else
  img <- gets m_img ;;
  match img !! sector sec with
  | Some buf => if negb (read_ok sec) then die "read" else ret buf
  | None => die "read"
  end.

Definition winode (inum : Z) (ip : list Z) : mk unit :=
  sb <- gets m_sb ;;
  let bn := IBLOCK inum sb in
  buf <- rsect bn ;;
  wsect bn (splice buf (dip inum) ip).

Definition rinode (inum : Z) : mk (list Z) :=
  sb <- gets m_sb ;;
  let bn := IBLOCK inum sb in
  buf <- rsect bn ;;
  ret (take (Z.to_nat DINODE) (drop (dip inum) buf)).

Definition ialloc (type : Z) : mk Z :=
  inum <- gets m_freeinode ;;
  modify (λ s, s <| m_freeinode := u32 (inum + 1) |>) ;;;
  let din := zero_dinode in
  let din := set_type din (xshort type) in
  let din := set_nlink din (xshort 1) in
  let din := set_size din (xint 0) in
  winode inum din ;;;
  ret inum.

(** [freeblock++] *)
Definition next_block : mk Z :=
  b <- gets m_freeblock ;;
  modify (λ s, s <| m_freeblock := u32 (b + 1) |>) ;;;
  ret b.

Definition balloc (used : Z) : mk unit :=
  assert_ (used <? BSIZE * 8) ;;;
  let buf := fold_left set_bit (seqZ 0 used) zero_block in
  sb <- gets m_sb ;;
  wsect (sb_bmapstart sb) buf.

(** The sector of block [fbn] of the file, allocated when it is not there yet, and the inode. *)
Definition iappend_block (din : list Z) (fbn : Z) : mk (Z * list Z) :=
  if fbn <? NDIRECT then
    din <- (if xint (din_addr din fbn) =? 0 then b <- next_block ;; ret (set_addr din fbn (xint b)) else ret din) ;;
    ret (xint (din_addr din fbn), din)
  else
    din <- (if xint (din_addr din NDIRECT) =? 0 then b <- next_block ;; ret (set_addr din NDIRECT (xint b)) else ret din) ;;
    indirect <- rsect (xint (din_addr din NDIRECT)) ;;
    let o := (4 * Z.to_nat (fbn - NDIRECT))%nat in
    indirect <- (if get32 indirect o =? 0 then
                   b <- next_block ;;
                   let indirect := put32 indirect o (xint b) in
                   wsect (xint (din_addr din NDIRECT)) indirect ;;;
                   ret indirect
                 else ret indirect) ;;
    ret (xint (get32 indirect o), din).

Fixpoint iappend_loop (fuel : nat) (din : list Z) (off : Z) (p : list Z) : mk (list Z * Z) :=
  match fuel with
  | O => ret (din, off)
  | S fuel =>
      let n := Z.of_nat (length p) in
      if 0 <? n then
        let fbn := off / BSIZE in
        assert_ (fbn <? MAXFILE) ;;;
        let* '(x, din) := iappend_block din fbn in
        let n1 := Z.min n ((fbn + 1) * BSIZE - off) in
        buf <- rsect x ;;
        wsect x (splice buf (Z.to_nat (off - fbn * BSIZE)) (take (Z.to_nat n1) p)) ;;;
        iappend_loop fuel din (u32 (off + n1)) (drop (Z.to_nat n1) p)
      else ret (din, off)
  end.

Definition iappend (inum : Z) (p : list Z) : mk unit :=
  din <- rinode inum ;;
  let off := xint (din_size din) in
  let* '(din, off) := iappend_loop (length p) din off p in
  winode inum (set_size din (xint off)).

(** ** [main] *)

(** The superblock that [main] fills in. *)
Definition superblock_of : superblock :=
  SuperBlock FSMAGIC (xint FSSIZE) (xint nblocks) (xint NINODES) (xint nlog) (xint 2) (xint (2 + nlog))
    (xint (2 + nlog + ninodeblocks)).

(** [memmove(buf, &sb, sizeof(sb))] into a cleared sector *)
Definition super_bytes (sb : superblock) : block :=
  let b := put32 zero_block 0 (sb_magic sb) in
  let b := put32 b 4 (sb_size sb) in
  let b := put32 b 8 (sb_nblocks sb) in
  let b := put32 b 12 (sb_ninodes sb) in
  let b := put32 b 16 (sb_nlog sb) in
  let b := put32 b 20 (sb_logstart sb) in
  let b := put32 b 24 (sb_inodestart sb) in
  put32 b 28 (sb_bmapstart sb).

(** [argv[i]] without the directory, and without a leading underscore *)
Definition strip (s : list Z) : list Z := if bool_decide (take 5 s = bytes_of "user/") then drop 5 s else s.
Definition shortname (s : list Z) : list Z := match s with 95 :: r => r | _ => s end.

(** A file of the command line: its name, and the results of the calls of [read], or [None] when [open] fails. *)
Abbreviation input := (list Z * option (list (list Z)))%type.

Definition add_file (rootino : Z) (f : input) : mk unit :=
  let name := strip f.1 in
  assert_ (bool_decide ((47 : Z) ∉ name)) ;;;
  match f.2 with
  | None => die "open"
  | Some reads =>
      let name := shortname name in
      inum <- ialloc T_FILE ;;
      iappend rootino (dirent name (xshort inum)) ;;;
      for_all reads (λ buf, iappend inum buf)
  end.

Definition main (argv : list input) : mk unit :=
  match argv with
  | [] => panic "Usage: mkfs fs.img files..."
  | (_, None) :: _ => die "open"
  | (_, Some _) :: files =>
      modify (λ s, s <| m_img := [] |>) ;;;
      modify (λ s, s <| m_sb := superblock_of |>) ;;;
      modify (λ s, s <| m_freeblock := nmeta |>) ;;;
      for_all (seqZ 0 FSSIZE) (λ i, wsect i zero_block) ;;;
      wsect 1 (super_bytes superblock_of) ;;;
      rootino <- ialloc T_DIR ;;
      assert_ (rootino =? ROOTINO) ;;;
      iappend rootino (dirent (bytes_of ".") (xshort rootino)) ;;;
      iappend rootino (dirent (bytes_of "..") (xshort rootino)) ;;;
      for_all files (add_file rootino) ;;;
      din <- rinode rootino ;;
      let off := xint (din_size din) in
      let off := u32 ((off / BSIZE + 1) * BSIZE) in
      winode rootino (set_size din (xint off)) ;;;
      b <- gets m_freeblock ;;
      balloc b
  end.
End mkfs.

(** The static data at the start. *)
Definition init_state : mkstate := MkState [] (SuperBlock 0 0 0 0 0 0 0 0) 1 0.
