(* ===== verification/MkfsSpec.v ===== *)
(** * The files of the image that [mkfs] makes

    [built]: the image holds given files, from inode 1 on, each with its own
    blocks.  [ialloc] of [mkfs/mkfs.c] adds an empty one and [iappend] appends bytes
    to one.

    While it runs the free map is not on the image yet.  [view] puts it there: the
    image with the bits of the blocks below [freeblock] set.  In that view
    [freeblock++] is an allocation, so that the lemmas on the files of the kernel apply. *)
From S2P Require Import Prelude Machine Cstring Sleeplock Blocks Bio Log Printf Fs FsSpec FsInode FsFile FsWrite FsDir Mkfs.

Abbreviation SB := superblock_of.

Lemma xint_id x : 0 <= x < 2 ^ 32 → xint x = x.
Proof.
  intros Hx. unfold xint. cbn [getn lookup_total list_lookup_total]. unfold u8. rewrite !Z.shiftr_div_pow2 by lia. zdiv.
Qed.

Lemma xshort_id x : 0 <= x < 2 ^ 16 → xshort x = x.
Proof.
  intros Hx. unfold xshort. cbn [getn lookup_total list_lookup_total]. unfold u8. rewrite !Z.shiftr_div_pow2 by lia. zdiv.
Qed.

Lemma sector_id x : 0 <= x < FSSIZE → sector x = Z.to_nat x.
Proof.
  intros Hx. change FSSIZE with 2000 in Hx. unfold sector. change BSIZE with 1024. rewrite u32_id by lia. by rewrite Z.div_mul.
Qed.

(** ** The free map *)
Definition bits (fb : Z) : block := fold_left set_bit (seqZ 0 fb) zero_block.

Lemma bits_succ fb : 0 <= fb → bits (fb + 1) = set_bit (bits fb) fb.
Proof.
  intros Hf. unfold bits. rewrite (seqZ_app 0 fb 1) by lia. rewrite fold_left_app, Z.add_0_l. done.
Qed.

Lemma bits_run (n : nat) : Z.of_nat n <= BPB → wf_block (bits (Z.of_nat n)) ∧
  ∀ z, 0 <= z < BPB → bit_clear (bits (Z.of_nat n)) z = negb (z <? Z.of_nat n).
Proof.
  induction n as [|n IH]; intros Hn.
  - split; [apply wf_zero_block|]. intros z Hz. rewrite (proj2 (Z.ltb_ge _ _)) by lia. unfold bit_clear, bits. cbn [seqZ Z.to_nat seq fmap list_fmap fold_left].
    change (fold_left set_bit (seqZ 0 (Z.of_nat 0)) zero_block) with zero_block. unfold zero_block.
    rewrite lookup_total_replicate_2; [done|]. unfold BPB in Hz. zdiv.
  - destruct IH as [W B]; [lia|]. replace (Z.of_nat (S n)) with (Z.of_nat n + 1) by lia. rewrite bits_succ by lia.
    split; [by apply wf_set_bit|]. intros z Hz. rewrite bit_clear_set by (done || lia). rewrite B by done.
    destruct (decide _); destruct (Z.ltb_spec z (Z.of_nat n)), (Z.ltb_spec z (Z.of_nat n + 1)); done || lia.
Qed.

Lemma wf_bits fb : 0 <= fb <= BPB → wf_block (bits fb).
Proof. intros Hf. rewrite <-(Z2Nat.id fb) by lia. apply bits_run. lia. Qed.

Lemma bit_bits fb z : 0 <= fb <= BPB → 0 <= z < BPB → bit_clear (bits fb) z = negb (z <? fb).
Proof. intros Hf. rewrite <-(Z2Nat.id fb) by lia. apply bits_run. lia. Qed.

(** ** Views that agree *)
Section ext.
Context {v v' : Z → block} (E : ∀ y, v y = v' y).

Lemma saddr_ext i k : saddr v i k = saddr v' i k.
Proof. unfold saddr. by rewrite E. Qed.

Lemma cbyte_ext i k : cbyte v i k = cbyte v' i k.
Proof. unfold cbyte. by rewrite saddr_ext, E. Qed.

Lemma view_used_ext sb z : used sb v z = used sb v' z.
Proof. unfold used. by rewrite E. Qed.

Lemma in_use_ext sb g x : in_use sb g v x → in_use sb g v' x.
Proof. unfold in_use. by rewrite view_used_ext, E. Qed.

Lemma file_wf_ext sb g i : file_wf sb g v i → file_wf sb g v' i.
Proof.
  intros [W1 W2 W3 W4]. split; [done| | |by apply in_use_ext]; intros k; [|intros k']; rewrite <-?saddr_ext; [|by apply W3].
  intros Hk Hn. destruct (W2 k Hk Hn). by split; [apply in_use_ext|].
Qed.

Lemma fs_ok_ext sb g : fs_ok sb g v → fs_ok sb g v'.
Proof.
  intros K. eapply fs_ok_more; [exact K| | |done]; [|intros; by rewrite <-view_used_ext].
  pose proof (fk_one _ _ _ K). rewrite <-E, <-(BBLOCK_one _ _ _ 0 K) by lia. apply (bo_wf _ _ _ (fk_map _ _ _ K)). lia.
Qed.

Lemma grows_ext sb lo hi g u i g' i' : grows sb lo hi g u i g' v i' → grows sb lo hi g u i g' v' i'.
Proof.
  intros [A1 A2 A3 A4 A5 A6 A0 A7 A8 A9]. split; try done.
  - by apply file_wf_ext.
  - by apply fs_ok_ext.
  - intros k. rewrite <-saddr_ext. apply A4.
  - intros k. rewrite <-saddr_ext. apply A5.
  - intros z. rewrite <-view_used_ext. apply A6.
  - intros z Hz. rewrite <-view_used_ext. intros Hu. destruct (A0 z Hz Hu) as [|(k & Hk)]; [by left|right; exists k]. by rewrite <-saddr_ext.
  - intros y. rewrite <-E. apply A7.
  - intros y Hy. destruct (A9 y Hy) as [|[|(k & Hk)]]; [by left|by right; left|right; right; exists k]. by rewrite <-saddr_ext.
Qed.

Lemma overwritten_ext bs off u i i' : overwritten bs off u i v i' → overwritten bs off u i v' i'.
Proof. intros C j Hj. rewrite <-cbyte_ext. by apply C. Qed.
End ext.

(** ** Inodes *)
Definition blank (j : Z) : inode := Inode 1 j 1 (SleepLock 0 0) 1 0 0 0 0 0 [].

(** The inode at offset [o] of [b]. *)
Definition inode_at (j : Z) (b : list Z) (o : nat) : inode :=
  (blank j) <| i_type := i16 (get16 b o) |> <| i_major := i16 (get16 b (o + 2)) |> <| i_minor := i16 (get16 b (o + 4)) |>
     <| i_nlink := i16 (get16 b (o + 6)) |> <| i_size := get32 b (o + 8) |>
     <| i_addrs := (λ k, get32 b (o + 12 + 4 * k)) <$> seq 0 NADDRS |>.

(** Inode [j] as [ilock] reads it from the disk. *)
Definition kino (v : Z → block) (j : Z) : inode := load_dinode (v (IBLOCK j SB)) (blank j).

Lemma kino_at v j : kino v j = inode_at j (v (IBLOCK j SB)) (dip j).
Proof. done. Qed.

Lemma getn_shift n (l l' : list Z) o o' : (∀ i, (i < n)%nat → l !! (o + i)%nat = l' !! (o' + i)%nat) → getn n l o = getn n l' o'.
Proof.
  revert o o'. induction n as [|n IH]; intros o o' E; cbn [getn]; [done|]. f_equal.
  - rewrite !list_lookup_total_alt. specialize (E O ltac:(lia)). by rewrite !Nat.add_0_r in E; rewrite E.
  - f_equal. apply IH. intros i Hi. specialize (E (S i) ltac:(lia)). by rewrite !Nat.add_succ_r in E.
Qed.

Lemma inode_at_ext j (b b' : list Z) o o' : (∀ i, (i < 64)%nat → b !! (o + i)%nat = b' !! (o' + i)%nat) → inode_at j b o = inode_at j b' o'.
Proof.
  intros E. assert (∀ n k, (k + n <= 64)%nat → getn n b (o + k) = getn n b' (o' + k)) as G.
  { intros n k Hk. apply getn_shift. intros i Hi. rewrite <-!Nat.add_assoc. apply E. lia. }
  pose proof (G 2%nat O ltac:(lia)) as G0. rewrite !Nat.add_0_r in G0.
  assert ((λ k, getn 4 b (o + 12 + 4 * k)) <$> seq 0 NADDRS = (λ k, getn 4 b' (o' + 12 + 4 * k)) <$> seq 0 NADDRS) as Ea.
  { apply list_fmap_ext. intros m x [-> Hm]%lookup_seq. unfold NADDRS in Hm. rewrite <-!Nat.add_assoc. apply G. lia. }
  unfold inode_at, get16, get32. by rewrite G0, !G, Ea by lia.
Qed.

Lemma inode_at_copy j (b : list Z) o : inode_at j (take 64 (drop o b)) 0 = inode_at j b o.
Proof. apply inode_at_ext. intros i Hi. by rewrite lookup_take_lt, lookup_drop by lia. Qed.

Section splice.
Context (b din : list Z) (o : nat) (Hd : length din = 64%nat) (Hb : (o + 64 <= length b)%nat).

Lemma inode_at_splice j : inode_at j (splice b o din) o = inode_at j din 0.
Proof.
  apply inode_at_ext. intros i Hi. unfold splice. rewrite lookup_app_r; rewrite length_take_le by lia; [|lia].
  rewrite lookup_app_l by lia. f_equal. lia.
Qed.

Lemma inode_at_splice_ne j o' : (o' + 64 <= o ∨ o + 64 <= o')%nat → inode_at j (splice b o din) o' = inode_at j b o'.
Proof.
  intros Ho. apply inode_at_ext. intros i Hi. unfold splice. rewrite Hd. destruct Ho.
  - rewrite lookup_app_l by (rewrite length_take_le; lia). by rewrite lookup_take_lt by lia.
  - rewrite lookup_app_r; rewrite length_take_le by lia; [|lia]. rewrite lookup_app_r; rewrite Hd; [|lia]. rewrite lookup_drop. f_equal. lia.
Qed.
End splice.

Lemma dip_bound j : (dip j + 64 <= Z.to_nat BSIZE)%nat.
Proof. unfold dip. change IPB with 16. change DINODE with 64. change BSIZE with 1024. assert (0 <= j mod 16 < 16) by (by apply Z.mod_pos_bound). lia. Qed.

Lemma dip_ne j j' : 0 <= j → 0 <= j' → j ≠ j' → IBLOCK j SB = IBLOCK j' SB → (dip j' + 64 <= dip j ∨ dip j + 64 <= dip j')%nat.
Proof. intros H1 H2 Hn. unfold IBLOCK, dip. change IPB with 16. change DINODE with 64. intros E. zdiv. Qed.

Section din.
Context (j : Z) (din : list Z) (Hd : length din = 64%nat).
Abbreviation i := (inode_at j din 0).

Lemma addrs_fmap : i_addrs i = (λ k, get32 din (12 + 4 * k)) <$> seq 0 NADDRS.
Proof. clear. done. Qed.

Lemma addrs_at k : (k < NADDRS)%nat → i_addrs i !!! k = get32 din (12 + 4 * k).
Proof. clear Hd. intros Hk. apply list_lookup_total_correct. rewrite addrs_fmap, list_lookup_fmap, lookup_seq_lt by done. done. Qed.

Lemma din_addr_at k : 0 <= k <= NDIRECT → din_addr din k = i_addrs i !!! Z.to_nat k.
Proof. clear Hd. intros Hk. rewrite addrs_at; [done|]. change NDIRECT with 12 in Hk. unfold NADDRS. lia. Qed.

Lemma set_addr_at k a : 0 <= k <= NDIRECT → 0 <= a < 2 ^ 32 → inode_at j (set_addr din k a) 0 = set_slot (i := i) (Z.to_nat k) a.
Proof.
  intros Hk Ha. change NDIRECT with 12 in Hk.
  assert ((λ m, get32 (set_addr din k a) (0 + 12 + 4 * m)) <$> seq 0 NADDRS = <[Z.to_nat k := a]> (i_addrs i)) as Ea.
  { apply list_eq_same_length with NADDRS; [rewrite length_insert; done|done|]. intros m x y Hm.
    rewrite list_lookup_fmap, lookup_seq_lt by done. intros [= <-]. unfold NADDRS in Hm. simpl (0 + 12)%nat. unfold set_addr.
    destruct (decide (m = Z.to_nat k)) as [->|Hne].
    - rewrite list_lookup_insert_eq by (change (length (i_addrs i)) with 13%nat; lia). rewrite get32_put32, u32_id by lia. congruence.
    - rewrite list_lookup_insert_ne by done. rewrite get32_put32_ne by lia. rewrite addrs_fmap, list_lookup_fmap, lookup_seq_lt by (unfold NADDRS; lia). simpl. congruence. }
  unfold inode_at at 1. rewrite Ea. unfold set_slot, set_addr, get16, get32, put32. rewrite !getn_putn_ne by lia. done.
Qed.

Lemma set_size_at n : 0 <= n < 2 ^ 32 → inode_at j (set_size din n) 0 = i <| i_size := n |>.
Proof.
  intros Hn. assert ((λ m, get32 (set_size din n) (0 + 12 + 4 * m)) <$> seq 0 NADDRS = i_addrs i) as Ea.
  { apply list_fmap_ext. intros m x _. unfold set_size. by rewrite get32_put32_ne by lia. }
  unfold inode_at at 1. rewrite Ea. unfold set_size. rewrite get32_put32, u32_id by lia. unfold get16, put32. by rewrite !getn_putn_ne by lia.
Qed.

Lemma length_set_addr k a : length (set_addr din k a) = 64%nat.
Proof. unfold set_addr, put32. by rewrite length_putn. Qed.
Lemma length_set_size n : length (set_size din n) = 64%nat.
Proof. unfold set_size, put32. by rewrite length_putn. Qed.
End din.

(** ** The state of [mkfs] *)

(** The image with the free map. *)
Definition view (s : mkstate) : Z → block := λ y, if decide (y = sb_bmapstart SB) then bits (m_freeblock s) else m_img s !!! Z.to_nat y.

(** All sectors are there, and those from [freeblock] are clear. *)
Record image_ok (s : mkstate) : Prop := {
  im_sb : m_sb s = SB;
  im_fb : nmeta <= m_freeblock s <= FSSIZE;
  im_len : length (m_img s) = Z.to_nat FSSIZE;
  im_blk : ∀ y, 0 <= y < FSSIZE → length (m_img s !!! Z.to_nat y) = Z.to_nat BSIZE;
  im_zero : ∀ y, m_freeblock s <= y < FSSIZE → m_img s !!! Z.to_nat y = zero_block;
}.

Section mkfs.
Context {lseek_ok write_ok read_ok : Z → bool}.
Context (Hls : ∀ x, 0 <= x < FSSIZE → lseek_ok x = true) (Hwr : ∀ x, 0 <= x < FSSIZE → write_ok x = true).
Context (Hrd : ∀ x, 0 <= x < FSSIZE → read_ok x = true).
Context {g : log} (Hgs : lg_start g = 2) (Hgn : lg_size g = nlog).
Abbreviation rsect' := (rsect lseek_ok read_ok).
Abbreviation wsect' := (wsect lseek_ok write_ok).

Lemma SB_size : sb_size SB = FSSIZE.
Proof. clear. done. Qed.
Lemma SB_bmap : sb_bmapstart SB = 45.
Proof. clear. done. Qed.
Lemma nmeta_val : nmeta = 46.
Proof. clear. done. Qed.
Lemma iblock_range j : 0 <= j < NINODES → 32 <= IBLOCK j SB < 45.
Proof. clear. intros Hj. unfold IBLOCK. change (sb_inodestart SB) with 32. change IPB with 16. change NINODES with 200 in Hj. zdiv. Qed.

Lemma wp_rsect x s (Q : block → mkstate → Prop) : image_ok s → 0 <= x < FSSIZE → Q (m_img s !!! Z.to_nat x) s → wp (rsect' x) Q s.
Proof.
  clear Hwr Hgs Hgn. intros I Hx HQ. unfold rsect. rewrite Hls by done. simpl (negb true). cbv iota. wp_step. apply wp_gets. rewrite sector_id by done.
  rewrite list_lookup_lookup_total_lt by (rewrite (im_len _ I); lia). rewrite Hrd by done. done.
Qed.

Lemma wp_wsect x w s (Q : unit → mkstate → Prop) : image_ok s → 0 <= x < FSSIZE →
  Q tt (s <| m_img ::= <[Z.to_nat x := w]> |>) → wp (wsect' x w) Q s.
Proof.
  clear Hrd Hgs Hgn. intros I Hx HQ. unfold wsect. rewrite Hls, Hwr by done. simpl (negb true). cbv iota. apply wp_modify.
  unfold write_sector. rewrite sector_id by done. destruct s as [img sb fi fb]. simpl in *. pose proof (im_len _ I) as Hl. simpl in Hl.
  rewrite decide_True by lia. done.
Qed.

Lemma view_write x w s : image_ok s → 0 < x < FSSIZE → x ≠ sb_bmapstart SB →
  ∀ y, bupd (view s) x w y = view (s <| m_img ::= <[Z.to_nat x := w]> |>) y.
Proof.
  clear. intros I Hx Hb y. unfold view, bupd. change (m_img (_ <| _ ::= _ |>)) with (<[Z.to_nat x := w]> (m_img s)).
  change (m_freeblock (_ <| _ ::= _ |>)) with (m_freeblock s). destruct (decide (y = x)) as [->|Hy].
  - rewrite decide_False by done. rewrite list_lookup_total_insert_eq; [done|]. rewrite (im_len _ I). lia.
  - destruct (decide (y = sb_bmapstart SB)); [done|]. rewrite list_lookup_total_insert_ne; [done|]. lia.
Qed.

Lemma image_write x w s : image_ok s → 0 <= x < m_freeblock s → length w = Z.to_nat BSIZE → image_ok (s <| m_img ::= <[Z.to_nat x := w]> |>).
Proof.
  clear. intros [I1 I2 I3 I4 I5] Hx Hw. split; simpl; [done|done|by rewrite length_insert| |].
  - intros y Hy. destruct (decide (y = x)) as [->|Hne]; [rewrite list_lookup_total_insert_eq; [done|]; rewrite I3; lia|].
    rewrite list_lookup_total_insert_ne by lia. by apply I4.
  - intros y Hy. rewrite list_lookup_total_insert_ne by lia. by apply I5.
Qed.

Lemma view_used s z : image_ok s → 0 <= z < FSSIZE → used SB (view s) z = (z <? m_freeblock s).
Proof.
  clear. intros I Hz. pose proof (im_fb _ I). change FSSIZE with 2000 in *. unfold used, view, BBLOCK.
  rewrite Z.div_small, Z.mod_small, decide_True by (change BPB with 8192; lia || done). rewrite bit_bits by (change BPB with 8192; rewrite ?nmeta_val in *; lia).
  by rewrite negb_involutive.
Qed.

Lemma view_fs_ok s : image_ok s → fs_ok SB g (view s).
Proof.
  intros I. pose proof (im_fb _ I). rewrite nmeta_val in *.
  assert (∀ b, 0 <= b < FSSIZE → BBLOCK b SB = 45) as EB.
  { intros b Hb. change FSSIZE with 2000 in *. unfold BBLOCK. rewrite Z.div_small by (change BPB with 8192; lia). done. }
  assert (∀ x, 32 <= x < FSSIZE → home g x) as Hh by (intros x Hx; unfold home; rewrite Hgs, Hgn; change nlog with 30; change FSSIZE with 2000 in *; lia).
  change FSSIZE with 2000 in *. split; [split|rewrite view_used; [apply Z.ltb_lt; lia|done|done]|done].
  - done.
  - done.
  - intros b Hb. rewrite EB by done. by apply Hh.
  - intros b Hb. rewrite EB by done. apply wf_bits. change BPB with 8192. lia.
  - intros b Hb. rewrite view_used by done. intros Hf%Z.ltb_ge. apply Hh. change (sb_size SB) with 2000 in Hb. lia.
  - intros b Hb. rewrite EB by done. split; [done|]. rewrite view_used by done. apply Z.ltb_lt. lia.
Qed.

(** [freeblock++] is an allocation. *)
Definition bump (s : mkstate) : mkstate := s <| m_freeblock := m_freeblock s + 1 |>.

Lemma view_bump s : image_ok s → m_freeblock s < FSSIZE → ∀ y, view (bump s) y = allocate SB (view s) (m_freeblock s) y.
Proof.
  clear. intros I Hf y. pose proof (im_fb _ I) as Hr. rewrite nmeta_val in Hr. change FSSIZE with 2000 in *. unfold allocate, bupd, view, BBLOCK.
  change (m_img (bump s)) with (m_img s). change (m_freeblock (bump s)) with (m_freeblock s + 1).
  rewrite Z.div_small, Z.mod_small by (change BPB with 8192; lia). rewrite SB_bmap, Z.add_0_l.
  destruct (decide (y = m_freeblock s)) as [->|].
  - rewrite decide_False by lia. by apply (im_zero _ I).
  - destruct (decide (y = 45)) as [->|]; [|done]. rewrite decide_True by done. apply bits_succ. lia.
Qed.

Lemma image_bump s : image_ok s → m_freeblock s < FSSIZE → image_ok (bump s).
Proof. clear. intros [I1 I2 I3 I4 I5] Hf. split; simpl; [done|lia|done|done|]. intros y Hy. apply I5. lia. Qed.

Lemma wp_assert b s (Q : unit → mkstate → Prop) : b = true → Q tt s → wp (assert_ b) Q s.
Proof. clear. by intros ->. Qed.

Lemma wp_next_block s (Q : Z → mkstate → Prop) : image_ok s → Q (m_freeblock s) (bump s) → wp next_block Q s.
Proof.
  clear. intros I HQ. pose proof (im_fb _ I) as Hr. unfold next_block. wp_step. apply wp_gets. wp_steps.
  rewrite u32_id; [done|]. rewrite nmeta_val in Hr. change FSSIZE with 2000 in Hr. lia.
Qed.

(** ** Room for a block *)

(** The file got a block in slot [k], unless it had one. *)
Record got_slot (k : Z) (s : mkstate) (i : inode) (s' : mkstate) (i' : inode) : Prop := {
  gs_img : image_ok s';
  gs_grows : grows SB 0 MAXFILE g (view s) i g (view s') i';
  gs_bytes : ∀ p, 0 <= p < MAXFILE * BSIZE → cbyte (view s') i' p = cbyte (view s) i p;
  gs_slots : ∀ q, 0 <= q <= MAXFILE → saddr (view s') i' q = if decide (q = k ∧ saddr (view s) i k = 0) then m_freeblock s else saddr (view s) i q;
  gs_fb : m_freeblock s' = m_freeblock s + if saddr (view s) i k =? 0 then 1 else 0;
  gs_fi : m_freeinode s' = m_freeinode s;
}.

Lemma got_slot_refl k s i : image_ok s → file_wf SB g (view s) i → saddr (view s) i k ≠ 0 → got_slot k s i s i.
Proof.
  intros I W Hn. split; try done.
  - apply fgrows_refl; [done|by apply view_fs_ok].
  - intros q Hq. by rewrite decide_False by tauto.
  - rewrite (proj2 (Z.eqb_neq _ _) Hn). lia.
Qed.

Lemma got_slot_alloc k s i s' i' : image_ok s → file_wf SB g (view s) i → 0 <= k <= MAXFILE → saddr (view s) i k = 0 → m_freeblock s < FSSIZE →
  image_ok s' → m_freeblock s' = m_freeblock s + 1 → m_freeinode s' = m_freeinode s → i' = i <| i_addrs := i_addrs i' |> → length (i_addrs i') = NADDRS →
  (∀ q, 0 <= q <= MAXFILE → saddr (view s') i' q = if decide (q = k) then m_freeblock s else saddr (view s) i q) →
  (∀ y, (indirect i ≠ 0 → y ≠ indirect i) → view s' y = allocate SB (view s) (m_freeblock s) y) →
  (indirect i ≠ 0 → length (view s' (indirect i)) = Z.to_nat BSIZE) → got_slot k s i s' i'.
Proof.
  intros I W Hk Hz Hf I' Ef Efi Ei El Hs Hv Hw. pose proof (view_fs_ok s I) as K. pose proof (im_fb _ I) as Hr. rewrite nmeta_val in Hr.
  assert (0 <= m_freeblock s < sb_size SB) as Ha by (rewrite SB_size; lia).
  assert (used SB (view s) (m_freeblock s) = false) as Hu by (rewrite view_used by (done || lia); apply Z.ltb_irrefl).
  split; try done.
  - apply (alloc_grows K W Hk Hz Ha Hu Ei El Hs Hv Hw); [done|lia|by intros; left].
  - intros p Hp. by apply (step_bytes K W Hk Hz Ha Hu Hs Hv).
  - intros q Hq. rewrite Hs by done. destruct (decide (q = k)) as [->|]; [by rewrite decide_True|by rewrite decide_False by tauto].
  - by rewrite Hz.
Qed.

(** The slot of [addrs[k]]. *)
Definition slot_no (k : Z) : Z := if k =? NDIRECT then MAXFILE else k.

Lemma slot_no_range k : 0 <= k <= NDIRECT → 0 <= slot_no k <= MAXFILE.
Proof. clear. unfold slot_no. change NDIRECT with 12. change MAXFILE with 268. destruct (Z.eqb_spec k 12); lia. Qed.

Lemma saddr_slot_no v i k : 0 <= k <= NDIRECT → saddr v i (slot_no k) = i_addrs i !!! Z.to_nat k.
Proof.
  clear. unfold slot_no. change NDIRECT with 12. intros Hk. destruct (Z.eqb_spec k 12) as [->|]; [done|].
  unfold saddr. change NDIRECT with 12. by rewrite (proj2 (Z.ltb_lt _ _)) by lia.
Qed.

Lemma slot_step k s i : image_ok s → file_wf SB g (view s) i → 0 <= k <= NDIRECT → saddr (view s) i (slot_no k) = 0 → m_freeblock s < FSSIZE →
  got_slot (slot_no k) s i (bump s) (set_slot (i := i) (Z.to_nat k) (m_freeblock s)).
Proof.
  intros I W Hk Hz Hf. pose proof (view_fs_ok s I) as K. pose proof (im_fb _ I) as Hr. rewrite nmeta_val in Hr. pose proof (slot_no_range k Hk).
  assert (0 <= m_freeblock s < sb_size SB) as Ha by (rewrite SB_size; lia).
  assert (used SB (view s) (m_freeblock s) = false) as Hu by (rewrite view_used by (done || lia); apply Z.ltb_irrefl).
  apply got_slot_alloc; try done.
  - by apply image_bump.
  - simpl. rewrite length_insert. apply W.
  - intros q Hq. rewrite (saddr_ext (view_bump s I Hf)). unfold slot_no in *. destruct (Z.eqb_spec k NDIRECT) as [->|Hne].
    + by apply (saddr_indirect K W Hu).
    + apply (saddr_direct K W Ha Hu); [lia|done].
  - intros y _. by apply view_bump.
  - intros Hn. rewrite (view_bump s I Hf), (allocate_indirect K W Ha Hu Hn). by apply (indirect_in_use W).
Qed.

Lemma saddr_range v i k : file_wf SB g v i → 0 <= k <= MAXFILE → 0 <= saddr v i k < FSSIZE.
Proof.
  clear. intros W Hk. destruct (decide (saddr v i k = 0)) as [->|Hn]; [done|]. by destruct (fw_own _ _ _ _ W k Hk Hn) as [(H & _) _].
Qed.

Lemma slot_run j din k s : image_ok s → length din = 64%nat → file_wf SB g (view s) (inode_at j din 0) → 0 <= k <= NDIRECT →
  m_freeblock s + (if saddr (view s) (inode_at j din 0) (slot_no k) =? 0 then 1 else 0) <= FSSIZE →
  wp (if xint (din_addr din k) =? 0 then b <- next_block ;; ret (set_addr din k (xint b)) else ret din)
    (λ din' s', length din' = 64%nat ∧ got_slot (slot_no k) s (inode_at j din 0) s' (inode_at j din' 0)) s.
Proof.
  intros I Hl W Hk Hf. set (i := inode_at j din 0) in *. pose proof (im_fb _ I) as Hr. rewrite nmeta_val in Hr. change FSSIZE with 2000 in *.
  pose proof (saddr_range _ _ _ W (slot_no_range k Hk)) as Ha. change FSSIZE with 2000 in Ha.
  rewrite (din_addr_at j) by done. fold i. rewrite <-(saddr_slot_no (view s) i k Hk), xint_id by lia.
  destruct (Z.eqb_spec (saddr (view s) i (slot_no k)) 0) as [Ez|Hn].
  - wp_step. apply wp_next_block; [done|]. wp_steps. split; [by apply length_set_addr|].
    rewrite xint_id, set_addr_at by (done || lia). fold i. apply slot_step; try done. change FSSIZE with 2000. lia.
  - wp_step. split; [done|]. by apply got_slot_refl.
Qed.

(** The entry of block [fbn] of the file in the indirect block. *)
Definition entry_stage (fbn x : Z) : mk Z :=
  indirect <- rsect' x ;;
  let o := (4 * Z.to_nat (fbn - NDIRECT))%nat in
  indirect <- (if get32 indirect o =? 0 then
                 b <- next_block ;;
                 let indirect := put32 indirect o (xint b) in
                 wsect' x indirect ;;;
                 ret indirect
               else ret indirect) ;;
  ret (xint (get32 indirect o)).

Lemma saddr_get v i k : indirect i ≠ 0 → NDIRECT <= k < MAXFILE → saddr v i k = get32 (v (indirect i)) (4 * Z.to_nat (k - NDIRECT)).
Proof.
  clear. intros Hn Hk. unfold saddr. by rewrite (proj2 (Z.eqb_neq _ _) Hn), (proj2 (Z.ltb_ge _ _)), (proj2 (Z.eqb_neq k MAXFILE)) by lia.
Qed.

Lemma view_get s y : y ≠ sb_bmapstart SB → view s y = m_img s !!! Z.to_nat y.
Proof. clear. intros Hn. unfold view. by rewrite decide_False. Qed.

Section entry.
Context {s : mkstate} {i : inode} {fbn : Z} (I : image_ok s) (W : file_wf SB g (view s) i) (Hn : indirect i ≠ 0) (Hb : NDIRECT <= fbn < MAXFILE).

Lemma indirect_fb : 0 < indirect i < m_freeblock s ∧ indirect i ≠ sb_bmapstart SB ∧ length (m_img s !!! Z.to_nat (indirect i)) = Z.to_nat BSIZE.
Proof.
  clear -I W Hn. destruct (indirect_in_use W Hn) as [(H1 & H2 & _ & H4 & H5) _]. rewrite SB_size in H1. rewrite view_used in H2 by done. apply Z.ltb_lt in H2.
  rewrite view_get in H4 by done. split_and!; lia || done.
Qed.

Lemma entry_step : saddr (view s) i fbn = 0 → m_freeblock s < FSSIZE → let a := m_freeblock s in let o := (4 * Z.to_nat (fbn - NDIRECT))%nat in
  got_slot fbn s i ((bump s) <| m_img ::= <[Z.to_nat (indirect i) := put32 (m_img s !!! Z.to_nat (indirect i)) o a]> |>) i.
Proof.
  intros Hz Hf a o. pose proof (view_fs_ok s I) as K. pose proof (im_fb _ I) as Hr. rewrite nmeta_val in Hr. destruct indirect_fb as (Hi1 & Hi2 & Hi3).
  assert (0 <= m_freeblock s < sb_size SB) as Ha by (rewrite SB_size; lia).
  assert (used SB (view s) (m_freeblock s) = false) as Hu by (rewrite view_used by (done || lia); apply Z.ltb_irrefl).
  pose proof (image_bump s I Hf) as Ib. set (s' := _ <| m_img ::= _ |>).
  assert (length (put32 (m_img s !!! Z.to_nat (indirect i)) o a) = Z.to_nat BSIZE) as Hlw by (unfold put32; by rewrite length_putn).
  assert (∀ y, set_entry (sb := SB) (v := view s) (i := i) (a := a) fbn y = view s' y) as Ev.
  { intros y. unfold s'. rewrite <-view_write by (done || lia). unfold set_entry, bupd. rewrite (view_get s (indirect i)) by done.
    case_decide; [done|]. by rewrite view_bump. }
  apply got_slot_alloc; try done.
  - change NDIRECT with 12 in Hb. lia.
  - apply image_write; [done| |done]. change (m_freeblock (bump s)) with (m_freeblock s + 1). lia.
  - by destruct i.
  - apply W.
  - intros q Hq. rewrite <-(saddr_ext Ev). by apply (saddr_entry K W Ha).
  - intros y Hy. rewrite <-Ev. unfold set_entry, bupd. rewrite decide_False by tauto. done.
  - intros _. rewrite <-Ev. unfold set_entry, bupd. rewrite decide_True by done. unfold put32. rewrite length_putn, view_get by done. done.
Qed.

Lemma entry_run : m_freeblock s + (if saddr (view s) i fbn =? 0 then 1 else 0) <= FSSIZE →
  wp (entry_stage fbn (indirect i)) (λ x s', x = saddr (view s') i fbn ∧ got_slot fbn s i s' i) s.
Proof.
  intros Hf. destruct indirect_fb as (Hi1 & Hi2 & Hi3). pose proof (im_fb _ I) as Hr. rewrite nmeta_val in Hr.
  assert (0 <= fbn <= MAXFILE) as Hbm by (change NDIRECT with 12 in Hb; lia).
  pose proof (saddr_range _ _ _ W Hbm) as Ha. unfold entry_stage. wp_step. apply wp_rsect; [done|lia|].
  rewrite <-(view_get s (indirect i)), <-(saddr_get (view s) i fbn) by done. destruct (Z.eqb_spec (saddr (view s) i fbn) 0) as [Ez|Hz].
  - pose proof (entry_step Ez ltac:(lia)) as Gs. cbv zeta in Gs. change FSSIZE with 2000 in *.
    wp_step. wp_step. apply wp_next_block; [done|]. wp_step. rewrite view_get, xint_id by (done || lia).
    apply wp_wsect; [apply image_bump; [done|change FSSIZE with 2000; lia]|change FSSIZE with 2000; lia|]. wp_steps. split; [|exact Gs].
    rewrite (gs_slots _ _ _ _ _ Gs), decide_True by (done || lia). rewrite get32_put32, u32_id, xint_id; [done|lia|lia|].
    rewrite Hi3. change (Z.to_nat BSIZE) with 1024%nat. change NDIRECT with 12 in *. change MAXFILE with 268 in *. lia.
  - wp_steps. rewrite <-saddr_get by done. rewrite xint_id by (change FSSIZE with 2000 in *; lia). split; [done|]. by apply got_slot_refl.
Qed.
End entry.

(** The sectors that a file of [n] bytes takes. *)
Definition sectors (n : Z) : Z := (n + BSIZE - 1) / BSIZE + if NDIRECT * BSIZE <? n then 1 else 0.

(** The size from which slot [k] is in use. *)
Definition from_size (k : Z) : Z := if k =? MAXFILE then NDIRECT * BSIZE else k * BSIZE.

(** The slots in use are those of a file of [n] bytes. *)
Definition filled (v : Z → block) (i : inode) (n : Z) : Prop := ∀ k, 0 <= k <= MAXFILE → saddr v i k = 0 ↔ n <= from_size k.

Lemma sectors_succ n : 0 <= n → sectors (n + 1) = sectors n + (if n mod BSIZE =? 0 then 1 else 0) + (if n =? NDIRECT * BSIZE then 1 else 0).
Proof.
  clear. intros Hn. unfold sectors. change NDIRECT with 12. change BSIZE with 1024.
  destruct (Z.eqb_spec (n mod 1024) 0), (Z.eqb_spec n (12 * 1024)), (Z.ltb_spec (12 * 1024) n), (Z.ltb_spec (12 * 1024) (n + 1)); zdiv.
Qed.

Lemma got_slot_there k s i s' i' : got_slot k s i s' i' → image_ok s → 0 <= k <= MAXFILE → saddr (view s') i' k ≠ 0.
Proof.
  intros G I Hk. pose proof (im_fb _ I) as Hr. rewrite nmeta_val in Hr. rewrite (gs_slots _ _ _ _ _ G) by done. case_decide as E; [lia|]. tauto.
Qed.

Lemma got_slot_other k s i s' i' q : got_slot k s i s' i' → 0 <= q <= MAXFILE → q ≠ k → saddr (view s') i' q = saddr (view s) i q.
Proof. intros G Hq Hn. rewrite (gs_slots _ _ _ _ _ G) by done. by rewrite decide_False by tauto. Qed.

(** What [iappend_block] promises for the byte at [off]. *)
Record placed (j off : Z) (din : list Z) (s : mkstate) (x : Z) (din' : list Z) (s' : mkstate) : Prop := {
  pl_din : length din' = 64%nat;
  pl_img : image_ok s';
  pl_grows : grows SB 0 MAXFILE g (view s) (inode_at j din 0) g (view s') (inode_at j din' 0);
  pl_bytes : ∀ p, 0 <= p < MAXFILE * BSIZE → cbyte (view s') (inode_at j din' 0) p = cbyte (view s) (inode_at j din 0) p;
  pl_x : x = saddr (view s') (inode_at j din' 0) (off / BSIZE);
  pl_filled : filled (view s') (inode_at j din' 0) (off + 1);
  pl_fb : m_freeblock s' = m_freeblock s + (sectors (off + 1) - sectors off);
  pl_fi : m_freeinode s' = m_freeinode s;
}.

Section place.
Context {j off : Z} {din : list Z} {s : mkstate}.
Context (I : image_ok s) (Hl : length din = 64%nat) (W : file_wf SB g (view s) (inode_at j din 0)) (F : filled (view s) (inode_at j din 0) off).
Context (Hoff : 0 <= off < MAXFILE * BSIZE) (Hroom : m_freeblock s + (sectors (off + 1) - sectors off) <= FSSIZE).
Abbreviation i := (inode_at j din 0).
Abbreviation fbn := (off / BSIZE).

Lemma place_fbn : 0 <= fbn < MAXFILE.
Proof. clear -Hoff. change BSIZE with 1024 in *. zdiv. Qed.

Lemma place_missing : (saddr (view s) i fbn =? 0) = (off mod BSIZE =? 0).
Proof.
  clear -Hoff F. pose proof place_fbn as Hb. assert (saddr (view s) i fbn = 0 ↔ off mod BSIZE = 0) as E.
  { rewrite (F fbn) by lia. unfold from_size. rewrite (proj2 (Z.eqb_neq _ _)) by lia. change BSIZE with 1024 in *. zdiv. }
  destruct (Z.eqb_spec (saddr (view s) i fbn) 0), (Z.eqb_spec (off mod BSIZE) 0); tauto.
Qed.

Lemma place_no_indirect : NDIRECT <= fbn → (saddr (view s) i MAXFILE =? 0) = (off =? NDIRECT * BSIZE).
Proof.
  clear -F. intros Hd. assert (0 <= MAXFILE <= MAXFILE) as HM by done. pose proof (F MAXFILE HM) as E. unfold from_size in E. rewrite Z.eqb_refl in E.
  change NDIRECT with 12 in *. change BSIZE with 1024 in *.
  destruct (Z.eqb_spec (saddr (view s) i MAXFILE) 0), (Z.eqb_spec off (12 * 1024)); zdiv || done.
Qed.

(** The slots of the other blocks are as a file with one byte more has them. *)
Lemma place_others q : 0 <= q <= MAXFILE → q ≠ fbn → (NDIRECT <= fbn → q ≠ MAXFILE) → saddr (view s) i q = 0 ↔ off + 1 <= from_size q.
Proof.
  clear -Hoff F. intros Hq Hn Hm. rewrite (F q Hq). unfold from_size. change NDIRECT with 12 in *. change MAXFILE with 268 in *. change BSIZE with 1024 in *.
  destruct (Z.eqb_spec q 268); zdiv.
Qed.

Lemma place_direct x din' s' : fbn < NDIRECT → length din' = 64%nat → got_slot fbn s i s' (inode_at j din' 0) →
  x = saddr (view s') (inode_at j din' 0) fbn → placed j off din s x din' s'.
Proof.
  intros Hd Hl' G Ex. pose proof place_fbn as Hb. split; try done.
  - apply (gs_img _ _ _ _ _ G).
  - apply (gs_grows _ _ _ _ _ G).
  - apply (gs_bytes _ _ _ _ _ G).
  - intros q Hq. destruct (decide (q = fbn)) as [->|Hne].
    + pose proof (got_slot_there _ _ _ _ _ G I Hq). unfold from_size. rewrite (proj2 (Z.eqb_neq _ _)) by lia. change BSIZE with 1024 in *. zdiv.
    + rewrite (got_slot_other _ _ _ _ _ q G Hq Hne). apply place_others; [done|done|lia].
  - rewrite (gs_fb _ _ _ _ _ G), place_missing, (sectors_succ off) by lia.
    rewrite (proj2 (Z.eqb_neq off (NDIRECT * BSIZE))) by (change NDIRECT with 12 in *; change BSIZE with 1024 in *; zdiv). lia.
  - apply (gs_fi _ _ _ _ _ G).
Qed.

Lemma place_indirect x din1 s1 s' : NDIRECT <= fbn → length din1 = 64%nat → got_slot MAXFILE s i s1 (inode_at j din1 0) →
  got_slot fbn s1 (inode_at j din1 0) s' (inode_at j din1 0) → x = saddr (view s') (inode_at j din1 0) fbn → placed j off din s x din1 s'.
Proof.
  intros Hd Hl' G1 G2 Ex. pose proof place_fbn as Hb. pose proof (gs_img _ _ _ _ _ G1) as I1.
  assert (0 <= MAXFILE <= MAXFILE) as HM by done.
  split; try done.
  - apply (gs_img _ _ _ _ _ G2).
  - eapply (fgrows_trans 0 MAXFILE 0 MAXFILE); [done|done|done|done|exact (gs_grows _ _ _ _ _ G1)|exact (gs_grows _ _ _ _ _ G2)].
  - intros p Hp. by rewrite (gs_bytes _ _ _ _ _ G2), (gs_bytes _ _ _ _ _ G1).
  - intros q Hq. destruct (decide (q = fbn)) as [->|Hne]; [|rewrite (got_slot_other _ _ _ _ _ q G2 Hq Hne); destruct (decide (q = MAXFILE)) as [->|Hne2]].
    + pose proof (got_slot_there _ _ _ _ _ G2 I1 Hq). unfold from_size. rewrite (proj2 (Z.eqb_neq _ _)) by lia. change BSIZE with 1024 in *. zdiv.
    + pose proof (got_slot_there _ _ _ _ _ G1 I HM). unfold from_size. rewrite Z.eqb_refl. change NDIRECT with 12 in *. change BSIZE with 1024 in *. zdiv.
    + rewrite (got_slot_other _ _ _ _ _ q G1 Hq Hne2). by apply place_others.
  - rewrite (gs_fb _ _ _ _ _ G2), (gs_fb _ _ _ _ _ G1), (got_slot_other _ _ _ _ _ fbn G1), place_missing, (sectors_succ off) by lia.
    rewrite place_no_indirect by done. lia.
  - rewrite (gs_fi _ _ _ _ _ G2). apply (gs_fi _ _ _ _ _ G1).
Qed.

Lemma iappend_block_run : wp (iappend_block lseek_ok write_ok read_ok din fbn) (λ r s', placed j off din s r.1 r.2 s') s.
Proof.
  pose proof place_fbn as Hb. pose proof place_missing as Em. pose proof (sectors_succ off ltac:(lia)) as Es. unfold iappend_block.
  assert (∀ v i k, file_wf SB g v i → 0 <= k <= MAXFILE → xint (saddr v i k) = saddr v i k) as Ex.
  { intros v' i' k W' Hk. apply xint_id. pose proof (saddr_range v' i' k W' Hk). change FSSIZE with 2000 in *. lia. }
  destruct (Z.ltb_spec fbn NDIRECT) as [Hd|Hd].
  - assert (slot_no fbn = fbn) as Ek by (unfold slot_no; by rewrite (proj2 (Z.eqb_neq _ _)) by lia).
    wp_step. eapply wp_mono; [apply (slot_run j din fbn s I Hl W); [lia|]|].
    { rewrite Ek, Em. destruct (off =? NDIRECT * BSIZE); lia. }
    rewrite Ek. intros din' s' [Hl' G]. wp_step. apply place_direct; try done. simpl.
    rewrite (din_addr_at j), <-(saddr_slot_no (view s')), Ek by lia. apply Ex; [apply (gr_wf _ _ _ _ _ _ _ _ _ (gs_grows _ _ _ _ _ G))|lia].
  - assert (slot_no NDIRECT = MAXFILE) as Ek by done. assert (0 <= NDIRECT <= NDIRECT) as Hnd by done.
    assert (0 <= MAXFILE <= MAXFILE) as HM by done.
    wp_step. eapply wp_mono; [apply (slot_run j din NDIRECT s I Hl W Hnd)|].
    { rewrite Ek, place_no_indirect by done. destruct (off mod BSIZE =? 0); lia. }
    rewrite Ek. intros din1 s1 [Hl1 G1]. pose proof (gs_img _ _ _ _ _ G1) as I1. pose proof (gr_wf _ _ _ _ _ _ _ _ _ (gs_grows _ _ _ _ _ G1)) as W1.
    pose proof (got_slot_there _ _ _ _ _ G1 I HM) as Hn1. rewrite MAXFILE_indirect in Hn1.
    assert (xint (din_addr din1 NDIRECT) = indirect (inode_at j din1 0)) as Ei.
    { rewrite (din_addr_at j) by done. exact (Ex (view s1) _ MAXFILE W1 HM). }
    rewrite Ei. assert (m_freeblock s1 + (if saddr (view s1) (inode_at j din1 0) fbn =? 0 then 1 else 0) <= FSSIZE) as Hroom1.
    { rewrite (gs_fb _ _ _ _ _ G1), (got_slot_other _ _ _ _ _ fbn G1), Em, place_no_indirect by lia. lia. }
    pose proof (entry_run I1 W1 Hn1 (conj Hd (proj2 Hb)) Hroom1) as Hr. apply wp_bind. apply wp_bind_inv in Hr. eapply wp_mono; [exact Hr|].
    intros ind t Ht. apply wp_bind. apply wp_bind_inv in Ht. eapply wp_mono; [exact Ht|]. intros ind' t' [Ex' G2]. wp_step. by eapply place_indirect.
Qed.
End place.

(** ** Appending bytes *)

(** The bytes [p] were written at the end, [off], of the file of the inode [din]. *)
Record appended (j off : Z) (p : list Z) (din : list Z) (s : mkstate) (din' : list Z) (s' : mkstate) : Prop := {
  ap_din : length din' = 64%nat;
  ap_img : image_ok s';
  ap_grows : grows SB 0 MAXFILE g (view s) (inode_at j din 0) g (view s') (inode_at j din' 0);
  ap_bytes : overwritten p off (view s) (inode_at j din 0) (view s') (inode_at j din' 0);
  ap_filled : filled (view s') (inode_at j din' 0) (off + Z.of_nat (length p));
  ap_fb : m_freeblock s' = m_freeblock s + (sectors (off + Z.of_nat (length p)) - sectors off);
  ap_fi : m_freeinode s' = m_freeinode s;
}.

Lemma appended_app j off p q din s din1 s1 din2 s2 : appended j off p din s din1 s1 →
  appended j (off + Z.of_nat (length p)) q din1 s1 din2 s2 → appended j off (p ++ q) din s din2 s2.
Proof.
  intros [A1 A2 A3 A4 A5 A6 A7] [B1 B2 B3 B4 B5 B6 B7].
  assert (off + Z.of_nat (length (p ++ q)) = off + Z.of_nat (length p) + Z.of_nat (length q)) as E by (rewrite length_app; lia).
  split; try done.
  - eapply (fgrows_trans 0 MAXFILE 0 MAXFILE); [done|done|done|done|exact A3|exact B3].
  - by eapply overwritten_app.
  - by rewrite E.
  - rewrite E. lia.
  - congruence.
Qed.

Lemma appended_nil j off din s : image_ok s → length din = 64%nat → file_wf SB g (view s) (inode_at j din 0) →
  filled (view s) (inode_at j din 0) off → appended j off [] din s din s.
Proof.
  intros I Hl W F. split; try done.
  - apply fgrows_refl; [done|by apply view_fs_ok].
  - apply overwritten_nil.
  - simpl. by rewrite Z.add_0_r.
  - simpl. rewrite Z.add_0_r. lia.
Qed.

Lemma sectors_mono n m : 0 <= n <= m → sectors n <= sectors m.
Proof.
  clear. intros Hn. unfold sectors. change NDIRECT with 12. change BSIZE with 1024. destruct (Z.ltb_spec (12 * 1024) n), (Z.ltb_spec (12 * 1024) m); zdiv.
Qed.

(** Bytes of one block take the room of the first. *)
Lemma sectors_block off n : 0 <= off → 1 <= n → off + n <= (off / BSIZE + 1) * BSIZE → sectors (off + n) = sectors (off + 1).
Proof.
  clear. intros H0 H1 H2. unfold sectors. change NDIRECT with 12. change BSIZE with 1024 in *.
  destruct (Z.ltb_spec (12 * 1024) (off + n)), (Z.ltb_spec (12 * 1024) (off + 1)); zdiv.
Qed.

Lemma filled_block v i off n : 0 <= off → 1 <= n → off + n <= (off / BSIZE + 1) * BSIZE → filled v i (off + 1) → filled v i (off + n).
Proof.
  clear. intros H0 H1 H2 F k Hk. rewrite (F k Hk). unfold from_size. change NDIRECT with 12. change BSIZE with 1024 in *. destruct (k =? MAXFILE); zdiv.
Qed.

(** A piece written into the block that was placed. *)
Lemma placed_write j off p din s x din' s' : placed j off din s x din' s' → 0 <= off → (0 < length p)%nat → off + Z.of_nat (length p) <= (off / BSIZE + 1) * BSIZE →
  off + Z.of_nat (length p) <= MAXFILE * BSIZE →
  0 < x < m_freeblock s' ∧
  appended j off p din s din' (s' <| m_img ::= <[Z.to_nat x := splice (m_img s' !!! Z.to_nat x) (Z.to_nat (off - off / BSIZE * BSIZE)) p]> |>).
Proof.
  intros [P1 P2 P3 P4 -> P6 P7 P8] Ho Hp Hblk Hmax. set (i := inode_at j din' 0) in *. set (x := saddr (view s') i (off / BSIZE)).
  pose proof (gr_wf _ _ _ _ _ _ _ _ _ P3) as W. pose proof (gr_fs _ _ _ _ _ _ _ _ _ P3) as K.
  assert (0 <= off / BSIZE < MAXFILE) as Hb by (change BSIZE with 1024 in *; zdiv). assert (0 <= off / BSIZE <= MAXFILE) as Hb' by lia.
  assert (x ≠ 0) as Hn.
  { intros E. apply (P6 _ Hb') in E. unfold from_size in E. rewrite (proj2 (Z.eqb_neq _ _)) in E by lia. change BSIZE with 1024 in *. zdiv. }
  destruct (fw_own _ _ _ _ W (off / BSIZE) Hb' Hn) as [(X1 & X2 & _ & X4 & X5) _]. fold x in X1, X2, X4, X5. rewrite SB_size in X1.
  rewrite view_used in X2 by done. apply Z.ltb_lt in X2. assert (off - off / BSIZE * BSIZE = off mod BSIZE) as -> by (change BSIZE with 1024; zdiv).
  assert (0 <= off mod BSIZE) as Hm0 by (by apply Z.mod_pos_bound).
  assert (off mod BSIZE + Z.of_nat (length p) <= BSIZE) as Hfit by (change BSIZE with 1024 in *; zdiv).
  split; [lia|]. rewrite <-view_get by done. set (w := splice _ _ _). assert (length w = Z.to_nat BSIZE) as Hw by (unfold w; rewrite splice_length; lia).
  pose proof (view_write x w s' P2 ltac:(lia) X5) as Ev. split; try done.
  - apply image_write; [done|lia|done].
  - eapply (fgrows_trans 0 MAXFILE 0 MAXFILE); [done|done|done|done|exact P3|]. apply (grows_ext Ev).
    apply (write_grows K W Hb Hn Hw); [done|done|by intros; left].
  - apply (overwritten_ext Ev). intros q Hq. pose proof (write_piece off (Z.of_nat (length p)) 0 p q W) as Hwp.
    rewrite drop_0, Nat2Z.id, take_ge in Hwp by lia. unfold w, x. fold i. rewrite Hwp; [|lia|lia|done|done|done|lia|lia|done].
    case_decide; [f_equal; lia|by apply P4].
  - apply filled_block; [lia|lia|done|]. intros k Hk. rewrite <-(saddr_ext Ev). unfold x. rewrite (write_saddr W) by done. by apply P6.
  - pose proof (sectors_block off (Z.of_nat (length p)) Ho ltac:(lia) Hblk) as Eb. simpl. rewrite P7, Eb. done.
Qed.

Lemma iappend_loop_run j fuel : ∀ p off din s, (length p <= fuel)%nat → image_ok s → length din = 64%nat → file_wf SB g (view s) (inode_at j din 0) →
  filled (view s) (inode_at j din 0) off → 0 <= off → off + Z.of_nat (length p) <= MAXFILE * BSIZE →
  m_freeblock s + (sectors (off + Z.of_nat (length p)) - sectors off) <= FSSIZE →
  wp (iappend_loop lseek_ok write_ok read_ok fuel din off p) (λ r s', r.2 = off + Z.of_nat (length p) ∧ appended j off p din s r.1 s') s.
Proof.
  induction fuel as [|fuel IH]; intros p off din s Hfu I Hl W F Ho Hmax Hroom.
  { assert (p = []) as -> by (destruct p; [done|simpl in *; lia]). cbn [iappend_loop]. wp_step. split; [simpl; lia|by apply appended_nil]. }
  cbn [iappend_loop]. destruct (Z.ltb_spec 0 (Z.of_nat (length p))) as [Hp|Hp].
  2:{ assert (p = []) as -> by (destruct p; [done|simpl in *; lia]). wp_step. split; [simpl; lia|by apply appended_nil]. }
  assert (off / BSIZE < MAXFILE) as Hb by (change BSIZE with 1024 in *; zdiv). pose proof (sectors_mono (off + 1) (off + Z.of_nat (length p)) ltac:(lia)).
  wp_step. apply wp_assert; [by apply Z.ltb_lt|]. wp_step. eapply wp_mono; [apply (iappend_block_run I Hl W F); lia|].
  intros [x din1] s1 P. cbv beta iota. simpl in P. set (n1 := Z.min (Z.of_nat (length p)) ((off / BSIZE + 1) * BSIZE - off)).
  assert (1 <= n1 <= Z.of_nat (length p) ∧ off + n1 <= (off / BSIZE + 1) * BSIZE) as [Hn1 Hn1'] by (unfold n1; change BSIZE with 1024 in *; zdiv).
  set (p1 := take (Z.to_nat n1) p). assert (length p1 = Z.to_nat n1) as Hp1 by (unfold p1; rewrite length_take; lia).
  assert (p = p1 ++ drop (Z.to_nat n1) p) as Ep by (unfold p1; by rewrite take_drop). assert (length (drop (Z.to_nat n1) p) = (length p - Z.to_nat n1)%nat) as Hp2 by apply length_drop.
  destruct (placed_write j off p1 din s x din1 s1 P) as [Hx A]; [lia|lia|rewrite Hp1; lia|rewrite Hp1; lia|].
  pose proof (im_fb _ (pl_img _ _ _ _ _ _ _ P)) as Hr. wp_step. apply wp_rsect; [apply P|lia|]. wp_step. apply wp_wsect; [apply P|lia|]. cbv beta.
  set (s2 := _ <| m_img ::= _ |>) in *. pose proof (ap_fb _ _ _ _ _ _ _ A) as Ef. rewrite Hp1 in Ef.
  pose proof (ap_filled _ _ _ _ _ _ _ A) as F2. rewrite Hp1, Z2Nat.id in F2 by lia.
  assert (u32 (off + n1) = off + n1) as -> by (apply u32_id; change MAXFILE with 268 in *; change BSIZE with 1024 in *; lia).
  eapply wp_mono; [apply (IH (drop (Z.to_nat n1) p) (off + n1) din1 s2)|].
  - lia.
  - apply A.
  - apply A.
  - apply (gr_wf _ _ _ _ _ _ _ _ _ (ap_grows _ _ _ _ _ _ _ A)).
  - exact F2.
  - lia.
  - rewrite Hp2. lia.
  - rewrite Ef, Hp2. replace (off + n1 + Z.of_nat (length p - Z.to_nat n1)) with (off + Z.of_nat (length p)) by lia. rewrite Z2Nat.id by lia. lia.
  - intros [din' off'] s' [E' B]. simpl in *. split; [lia|]. rewrite Ep. eapply appended_app; [exact A|]. rewrite Hp1, Z2Nat.id by lia. exact B.
Qed.

(** ** The files of the image *)

(** Inode [j] is a file of type [ty] with contents [bs]. *)
Record file_is (v : Z → block) (j ty : Z) (bs : list Z) : Prop := {
  fi_type : i_type (kino v j) = ty;
  fi_nlink : i_nlink (kino v j) = 1;
  fi_size : i_size (kino v j) = Z.of_nat (length bs);
  fi_wf : file_wf SB g v (kino v j);
  fi_filled : filled v (kino v j) (Z.of_nat (length bs));
  fi_max : Z.of_nat (length bs) <= MAXFILE * BSIZE;
  fi_bytes : ∀ k, 0 <= k < MAXFILE * BSIZE → cbyte v (kino v j) k = default 0 (bs !! Z.to_nat k);
  fi_data : ∀ k, 0 <= k <= MAXFILE → saddr v (kino v j) k ≠ 0 → nmeta <= saddr v (kino v j) k;
}.

Lemma in_use_view s y : image_ok s → 0 <= y < m_freeblock s → home g y → y ≠ sb_bmapstart SB → in_use SB g (view s) y.
Proof.
  clear. intros I Hy Hh Hb. pose proof (im_fb _ I). split_and!; [lia|rewrite SB_size; lia| |done| |done].
  - rewrite view_used by (done || lia). apply Z.ltb_lt. lia.
  - rewrite view_get by done. apply (im_blk _ I). lia.
Qed.

Lemma in_use_range s y : image_ok s → in_use SB g (view s) y → 0 <= y < m_freeblock s ∧ home g y ∧ y ≠ sb_bmapstart SB.
Proof.
  clear. intros I (H1 & H2 & H3 & _ & H5). rewrite SB_size in H1. rewrite view_used in H2 by done. apply Z.ltb_lt in H2. split_and!; done || lia.
Qed.

Lemma in_use_later s s' y : image_ok s → image_ok s' → m_freeblock s <= m_freeblock s' → in_use SB g (view s) y → in_use SB g (view s') y.
Proof. clear. intros I I' Hf H. apply in_use_range in H as (H1 & H2 & H3); [|done]. apply in_use_view; done || lia. Qed.

(** A file whose inode and blocks are the same is the same. *)
Section frame.
Context {s s' : mkstate} (I : image_ok s) (I' : image_ok s') (Hf : m_freeblock s <= m_freeblock s').
Context {j ty : Z} {bs : list Z} (F : file_is (view s) j ty bs) (Ek : kino (view s') j = kino (view s) j).
Context (Hsame : ∀ k, 0 <= k <= MAXFILE → saddr (view s) (kino (view s) j) k ≠ 0 →
  view s' (saddr (view s) (kino (view s) j) k) = view s (saddr (view s) (kino (view s) j) k)).

Lemma frame_saddr k : saddr (view s') (kino (view s') j) k = saddr (view s) (kino (view s) j) k.
Proof.
  clear -Ek Hsame. rewrite Ek. clear Ek. set (i := kino _ _) in *. unfold saddr. destruct (k <? NDIRECT); [done|]. destruct (k =? MAXFILE); [done|].
  destruct (Z.eqb_spec (indirect i) 0) as [|Hn]; [done|]. assert (0 <= MAXFILE <= MAXFILE) as HM by done. specialize (Hsame MAXFILE HM).
  rewrite MAXFILE_indirect in Hsame. by rewrite Hsame.
Qed.

Lemma file_is_frame : file_is (view s') j ty bs.
Proof.
  destruct F as [F1 F2 F3 F4 F5 F6 F7 F8]. split; rewrite ?Ek; try assumption.
  - destruct F4 as [W1 W2 W3 W4]. rewrite <-Ek. split; [by rewrite Ek| | |rewrite Ek; by apply (in_use_later s s')]; intros k; [|intros k'];
      rewrite !frame_saddr; [|by apply W3]. rewrite Ek. intros Hk Hn. destruct (W2 k Hk Hn). split; [by apply (in_use_later s s')|done].
  - intros k Hk. rewrite <-Ek, frame_saddr. by apply F5.
  - intros k Hk. rewrite <-(F7 k Hk). rewrite <-Ek at 1. unfold cbyte. rewrite frame_saddr. destruct (Z.eqb_spec (saddr (view s) (kino (view s) j) (k / BSIZE)) 0) as [|Hn]; [done|].
    rewrite Hsame; [done| |done]. change BSIZE with 1024 in *. zdiv.
  - intros k Hk. rewrite <-Ek, frame_saddr. by apply F8.
Qed.
End frame.

(** ** Inodes on the image *)
Definition put_inode (s : mkstate) (j : Z) (din : list Z) : mkstate :=
  s <| m_img ::= <[Z.to_nat (IBLOCK j SB) := splice (m_img s !!! Z.to_nat (IBLOCK j SB)) (dip j) din]> |>.

Section put.
Context {s : mkstate} (I : image_ok s) {j : Z} (Hj : 0 <= j < NINODES) {din : list Z} (Hd : length din = 64%nat).

Lemma iblock_facts : 0 < IBLOCK j SB < m_freeblock s ∧ 0 <= IBLOCK j SB < FSSIZE ∧ IBLOCK j SB ≠ sb_bmapstart SB.
Proof.
  clear -I Hj. pose proof (iblock_range j Hj). pose proof (im_fb _ I) as Hr. rewrite nmeta_val in Hr. rewrite SB_bmap. change FSSIZE with 2000 in *. lia.
Qed.

Lemma length_put_inode : length (splice (m_img s !!! Z.to_nat (IBLOCK j SB)) (dip j) din) = Z.to_nat BSIZE.
Proof.
  clear -I Hj Hd. destruct iblock_facts as (_ & H2 & _). pose proof (im_blk _ I _ H2). pose proof (dip_bound j). rewrite splice_length; lia.
Qed.

Lemma wp_winode (Q : unit → mkstate → Prop) : Q tt (put_inode s j din) → wp (winode lseek_ok write_ok read_ok j din) Q s.
Proof.
  destruct iblock_facts as (_ & H2 & _). intros HQ. unfold winode. wp_step. apply wp_gets. rewrite (im_sb _ I). wp_step. apply wp_rsect; [done|done|].
  by apply wp_wsect.
Qed.

Lemma wp_rinode (Q : list Z → mkstate → Prop) : Q (take 64 (drop (dip j) (m_img s !!! Z.to_nat (IBLOCK j SB)))) s → wp (rinode lseek_ok read_ok j) Q s.
Proof.
  clear Hd. destruct iblock_facts as (_ & H2 & _). intros HQ. unfold rinode. wp_step. apply wp_gets. rewrite (im_sb _ I). wp_step. apply wp_rsect; [done|done|].
  by wp_step.
Qed.

Lemma view_put y : bupd (view s) (IBLOCK j SB) (splice (m_img s !!! Z.to_nat (IBLOCK j SB)) (dip j) din) y = view (put_inode s j din) y.
Proof. clear -I Hj. destruct iblock_facts as (H1 & H2 & H3). apply view_write; [done|lia|done]. Qed.

Lemma image_put : image_ok (put_inode s j din).
Proof. clear -I Hj Hd. destruct iblock_facts as (H1 & _ & _). apply image_write; [done|lia|apply length_put_inode]. Qed.

Lemma kino_put : kino (view (put_inode s j din)) j = inode_at j din 0.
Proof.
  clear -I Hj Hd. destruct iblock_facts as (H1 & H2 & H3). rewrite kino_at, <-view_put. unfold bupd. rewrite decide_True by done.
  apply inode_at_splice; [done|]. rewrite (im_blk _ I _ H2). apply dip_bound.
Qed.

Lemma kino_put_ne j' : 0 <= j' < NINODES → j' ≠ j → kino (view (put_inode s j din)) j' = kino (view s) j'.
Proof.
  clear -I Hj Hd. intros Hj' Hne. destruct iblock_facts as (H1 & H2 & H3). rewrite !kino_at, <-view_put. unfold bupd. case_decide as E; [|done].
  rewrite (E : IBLOCK j' SB = _), view_get by done. apply inode_at_splice_ne; [done|rewrite (im_blk _ I _ H2); apply dip_bound|]. apply dip_ne; done || lia.
Qed.

Lemma view_put_ne y : y ≠ IBLOCK j SB → view (put_inode s j din) y = view s y.
Proof. clear -I Hj. intros Hy. rewrite <-view_put. unfold bupd. by rewrite decide_False. Qed.
End put.

Lemma din_of s j : image_ok s → 0 <= j < NINODES → let din := take 64 (drop (dip j) (m_img s !!! Z.to_nat (IBLOCK j SB))) in
  length din = 64%nat ∧ inode_at j din 0 = kino (view s) j ∧ din_size din = i_size (kino (view s) j).
Proof.
  clear. intros I Hj din. destruct (iblock_facts I Hj) as (_ & H2 & H3). pose proof (im_blk _ I _ H2) as Hl. pose proof (dip_bound j).
  assert (inode_at j din 0 = kino (view s) j) as E by (unfold din; rewrite inode_at_copy, kino_at, view_get by done; done).
  split_and!; [unfold din; rewrite length_take, length_drop; lia|done|]. rewrite <-E. done.
Qed.

(** ** The image with the files [fs], of type and contents, from inode 1 *)
Abbreviation files := (list (Z * list Z)).

Definition total (fs : files) : Z := foldr (λ f n, sectors (Z.of_nat (length f.2)) + n) 0 fs.

(** Slot [k] of the file in place [n]. *)
Definition slot (v : Z → block) (n : nat) (k : Z) : Z := saddr v (kino v (1 + Z.of_nat n)) k.

Record built (fs : files) (s : mkstate) : Prop := {
  bu_img : image_ok s;
  bu_fi : m_freeinode s = 1 + Z.of_nat (length fs);
  bu_n : 1 + Z.of_nat (length fs) <= NINODES;
  bu_fb : m_freeblock s = nmeta + total fs;
  bu_files : ∀ n f, fs !! n = Some f → file_is (view s) (1 + Z.of_nat n) f.1 f.2;
  bu_sep : ∀ n n' k k', (n < length fs)%nat → (n' < length fs)%nat → 0 <= k <= MAXFILE → 0 <= k' <= MAXFILE →
    slot (view s) n k ≠ 0 → slot (view s) n k = slot (view s) n' k' → n = n';
  bu_meta : ∀ y, 0 <= y < sb_inodestart SB → m_img s !!! Z.to_nat y = if decide (y = 1) then super_bytes SB else zero_block;
}.

Lemma total_insert fs n f f' : fs !! n = Some f → total (<[n := f']> fs) = total fs + (sectors (Z.of_nat (length f'.2)) - sectors (Z.of_nat (length f.2))).
Proof.
  clear. revert n. induction fs as [|h fs IH]; intros [|n] E; try done; simpl in *.
  - injection E as ->. lia.
  - specialize (IH n E). lia.
Qed.

Lemma total_snoc fs f : total (fs ++ [f]) = total fs + sectors (Z.of_nat (length f.2)).
Proof. clear. induction fs as [|h fs IH]; simpl in *; lia. Qed.

Lemma built_lookup fs s n : built fs s → (n < length fs)%nat → ∃ f, fs !! n = Some f ∧ file_is (view s) (1 + Z.of_nat n) f.1 f.2.
Proof. intros B Hn. destruct (lookup_lt_is_Some_2 fs n Hn) as [f E]. exists f. split; [done|]. by apply (bu_files _ _ B). Qed.

Lemma built_slot fs s n k : built fs s → (n < length fs)%nat → 0 <= k <= MAXFILE → slot (view s) n k ≠ 0 →
  nmeta <= slot (view s) n k < m_freeblock s.
Proof.
  intros B Hn Hk Hz. destruct (built_lookup fs s n B Hn) as (f & _ & F). split; [by apply (fi_data _ _ _ _ F)|].
  destruct (fw_own _ _ _ _ (fi_wf _ _ _ _ F) k Hk Hz) as [Hu _]. by apply (in_use_range _ _ (bu_img _ _ B)) in Hu as [[_ ?] _].
Qed.

(** Changes to the image that keep the other files. *)
Section others.
Context {fs : files} {s s' : mkstate} (B : built fs s) (I' : image_ok s') (Hf : m_freeblock s <= m_freeblock s') {n : nat}.
Context (Hk : ∀ m, (m < length fs)%nat → m ≠ n → kino (view s') (1 + Z.of_nat m) = kino (view s) (1 + Z.of_nat m)).
Context (Hv : ∀ y, nmeta <= y < m_freeblock s → (∀ k, (n < length fs)%nat → 0 <= k <= MAXFILE → slot (view s) n k ≠ y) → view s' y = view s y).

Lemma others_same m k : (m < length fs)%nat → m ≠ n → 0 <= k <= MAXFILE → slot (view s) m k ≠ 0 → view s' (slot (view s) m k) = view s (slot (view s) m k).
Proof.
  intros Hm Hne Hkr Hz. apply Hv; [by apply (built_slot fs)|]. intros k' Hn Hk' E. apply Hne. symmetry.
  apply (bu_sep _ _ B n m k' k); try done. by rewrite E.
Qed.

Lemma others_file m f : fs !! m = Some f → m ≠ n → file_is (view s') (1 + Z.of_nat m) f.1 f.2.
Proof.
  intros E Hne. assert (m < length fs)%nat as Hm by (by apply lookup_lt_is_Some_1; eexists).
  apply (file_is_frame (bu_img _ _ B) I' Hf); [by apply (bu_files _ _ B)|by apply Hk|]. intros k Hkr Hz. by apply others_same.
Qed.

Lemma others_slot m k : (m < length fs)%nat → m ≠ n → slot (view s') m k = slot (view s) m k.
Proof. intros Hm Hne. apply frame_saddr; [by apply Hk|]. intros q Hq Hz. by apply others_same. Qed.
End others.

(** ** [ialloc] *)
Definition new_din (ty : Z) : list Z := set_size (set_nlink (set_type zero_dinode (xshort ty)) (xshort 1)) (xint 0).

Lemma new_din_len ty : length (new_din ty) = 64%nat.
Proof. clear. unfold new_din, set_size, set_nlink, set_type, put16, put32. by rewrite !length_putn. Qed.

Lemma new_din_at j ty : 0 <= ty < 2 ^ 15 → inode_at j (new_din ty) 0 = (blank j) <| i_type := ty |> <| i_nlink := 1 |> <| i_addrs := replicate NADDRS 0 |>.
Proof.
  clear. intros Ht. unfold new_din. rewrite set_size_at; [|unfold set_nlink, set_type, put16; by rewrite !length_putn|done].
  assert (∀ n o, (o + n <= 64)%nat → getn n zero_dinode o = 0) as Hz.
  { intros n. induction n as [|n IH]; intros o Ho; [done|]. cbn [getn]. rewrite IH by lia. unfold zero_dinode. by rewrite lookup_total_replicate_2 by (change (Z.to_nat DINODE) with 64%nat; lia). }
  assert (get16 (set_nlink (set_type zero_dinode (xshort ty)) (xshort 1)) 0 = ty) as E1.
  { unfold set_nlink, set_type, get16, put16. rewrite getn_putn_ne by lia. change (getn 2 (putn 2 zero_dinode 0 (xshort ty)) 0) with (get16 (put16 zero_dinode 0 (xshort ty)) 0).
    rewrite get16_put16, xshort_id by (lia || (unfold zero_dinode; rewrite length_replicate; vm_compute; lia)). apply u16_id. lia. }
  assert (get16 (set_nlink (set_type zero_dinode (xshort ty)) (xshort 1)) 6 = 1) as E2.
  { unfold set_nlink. rewrite get16_put16; [done|]. unfold set_type, put16. rewrite length_putn. unfold zero_dinode. rewrite length_replicate. vm_compute. lia. }
  assert (∀ n o, (8 <= o)%nat → (o + n <= 64)%nat → getn n (set_nlink (set_type zero_dinode (xshort ty)) (xshort 1)) o = 0) as E3.
  { intros n o H1 H2. unfold set_nlink, set_type, put16. rewrite !getn_putn_ne by lia. by apply Hz. }
  assert (∀ o, o = 2%nat ∨ o = 4%nat → get16 (set_nlink (set_type zero_dinode (xshort ty)) (xshort 1)) o = 0) as E4.
  { intros o Ho. unfold set_nlink, set_type, get16, put16. rewrite !getn_putn_ne by lia. apply Hz. lia. }
  set (d := set_nlink _ _) in *. unfold inode_at. simpl (0 + _)%nat. rewrite E1, E2, !E4 by auto.
  assert ((λ k, get32 d (12 + 4 * k)) <$> seq 0 NADDRS = replicate NADDRS 0) as ->.
  { apply list_eq_same_length with NADDRS; [done|done|]. intros m x y Hm. rewrite list_lookup_fmap, lookup_seq_lt, lookup_replicate_2 by done.
    intros [= <-] [= <-]. apply E3; unfold NADDRS in *; lia. }
  assert (i16 ty = ty) as -> by (unfold i16; change (2 ^ 15) with 32768 in *; change (2 ^ 16) with 65536; zdiv). done.
Qed.

Lemma saddr_none v i k : 0 <= k <= MAXFILE → i_addrs i = replicate NADDRS 0 → saddr v i k = 0.
Proof.
  clear. intros Hk E. unfold saddr, indirect. rewrite E. change NDIRECT with 12.
  assert (replicate NADDRS 0 !!! Z.to_nat 12 = 0) as -> by done.
  destruct (Z.ltb_spec k 12); [rewrite lookup_total_replicate_2; [done|unfold NADDRS; lia]|]. by destruct (k =? MAXFILE).
Qed.

(** A sector in front of the inodes is not one of theirs. *)
Lemma put_inode_meta s j din y : 0 <= j < NINODES → 0 <= y < sb_inodestart SB → m_img (put_inode s j din) !!! Z.to_nat y = m_img s !!! Z.to_nat y.
Proof.
  clear. intros Hj Hy. pose proof (iblock_range j Hj). change (sb_inodestart SB) with 32 in Hy. unfold put_inode. simpl.
  apply list_lookup_total_insert_ne. lia.
Qed.

Lemma home_iblock j : 0 <= j < NINODES → home g (IBLOCK j SB).
Proof. clear -Hgs Hgn. intros Hj. pose proof (iblock_range j Hj). unfold home. rewrite Hgs, Hgn. change nlog with 30. lia. Qed.

Lemma new_file_is s j ty : image_ok s → 0 <= j < NINODES → 0 <= ty < 2 ^ 15 → file_is (view (put_inode s j (new_din ty))) j ty [].
Proof.
  intros I Hj Ht. pose proof (kino_put I Hj (new_din_len ty)) as Ek. rewrite (new_din_at j ty Ht) in Ek.
  assert (∀ k, 0 <= k <= MAXFILE → saddr (view (put_inode s j (new_din ty))) (kino (view (put_inode s j (new_din ty))) j) k = 0) as Ez.
  { intros k Hk. apply saddr_none; [done|]. by rewrite Ek. }
  assert (image_ok (put_inode s j (new_din ty))) as I' by (apply image_put; [done|done|apply new_din_len]).
  destruct (iblock_facts I Hj) as (H1 & H2 & H3). split; try (by rewrite Ek).
  - split; [by rewrite Ek|..].
    + intros k Hk. by rewrite Ez.
    + intros k k' Hk Hk'. by rewrite Ez.
    + rewrite Ek. apply in_use_view; [done|simpl; lia|by apply home_iblock|done].
  - intros k Hk. rewrite Ez by done. split; [intros _|done]. unfold from_size. change NDIRECT with 12. change BSIZE with 1024. simpl (Z.of_nat _). destruct (k =? MAXFILE); lia.
  - done.
  - intros k Hk. unfold cbyte. rewrite Ez; [done|]. change BSIZE with 1024 in *. zdiv.
  - intros k Hk. by rewrite Ez.
Qed.

Lemma ialloc_run fs s ty : built fs s → 1 + Z.of_nat (length fs) < NINODES → 0 <= ty < 2 ^ 15 →
  wp (ialloc lseek_ok write_ok read_ok ty) (λ r s', r = 1 + Z.of_nat (length fs) ∧ built (fs ++ [(ty, [])]) s') s.
Proof.
  intros B Hn Ht. set (j := 1 + Z.of_nat (length fs)). assert (0 <= j < NINODES) as Hj by lia. unfold ialloc. wp_step. apply wp_gets. rewrite (bu_fi _ _ B). fold j.
  wp_step. apply wp_modify. set (s1 := s <| m_freeinode := u32 (j + 1) |>).
  assert (image_ok s1) as I1 by (destruct B as [[I1 I2 I3 I4 I5] _ _ _ _ _ _]; by split). change NINODES with 200 in Hn.
  wp_step. change (set_size _ _) with (new_din ty). apply (wp_winode I1 Hj). wp_step. split; [done|]. set (s2 := put_inode s1 j (new_din ty)).
  assert (∀ m, (m < length fs)%nat → m ≠ length fs → kino (view s2) (1 + Z.of_nat m) = kino (view s) (1 + Z.of_nat m)) as Hk.
  { intros m Hm _. apply (kino_put_ne I1 Hj (new_din_len ty)); change NINODES with 200; lia. }
  assert (∀ y, nmeta <= y < m_freeblock s → (∀ k, (length fs < length fs)%nat → 0 <= k <= MAXFILE → slot (view s) (length fs) k ≠ y) → view s2 y = view s y) as Hv.
  { intros y Hy _. apply (view_put_ne I1 Hj). pose proof (iblock_range j Hj). rewrite nmeta_val in Hy. lia. }
  assert (image_ok s2) as I2 by (by apply image_put; [..|apply new_din_len]).
  assert (file_is (view s2) j ty []) as F2 by (by apply new_file_is).
  assert (∀ k, 0 <= k <= MAXFILE → slot (view s2) (length fs) k = 0) as Hz.
  { intros k Hkr. apply (fi_filled _ _ _ _ F2); [done|]. unfold from_size. change NDIRECT with 12. change BSIZE with 1024. simpl (Z.of_nat _). destruct (k =? MAXFILE); lia. }
  split; rewrite ?length_app; simpl (length [_]); try done.
  - simpl. rewrite u32_id; lia.
  - change NINODES with 200. lia.
  - rewrite total_snoc. change (sectors (Z.of_nat (length ([] : list Z)))) with 0. rewrite Z.add_0_r. apply B.
  - intros n f [E|[Hge E]]%lookup_app_Some.
    + eapply (others_file B I2); [done|exact Hk|exact Hv|done|]. apply lookup_lt_Some in E. lia.
    + apply list_lookup_singleton_Some in E as [E <-]. replace n with (length fs) by lia. exact F2.
  - intros n n' k k' Hn1 Hn2 Hk1 Hk2 Hnz E. destruct (decide (n = length fs)) as [->|Hne]; [by rewrite Hz in Hnz|].
    destruct (decide (n' = length fs)) as [->|Hne']; [by rewrite E, Hz in Hnz|].
    rewrite (others_slot B Hk Hv n k), ?(others_slot B Hk Hv n' k') in * by lia. by apply (bu_sep _ _ B n n' k k'); [lia|lia|..].
  - intros y Hy. unfold s2. rewrite put_inode_meta by done. by apply (bu_meta _ _ B).
Qed.

(** ** [iappend] *)
Section append.
Context {fs : files} {s : mkstate} {n : nat} {ty : Z} {bs p : list Z} (B : built fs s) (E : fs !! n = Some (ty, bs)).
Context {din din' : list Z} {s1 : mkstate} (Ed : inode_at (1 + Z.of_nat n) din 0 = kino (view s) (1 + Z.of_nat n)).
Context (Hmax : Z.of_nat (length bs) + Z.of_nat (length p) <= MAXFILE * BSIZE).
Abbreviation j := (1 + Z.of_nat n).
Abbreviation end' := (Z.of_nat (length bs) + Z.of_nat (length p)).
Context (A : appended j (Z.of_nat (length bs)) p din s din' s1).
Abbreviation s2 := (put_inode s1 j (set_size din' end')).

Lemma append_range : (n < length fs)%nat ∧ 0 <= j < NINODES ∧ ∀ m, (m < length fs)%nat → 0 <= 1 + Z.of_nat m < NINODES.
Proof.
  clear -B E. apply lookup_lt_Some in E as Hn. pose proof (bu_n _ _ B). split_and!; [done|lia|lia|]. intros m Hm. lia.
Qed.

Lemma append_file : file_is (view s) j ty bs.
Proof. clear -B E. exact (bu_files _ _ B n _ E). Qed.

Lemma append_fb : m_freeblock s1 = m_freeblock s + (sectors end' - sectors (Z.of_nat (length bs))) ∧ m_freeblock s <= m_freeblock s1.
Proof. clear -A. pose proof (ap_fb _ _ _ _ _ _ _ A) as Ef. split; [done|]. pose proof (sectors_mono (Z.of_nat (length bs)) end' ltac:(lia)). lia. Qed.

(** The blocks that were in use and are not of this file. *)
Lemma append_frame y : 0 <= y < m_freeblock s → y ≠ sb_bmapstart SB → (∀ k, 0 <= k <= MAXFILE → slot (view s) n k = y → y = 0) → view s1 y = view s y.
Proof.
  clear -A B Ed. intros Hy Hb Hno. pose proof (bu_img _ _ B) as I. pose proof (im_fb _ I).
  apply (gr_frame _ _ _ _ _ _ _ _ _ (ap_grows _ _ _ _ _ _ _ A)); [rewrite SB_size; lia| |done|by rewrite Ed].
  rewrite view_used by (done || lia). apply Z.ltb_lt. lia.
Qed.

Lemma append_meta y : 0 <= y < 45 → view s1 y = view s y.
Proof.
  intros Hy. pose proof (im_fb _ (bu_img _ _ B)) as Hr. rewrite nmeta_val in Hr. destruct append_range as (Hn & _).
  apply append_frame; [lia|rewrite SB_bmap; lia|]. intros k Hk Es. destruct (decide (y = 0)) as [|Hz]; [done|].
  pose proof (built_slot fs s n k B Hn Hk) as Hs. rewrite Es, nmeta_val in Hs. specialize (Hs Hz). lia.
Qed.

Lemma append_kino m : 0 <= m < NINODES → m ≠ j → kino (view s2) m = kino (view s) m.
Proof.
  intros Hm Hne. destruct append_range as (_ & Hj & _). rewrite (kino_put_ne (ap_img _ _ _ _ _ _ _ A) Hj); [|apply length_set_size, A|done|done].
  unfold kino. by rewrite append_meta by (pose proof (iblock_range m Hm); lia).
Qed.

Lemma append_view y : nmeta <= y → view s2 y = view s1 y.
Proof.
  intros Hy. destruct append_range as (_ & Hj & _). apply (view_put_ne (ap_img _ _ _ _ _ _ _ A) Hj). pose proof (iblock_range j Hj). rewrite nmeta_val in Hy. lia.
Qed.

Lemma append_image : image_ok s2.
Proof. destruct append_range as (_ & Hj & _). apply image_put; [apply A|done|apply length_set_size, A]. Qed.

Lemma append_inode : kino (view s2) j = (inode_at j din' 0) <| i_size := end' |>.
Proof.
  destruct append_range as (_ & Hj & _). rewrite (kino_put (ap_img _ _ _ _ _ _ _ A) Hj) by (apply length_set_size, A).
  apply set_size_at; [apply A|]. change MAXFILE with 268 in Hmax. change BSIZE with 1024 in Hmax. lia.
Qed.

Lemma append_slot k : slot (view s2) n k = saddr (view s1) (inode_at j din' 0) k.
Proof.
  destruct append_range as (_ & Hj & _). unfold slot. rewrite append_inode, <-(saddr_ext (view_put (ap_img _ _ _ _ _ _ _ A) Hj)).
  apply (inode_saddr (gr_wf _ _ _ _ _ _ _ _ _ (ap_grows _ _ _ _ _ _ _ A))). done.
Qed.

(** A block of the file was its own already, or was free. *)
Lemma append_owned k : 0 <= k <= MAXFILE → slot (view s2) n k ≠ 0 → slot (view s2) n k = slot (view s) n k ∨ m_freeblock s <= slot (view s2) n k.
Proof.
  intros Hk. rewrite append_slot. intros Hn. pose proof (ap_grows _ _ _ _ _ _ _ A) as G.
  destruct (gr_new _ _ _ _ _ _ _ _ _ G k Hk) as [->|Hu]; [left; unfold slot; by rewrite Ed|right].
  destruct (fw_own _ _ _ _ (gr_wf _ _ _ _ _ _ _ _ _ G) k Hk Hn) as [(Hr & _) _]. rewrite view_used in Hu by (done || apply B). by apply Z.ltb_ge.
Qed.

Lemma append_data k : 0 <= k <= MAXFILE → slot (view s2) n k ≠ 0 → nmeta <= slot (view s2) n k.
Proof.
  intros Hk Hn. destruct append_range as (Hr & _). destruct (append_owned k Hk Hn) as [Eq|Hf]; [|pose proof (im_fb _ (bu_img _ _ B)); lia].
  rewrite Eq in *. by apply (built_slot fs).
Qed.

Lemma append_bytes k : 0 <= k < MAXFILE * BSIZE → cbyte (view s2) (kino (view s2) j) k = default 0 ((bs ++ p) !! Z.to_nat k).
Proof.
  intros Hk. destruct append_range as (_ & Hj & _). rewrite append_inode, <-(cbyte_ext (view_put (ap_img _ _ _ _ _ _ _ A) Hj)).
  etrans; [apply (inode_bytes (gr_wf _ _ _ _ _ _ _ _ _ (ap_grows _ _ _ _ _ _ _ A))); done|].
  rewrite (ap_bytes _ _ _ _ _ _ _ A k Hk), Ed, (fi_bytes _ _ _ _ append_file k Hk). case_decide.
  - rewrite lookup_app_r by lia. rewrite list_lookup_total_alt. replace (Z.to_nat (k - Z.of_nat (length bs))) with (Z.to_nat k - length bs)%nat by lia.
    destruct (lookup_lt_is_Some_2 p (Z.to_nat k - length bs)) as [x ->]; [lia|done].
  - destruct (decide (k < Z.of_nat (length bs))); [by rewrite lookup_app_l by lia|].
    rewrite !lookup_ge_None_2; [done|rewrite length_app; lia|lia].
Qed.

Lemma append_file_is : file_is (view s2) j ty (bs ++ p).
Proof.
  destruct append_range as (_ & Hj & _). pose proof append_inode as Ek. pose proof append_file as [F1 F2 F3 F4 F5 F6 F7 F8].
  pose proof (ap_grows _ _ _ _ _ _ _ A) as G. pose proof (gr_i _ _ _ _ _ _ _ _ _ G) as Gi. rewrite Ed in Gi.
  pose proof (gr_wf _ _ _ _ _ _ _ _ _ G) as W. split.
  - rewrite Ek. etrans; [exact (f_equal i_type Gi)|exact F1].
  - rewrite Ek. etrans; [exact (f_equal i_nlink Gi)|exact F2].
  - rewrite Ek, length_app. change (i_size (_ <| i_size := end' |>)) with end'. lia.
  - rewrite Ek. apply (file_wf_ext (view_put (ap_img _ _ _ _ _ _ _ A) Hj)).
    apply (inode_ok (gr_fs _ _ _ _ _ _ _ _ _ G) W); [|done|done|done|done]. apply length_put_inode; [apply A|done|apply length_set_size, A].
  - intros k Hk. pose proof (append_slot k) as Es. unfold slot in Es. rewrite Es, length_app, Nat2Z.inj_add. by apply (ap_filled _ _ _ _ _ _ _ A).
  - rewrite length_app. lia.
  - intros k Hk. by apply append_bytes.
  - intros k Hk. apply (append_data k Hk).
Qed.

Lemma append_built : built (<[n := (ty, bs ++ p)]> fs) s2.
Proof.
  destruct append_range as (Hn & Hj & Hm). destruct append_fb as [Ef Hf]. pose proof append_image as I2.
  assert (∀ m, (m < length fs)%nat → m ≠ n → kino (view s2) (1 + Z.of_nat m) = kino (view s) (1 + Z.of_nat m)) as Hk by (intros m Hl Hne; apply append_kino; [by apply Hm|lia]).
  assert (∀ y, nmeta <= y < m_freeblock s → (∀ k, (n < length fs)%nat → 0 <= k <= MAXFILE → slot (view s) n k ≠ y) → view s2 y = view s y) as Hv.
  { intros y Hy Hno. rewrite append_view by lia. rewrite nmeta_val in Hy. apply append_frame; [lia|rewrite SB_bmap; lia|]. intros k Hkr Es. by destruct (Hno k Hn Hkr). }
  assert (∀ m k, (m < length fs)%nat → m ≠ n → slot (view s2) m k = slot (view s) m k) as Hs by (intros; by apply (others_slot B Hk Hv)).
  assert (∀ m k k', (m < length fs)%nat → m ≠ n → 0 <= k <= MAXFILE → 0 <= k' <= MAXFILE → slot (view s2) n k ≠ 0 → slot (view s2) n k = slot (view s2) m k' → False) as Hsep.
  { intros m k k' Hl Hne Hk1 Hk2 Hnz Eq. rewrite (Hs m) in Eq by done. destruct (append_owned k Hk1 Hnz) as [Eo|Ho].
    - apply Hne. symmetry. apply (bu_sep _ _ B n m k k'); try done; congruence.
    - rewrite Eq in Hnz. pose proof (built_slot fs s m k' B Hl Hk2 Hnz). lia. }
  split; rewrite ?length_insert; try done; try apply B.
  - simpl. rewrite (ap_fi _ _ _ _ _ _ _ A). apply B.
  - simpl (m_freeblock _). rewrite Ef, (bu_fb _ _ B), (total_insert fs n _ _ E). simpl. rewrite length_app, Nat2Z.inj_add. lia.
  - intros m f Em. destruct (decide (m = n)) as [->|Hne].
    + rewrite list_lookup_insert_eq in Em by done. injection Em as <-. exact append_file_is.
    + rewrite list_lookup_insert_ne in Em by done. by eapply (others_file B I2 Hf).
  - intros a b k k' Ha Hb Hk1 Hk2 Hnz Eq. destruct (decide (a = n)) as [->|Hna], (decide (b = n)) as [->|Hnb]; [done| | |].
    + exfalso. by apply (Hsep b k k').
    + exfalso. apply (Hsep a k' k); congruence.
    + rewrite !Hs in * by done. by apply (bu_sep _ _ B a b k k').
  - intros y Hy. rewrite put_inode_meta by done. change (sb_inodestart SB) with 32 in Hy. rewrite <-(bu_meta _ _ B y) by done.
    rewrite <-!view_get by (rewrite SB_bmap; lia). apply append_meta. lia.
Qed.
End append.

Lemma iappend_run fs s n ty bs p : built fs s → fs !! n = Some (ty, bs) → Z.of_nat (length (bs ++ p)) <= MAXFILE * BSIZE →
  nmeta + total (<[n := (ty, bs ++ p)]> fs) <= FSSIZE →
  wp (iappend lseek_ok write_ok read_ok (1 + Z.of_nat n) p) (λ _ s', built (<[n := (ty, bs ++ p)]> fs) s') s.
Proof.
  intros B E Hmax Hroom. destruct (append_range B E) as (Hn & Hj & _). pose proof (append_file B E) as F. pose proof (bu_img _ _ B) as I.
  destruct (din_of s (1 + Z.of_nat n) I Hj) as (Hl & Ed & Es). rewrite length_app, Nat2Z.inj_add in Hmax.
  rewrite (total_insert fs n _ _ E) in Hroom. simpl in Hroom. rewrite length_app, Nat2Z.inj_add in Hroom. pose proof (bu_fb _ _ B) as Hfb.
  assert (MAXFILE * BSIZE = 274432) as EM by done. unfold iappend. wp_step. apply (wp_rinode I Hj). set (din := take _ _) in *.
  rewrite Es, (fi_size _ _ _ _ F), xint_id by lia.
  wp_step. eapply wp_mono; [apply (iappend_loop_run (1 + Z.of_nat n) (length p) p (Z.of_nat (length bs)) din s)|].
  - done.
  - done.
  - done.
  - rewrite Ed. apply F.
  - rewrite Ed. apply F.
  - lia.
  - lia.
  - lia.
  - intros [din' off'] s1 [Eo A]. simpl in Eo, A. subst off'. rewrite xint_id by lia. apply wp_winode; [apply A|done|].
    by eapply append_built.
Qed.
End mkfs.
