(* ===== verification/MkfsImage.v ===== *)
(** * The image that [mkfs] makes

    [main] of [mkfs/mkfs.c] leaves an image of the kind the kernel's file system
    works on: the free map tells the blocks of the files from the free ones, no
    block is in two files, the files hold the bytes that were read, and the root
    directory maps their names to their inodes. *)
From S2P Require Import Prelude Machine Cstring Sleeplock Blocks Bio Log Printf Fs FsSpec FsInode FsFile FsWrite FsDir Mkfs MkfsSpec.

Abbreviation input := (list Z * option (list (list Z)))%type.

(** ** The contents of the image *)

(** The contents [fs] of the disk need no more room than [fs']. *)
Definition within (fs fs' : list (Z * list Z)) : Prop := ∀ n f, fs !! n = Some f → ∃ f', fs' !! n = Some f' ∧ (length f.2 <= length f'.2)%nat.

Lemma sectors_nonneg n : 0 <= n → 0 <= sectors n.
Proof. intros Hn. unfold sectors. change NDIRECT with 12. change BSIZE with 1024. destruct (_ <? n); zdiv. Qed.

Lemma total_within fs fs' : within fs fs' → total fs <= total fs'.
Proof.
  revert fs'. induction fs as [|f fs IH]; intros fs' H.
  - simpl. clear H. induction fs' as [|f' fs' IH]; [done|]. simpl in *. pose proof (sectors_nonneg (Z.of_nat (length f'.2)) ltac:(lia)). lia.
  - destruct (H O f eq_refl) as (f' & E & Hl). destruct fs' as [|x fs']; [done|]. injection E as ->. simpl.
    assert (total fs <= total fs') by (apply IH; intros n y Hy; exact (H (S n) y Hy)).
    pose proof (sectors_mono (Z.of_nat (length f.2)) (Z.of_nat (length f'.2)) ltac:(lia)). lia.
Qed.

Definition entry_name (f : input) : list Z := shortname (strip f.1).
Definition data (f : input) : list Z := concat (default [] f.2).

Definition entry_of (k : nat) (f : input) : list Z := dirent (entry_name f) (2 + Z.of_nat k).

(** The entries of the root directory, and all files. *)
Definition root_entries (l : list input) : list (list Z) :=
  dirent (bytes_of ".") ROOTINO :: dirent (bytes_of "..") ROOTINO :: imap entry_of l.
Definition contents (l : list input) : list (Z * list Z) :=
  (T_DIR, concat (root_entries l)) :: ((λ f, (T_FILE, data f)) <$> l).

(** The files can be read, have a name in the root directory, and fit. *)
Record acceptable (l : list input) : Prop := {
  ac_open : Forall (λ f, is_Some f.2) l;
  ac_name : Forall (λ f, (47 : Z) ∉ strip f.1) l;
  ac_size : Forall (λ f, Z.of_nat (length (data f)) <= MAXFILE * BSIZE) l;
  ac_count : 2 + Z.of_nat (length l) <= NINODES;
  ac_room : nmeta + total (contents l) <= FSSIZE;
}.

Lemma root_entries_snoc l f : root_entries (l ++ [f]) = root_entries l ++ [entry_of (length l) f].
Proof. unfold root_entries. rewrite imap_app. simpl. by rewrite Nat.add_0_r. Qed.

Lemma root_length l : length (concat (root_entries l)) = (16 * (2 + length l))%nat.
Proof.
  assert (∀ L : list (list Z), Forall (λ e, length e = 16%nat) L → length (concat L) = (16 * length L)%nat) as H.
  { induction 1 as [|e L He _ IH]; [done|]. simpl. rewrite length_app, He, IH. lia. }
  rewrite H; [unfold root_entries; simpl; by rewrite length_imap|]. unfold root_entries.
  repeat constructor; try apply length_dirent. apply Forall_lookup. intros k e Hk. rewrite list_lookup_imap in Hk. apply fmap_Some in Hk as (f & _ & ->). apply length_dirent.
Qed.
(** ** The root directory *)
Lemma concat_lookup {A} (n : nat) (L : list (list A)) k e j : Forall (λ e, length e = n) L → L !! k = Some e → (j < n)%nat → concat L !! (n * k + j)%nat = e !! j.
Proof.
  intros H. revert k. induction H as [|x L Hx _ IH]; intros [|k] E Hj; try done; simpl in *.
  - injection E as ->. rewrite Nat.mul_0_r. by rewrite lookup_app_l by lia.
  - rewrite lookup_app_r by lia. rewrite <-(IH k E Hj). f_equal. lia.
Qed.

Lemma root_entries_len l : Forall (λ e, length e = 16%nat) (root_entries l).
Proof.
  unfold root_entries. repeat constructor; try apply length_dirent. apply Forall_lookup. intros k e Hk.
  rewrite list_lookup_imap in Hk. apply fmap_Some in Hk as (f & _ & ->). apply length_dirent.
Qed.

Section root.
Context {v : Z → block} {i : inode} {l : list input}.
Context (Hb : ∀ k, 0 <= k < MAXFILE * BSIZE → cbyte v i k = default 0 (concat (root_entries l) !! Z.to_nat k)) (Hs : 0 <= i_size i <= MAXFILE * BSIZE).
Abbreviation L := (root_entries l).

Lemma dent_root k : 0 <= k → k * 16 + 16 <= MAXFILE * BSIZE → dent v i k = default (replicate 16 0) (L !! Z.to_nat k).
Proof.
  clear Hs. intros Hk Hm. unfold dent. change DIRENT with 16. apply list_eq_same_length with 16%nat.
  - destruct (L !! Z.to_nat k) as [e|] eqn:E; [|done]. exact (Forall_lookup_1 _ _ _ _ (root_entries_len l) E).
  - by rewrite length_fmap, length_seqZ.
  - intros j x y Hj. rewrite list_lookup_fmap, (proj2 (lookup_seqZ _ _ _ (k * 16 + Z.of_nat j))) by (split; [done|lia]).
    intros [= <-] Hy. rewrite Hb by lia. replace (Z.to_nat (k * 16 + Z.of_nat j)) with (16 * Z.to_nat k + j)%nat by lia.
    destruct (L !! Z.to_nat k) as [e|] eqn:E.
    + rewrite (concat_lookup 16 L _ e) by (done || apply root_entries_len). simpl in Hy. by rewrite Hy.
    + apply lookup_ge_None in E. rewrite lookup_ge_None_2; [|rewrite root_length; unfold root_entries in E; simpl in E; rewrite length_imap in E; lia].
      apply lookup_replicate in Hy as [-> _]. done.
Qed.

Lemma list_find_replicate {A} (P : A → Prop) `{!∀ x, Decision (P x)} n x : ¬ P x → list_find P (replicate n x) = None.
Proof. clear. intros Hn. apply list_find_None. by apply Forall_replicate. Qed.

Lemma dir_get_root nm : Z.of_nat (length L) <= i_size i / DIRENT → dir_get v i nm = de_inum <$> (snd <$> list_find (named nm) L).
Proof.
  intros Hn. rewrite dir_get_snd. assert (dents v i = L ++ replicate (Z.to_nat (i_size i / DIRENT) - length L) (replicate 16 0)) as ->.
  { apply list_eq_same_length with (Z.to_nat (i_size i / DIRENT)); [rewrite length_app, length_replicate; lia|by rewrite length_dents|].
    intros m x y Hm [-> Hlt]%dents_lookup Hy. rewrite dent_root by (change DIRENT with 16 in *; zdiv). rewrite Nat2Z.id.
    destruct (L !! m) as [e|] eqn:E; [rewrite lookup_app_l in Hy by (by eapply lookup_lt_Some); simpl; congruence|].
    rewrite lookup_app_r in Hy by (by apply lookup_ge_None). by apply lookup_replicate in Hy as [-> _]. }
  destruct (list_find (named nm) L) as [[n e]|] eqn:E; [by rewrite (list_find_app_l _ _ _ _ _ E)|].
  rewrite (list_find_app_r _ _ _ E), list_find_replicate; [done|]. intros [Hz _]. by apply Hz.
Qed.
End root.

(** ** The image, as the kernel reads it *)
Section holds.
Context (g : log) (l : list input).

Record holds (v : Z → block) : Prop := {
  ho_blocks : ∀ y, 0 <= y < FSSIZE → length (v y) = Z.to_nat BSIZE;
  ho_super : decode_super (v 1) = superblock_of;
  ho_log : v (sb_logstart superblock_of) = zero_block;
  ho_fs : fs_ok superblock_of g v;
  ho_root : dir_ok superblock_of g v (kino v ROOTINO);
  ho_dir : ∀ nm, dir_get v (kino v ROOTINO) nm = de_inum <$> (snd <$> list_find (named nm) (root_entries l));
  ho_files : ∀ n f, l !! n = Some f → file_is (g := g) v (2 + Z.of_nat n) T_FILE (data f);
  ho_sep : ∀ n n' k k', (n <= length l)%nat → (n' <= length l)%nat → 0 <= k <= MAXFILE → 0 <= k' <= MAXFILE →
    slot v n k ≠ 0 → slot v n k = slot v n' k' → n = n';
}.

Section ext.
Context {v v' : Z → block} (E : ∀ y, v y = v' y).

Lemma kino_ext j : kino v j = kino v' j.
Proof. unfold kino. by rewrite E. Qed.

Lemma slot_ext n k : slot v n k = slot v' n k.
Proof. unfold slot. by rewrite kino_ext, (saddr_ext E). Qed.

Lemma file_is_ext j ty bs : file_is (g := g) v j ty bs → file_is (g := g) v' j ty bs.
Proof.
  intros [F1 F2 F3 F4 F5 F6 F7 F8]. split; rewrite <-?kino_ext; try done.
  - by apply (file_wf_ext E).
  - intros k Hk. rewrite <-(saddr_ext E). by apply F5.
  - intros k Hk. rewrite <-(cbyte_ext E). by apply F7.
  - intros k Hk. rewrite <-(saddr_ext E). by apply F8.
Qed.

Lemma dir_get_ext i nm : dir_get v i nm = dir_get v' i nm.
Proof.
  unfold dir_get, dents. do 2 f_equal. apply list_fmap_ext. intros n k _. unfold dent. apply list_fmap_ext. intros m x _. apply (cbyte_ext E).
Qed.

Lemma holds_ext : holds v → holds v'.
Proof.
  intros [H1 H2 H3 H4 H5 H6 H7 H8]. split; rewrite <-?E, <-?kino_ext; try assumption.
  - intros y Hy. rewrite <-E. by apply H1.
  - by apply (fs_ok_ext E).
  - destruct H5 as [D1 D2 D3 D4]. split; try assumption; [by apply (file_wf_ext E)|]. intros bn Hb Hlt. rewrite <-(saddr_ext E). by apply D4.
  - intros nm. rewrite <-dir_get_ext. apply H6.
  - intros n f Hn. by apply file_is_ext, H7.
  - intros n n' k k'. rewrite <-!slot_ext. apply H8.
Qed.
End ext.
End holds.

Section main.
Context {lseek_ok write_ok read_ok : Z → bool}.
Context (Hls : ∀ x, 0 <= x < FSSIZE → lseek_ok x = true) (Hwr : ∀ x, 0 <= x < FSSIZE → write_ok x = true).
Context (Hrd : ∀ x, 0 <= x < FSSIZE → read_ok x = true).
Context {g : log} (Hgs : lg_start g = 2) (Hgn : lg_size g = nlog).
Abbreviation built' := (built (g := g)).

(** ** A file of the command line *)
Section add.
Context {l pre suf : list input} {f : input} (Hl : l = pre ++ f :: suf) (Ac : acceptable l).

(** The files while [f] is added: the root directory and what was read so far. *)
Definition mid (d r : list Z) : list (Z * list Z) := (T_DIR, d) :: ((λ f, (T_FILE, data f)) <$> pre) ++ [(T_FILE, r)].

Lemma mid_within d r : (length d <= length (concat (root_entries l)))%nat → (length r <= length (data f))%nat → within (mid d r) (contents l).
Proof.
  clear -Hl. intros Hd Hr [|n] x E; [injection E as <-; by eexists|]. 
  change ((((λ f, (T_FILE, data f)) <$> pre) ++ [(T_FILE, r)]) !! n = Some x) in E. change (contents l !! S n) with (((λ f, (T_FILE, data f)) <$> l) !! n).
  rewrite Hl, list_lookup_fmap. apply lookup_app_Some in E as [E|[Hge E]].
  - rewrite list_lookup_fmap in E. apply fmap_Some in E as (h & Eh & ->). rewrite lookup_app_l by (by eapply lookup_lt_Some). rewrite Eh. by eexists.
  - rewrite length_fmap in Hge, E. apply list_lookup_singleton_Some in E as [E <-]. rewrite lookup_app_r by done. rewrite E. by eexists.
Qed.

Lemma mid_total d r : (length d <= length (concat (root_entries l)))%nat → (length r <= length (data f))%nat → nmeta + total (mid d r) <= FSSIZE.
Proof. intros Hd Hr. pose proof (total_within _ _ (mid_within d r Hd Hr)). pose proof (ac_room _ Ac). lia. Qed.

Lemma reads_run inum reads d s : f.2 = Some reads → inum = 1 + Z.of_nat (S (length pre)) → (length d <= length (concat (root_entries l)))%nat → built' (mid d []) s →
  wp (for_all reads (λ buf, iappend lseek_ok write_ok read_ok inum buf)) (λ _ s', built' (mid d (data f)) s') s.
Proof.
  intros Ef -> Hd B. assert (data f = concat reads) as -> by (unfold data; by rewrite Ef).
  assert (Z.of_nat (length (concat reads)) <= MAXFILE * BSIZE) as Hmax.
  { pose proof (ac_size _ Ac) as H. rewrite Hl, Forall_app, Forall_cons in H. destruct H as (_ & H & _). unfold data in H. by rewrite Ef in H. }
  apply (wp_for_all reads _ (λ done s, built' (mid d (concat done)) s)); [done|]. intros r1 b r2 t Er Bt.
  assert (length (concat r1 ++ b) <= length (concat reads))%nat as Hle by (rewrite Er, concat_app, !length_app; simpl; rewrite length_app; lia).
  assert (∀ r, <[S (length pre) := (T_FILE, r)]> (mid d (concat r1)) = mid d r) as Em.
  { intros r. unfold mid. change (<[S ?n := ?x]> (?h :: ?t)) with (h :: <[n := x]> t). rewrite insert_app_r_alt; rewrite length_fmap; [|done]. by rewrite Nat.sub_diag. }
  rewrite concat_app. simpl (concat [b]). rewrite app_nil_r, <-Em. eapply wp_mono; [apply (iappend_run Hls Hwr Hrd Hgs Hgn _ _ _ T_FILE (concat r1) b Bt)|done].
  - unfold mid. change ((?h :: ?t) !! S ?n) with (t !! n). rewrite lookup_app_r; rewrite length_fmap; [|done]. by rewrite Nat.sub_diag.
  - lia.
  - rewrite Em. apply mid_total; [done|]. unfold data. by rewrite Ef.
Qed.

Lemma add_file_run s : built' (contents pre) s → wp (add_file lseek_ok write_ok read_ok 1 f) (λ _ s', built' (contents (pre ++ [f])) s') s.
Proof.
  intros B. pose proof Ac as [A1 A2 A3 A4 A5]. rewrite Hl, Forall_app, Forall_cons in A1, A2. destruct A1 as (_ & [reads Ef] & _), A2 as (_ & An & _).
  assert (length (contents pre) = S (length pre)) as Elen by (unfold contents; simpl; by rewrite length_fmap).
  assert (length l = length pre + S (length suf))%nat as Ell by (by rewrite Hl, length_app). change NINODES with 200 in A4.
  unfold add_file. wp_step. apply wp_assert; [by apply bool_decide_eq_true|]. rewrite Ef. wp_step.
  eapply wp_mono; [apply (ialloc_run Hls Hwr Hrd Hgs Hgn _ _ T_FILE B); [rewrite Elen; change NINODES with 200; lia|done]|].
  intros inum s1 [-> B1]. rewrite Elen in *. change (contents pre ++ [(T_FILE, [])]) with (mid (concat (root_entries pre)) []) in B1.
  set (d := concat (root_entries pre)) in *. fold (entry_name f). rewrite xshort_id by lia.
  replace (1 + Z.of_nat (S (length pre))) with (2 + Z.of_nat (length pre)) by lia. change (dirent (entry_name f) (2 + Z.of_nat (length pre))) with (entry_of (length pre) f).
  set (e := entry_of (length pre) f). assert (length e = 16%nat) as He by apply length_dirent.
  assert (length (d ++ e) = 16 * (3 + length pre))%nat as Hde by (rewrite length_app, He; unfold d; rewrite root_length; lia).
  assert (length (d ++ e) <= length (concat (root_entries l)))%nat as Hdl by (rewrite Hde, root_length; lia).
  wp_step. eapply wp_mono; [apply (iappend_run Hls Hwr Hrd Hgs Hgn _ _ O T_DIR d e B1 eq_refl)|].
  - rewrite Hde. change (MAXFILE * BSIZE) with 274432. lia.
  - apply (mid_total (d ++ e) []); [done|simpl; lia].
  - intros [] s2 B2. eapply wp_mono; [apply (reads_run _ reads (d ++ e) s2 Ef); [lia|done|exact B2]|]. intros [] s3 B3.
    unfold contents. rewrite root_entries_snoc, concat_app, fmap_app. cbn [concat]. rewrite app_nil_r. exact B3.
Qed.
End add.

(** ** The start *)
Lemma clear_run s : m_img s = [] →
  wp (for_all (seqZ 0 FSSIZE) (λ i, wsect lseek_ok write_ok i zero_block)) (λ _ s', s' = s <| m_img := replicate (Z.to_nat FSSIZE) zero_block |>) s.
Proof.
  clear -Hls Hwr. intros E0. eapply wp_mono; [apply (wp_for_all (seqZ 0 FSSIZE) _ (λ pre t, t = s <| m_img := replicate (length pre) zero_block |>))|].
  - destruct s. simpl in *. by subst.
  - intros pre x suf t E ->. assert (x = Z.of_nat (length pre) ∧ Z.of_nat (length pre) < FSSIZE) as [-> Hx].
    { assert (seqZ 0 FSSIZE !! length pre = Some x) as Ex by (by rewrite E, lookup_app_r, Nat.sub_diag by done). by apply lookup_seqZ in Ex as [-> ?]. }
    unfold wsect. rewrite Hls, Hwr by lia. simpl (negb true). cbv iota. apply wp_modify. rewrite sector_id, Nat2Z.id by lia.
    destruct s as [img sb fi fb]. simpl. f_equal. unfold write_sector. rewrite length_replicate, decide_False, Nat.sub_diag by lia.
    rewrite length_app. simpl. by rewrite replicate_add.
  - intros [] t ->. by rewrite length_seqZ.
Qed.

Lemma base_built s : m_freeinode s = 1 → m_sb s = superblock_of → m_freeblock s = nmeta →
  m_img s = <[1%nat := super_bytes superblock_of]> (replicate (Z.to_nat FSSIZE) zero_block) → built' [] s.
Proof.
  clear. intros E1 E2 E3 E4. assert (∀ y, 0 <= y < FSSIZE → m_img s !!! Z.to_nat y = if decide (y = 1) then super_bytes superblock_of else zero_block) as Hb.
  { intros y Hy. rewrite E4. case_decide as Ey; [subst y; apply list_lookup_total_insert_eq; rewrite length_replicate; vm_compute; lia|].
    rewrite list_lookup_total_insert_ne by lia. apply lookup_total_replicate_2. lia. }
  split; try done.
  - split; try done; [rewrite E3; done|by rewrite E4, length_insert, length_replicate|..].
    + intros y Hy. rewrite Hb by done. case_decide; [unfold super_bytes, put32; by rewrite !length_putn|apply length_replicate].
    + rewrite E3. intros y Hy. rewrite nmeta_val in Hy. rewrite Hb, decide_False by lia. done.
  - intros n n' k k' Hn. simpl in Hn. lia.
  - intros y Hy. apply Hb. change (sb_inodestart superblock_of) with 32 in Hy. change FSSIZE with 2000. lia.
Qed.

(** The root directory with its first two entries. *)
Lemma start_root_run s (k : Z → mk unit) (Q' : unit → mkstate → Prop) : built' [] s →
  (∀ s', built' (contents []) s' → wp (k 1) Q' s') →
  wp (rootino <- ialloc lseek_ok write_ok read_ok T_DIR ;;
      assert_ (rootino =? ROOTINO) ;;;
      iappend lseek_ok write_ok read_ok rootino (dirent (bytes_of ".") (xshort rootino)) ;;;
      iappend lseek_ok write_ok read_ok rootino (dirent (bytes_of "..") (xshort rootino)) ;;;
      k rootino) Q' s.
Proof.
  intros B Hk. wp_step. eapply wp_mono; [by apply (ialloc_run Hls Hwr Hrd Hgs Hgn [] s T_DIR B)|]. intros r s1 [-> B1].
  change (1 + Z.of_nat (length [])) with 1. change (xshort 1) with ROOTINO. wp_step. apply wp_assert; [done|].
  set (e1 := dirent (bytes_of ".") ROOTINO). set (e2 := dirent (bytes_of "..") ROOTINO).
  assert (length e1 = 16%nat ∧ length e2 = 16%nat) as [L1 L2] by (split; apply length_dirent).
  wp_step. eapply wp_mono; [apply (iappend_run Hls Hwr Hrd Hgs Hgn _ s1 O T_DIR [] e1 B1 eq_refl)|].
  - rewrite app_nil_l, L1. done.
  - by vm_compute.
  - intros [] s2 B2. wp_step. eapply wp_mono; [apply (iappend_run Hls Hwr Hrd Hgs Hgn _ s2 O T_DIR ([] ++ e1) e2 B2 eq_refl)|].
    + rewrite app_nil_l, length_app, L1, L2. done.
    + by vm_compute.
    + intros [] s3 B3. apply Hk. unfold contents, root_entries. cbn [imap concat fmap list_fmap]. rewrite app_nil_r. exact B3.
Qed.

Lemma main_files_run img r l s : acceptable l → m_freeinode s = 1 → ∀ Q : unit → mkstate → Prop,
  (∀ s', built' (contents l) s' →
     wp (din <- rinode lseek_ok read_ok 1 ;;
         let off := xint (din_size din) in
         let off := u32 ((off / BSIZE + 1) * BSIZE) in
         winode lseek_ok write_ok read_ok 1 (set_size din (xint off)) ;;;
         b <- gets m_freeblock ;;
         Mkfs.balloc lseek_ok write_ok b) Q s') →
  wp (main lseek_ok write_ok read_ok ((img, Some r) :: l)) Q s.
Proof.
  intros Ac Ei Q HQ. unfold main. wp_steps. eapply wp_mono; [apply clear_run; destruct s; done|]. intros [] s1 ->. set (s1 := _ <| m_img := replicate _ _ |>).
  assert (image_ok s1) as I1.
  { assert (∀ y, 0 <= y < FSSIZE → m_img s1 !!! Z.to_nat y = zero_block) as Hz by (intros y Hy; apply (lookup_total_replicate_2 (Z.to_nat FSSIZE)); lia).
    split; try done; [intros y Hy; rewrite Hz by done; apply length_replicate|].
    intros y Hy. apply Hz. change (m_freeblock s1) with nmeta in Hy. rewrite nmeta_val in Hy. lia. }
  wp_step. apply (wp_wsect Hls Hwr); [done|done|]. cbv beta.
  assert (built' [] (s1 <| m_img ::= <[Z.to_nat 1 := super_bytes superblock_of]> |>)) as B1 by (apply base_built; try done; destruct s; done).
  eapply start_root_run; [exact B1|]. intros s2 B2. wp_step.
  eapply wp_mono; [apply (wp_for_all l _ (λ pre t, built' (contents pre) t) s2 B2)|].
  - intros pre x suf t E Bt. by apply (add_file_run E Ac).
  - intros [] s3 B3. by apply HQ.
Qed.

(** ** The end: the size of the root directory, and the free map *)
Section finish.
Context {l : list input} {s : mkstate} (B : built' (contents l) s) (Hc : 2 + Z.of_nat (length l) <= NINODES) (Hm : (2 + Z.of_nat (length l)) mod 64 ≠ 0).
Abbreviation size := (16 * (2 + Z.of_nat (length l))).
Abbreviation rounded := ((size / BSIZE + 1) * BSIZE).
Context {din : list Z} (Hd : length din = 64%nat) (Ed : inode_at 1 din 0 = kino (view s) 1).
Abbreviation s2 := (put_inode s 1 (set_size din rounded)).

Lemma finish_root : file_is (g := g) (view s) 1 T_DIR (concat (root_entries l)).
Proof. clear -B. exact (bu_files _ _ B O _ eq_refl). Qed.

Lemma finish_size : i_size (kino (view s) 1) = size.
Proof. clear -B. rewrite (fi_size _ _ _ _ finish_root), root_length. lia. Qed.

Lemma finish_range : 0 <= size ∧ rounded <= 4096 ∧ size < rounded.
Proof. clear -Hc. change NINODES with 200 in Hc. change BSIZE with 1024. zdiv. Qed.

Lemma finish_one : 0 <= 1 < NINODES.
Proof. clear. done. Qed.

Lemma finish_kino : kino (view s2) 1 = (kino (view s) 1) <| i_size := rounded |>.
Proof.
  clear -B Hd Ed Hc. destruct finish_range. rewrite (kino_put (bu_img _ _ B) finish_one (length_set_size _ Hd _)), <-Ed. apply set_size_at; [done|].
  change BSIZE with 1024 in *. zdiv.
Qed.

Lemma finish_len n : length (set_size din n) = 64%nat.
Proof. clear -Hd. by apply length_set_size. Qed.

Lemma finish_image : image_ok s2.
Proof. clear -B Hd. apply image_put; [apply B|done|apply finish_len]. Qed.

Lemma finish_others m : (m < length (contents l))%nat → m ≠ O → kino (view s2) (1 + Z.of_nat m) = kino (view s) (1 + Z.of_nat m).
Proof.
  clear -B Hd. intros Hl Hne. pose proof (bu_n _ _ B). apply (kino_put_ne (bu_img _ _ B) finish_one (finish_len _)); lia.
Qed.

Lemma finish_data y : nmeta <= y → view s2 y = view s y.
Proof. clear -B. intros Hy. apply (view_put_ne (bu_img _ _ B) finish_one). rewrite nmeta_val in Hy. change (IBLOCK 1 superblock_of) with 32. lia. Qed.

Lemma finish_slot m k : (m < length (contents l))%nat → slot (view s2) m k = slot (view s) m k.
Proof.
  clear -B Hd Ed Hc. intros Hl. destruct (decide (m = O)) as [->|Hne].
  - unfold slot. change (1 + Z.of_nat 0) with 1. rewrite finish_kino, <-(saddr_ext (view_put (bu_img _ _ B) finish_one)).
    apply (inode_saddr (fi_wf _ _ _ _ finish_root)). done.
  - apply (others_slot (n := O) B); [by apply finish_others| |done|done]. intros y Hy _. apply finish_data. lia.
Qed.

Lemma finish_bytes k : 0 <= k < MAXFILE * BSIZE → cbyte (view s2) (kino (view s2) 1) k = default 0 (concat (root_entries l) !! Z.to_nat k).
Proof.
  clear -B Hd Ed Hc. intros Hk. rewrite finish_kino, <-(cbyte_ext (view_put (bu_img _ _ B) finish_one)).
  etrans; [apply (inode_bytes (fi_wf _ _ _ _ finish_root)); done|]. by apply (fi_bytes _ _ _ _ finish_root).
Qed.

Lemma finish_dir : dir_ok superblock_of g (view s2) (kino (view s2) 1).
Proof.
  destruct finish_range as (R1 & R2 & R3). split.
  - rewrite finish_kino. apply (file_wf_ext (view_put (bu_img _ _ B) finish_one)).
    apply (inode_ok (view_fs_ok Hgs Hgn s (bu_img _ _ B)) (fi_wf _ _ _ _ finish_root)); [|done|done|done|done].
    apply length_put_inode; [apply B|done|apply finish_len].
  - rewrite finish_kino. exact (fi_type _ _ _ _ finish_root).
  - rewrite finish_kino. change (i_size (_ <| i_size := rounded |>)) with rounded. change (MAXFILE * BSIZE) with 274432. change BSIZE with 1024 in *. change DIRENT with 16.
    split; [lia|]. zdiv.
  - intros bn Hb. rewrite finish_kino at 1. change (i_size (_ <| i_size := rounded |>)) with rounded. intros Hlt.
    assert (0 <= bn <= MAXFILE) as Hbm by (change MAXFILE with 268; change BSIZE with 1024 in *; lia).
    pose proof (finish_slot O bn ltac:(simpl; lia)) as Es. unfold slot in Es. change (1 + Z.of_nat 0) with 1 in Es. rewrite Es.
    rewrite (fi_filled _ _ _ _ finish_root bn Hbm), root_length. unfold from_size.
    rewrite (proj2 (Z.eqb_neq _ _)) by (change MAXFILE with 268; change BSIZE with 1024 in *; lia). change BSIZE with 1024 in *. zdiv.
Qed.

Lemma meta_image y : 0 <= y < sb_inodestart superblock_of → view s2 y = if decide (y = 1) then super_bytes superblock_of else zero_block.
Proof.
  clear -B. intros Hy. assert (y ≠ sb_bmapstart superblock_of) by (rewrite SB_bmap; change (sb_inodestart superblock_of) with 32 in Hy; lia).
  rewrite view_get, put_inode_meta by done. by apply (bu_meta _ _ B).
Qed.

Lemma finish_holds : holds g l (view s2).
Proof.
  destruct finish_range as (R1 & R2 & R3). pose proof finish_image as I2.
  assert (length (contents l) = S (length l)) as El by (unfold contents; simpl; by rewrite length_fmap). split.
  - intros y Hy. unfold view. case_decide; [|by apply (im_blk _ I2)]. apply wf_bits. pose proof (im_fb _ I2). rewrite nmeta_val in *. change FSSIZE with 2000 in *. change BPB with 8192. lia.
  - rewrite meta_image by done. vm_compute. done.
  - rewrite meta_image by done. done.
  - by apply (view_fs_ok Hgs Hgn).
  - apply finish_dir.
  - intros nm. apply (dir_get_root finish_bytes).
    + apply finish_dir.
    + change ROOTINO with 1. rewrite finish_kino. change (i_size (_ <| i_size := rounded |>)) with rounded. unfold root_entries. simpl length. rewrite length_imap.
      change BSIZE with 1024 in *. change DIRENT with 16. zdiv.
  - intros n f E. replace (2 + Z.of_nat n) with (1 + Z.of_nat (S n)) by lia.
    apply (others_file B I2 ltac:(done) (n := O) finish_others (λ y Hy _, finish_data y (proj1 Hy)) (S n) (T_FILE, data f)); [|done].
    unfold contents. change ((?h :: ?t) !! S ?n) with (t !! n). by rewrite list_lookup_fmap, E.
  - intros n n' k k' Hn Hn' Hk Hk'. rewrite !finish_slot by (rewrite El; lia). apply (bu_sep _ _ B n n' k k'); rewrite ?El; assumption || lia.
Qed.
End finish.

(** [balloc] puts the free map of the view on the image. *)
Lemma balloc_run_image s : image_ok s → wp (Mkfs.balloc lseek_ok write_ok (m_freeblock s)) (λ _ s', length (m_img s') = Z.to_nat FSSIZE ∧ ∀ y, view s y = m_img s' !!! Z.to_nat y) s.
Proof.
  clear -Hls Hwr. intros I. pose proof (im_fb _ I) as Hr. rewrite nmeta_val in Hr. change FSSIZE with 2000 in Hr.
  unfold Mkfs.balloc. wp_step. apply wp_assert; [apply Z.ltb_lt; change BSIZE with 1024; lia|]. wp_step. apply wp_gets. rewrite (im_sb _ I), SB_bmap.
  apply (wp_wsect Hls Hwr); [done|done|]. split; [simpl; by rewrite length_insert, (im_len _ I)|]. intros y. unfold view. rewrite SB_bmap. change (m_img (_ <| _ ::= _ |>)) with (<[Z.to_nat 45 := bits (m_freeblock s)]> (m_img s)).
  case_decide as E; [subst y; rewrite list_lookup_total_insert_eq; [done|rewrite (im_len _ I); vm_compute; lia]|].
  rewrite list_lookup_total_insert_ne by lia. done.
Qed.

(** The sectors of the image. *)
Definition disk (s : mkstate) : Z → block := λ y, m_img s !!! Z.to_nat y.

Lemma finish_run l s : built' (contents l) s → 2 + Z.of_nat (length l) <= NINODES → (2 + Z.of_nat (length l)) mod 64 ≠ 0 →
  wp (din <- rinode lseek_ok read_ok 1 ;;
      let off := xint (din_size din) in
      let off := u32 ((off / BSIZE + 1) * BSIZE) in
      winode lseek_ok write_ok read_ok 1 (set_size din (xint off)) ;;;
      b <- gets m_freeblock ;;
      Mkfs.balloc lseek_ok write_ok b) (λ _ s', length (m_img s') = Z.to_nat FSSIZE ∧ holds g l (disk s')) s.
Proof.
  intros B Hc Hm. pose proof (bu_img _ _ B) as I. destruct (din_of s 1 I finish_one) as (Hd & Ed & Es). destruct (finish_range Hc) as (R1 & R2 & R3).
  wp_step. apply (wp_rinode Hls Hrd I finish_one). rewrite Es, (finish_size B), xint_id by lia. cbv zeta. rewrite u32_id, xint_id by (change BSIZE with 1024 in *; zdiv).
  wp_step. apply (wp_winode Hls Hwr Hrd I finish_one). set (din := take _ _) in *. pose proof (finish_image B Hd) as I2. wp_step. apply wp_gets.
  eapply wp_mono; [apply (balloc_run_image _ I2)|]. intros [] s3 [El Ev]. split; [done|]. apply (holds_ext g l Ev). by apply finish_holds.
Qed.

(** ** The files by their names *)

(** The name of the file in place [n] is not one of the entries before it. *)
Definition own_name (l : list input) (n : nat) (nm : list Z) : Prop :=
  nm ≠ bytes_of "." ∧ nm ≠ bytes_of ".." ∧ ∀ m f, (m < n)%nat → l !! m = Some f → name_of (entry_name f) ≠ nm.

Lemma root_find l n f : 2 + Z.of_nat (length l) <= NINODES → l !! n = Some f → own_name l n (name_of (entry_name f)) →
  de_inum <$> (snd <$> list_find (named (name_of (entry_name f))) (root_entries l)) = Some (2 + Z.of_nat n).
Proof.
  clear. intros Hc E (H1 & H2 & H3). pose proof (lookup_lt_Some _ _ _ E) as Hn. change NINODES with 200 in Hc.
  assert (de_inum (entry_of n f) = 2 + Z.of_nat n) as Ei by (unfold entry_of; rewrite dirent_inum, u16_id; lia).
  assert (list_find (named (name_of (entry_name f))) (root_entries l) = Some (S (S n), entry_of n f)) as ->; [|simpl; by rewrite Ei].
  apply list_find_Some. split_and!.
  - unfold root_entries. change ((?a :: ?b :: ?t) !! S (S ?n)) with (t !! n). by rewrite list_lookup_imap, E.
  - split; [lia|]. unfold entry_of. by rewrite dirent_name.
  - intros [|[|m]] e Em Hm [_ Hnm].
    + injection Em as <-. by rewrite dirent_name in Hnm.
    + injection Em as <-. by rewrite dirent_name in Hnm.
    + unfold root_entries in Em. change ((?a :: ?b :: ?t) !! S (S ?n)) with (t !! n) in Em. rewrite list_lookup_imap in Em. apply fmap_Some in Em as (f' & Ef & ->).
      unfold entry_of in Hnm. rewrite dirent_name in Hnm. apply (H3 m f'); [lia|done|done].
Qed.

Lemma main_run img r l : acceptable l → (2 + Z.of_nat (length l)) mod 64 ≠ 0 →
  wp (main lseek_ok write_ok read_ok ((img, Some r) :: l)) (λ _ s', length (m_img s') = Z.to_nat FSSIZE ∧ holds g l (disk s')) init_state.
Proof. intros Ac Hm. apply main_files_run; [done|done|]. intros s' B. apply finish_run; [done|apply Ac|done]. Qed.

End main.

Module MkfsDemo.
Definition cat : input := (bytes_of "user/_cat", Some [[127; 69; 76; 70]; [1; 2]]).
Definition readme : input := (bytes_of "README", Some [replicate 1024 10; [10]]).
Definition log0 : log := Log 2 30 0 0 1 0 [].

Lemma accepts : acceptable [cat; readme].
Proof.
  split; [| | |done|vm_compute; discriminate]; repeat constructor; try done; try (by apply (bool_decide_unpack _)); vm_compute; discriminate.
Qed.
End MkfsDemo.

