(* ===== verification/Mount.v ===== *)
(** * From [mkfs] to a running file system

    [fsinit] on a machine whose disk is an image that [mkfs] made: the superblock
    is the one [mkfs] wrote, recovery finds an empty log and changes nothing, and
    the file system is in the state between two transactions that the theorems on
    its operations start from. *)
From S2P Require Import Prelude Machine Cstring Spinlock Sleeplock Blocks Bio Log LogSpec UserMem Printf Fs FsSpec FsInode FsFile FsWrite FsDir Mkfs MkfsSpec MkfsImage.

Section mount.
Context {D U : Type} `{DiskSpec D} `{UserMem U} {c : ctx} {d : Z}.
Abbreviation fst' := (fstate D U).

(** The machine after [binit]: no buffer in use, disk contents [v]. *)
Definition started (v : Z → block) (tr : list (Z * block)) (s : fst') : Prop :=
  ∃ a, lrep c d a (ls_log (fs_l s)) (fs_l s) ∧ ac_ref a = ∅ ∧ (∀ y, ac_disk a y = v y) ∧ ac_trace a = tr ∧
    length (lg_block (ls_log (fs_l s))) = Z.to_nat LOGSIZE.

Section readsb.
Context {a : acache} {g : log}.

Lemma wp_fbread_free dev no (s : fst') (Q : nat → fst' → Prop) : u32 dev = d → 0 <= no < 2 ^ 32 → lrep c d a g (fs_l s) → ac_ref a = ∅ →
  (∀ i l, lrep c d (set_ref no (i, 1, true) a) g l → Q i (s <| fs_l := l |>)) → wp (fbread dev no) Q s.
Proof.
  intros Ed Hn ([l R] & Hc & Eg) He HQ. unfold fbread. rewrite Ed, u32_id by done. apply wp_zoom. simpl. apply wp_zoom. simpl.
  assert (refs_of no a = 0) as Er by (unfold refs_of; by rewrite He, lookup_empty).
  destruct (bread_run d l a (ls_b (fs_l s)) no R Hn) as (i & t & Et & R' & Ec & _).
  - rewrite Er. lia.
  - intros i n lk. by rewrite He, lookup_empty.
  - intros _. rewrite He, map_size_empty. unfold NBUF. lia.
  - rewrite Er in R'. apply (wp_intro _ _ _ _ _ Et). apply HQ. split_and!; simpl; [by eexists|by rewrite Ec|done].
Qed.

Lemma readsb_run dev (s : fst') : u32 dev = d → lrep c d a g (fs_l s) → ac_ref a = ∅ →
  wp (readsb dev) (λ _ s', ∃ l, s' = s <| fs_l := l |> <| fs_sb := decode_super (ac_disk a 1) |> ∧ lrep c d a g l) s.
Proof.
  intros Ed R He. assert (ac_view a 1 = ac_disk a 1) as Ev by (apply (lrep_clean c d a g (fs_l s)); [done|]; by rewrite He).
  unfold readsb. wp_step. eapply wp_fbread_free; [done|lia|exact R|done|]. intros i l R1.
  assert (ac_ref (set_ref 1 (i, 1, true) a) !! 1 = Some (i, 1, true)) as Hx by apply lookup_insert_eq.
  wp_step. unfold fdata. apply wp_zoom. simpl. eapply (wp_bdata c d R1); [exact Hx|]. simpl. wp_steps. unfold fbrelse. apply wp_zoom. simpl.
  eapply (wp_brelse_last c d R1); [exact Hx|done|]. intros l2 R2. exists l2. split; [by rewrite <-Ev; destruct s|].
  assert (del_ref 1 (set_ref 1 (i, 1, true) a) = a) as E; [|by rewrite E in R2].
  unfold del_ref, set_ref. simpl. destruct a as [v dk tr m]. simpl in *. subst m. by rewrite insert_empty, delete_singleton_eq.
Qed.
End readsb.

(** The log of the image is empty: recovery writes the header as it is. *)
Lemma fsinit_run dev v tr (s : fst') : u32 dev = d → started v tr s → decode_super (v 1) = superblock_of → v (sb_logstart superblock_of) = zero_block →
  wp (fsinit dev) (λ _ s', fs_sb s' = superblock_of ∧ fs_inode s' = fs_inode s ∧ fs_user s' = fs_user s ∧
    ∃ g', logged c d ∅ v v ((sb_logstart superblock_of, zero_block) :: tr) g' (fs_l s') ∧ lg_start g' = sb_logstart superblock_of ∧ lg_size g' = nlog ∧
      lg_n g' = 0 ∧ lg_outstanding g' = lg_outstanding (ls_log (fs_l s)) ∧ lg_committing g' = lg_committing (ls_log (fs_l s))) s.
Proof.
  intros Ed (a & R & He & Hv & Et & Hb) Esb Elog. set (g := ls_log (fs_l s)) in *. unfold fsinit. wp_step.
  eapply wp_mono; [apply (readsb_run dev s Ed R He)|]. intros [] s1 (l1 & -> & R1). rewrite Hv, Esb. wp_step. apply wp_gets.
  change (sb_magic _ =? FSMAGIC) with true. cbn [negb]. apply wp_zoom. unfold initlog. change (BSIZE <=? LOGHEADER) with false. cbv iota.
  wp_step. eapply wp_updlog; [exact R1|]. intros l2 R2. change (i32 _) with 2 in R2 at 1. change (i32 _) with 30 in R2. set (g1 := set_region 2 30 dev g) in R2.
  assert (region d g1) as Rg by (split; [done|done|done|exact Hb]).
  assert (ac_disk a (lg_start g1) = zero_block) as Ez by (rewrite Hv; exact Elog).
  eapply wp_mono; [apply (recover_run c d a g1 l2 R2 Rg He)|].
  { rewrite Ez. split_and!; [done|done|done|done|]. change (head_n zero_block) with 0. intros i Hi. simpl in Hi. lia. }
  intros [] l3 (a' & g' & h & R3 & E3 & Wr & _ & _ & En & Es & Esz & Rg' & Eo & Ec & Eh). rewrite Ez in Eh.
  assert (h = zero_block) as -> by (rewrite Eh; vm_compute; reflexivity).
  assert (recover_writes g1 (ac_disk a) = []) as Ew by (unfold recover_writes; by rewrite Ez). rewrite Ew in Wr. simpl in Wr.
  assert (∀ y, ac_disk a' y = v y ∧ ac_view a' y = v y) as Hv'.
  { intros y. rewrite (Log.wr_disk _ _ _ Wr), (Log.wr_view _ _ _ Wr). simpl. unfold bupd.
    rewrite (lrep_clean c d a g1 l2 y R2) by (by rewrite He). case_decide as E; [subst y; by rewrite <-Elog|done]. }
  split_and!; try done. exists g'. split_and!; try done. exists a'. split; [exact R3|]. split_and!; [|apply Hv'..|rewrite (Log.wr_trace _ _ _ Wr), Et; done].
  assert (blocks g' = []) as Eb by (unfold blocks; by rewrite En).
  split; try (rewrite Eb); [| | |intros y _ Hy; by apply elem_of_nil in Hy| |intros; by rewrite (proj1 (Hv' _)), (proj2 (Hv' _))| |].
  - destruct Rg' as [G1 G2 G3 G4]. split; try done; rewrite En; [done|rewrite Esz; done|]. intros i Hi. simpl in Hi. lia.
  - constructor.
  - intros y b. by rewrite lookup_empty.
  - intros y _ _. by rewrite E3, lookup_empty.
  - rewrite (proj1 (Hv' _)), Es. by rewrite <-Hv, Ez.
  - rewrite (proj1 (Hv' _)), Es. by rewrite <-Hv, Ez.
Qed.

End mount.

Module MountDemo.
(** A machine that has started with a disk in memory. *)
Definition boot (v : Z → block) : bstate RamDisk.t := BState (bc_ctx RamDisk.boot) (bc_buf RamDisk.boot) (RamDisk.Disk v []).
Definition machine (v : Z → block) : fstate RamDisk.t FlatUser.t :=
  FState (LState (snd (binit (boot v))) LogDemo.g0) FsDemo.sb0 (replicate 50 inhabitant) (FlatUser.Flat (λ _, 0) (λ _, 0) 4096) 0 [].

Lemma machine_started v : started (c := LogDemo.c0) (d := 1) v [] (machine v).
Proof.
  pose proof (binit_run 1 (boot v) ltac:(lia) RamDisk.boot_quiet eq_refl RamDisk.boot_fresh) as Hw. apply (wp_snd binit) in Hw as [Hc R].
  exists (ACache v v [] ∅). split_and!; [|reflexivity..]. split; [exists (reverse (seq 0 NBUF)); exact R|]. split; [|reflexivity].
  unfold machine. cbn [fs_l ls_b]. rewrite Hc. apply same_cpu_refl.
Qed.
End MountDemo.

