(* ===== verification/File.v ===== *)
(** * Open files: [kernel/file.c], and making and closing pipes

    The table of open files over the file system, the pipes and the devices.
    A pipe is named by the address of its page.  What the file layer uses of
    the process besides its memory, the allocator of pages and the arguments of
    a system call, is the interface [Process]; the functions of the device
    switch are arguments.  A call that sleeps on a pipe goes on after [others],
    the actions of the other processes; [fuel] bounds how often it sleeps. *)
From S2P Require Import Prelude Machine Cstring Spinlock Sleeplock Blocks Bio Log UserMem Printf Pipe Fs.


Inductive ftype := FD_NONE | FD_PIPE | FD_INODE | FD_DEVICE.
#[global] Instance ftype_eq_dec : EqDecision ftype.
Proof. solve_decision. Defined.

Record file := File {
  f_type : ftype;
  f_ref : Z;
  f_readable : bool;
  f_writable : bool;
  f_pipe : Z;                (** the address of the pipe *)
  f_ip : nat;
  f_off : Z;
  f_major : Z;
}.
#[global] Instance file_eta : Eta file := λ f,
  File (f_type f) (f_ref f) (f_readable f) (f_writable f) (f_pipe f) (f_ip f) (f_off f) (f_major f).
#[global] Instance file_inhabited : Inhabited file := populate (File FD_NONE 0 false false 0 0 0 0).
#[global] Instance pipe_inhabited : Inhabited pipe := populate (Pipe [] 0 0 false false).

(** What the file layer uses of the process besides its memory. *)
Class Process (U : Type) `{UserMem U} := {
  kalloc_u : M U Z;
  kfree_u : Z → M U unit;
  argraw_u : Z → M U Z;                      (** [argraw(n)] *)
  fetchstr_u : Z → Z → M U (Z * list Z);     (** [fetchstr(addr, buf, max)]: the result and the string in [buf] *)
  fetchaddr_u : Z → M U (Z * Z);             (** [fetchaddr(addr, ip)]: the result and the value of [*ip] *)
}.

Record sstate (D U : Type) := SState {
  ss_fs : fstate D U;              (** the file system and the process *)
  ss_file : list file;             (** [ftable.file] *)
  ss_pipe : gmap Z pipe;           (** the pipes, by the address of their page *)
  ss_ofile : list (option nat);    (** [myproc()->ofile] *)
}.
Arguments SState {D U} _ _ _ _.
Arguments ss_fs {D U} _.
Arguments ss_file {D U} _.
Arguments ss_pipe {D U} _.
Arguments ss_ofile {D U} _.
#[global] Instance sstate_eta D U : Eta (sstate D U) := λ s, SState (ss_fs s) (ss_file s) (ss_pipe s) (ss_ofile s).

(** [struct stat] as bytes: dev, ino, type, nlink, padding, size *)
Definition le (n : nat) (v : Z) : list Z := (λ i, Z.shiftr v (8 * Z.of_nat i) mod 256) <$> seq 0 n.
Definition stat_bytes (st : Z * Z * Z * Z * Z) : list Z :=
  let '(dev, ino, type, nlink, size) := st in
  le 4 dev ++ le 4 ino ++ le 2 type ++ le 2 nlink ++ le 4 0 ++ le 8 size.

Section file.
Context {D U : Type} `{DiskDriver D} `{Process U}.
Abbreviation sst := (sstate D U).
(** [devsw[major].read] and [devsw[major].write] *)
Context (devsw_read devsw_write : Z → option (bool → Z → Z → M sst Z)) (others : M sst unit).

Definition fsL : lens sst (fstate D U) := Lens ss_fs (λ f s, s <| ss_fs := f |>).
Definition uL : lens sst U := Lens (λ s, fs_user (ss_fs s)) (λ u s, s <| ss_fs ::= (λ f, f <| fs_user := u |>) |>).
Definition ctx_s : lens sst ctx := Lens (λ s, lget ctx_f (ss_fs s)) (λ c s, s <| ss_fs ::= lset ctx_f c |>).
(** The pipe, the CPU and the process, as [Pipe.v] sees them. *)
Definition pipeL (pi : Z) : lens sst (pst U) :=
  Lens (λ s, PSt (lget ctx_s s) (default inhabitant (ss_pipe s !! pi)) (fs_user (ss_fs s)))
    (λ p s, lset ctx_s (ps_ctx p) (lset uL (ps_user p) (s <| ss_pipe ::= <[pi := ps_pipe p]> |>))).

Definition getf (f : nat) : M sst file := gets (λ s, ss_file s !!! f).
Definition updf (f : nat) (g : file → file) : M sst unit := modify (λ s, s <| ss_file ::= alter g f |>).
Definition begin_op_s : M sst unit := zoom fsL (zoom lL begin_op).
Definition end_op_s : M sst unit := zoom fsL (zoom lL end_op).

Definition filealloc : M sst (option nat) :=
  zoom ctx_s (lock LkFtable) ;;;
  s <- get ;;
  match list_find (λ f, f_ref f = 0) (ss_file s) with
  | Some (f, _) =>
      updf f (λ x, x <| f_ref := 1 |>) ;;;
      zoom ctx_s (unlock LkFtable) ;;;
      ret (Some f)
  | None => zoom ctx_s (unlock LkFtable) ;;; ret None
  end.

Definition filedup (f : nat) : M sst nat :=
  zoom ctx_s (lock LkFtable) ;;;
  x <- getf f ;;
  if f_ref x <? 1 then panic "filedup" else
  updf f (λ x, x <| f_ref := f_ref x + 1 |>) ;;;
  zoom ctx_s (unlock LkFtable) ;;;
  ret f.

Definition pipeclose (pi : Z) (writable : bool) : M sst unit :=
  zoom (pipeL pi) (zoom ctx_p (lock (LkPipe pi))) ;;;
  (if writable then
     zoom (pipeL pi) (updp (λ p, set_popen (p_readopen p) false p)) ;;;
     zoom ctx_s (wakeup (ChPipeRead pi))
   else
     zoom (pipeL pi) (updp (λ p, set_popen false (p_writeopen p) p)) ;;;
     zoom ctx_s (wakeup (ChPipeWrite pi))) ;;;
  p <- zoom (pipeL pi) (gets ps_pipe) ;;
  zoom (pipeL pi) (zoom ctx_p (unlock (LkPipe pi))) ;;;
  if negb (p_readopen p) && negb (p_writeopen p) then
    modify (λ s, s <| ss_pipe ::= delete pi |>) ;;;
    zoom uL (kfree_u pi)
  else ret tt.

Definition fileclose (f : nat) : M sst unit :=
  zoom ctx_s (lock LkFtable) ;;;
  x <- getf f ;;
  if f_ref x <? 1 then panic "fileclose" else
  updf f (λ x, x <| f_ref := f_ref x - 1 |>) ;;;
  ff <- getf f ;;
  if 0 <? f_ref ff then zoom ctx_s (unlock LkFtable) else
  updf f (λ x, x <| f_ref := 0 |> <| f_type := FD_NONE |>) ;;;
  zoom ctx_s (unlock LkFtable) ;;;
  match f_type ff with
  | FD_PIPE => pipeclose (f_pipe ff) (f_writable ff)
  | FD_INODE | FD_DEVICE =>
      begin_op_s ;;;
      zoom fsL (iput (f_ip ff)) ;;;
      end_op_s
  | FD_NONE => ret tt
  end.

(** [pipealloc(&f0, &f1)]: the result and the two files *)
Definition pipealloc : M sst (option (nat * nat)) :=
  let close_opt (o : option nat) : M sst unit := match o with Some f => fileclose f | None => ret tt end in
  f0 <- filealloc ;;
  f1 <- (match f0 with Some _ => filealloc | None => ret None end) ;;
  match f0, f1 with
  | Some a, Some b =>
      pi <- zoom uL kalloc_u ;;
      if pi =? 0 then fileclose a ;;; fileclose b ;;; ret None else
      (* the page comes filled with 5 *)
      modify (λ s, s <| ss_pipe ::= <[pi := Pipe (replicate (Z.to_nat PIPESIZE) 5) 0 0 true true]> |>) ;;;
      updf a (λ x, x <| f_type := FD_PIPE |> <| f_readable := true |> <| f_writable := false |> <| f_pipe := pi |>) ;;;
      updf b (λ x, x <| f_type := FD_PIPE |> <| f_readable := false |> <| f_writable := true |> <| f_pipe := pi |>) ;;;
      ret (Some (a, b))
  | _, _ => close_opt f0 ;;; close_opt f1 ;;; ret None
  end.

Definition filestat (f : nat) (addr : Z) : M sst Z :=
  x <- getf f ;;
  match f_type x with
  | FD_INODE | FD_DEVICE =>
      zoom fsL (ilock (f_ip x)) ;;;
      st <- zoom fsL (stati (f_ip x)) ;;
      zoom fsL (iunlock (f_ip x)) ;;;
      r <- zoom uL (copyout_u addr (stat_bytes st)) ;;
      if r <? 0 then ret (-1) else ret 0
  | _ => ret (-1)
  end.

(** The critical sections of [piperead] and of [pipewrite], one after the other. *)
Fixpoint piperead_all (fuel : nat) (pi addr n : Z) : M sst Z :=
  r <- zoom (pipeL pi) (piperead pi addr n) ;;
  match r with
  | Done r => ret r
  | Slept ch _ => match fuel with O => Prelude.block ch | S fl => others ;;; piperead_all fl pi addr n end
  end.
Fixpoint pipewrite_all (fuel : nat) (pi addr n i : Z) : M sst Z :=
  r <- zoom (pipeL pi) (pipewrite pi addr n i) ;;
  match r with
  | Done r => ret r
  | Slept ch i => match fuel with O => Prelude.block ch | S fl => others ;;; pipewrite_all fl pi addr n i end
  end.

Definition fileread (fuel : nat) (f : nat) (addr n : Z) : M sst Z :=
  x <- getf f ;;
  if negb (f_readable x) then ret (-1) else
  match f_type x with
  | FD_PIPE => piperead_all fuel (f_pipe x) addr n
  | FD_DEVICE =>
      if (f_major x <? 0) || (NDEV <=? f_major x) then ret (-1) else
      match devsw_read (f_major x) with
      | None => ret (-1)
      | Some rd => rd true addr n
      end
  | FD_INODE =>
      zoom fsL (ilock (f_ip x)) ;;;
      off <- (x <- getf f ;; ret (f_off x)) ;;
      let* '(tot, _) := zoom fsL (readi (f_ip x) (ToAddr true addr) off (u32 n)) in
      let r := i32 tot in
      when (0 <? r) (updf f (λ x, x <| f_off := u32 (f_off x + r) |>)) ;;;
      zoom fsL (iunlock (f_ip x)) ;;;
      ret r
  | FD_NONE => panic "fileread"
  end.

(** [((MAXOPBLOCKS-1-1-2) / 2) * BSIZE] *)
Definition write_max : Z := (MAXOPBLOCKS - 1 - 1 - 2) / 2 * BSIZE.

(** The loop of [filewrite] over transactions, with [i] bytes written. *)
Fixpoint filewrite_loop (k : nat) (f : nat) (addr n i : Z) : M sst Z :=
  match k with
  | O => ret i
  | S k =>
      if i <? n then
        let n1 := Z.min (n - i) write_max in
        begin_op_s ;;;
        x <- getf f ;;
        zoom fsL (ilock (f_ip x)) ;;;
        x <- getf f ;;
        r <- zoom fsL (writei (f_ip x) (FromAddr true (u64 (addr + i))) (f_off x) n1) ;;
        when (0 <? r) (updf f (λ x, x <| f_off := u32 (f_off x + r) |>)) ;;;
        zoom fsL (iunlock (f_ip x)) ;;;
        end_op_s ;;;
        if negb (r =? n1) then ret i else filewrite_loop k f addr n (i + r)
      else ret i
  end.

Definition filewrite (fuel : nat) (f : nat) (addr n : Z) : M sst Z :=
  x <- getf f ;;
  if negb (f_writable x) then ret (-1) else
  match f_type x with
  | FD_PIPE => pipewrite_all fuel (f_pipe x) addr n 0
  | FD_DEVICE =>
      if (f_major x <? 0) || (NDEV <=? f_major x) then ret (-1) else
      match devsw_write (f_major x) with
      | None => ret (-1)
      | Some wr => wr true addr n
      end
  | FD_INODE =>
      i <- filewrite_loop (Z.to_nat n) f addr n 0 ;;
      ret (if i =? n then n else -1)
  | FD_NONE => panic "filewrite"
  end.
End file.
