(* ===== verification/FileSpec.v ===== *)
(** * Properties of the table of open files

    [pipealloc] makes a pipe with its two ends, or undoes all it did. *)
From S2P Require Import Prelude Machine Cstring Spinlock Sleeplock Blocks Bio Log LogSpec UserMem Printf Pipe Fs FsSpec FsInode File.

(** An entry that is free has no type. *)
Record ftable_ok (t : list file) : Prop := {
  ft_ref : Forall (λ f, 0 <= f_ref f) t;
  ft_free : Forall (λ f, f_ref f = 0 → f_type f = FD_NONE) t;
}.

Section files.
Context {D U : Type} `{DiskDriver D} `{Process U}.
Abbreviation sst := (sstate D U).

Definition ftable_free (s : sst) : Prop :=
  hart_ok (c_hart (lget ctx_s s)) ∧ LkFtable ∉ h_held (c_hart (lget ctx_s s)).

(** [ftable.lock] taken, and given back: the state is what it was but for the table. *)
Definition in_ftable (s : sst) : sst := lset ctx_s (set_chart (taken LkFtable (c_hart (lget ctx_s s))) (lget ctx_s s)) s.

Lemma lock_ftable s : ftable_free s → zoom ctx_s (lock LkFtable) s = (Ret tt, in_ftable s).
Proof. intros [Ho Hl]. exact (zoom_run ctx_s _ s _ _ (lock_run _ _ Ho Hl)). Qed.

Lemma unlock_ftable s t : ftable_free s →
  zoom ctx_s (unlock LkFtable) ((in_ftable s) <| ss_file := t |>) = (Ret tt, s <| ss_file := t |>).
Proof.
  intros [Ho Hl]. unfold zoom. simpl. rewrite (unlock_run _ (c_hart (bc_ctx (ls_b (fs_l (ss_fs s)))))) by done.
  rewrite set_chart_id. by destruct s as [[[[] ?]] ???].
Qed.

Lemma set_file_twice (s : sst) t : (s <| ss_file := t |>) <| ss_file := ss_file s |> = s.
Proof. by destruct s. Qed.

Definition take_file (f : file) : file := f <| f_ref := 1 |>.

Lemma filealloc_eq s : ftable_free s → filealloc s =
  match list_find (λ f, f_ref f = 0) (ss_file s) with
  | Some (k, _) => (Ret (Some k), s <| ss_file ::= alter take_file k |>)
  | None => (Ret None, s)
  end.
Proof.
  intros F. unfold filealloc. rewrite (bind_Ret _ _ _ _ _ (lock_ftable s F)). unfold bind at 1, get.
  change (ss_file (in_ftable s)) with (ss_file s). destruct (list_find _ _) as [[k x]|].
  - unfold updf, bind at 1, modify. change (ss_file (in_ftable s)) with (ss_file s).
    pose proof (unlock_ftable s (alter take_file k (ss_file s)) F) as E.
    rewrite (bind_Ret _ _ _ _ _ E). unfold ret. by destruct s.
  - pose proof (unlock_ftable s (ss_file s) F) as E. replace ((in_ftable s) <| ss_file := ss_file s |>) with (in_ftable s) in E by (by destruct s).
    rewrite (bind_Ret _ _ _ _ _ E). by destruct s.
Qed.

Definition close_file (f : file) : file := f <| f_ref := 0 |> <| f_type := FD_NONE |>.

Lemma lookup_alter_file (g : file → file) k (t : list file) x : t !! k = Some x → alter g k t !!! k = g x.
Proof. intros Hk. by rewrite list_lookup_total_alt, list_lookup_alter_eq, Hk. Qed.

Lemma alter_id_file (g : file → file) k (t : list file) : (∀ x, t !! k = Some x → g x = x) → alter g k t = t.
Proof. revert k. induction t as [|y t IH]; intros [|k] Hg; cbn [alter list_alter]; [done..| |]; f_equal; [by apply Hg|by apply IH]. Qed.

Lemma alter_commute_file (g h : file → file) j k (t : list file) : j ≠ k → alter g j (alter h k t) = alter h k (alter g j t).
Proof.
  intros Hjk. apply list_eq. intros i. rewrite !list_lookup_alter.
  repeat case_decide; subst; try done; by destruct (t !! _).
Qed.

(** Closing a file that was never given a type. *)
Lemma fileclose_fresh k (s : sst) x : ftable_free s → ss_file s !! k = Some x → f_ref x = 1 → f_type x = FD_NONE →
  fileclose k s = (Ret tt, s <| ss_file ::= alter close_file k |>).
Proof.
  intros F Hk Hr Ht. pose (dec := λ x : file, x <| f_ref := f_ref x - 1 |>).
  set (s1 := (in_ftable s) <| ss_file := alter dec k (ss_file s) |>).
  assert (getf k (in_ftable s) = (Ret x, in_ftable s)) as E0 by (unfold getf, gets; simpl; by rewrite (list_lookup_total_correct _ _ _ Hk)).
  assert (getf k s1 = (Ret (dec x), s1)) as E1 by (unfold getf, gets; simpl; by rewrite (lookup_alter_file _ _ _ _ Hk)).
  assert (updf k (λ x, x <| f_ref := 0 |> <| f_type := FD_NONE |>) s1 = (Ret tt, (in_ftable s) <| ss_file := alter close_file k (ss_file s) |>)) as E2.
  { unfold updf, modify. simpl. by rewrite alter_twice. }
  unfold fileclose. rewrite (bind_Ret _ _ _ _ _ (lock_ftable s F)), (bind_Ret _ _ _ _ _ E0), Hr. change (1 <? 1) with false. cbv iota. fold dec.
  rewrite (bind_Ret (updf k dec) _ _ tt s1 eq_refl), (bind_Ret _ _ _ _ _ E1). simpl (f_ref (dec x)). rewrite Hr. change (0 <? 1 - 1) with false. cbv iota.
  rewrite (bind_Ret _ _ _ _ _ E2), (bind_Ret _ _ _ _ _ (unlock_ftable s _ F)). simpl (f_type _). rewrite Ht. by destruct s.
Qed.

Lemma find_free (t : list file) k x : list_find (λ f, f_ref f = 0) t = Some (k, x) → t !! k = Some x ∧ f_ref x = 0.
Proof. by intros (H1' & H2' & _)%list_find_Some. Qed.

(** Taking a free file and closing it again. *)
Lemma take_close t k x : ftable_ok t → t !! k = Some x → f_ref x = 0 → alter close_file k (alter take_file k t) = t.
Proof.
  intros [_ Hf] Hk Hr. rewrite alter_twice. apply alter_id_file. intros y Hy. simplify_eq.
  pose proof (Forall_lookup_1 _ _ _ _ Hf Hk Hr) as Ht. destruct x. simpl in *. by subst.
Qed.

Lemma ftable_free_file s t : ftable_free s → ftable_free (s <| ss_file := t |>).
Proof. done. Qed.

Lemma close_taken s k x : ftable_free s → ftable_ok (ss_file s) → ss_file s !! k = Some x → f_ref x = 0 →
  fileclose k (s <| ss_file ::= alter take_file k |>) = (Ret tt, s).
Proof.
  intros F T Hk Hr. rewrite (fileclose_fresh k _ (take_file x)); [|done| |done|].
  - f_equal. transitivity (s <| ss_file := alter close_file k (alter take_file k (ss_file s)) |>); [by destruct s|].
    rewrite (take_close _ _ x) by done. by destruct s.
  - simpl. by rewrite list_lookup_alter_eq, Hk.
  - simpl. exact (Forall_lookup_1 _ _ _ _ (ft_free _ T) Hk Hr).
Qed.

Lemma ftable_alter g k t : ftable_ok t → (∀ x, 0 < f_ref (g x)) → ftable_ok (alter g k t).
Proof.
  intros [H1' H2'] Hg. split; apply Forall_alter; try done.
  - intros x _ _. specialize (Hg x). lia.
  - intros x _ _ E. specialize (Hg x). lia.
Qed.

Definition read_end (pi : Z) (f : file) : file :=
  f <| f_ref := 1 |> <| f_type := FD_PIPE |> <| f_readable := true |> <| f_writable := false |> <| f_pipe := pi |>.
Definition write_end (pi : Z) (f : file) : file :=
  f <| f_ref := 1 |> <| f_type := FD_PIPE |> <| f_readable := false |> <| f_writable := true |> <| f_pipe := pi |>.
Definition new_pipe : pipe := Pipe (replicate (Z.to_nat PIPESIZE) 5) 0 0 true true.

(** C37: [pipealloc] is all or nothing: it returns a free file as the read end and
    another free file as the write end of one new, empty pipe on a fresh page, with
    one reference each; or it fails, because fewer than two files are free or there
    is no page, and then the table of files and the pipes are exactly as before,
    whichever step failed: the files it had taken are closed again. *)
Theorem pipealloc_all_or_nothing (s : sst) pg u : ftable_free s → ftable_ok (ss_file s) →
  kalloc_u (fs_user (ss_fs s)) = (Ret pg, u) → ∃ o s', pipealloc s = (Ret o, s') ∧ ftable_ok (ss_file s') ∧
  match o with
  | Some (a, b) => ∃ x y, a ≠ b ∧ ss_file s !! a = Some x ∧ ss_file s !! b = Some y ∧ f_ref x = 0 ∧ f_ref y = 0 ∧
      pg ≠ 0 ∧ ss_file s' = alter (write_end pg) b (alter (read_end pg) a (ss_file s)) ∧
      ss_pipe s' = <[pg := new_pipe]> (ss_pipe s) ∧ ss_ofile s' = ss_ofile s
  | None => ss_file s' = ss_file s ∧ ss_pipe s' = ss_pipe s ∧ ss_ofile s' = ss_ofile s ∧
      (pg = 0 ∨ ∀ a b x y, a ≠ b → ss_file s !! a = Some x → ss_file s !! b = Some y → f_ref x = 0 → f_ref y ≠ 0)
  end.
Proof.
  intros F T Hk. unfold pipealloc. pose proof (filealloc_eq s F) as E1.
  destruct (list_find _ (ss_file s)) as [[a x]|] eqn:Ea.
  2:{ erewrite bind_Ret by exact E1. exists None, s. split_and!; try done. right. intros a b x y _ Ha _ Hx.
      rewrite list_find_None, Forall_lookup in Ea. by destruct (Ea a x). }
  apply find_free in Ea as [Ha Hxr]. erewrite bind_Ret by exact E1. set (s1 := s <| ss_file ::= alter take_file a |>) in *.
  assert (ftable_ok (ss_file s1)) as T1 by (by apply ftable_alter).
  pose proof (filealloc_eq s1 F) as E2. destruct (list_find _ (ss_file s1)) as [[b y]|] eqn:Eb.
  2:{ erewrite bind_Ret by exact E2. cbv iota beta. erewrite bind_Ret by (by apply (close_taken s a x)).
      exists None, s. split_and!; try done. right. intros a' b' x' y' Hab Ha' Hb' Hx' Hy'.
      rewrite list_find_None, Forall_lookup in Eb. destruct (decide (a' = a)) as [->|].
      - apply (Eb b' y'); [|done]. simpl. by rewrite list_lookup_alter_ne.
      - apply (Eb a' x'); [|done]. simpl. by rewrite list_lookup_alter_ne. }
  apply find_free in Eb as [Hb Hyr]. erewrite bind_Ret by exact E2. set (s2 := s1 <| ss_file ::= alter take_file b |>) in *.
  assert (a ≠ b) as Hab. { intros <-. simpl in Hb. rewrite list_lookup_alter_eq, Ha in Hb. by injection Hb as <-. }
  cbv iota beta. set (s3 := s2 <| ss_fs ::= (λ f, f <| fs_user := u |>) |>).
  assert (zoom uL kalloc_u s2 = (Ret pg, s3)) as E3 by (unfold zoom; simpl; by rewrite Hk).
  erewrite bind_Ret by exact E3. assert (ss_file s !! b = Some y) as Hb0 by (simpl in Hb; by rewrite list_lookup_alter_ne in Hb).
  destruct (Z.eqb_spec pg 0) as [->|Hpg].
  - set (s0 := s <| ss_fs ::= (λ f, f <| fs_user := u |>) |>). set (s4 := s0 <| ss_file ::= alter take_file b |>).
    assert (fileclose a s3 = (Ret tt, s4)) as E4.
    { replace s3 with (s4 <| ss_file ::= alter take_file a |>) by (unfold s3, s4, s2, s1, s0; simpl; by rewrite alter_commute_file).
      apply (close_taken s4 a x); [done|by apply ftable_alter|simpl; by rewrite list_lookup_alter_ne|done]. }
    erewrite bind_Ret by exact E4. erewrite bind_Ret by (by apply (close_taken s0 b y)).
    exists None, s0. split_and!; try done. by left.
  - assert (∀ g h, alter g b (alter h a (alter take_file b (alter take_file a (ss_file s)))) =
      alter (λ x, g (take_file x)) b (alter (λ x, h (take_file x)) a (ss_file s))) as Ef.
    { intros g h. rewrite (alter_commute_file h) by done. by rewrite !alter_twice. }
    eexists (Some (a, b)), _. split; [reflexivity|]. simpl. rewrite Ef.
    split; [apply ftable_alter; [by apply ftable_alter|done]|]. exists x, y. by split_and!.
Qed.
End files.

Module FileDemo.
(** A process whose next page is at 8192. *)
#[local] Instance flat_process : Process FlatUser.t := {|
  kalloc_u := ret 8192; kfree_u _ := ret tt; argraw_u _ := ret 0;
  fetchstr_u _ _ := ret (0, []); fetchaddr_u _ := ret (0, 0);
|}.

Definition s0 : sstate RamDisk.t FlatUser.t := SState (FsDemo.mk LogDemo.s0) (replicate 3 inhabitant) ∅ (replicate NOFILE None).

Lemma s0_files : ftable_free s0 ∧ ftable_ok (ss_file s0).
Proof.
  split; [split; [apply RamDisk.boot_quiet|apply not_elem_of_nil]|].
  split; apply Forall_replicate; simpl; [lia|done].
Qed.
End FileDemo.

Lemma pipealloc_all_or_nothing_witness : ∃ a b s', pipealloc (H1 := FileDemo.flat_process) FileDemo.s0 = (Ret (Some (a, b)), s') ∧ a ≠ b ∧
  f_pipe (ss_file s' !!! b) = 8192.
Proof.
  destruct FileDemo.s0_files as [F T].
  destruct (pipealloc_all_or_nothing (H1 := FileDemo.flat_process) FileDemo.s0 8192 (fs_user (ss_fs FileDemo.s0)) F T eq_refl)
    as ([[a b]|] & s' & E & _ & Ho).
  - exists a, b, s'. destruct Ho as (x & y & Hab & Ha & Hb & _ & _ & _ & Ef & _). split; [exact E|]. split; [exact Hab|].
    rewrite Ef, list_lookup_total_alt, list_lookup_alter_eq, list_lookup_alter_ne, Hb by exact Hab. reflexivity.
  - exfalso. destruct Ho as (_ & _ & _ & [Hz|Hn]); [discriminate|].
    exact (Hn 0%nat 1%nat inhabitant inhabitant ltac:(discriminate) eq_refl eq_refl eq_refl eq_refl).
Defined.
