(* ===== verification/FileWrite.v ===== *)
(** * Writing through the layers

    [filewrite] of a file on disk: the table of open files, the inode, the blocks
    and the log together, one transaction per piece. *)
From S2P Require Import Prelude Machine Cstring Spinlock Sleeplock Blocks Bio Log LogSpec UserMem Printf Pipe Fs FsSpec FsInode FsFile FsWrite File.

(** ** What a file depends on *)
Lemma saddr_addrs v i i' k : i_addrs i' = i_addrs i → saddr v i' k = saddr v i k.
Proof. intros E. unfold saddr, indirect. by rewrite E. Qed.

Lemma cbyte_addrs v i i' j : i_addrs i' = i_addrs i → cbyte v i' j = cbyte v i j.
Proof. intros E. unfold cbyte. by rewrite (saddr_addrs v i i') by done. Qed.

Lemma file_wf_same sb g v i i' : i_addrs i' = i_addrs i → i_inum i' = i_inum i → file_wf sb g v i → file_wf sb g v i'.
Proof.
  intros Ea Ei [W1 W2 W3 W4]. split; rewrite ?Ea, ?Ei; try done; intros k; [|intros k']; rewrite ?(saddr_addrs v i i') by done; [by apply W2|by apply W3].
Qed.

(** The blocks of a file are outside the log. *)
Section home.
Context {sb : superblock} {g g' : log} {v v' : Z → block} (Hg : ∀ y, home g' y ↔ home g y) (Hv : ∀ y, home g y → v' y = v y) (K : fs_ok sb g v).

Lemma home_used z : 0 <= z < sb_size sb → used sb v' z = used sb v z.
Proof. intros Hz. apply (used_bmap sb g v); [done|done|]. apply Hv. by eapply bmap_home. Qed.

Lemma home_fs_ok : fs_ok sb g' v'.
Proof.
  eapply fs_ok_more; [exact K| |intros z Hz; by rewrite home_used|done]. rewrite Hv by (by eapply bmap_home).
  pose proof (fk_one _ _ _ K). rewrite <-(BBLOCK_one _ _ _ 0 K) by lia. apply (bo_wf _ _ _ (fk_map _ _ _ K)). lia.
Qed.

Context {i : inode} (W : file_wf sb g v i).

Lemma home_saddr k : saddr v' i k = saddr v i k.
Proof.
  unfold saddr. destruct (_ <? _); [done|]. destruct (_ =? _); [done|]. destruct (Z.eqb_spec (indirect i) 0) as [|Hn]; [done|].
  rewrite Hv; [done|]. by apply (indirect_in_use W Hn).
Qed.

Lemma home_file_wf : file_wf sb g' v' i.
Proof.
  assert (∀ y, in_use sb g v y → in_use sb g' v' y) as Hin.
  { intros y (H1 & H2 & H3 & H4 & H5). split_and!; [lia|lia|by rewrite home_used|by apply Hg|by rewrite Hv|done]. }
  destruct W as [W1 W2 W3 W4]. split; [done| | |by apply Hin]; intros k; [|intros k']; rewrite ?home_saddr; [|by apply W3].
  intros Hk Hz. destruct (W2 k Hk Hz). by split; [apply Hin|].
Qed.

Lemma home_cbyte j : 0 <= j < MAXFILE * BSIZE → cbyte v' i j = cbyte v i j.
Proof.
  clear K. intros Hj. unfold cbyte. rewrite home_saddr. destruct (Z.eqb_spec (saddr v i (j / BSIZE)) 0) as [|Hn]; [done|].
  rewrite Hv; [done|]. apply (fw_own _ _ _ _ W); [|done]. change BSIZE with 1024 in *. zdiv.
Qed.
End home.

Section filewrite.
Context {D U : Type} `{DiskSpec D} `{UserMemSpec U} {c : ctx} {d : Z}.
Context (Ho : hart_ok (c_hart c)) (Hl : LkLog ∉ h_held (c_hart c)) (Hk : ∀ ip, LkSleep (SlInode ip) ∉ h_held (c_hart c)).
Abbreviation fst' := (fstate D U).
Abbreviation sst := (sstate D U).
Abbreviation flog := (flogged (c := c) (d := d)).
Abbreviation after' := (after (c := c) (d := d)).
Abbreviation locked' := (locked (c := c)).

(** ** The inode lock *)
Lemma ilock_valid ip v dk tr g (s : fst') : flog ∅ v dk tr g s → unlocked_slot ip s → i_valid (fs_inode s !!! ip) = 1 →
  ilock ip s = (Ret tt, s <| fs_inode ::= alter locked' ip |>).
Proof.
  intros HL Hu Hv. unfold ilock, getip. unfold bind at 1, gets. rewrite (proj2 (Z.ltb_ge _ _)) by apply Hu.
  rewrite (bind_Ret _ _ _ _ _ (acquire_slot Ho ip _ _ _ _ _ _ (Hk ip) HL Hu)). unfold bind, gets. simpl (fs_inode _).
  rewrite lookup_total_alter by apply Hu. unfold locked at 1. simpl (i_valid _). by rewrite Hv.
Qed.

Lemma holding_slot ip v dk tr g (s : fst') : flog ∅ v dk tr g s → (ip < length (fs_inode s))%nat →
  i_lock (fs_inode s !!! ip) = SleepLock 1 (c_pid c) → on_inode ip holdingsleep s = (Ret true, s).
Proof.
  intros (a & (_ & (E1 & E2 & E3) & _) & _) Hi El.
  assert (alter (λ i, i <| i_lock := SleepLock 1 (c_pid c) |>) ip (fs_inode s) = fs_inode s) as Ea.
  { rewrite alter_insert by done. apply list_insert_id. rewrite (list_lookup_lookup_total_lt _ _ Hi), <-El. by destruct (fs_inode s !!! ip). }
  unfold on_inode. change (lget ctx_f s) with (bc_ctx (ls_b (fs_l s))). rewrite holdingsleep_run by (rewrite E1; done).
  rewrite El, E2. cbn [sl_locked sl_pid]. rewrite Z.eqb_refl. f_equal.
  transitivity (s <| fs_inode := alter (λ i, i <| i_lock := SleepLock 1 (c_pid c) |>) ip (fs_inode s) |>); [by destruct s as [[[] ?]]|].
  rewrite Ea. by destruct s.
Qed.

Lemma release_slot ip v dk tr g (s : fst') : flog ∅ v dk tr g s → ∃ l, logged c d ∅ v dk tr g l ∧
  on_inode ip releasesleep s = (Ret tt, s <| fs_l := l |> <| fs_inode ::= alter (λ i, i <| i_lock := SleepLock 0 0 |>) ip |>).
Proof.
  intros (a & R & T & V). pose proof R as (_ & (E1 & E2 & E3) & _). eexists. split.
  - exists a. split; [|done]. pose proof (wp_logwake c a g (fs_l s) (ChSleepLock (SlInode ip)) (λ _ l, lrep c d a g l) R (λ l Rl, Rl)) as Hw. exact Hw.
  - unfold on_inode. simpl. rewrite releasesleep_run by (rewrite E1; done). by destruct s as [[[] ?]].
Qed.

Lemma wp_iunlock ip v dk tr g (s : fst') (Q : unit → fst' → Prop) : flog ∅ v dk tr g s → (ip < length (fs_inode s))%nat →
  i_lock (fs_inode s !!! ip) = SleepLock 1 (c_pid c) → 1 <= i_ref (fs_inode s !!! ip) →
  (∀ l, logged c d ∅ v dk tr g l → Q tt (s <| fs_l := l |> <| fs_inode ::= alter (λ i, i <| i_lock := SleepLock 0 0 |>) ip |>)) →
  wp (iunlock ip) Q s.
Proof.
  intros HL Hi El Hr HQ. unfold iunlock, getip. wp_step. apply (wp_intro _ _ _ _ _ (holding_slot ip _ _ _ _ _ HL Hi El)).
  wp_step. apply wp_gets. rewrite (proj2 (Z.ltb_ge _ _)) by done. simpl (negb _ || _). cbv iota.
  destruct (release_slot ip _ _ _ _ _ HL) as (l & L & E). apply (wp_intro _ _ _ _ _ E). by apply HQ.
Qed.

(** ** One piece, in its transaction *)

(** No operation runs, and the file of slot [ip] is as the disk has it. *)
Record idle (ip : nat) (v dk : Z → block) tr (g : log) (s : fst') : Prop := {
  id_log : flog ∅ v dk tr g s;
  id_counts : lg_n g = 0 ∧ lg_outstanding g = 0 ∧ lg_committing g = 0 ∧ MAXOPBLOCKS < lg_size g;
  id_fs : fs_ok (fs_sb s) g v;
  id_file : file_wf (fs_sb s) g v (fs_inode s !!! ip);
  id_slot : unlocked_slot ip s;
  id_valid : i_valid (fs_inode s !!! ip) = 1;
  id_dev : u32 (i_dev (fs_inode s !!! ip)) = d;
  id_disk : ∀ y, home g y → dk y = v y;
}.

(** [bs] was written through the open file [f], which moved on. *)
Record wrote_through (f : nat) (bs : list Z) (v : Z → block) (s : sst) (v' : Z → block) (s' : sst) : Prop := {
  wt_bytes : let x := ss_file s !!! f in overwritten bs (f_off x) v (fs_inode (ss_fs s) !!! f_ip x) v' (fs_inode (ss_fs s') !!! f_ip x);
  wt_size : let x := ss_file s !!! f in
    i_size (fs_inode (ss_fs s') !!! f_ip x) = Z.max (i_size (fs_inode (ss_fs s) !!! f_ip x)) (f_off x + Z.of_nat (length bs));
  wt_file : let x := ss_file s !!! f in ss_file s' = <[f := x <| f_off := f_off x + Z.of_nat (length bs) |>]> (ss_file s);
  wt_same : fs_user (ss_fs s') = fs_user (ss_fs s) ∧ fs_sb (ss_fs s') = fs_sb (ss_fs s);
}.

Lemma wrote_app f bs1 bs2 v s v1 s1 v2 s2 : (f < length (ss_file s))%nat → wrote_through f bs1 v s v1 s1 → wrote_through f bs2 v1 s1 v2 s2 →
  wrote_through f (bs1 ++ bs2) v s v2 s2.
Proof.
  clear. intros Hf [A1 A2 A3 [A4 A5]] [B1 B2 B3 [B4 B5]]. cbv zeta in *.
  assert (ss_file s1 !!! f = (ss_file s !!! f) <| f_off := f_off (ss_file s !!! f) + Z.of_nat (length bs1) |>) as E
    by (rewrite A3; by apply list_lookup_total_insert_eq).
  rewrite E in *. simpl in *. split; cbv zeta.
  - by eapply overwritten_app.
  - rewrite length_app. lia.
  - rewrite B3, A3, list_insert_insert_eq, length_app. do 2 f_equal. rewrite Nat2Z.inj_add, Z.add_assoc. done.
  - split; congruence.
Qed.

Lemma wrote_none f v s : (f < length (ss_file s))%nat → 0 <= f_off (ss_file s !!! f) <= i_size (fs_inode (ss_fs s) !!! f_ip (ss_file s !!! f)) →
  wrote_through f [] v s v s.
Proof.
  clear. intros Hf Hoff. split; cbv zeta; simpl; [apply overwritten_nil|lia| |done].
  rewrite Z.add_0_r. symmetry. apply list_insert_id. rewrite (list_lookup_lookup_total_lt _ _ Hf). by destruct (ss_file s !!! f).
Qed.

Lemma span_max off n : 0 <= off → 0 <= n <= write_max → span off n + 6 <= MAXOPBLOCKS.
Proof. clear. intros. unfold span. change write_max with 3072 in *. change BSIZE with 1024. change MAXOPBLOCKS with 10. zdiv. Qed.

(** C28: the limit that [filewrite] puts on a piece keeps it within its transaction:
    with the room that [begin_op] reserves, a write of at most
    [((MAXOPBLOCKS-1-1-2) / 2) * BSIZE] bytes at any offset of the file returns, without the
    panic of [log_write], and adds at most seven blocks to the log: four of the contents, as
    an unaligned piece touches, the indirect block, the free map and the inode. *)
Theorem write_max_fits ip from bs off v dk tr g (s : fst') : let i := fs_inode s !!! ip in let n := Z.of_nat (length bs) in
  n <= write_max → room MAXOPBLOCKS g → 0 <= off <= i_size i → off + n <= MAXFILE * BSIZE →
  (ip < length (fs_inode s))%nat → u32 (i_dev i) = d → fs_ok (fs_sb s) g v → file_wf (fs_sb s) g v i → flog ∅ v dk tr g s → supplies from (fs_user s) bs →
  wp (writei ip from off n) (λ r s', 0 <= r <= n ∧ ∃ v' g', flog ∅ v' dk tr g' s' ∧ lg_n g' <= lg_n g + 7 ∧ lg_outstanding g' = lg_outstanding g) s.
Proof.
  intros i n Hn Hr Hoff Hmax Hip Ed K W L Hs. pose proof (span_max off n ltac:(lia) ltac:(lia)) as Hspan. change MAXOPBLOCKS with 10 in *.
  eapply wp_mono; [apply (writei_run (d := d) Ho Hl ip from bs off v dk tr g s); try done; by eapply room_le|].
  intros r s' (v' & g' & i' & A & Wr). destruct (after_slot _ _ _ _ _ _ _ _ _ A Hip) as (_ & _ & _ & _ & L').
  pose proof (wr_n _ _ _ _ _ _ _ _ _ _ Wr) as H1'. pose proof (wr_log _ _ _ _ _ _ _ _ _ _ Wr) as H2'. fold n in H1', H2'. split; [lia|].
  exists v', g'. split_and!; [done|lia|]. apply (wr_same _ _ _ _ _ _ _ _ _ _ Wr).
Qed.

(** [begin_op] and [ilock]: the transaction has the room that [begin_op] reserves. *)
Lemma open_run ip v dk tr g (s : fst') : idle ip v dk tr g s → ∃ l, zoom lL begin_op s = (Ret tt, s <| fs_l := l |>) ∧
  ilock ip (s <| fs_l := l |>) = (Ret tt, s <| fs_l := l |> <| fs_inode ::= alter locked' ip |>) ∧
  logged c d ∅ v dk tr (set_outstanding 1 g) l ∧ room MAXOPBLOCKS (set_outstanding 1 g).
Proof.
  intros [L (En & Eo & Ec & Es) K W Hs Hv Ed Hdk].
  assert (wp (zoom lL begin_op) (λ _ s1, ∃ l, s1 = s <| fs_l := l |> ∧ logged c d ∅ v dk tr (set_outstanding 1 g) l) s) as Hb.
  { apply wp_zoom. eapply (begin_op_run Ho Hl); [exact L|done|rewrite En, Eo; vm_compute; discriminate|].
    intros l Ll. exists l. split; [done|]. by rewrite Eo in Ll. }
  apply wp_run in Hb as ([] & s1 & E1 & l & -> & Ll). exists l. split_and!; [done| |done|].
  - apply (ilock_valid ip v dk tr (set_outstanding 1 g)); [exact Ll|by destruct Hs|done].
  - unfold room. simpl. rewrite En. change LOGSIZE with 30. change MAXOPBLOCKS with 10 in *. lia.
Qed.

(** [iunlock] and [end_op]: the transaction is on disk. *)
Lemma close_run ip v dk tr g i (s : fst') : flog ∅ v dk tr g s → lg_committing g = 0 → lg_outstanding g = 1 → (Z.to_nat (lg_n g) < NBUF)%nat →
  MAXOPBLOCKS < lg_size g → (ip < length (fs_inode s))%nat → fs_inode s !!! ip = i → i_lock i = SleepLock 1 (c_pid c) → 1 <= i_ref i →
  i_valid i = 1 → u32 (i_dev i) = d → fs_ok (fs_sb s) g v → file_wf (fs_sb s) g v i →
  wp (iunlock ip ;;; zoom lL end_op) (λ _ s', ∃ v' dk' tr' g' l, idle ip v' dk' tr' g' s' ∧ (∀ y, home g y → v' y = v y) ∧
    s' = s <| fs_l := l |> <| fs_inode := <[ip := i <| i_lock := SleepLock 0 0 |>]> (fs_inode s) |>) s.
Proof.
  intros L Ec Eo Hn Hsz Hip Ei Elk Hr Hv Ed K W. wp_step. apply (wp_iunlock ip v dk tr g); [done|done|by rewrite Ei|by rewrite Ei|]. intros l1 L1.
  apply wp_zoom. eapply (end_op_commits Ho Hl); [exact L1|done|done|done|]. intros l2 v' dk' L2 Hh.
  eexists v', dk', _, _, l2. split_and!; [|intros y Hy; by apply Hh|simpl; by rewrite alter_insert, Ei by done].
  set (s' := lset lL _ _). assert (fs_inode s' !!! ip = i <| i_lock := SleepLock 0 0 |>) as Ei' by (simpl; by rewrite lookup_total_alter, Ei by done).
  assert (∀ y, home (set_n 0 (set_outstanding 0 g)) y ↔ home g y) as Hg by done. assert (∀ y, home g y → v' y = v y) as Hv' by (intros y Hy; by apply Hh).
  split; rewrite ?Ei'; try done.
  - exact (home_fs_ok Hg Hv' K).
  - apply (file_wf_same _ _ _ i); [done|done|]. exact (home_file_wf Hg Hv' K W).
  - split; rewrite ?Ei'; try done. simpl. by rewrite length_alter.
  - intros y Hy. destruct (Hh y Hy) as [-> ->]. done.
Qed.

Lemma advance_run f r (s : sst) : let x := ss_file s !!! f in (f < length (ss_file s))%nat → 0 <= r → 0 <= f_off x → f_off x + r < 2 ^ 32 →
  wp (when (0 <? r) (updf f (λ x, x <| f_off := u32 (f_off x + r) |>)))
    (λ _ s', s' = s <| ss_file := <[f := x <| f_off := f_off x + r |>]> (ss_file s) |>) s.
Proof.
  clear. intros x Hf Hr Hx Hs. unfold when, updf. destruct (Z.ltb_spec 0 r); wp_step.
  - destruct s as [fs t ps os]. simpl in *. rewrite alter_insert by done. fold x. by rewrite u32_id by lia.
  - assert (r = 0) as -> by lia. rewrite Z.add_0_r, list_insert_id; [by destruct s|].
    rewrite (list_lookup_lookup_total_lt _ _ Hf). fold x. by destruct x.
Qed.

(** The calls of one piece and their states. *)
Record transaction (ip : nat) (from : source) (off n r : Z) (s s' : fst') : Prop := {
  ta_run : ∃ s1 s2 s3 s4, zoom lL begin_op s = (Ret tt, s1) ∧ ilock ip s1 = (Ret tt, s2) ∧ writei ip from off n s2 = (Ret r, s3) ∧
    iunlock ip s3 = (Ret tt, s4) ∧ zoom lL end_op s4 = (Ret tt, s');
  ta_same : fs_user s' = fs_user s ∧ fs_sb s' = fs_sb s;
}.

Lemma transaction_run ip from bs off v dk tr g (s : fst') : let i := fs_inode s !!! ip in let n := Z.of_nat (length bs) in
  idle ip v dk tr g s → 0 <= off <= i_size i → off + n <= MAXFILE * BSIZE → n <= write_max → supplies from (fs_user s) bs →
  ∃ r s' v' dk' tr' g', transaction ip from off n r s s' ∧ idle ip v' dk' tr' g' s' ∧ 0 <= r <= n ∧
    (r < n → ∀ z, 0 <= z < sb_size (fs_sb s) → used (fs_sb s) v' z = true) ∧
    overwritten (take (Z.to_nat r) bs) off v i v' (fs_inode s' !!! ip) ∧ i_size (fs_inode s' !!! ip) = Z.max (i_size i) (off + r).
Proof.
  intros i n I Hoff Hmax Hn Hsup. destruct (open_run ip v dk tr g s I) as (l & Eb & El & L & R).
  pose proof I as [_ (En & Eo & Ec & Es) K W Hs Hv Ed _]. fold i in W, Hv, Ed. set (s1 := s <| fs_l := l |> <| fs_inode ::= alter locked' ip |>) in El.
  assert (fs_inode s1 !!! ip = locked' i) as E1 by (unfold s1; simpl; rewrite lookup_total_alter; [done|apply Hs]).
  assert ((ip < length (fs_inode s1))%nat) as Hip1 by (unfold s1; simpl; rewrite length_alter; apply Hs).
  assert (∀ y, home (set_outstanding 1 g) y ↔ home g y) as Hg by done.
  pose proof (span_max off n ltac:(lia) ltac:(lia)) as Hspan. change MAXOPBLOCKS with 10 in *.
  assert (wp (writei ip from off n) (λ r s', ∃ v' g' i', after' ip ∅ v' dk tr g' i' s1 s' ∧ written bs off r (fs_sb s) (set_outstanding 1 g) v (locked' i) g' v' i') s1) as Hw.
  { rewrite <-E1. apply (writei_run (d := d) Ho Hl ip from bs off v dk tr (set_outstanding 1 g) s1); rewrite ?E1; try done.
    - exact (home_fs_ok Hg (λ _ _, eq_refl) K).
    - apply (file_wf_same _ _ _ i); [done|done|]. exact (home_file_wf Hg (λ _ _, eq_refl) K W).
    - by eapply room_le. }
  apply wp_run in Hw as (r & s2 & Ew & v2 & g2 & i2 & A2 & [P1 P2 P3 P4 _ [P5 P5'] _ _ _ _ (S1 & _ & S3 & S4) P6]).
  destruct (after_slot _ _ _ _ _ _ _ _ _ A2 Hip1) as (E2 & Hip2 & Esb2 & Eu2 & L2). simpl in S1, S3, S4, P6. rewrite En in P6. fold n in P6.
  assert (i_lock i2 = SleepLock 1 (c_pid c) ∧ i_ref i2 = i_ref i ∧ i_valid i2 = i_valid i ∧ i_dev i2 = i_dev i ∧ i_size i2 = Z.max (i_size i) (off + r))
    as (F1 & F2 & F3 & F4 & F5) by (by rewrite P4). change (fs_sb s) with (fs_sb s1) in P5, P5'. rewrite <-Esb2 in P5, P5'.
  pose proof (close_run ip v2 dk tr g2 i2 s2 L2 ltac:(congruence) S3 ltac:(change NBUF with 30%nat; lia) ltac:(change MAXOPBLOCKS with 10; lia) Hip2 E2 F1
    ltac:(rewrite F2; apply Hs) ltac:(congruence) ltac:(congruence) P5' P5) as ([] & s3 & Eu & Hc)%wp_bind_inv%wp_run.
  apply wp_run in Hc as ([] & s4 & Ee & v' & dk' & tr' & g' & l4 & I4 & Hv4 & E4).
  assert (fs_inode s4 !!! ip = i2 <| i_lock := SleepLock 0 0 |>) as Ei4 by (rewrite E4; simpl; by apply list_lookup_total_insert_eq).
  exists r, s4, v', dk', tr', g'. split_and!; try done || lia.
  - split; [by eexists _, _, _, _|]. rewrite E4. simpl. by rewrite Eu2, Esb2.
  - intros Hlt z Hz. rewrite Esb2 in P5'. rewrite (home_used Hv4 P5') by done. by apply P2.
  - intros j Hj. rewrite Ei4, (cbyte_addrs v' i2), (home_cbyte (g := g2) Hv4 P5), P3 by done. by rewrite (cbyte_addrs v i (locked' i)).
  - by rewrite Ei4.
Qed.

(** A piece in the loop of [filewrite]. *)
Lemma piece_run f a bs v dk tr g {A} (k : Z → M sst A) (Q : A → sst → Prop) (s : sst) : let x := ss_file s !!! f in let ip := f_ip x in
  let n := Z.of_nat (length bs) in idle ip v dk tr g (ss_fs s) → (f < length (ss_file s))%nat → 0 <= f_off x <= i_size (fs_inode (ss_fs s) !!! ip) →
  f_off x + n <= MAXFILE * BSIZE → n <= write_max → supplies (FromAddr true a) (fs_user (ss_fs s)) bs →
  (∀ r v' dk' tr' g' s', idle ip v' dk' tr' g' (ss_fs s') → 0 <= r <= n →
     (r < n → ∀ z, 0 <= z < sb_size (fs_sb (ss_fs s)) → used (fs_sb (ss_fs s)) v' z = true) →
     wrote_through f (take (Z.to_nat r) bs) v s v' s' → wp (k r) Q s') →
  wp (begin_op_s ;;;
      x <- getf f ;;
      zoom fsL (ilock (f_ip x)) ;;;
      x <- getf f ;;
      r <- zoom fsL (writei (f_ip x) (FromAddr true a) (f_off x) n) ;;
      when (0 <? r) (updf f (λ x, x <| f_off := u32 (f_off x + r) |>)) ;;;
      zoom fsL (iunlock (f_ip x)) ;;;
      end_op_s ;;;
      k r) Q s.
Proof.
  intros x ip n I Hf Hoff Hmax Hn Hsup HQ. assert (MAXFILE * BSIZE = 274432) as EM by done.
  destruct (transaction_run ip (FromAddr true a) bs (f_off x) v dk tr g (ss_fs s) I Hoff Hmax Hn Hsup)
    as (r & s5 & v' & dk' & tr' & g' & [(s1 & s2 & s3 & s4 & E1 & E2 & E3 & E4 & E5) Hsame] & I' & Hr & Hfull & Hby & Hsz).
  unfold begin_op_s, end_op_s, getf. wp_step. apply wp_zoom. apply (wp_intro _ _ _ _ _ E1). wp_step. apply wp_gets.
  change (ss_file (lset fsL _ s)) with (ss_file s). fold x. fold ip. wp_step. apply wp_zoom. apply (wp_intro _ _ _ _ _ E2).
  wp_step. apply wp_gets. change (ss_file (lset fsL _ _)) with (ss_file s). fold x. fold ip. wp_step. apply wp_zoom. apply (wp_intro _ _ _ _ _ E3).
  set (t1 := lset fsL s3 _). assert (ss_file t1 = ss_file s ∧ ss_fs t1 = s3) as [Ef1 Et1] by done.
  wp_step. eapply wp_mono; [apply (advance_run f r t1); rewrite ?Ef1; fold x; lia|]. rewrite Ef1. fold x. intros _ t2 Et2.
  assert (ss_fs t2 = s3 ∧ ss_file t2 = <[f := x <| f_off := f_off x + r |>]> (ss_file s)) as [Et2' Ef2] by (by rewrite Et2).
  wp_step. apply wp_zoom. change (lget fsL t2) with (ss_fs t2). rewrite Et2'. apply (wp_intro _ _ _ _ _ E4).
  wp_step. apply wp_zoom. apply (wp_intro _ _ _ _ _ E5). apply (HQ r v' dk' tr' g'); [done|done|done|].
  assert (Z.of_nat (length (take (Z.to_nat r) bs)) = r) as Elen by (rewrite length_take; lia).
  split; cbv zeta; rewrite ?Elen; [exact Hby|exact Hsz|exact Ef2|exact Hsame].
Qed.

Lemma supplies_piece addr bs i n1 u : supplies (FromAddr true addr) u bs → 0 <= i → 0 <= n1 → i + n1 <= Z.of_nat (length bs) →
  supplies (FromAddr true (u64 (addr + i))) u (take (Z.to_nat n1) (drop (Z.to_nat i) bs)).
Proof.
  clear. intros (Hwf & Ha & Han & Hb) Hi Hn1 Hle. rewrite u64_id by lia. split_and!; [done|lia|rewrite length_take, length_drop; lia|].
  intros j b [Hj _]%lookup_take_Some. rewrite lookup_drop in Hj. rewrite <-(Hb _ _ Hj). f_equal. lia.
Qed.

(** The loop with [i] bytes written: [m] more go through, in one transaction per piece. *)
Definition loop_done (f : nat) (bs : list Z) (i : Z) (v : Z → block) (s : sst) (r : Z) (s' : sst) : Prop :=
  ∃ m v' dk' tr' g', idle (f_ip (ss_file s !!! f)) v' dk' tr' g' (ss_fs s') ∧ 0 <= m <= Z.of_nat (length bs) - i ∧
    (r = Z.of_nat (length bs) ∧ m = Z.of_nat (length bs) - i ∨
     r < Z.of_nat (length bs) ∧ m < Z.of_nat (length bs) - i ∧ ∀ z, 0 <= z < sb_size (fs_sb (ss_fs s)) → used (fs_sb (ss_fs s)) v' z = true) ∧
    wrote_through f (take (Z.to_nat m) (drop (Z.to_nat i) bs)) v s v' s'.

Lemma loop_done_app f bs i r v s v1 s1 q s' : (f < length (ss_file s))%nat → 0 <= i → 0 <= r → i + r <= Z.of_nat (length bs) →
  wrote_through f (take (Z.to_nat r) (drop (Z.to_nat i) bs)) v s v1 s1 → loop_done f bs (i + r) v1 s1 q s' → loop_done f bs i v s q s'.
Proof.
  clear. intros Hf Hi Hr Hle Hw (m & v' & dk' & tr' & g' & I & Hm & Hq & Hw').
  assert (f_ip (ss_file s1 !!! f) = f_ip (ss_file s !!! f)) as Ei by (rewrite (wt_file _ _ _ _ _ _ Hw); by rewrite list_lookup_total_insert_eq).
  assert (fs_sb (ss_fs s1) = fs_sb (ss_fs s)) as Es by apply Hw. rewrite Ei, Es in *.
  exists (r + m), v', dk', tr', g'. split_and!; [done|lia|lia|destruct Hq as [?|(? & ? & ?)]; [left|right]; split_and!; done || lia|].
  replace (take (Z.to_nat (r + m)) (drop (Z.to_nat i) bs)) with
    (take (Z.to_nat r) (drop (Z.to_nat i) bs) ++ take (Z.to_nat m) (drop (Z.to_nat (i + r)) bs)); [by eapply wrote_app|].
  replace (Z.to_nat (r + m)) with (Z.to_nat r + Z.to_nat m)%nat by lia. rewrite <-take_take_drop, drop_drop. do 2 f_equal. f_equal. lia.
Qed.

Lemma filewrite_loop_run f addr bs k : ∀ i v dk tr g (s : sst), let x := ss_file s !!! f in let n := Z.of_nat (length bs) in
  idle (f_ip x) v dk tr g (ss_fs s) → (f < length (ss_file s))%nat → 0 <= f_off x <= i_size (fs_inode (ss_fs s) !!! f_ip x) →
  f_off x + (n - i) <= MAXFILE * BSIZE → 0 <= i <= n → supplies (FromAddr true addr) (fs_user (ss_fs s)) bs → n - i <= Z.of_nat k →
  wp (filewrite_loop k f addr n i) (loop_done f bs i v s) s.
Proof.
  induction k as [|k IH]; intros i v dk tr g s x n I Hf Hoff Hmax Hi Hsup Hk'.
  - cbn [filewrite_loop]. wp_step. assert (i = n) as -> by lia. exists 0, v, dk, tr, g. fold n. split_and!; [done|lia|lia|left; lia|]. by apply wrote_none.
  - cbn [filewrite_loop]. destruct (Z.ltb_spec i n) as [Hlt|Hge].
    2:{ wp_step. assert (i = n) as -> by lia. exists 0, v, dk, tr, g. fold n. split_and!; [done|lia|lia|left; lia|]. by apply wrote_none. }
    set (n1 := Z.min (n - i) write_max). assert (0 < n1 <= n - i) as Hn1 by (unfold n1; change write_max with 3072; lia).
    set (ps := take (Z.to_nat n1) (drop (Z.to_nat i) bs)). assert (Z.of_nat (length ps) = n1) as Eps by (unfold ps; rewrite length_take, length_drop; lia).
    pose proof (supplies_piece addr bs i n1 _ Hsup ltac:(lia) ltac:(lia) ltac:(lia)) as Hps. fold ps in Hps.
    cbv zeta. rewrite <-Eps. apply (piece_run f (u64 (addr + i)) ps v dk tr g); fold x; [done|done|done|lia|unfold n1 in *; lia|done|].
    rewrite Eps. intros r v1 dk1 tr1 g1 s1 I1 Hr Hfull Hw.
    assert (take (Z.to_nat r) ps = take (Z.to_nat r) (drop (Z.to_nat i) bs)) as Et by (unfold ps; rewrite take_take; f_equal; lia). rewrite Et in Hw.
    destruct (Z.eqb_spec r n1) as [->|Hne]; simpl (negb _); cbv iota.
    + assert (ss_file s1 !!! f = x <| f_off := f_off x + n1 |>) as Ex.
      { rewrite (wt_file _ _ _ _ _ _ Hw), list_lookup_total_insert_eq by done. fold x. rewrite <-Et. unfold ps. rewrite take_take, Nat.min_id. fold ps. by rewrite Eps. }
      pose proof (wt_size _ _ _ _ _ _ Hw) as Hsz. cbv zeta in Hsz. fold x in Hsz. destruct (wt_same _ _ _ _ _ _ Hw) as [Eu _].
      eapply wp_mono; [apply (IH (i + n1) v1 dk1 tr1 g1 s1); rewrite ?Ex, ?Eu; simpl; try done || lia|].
      * rewrite (wt_file _ _ _ _ _ _ Hw). by rewrite length_insert.
      * rewrite Hsz, length_take, length_drop. lia.
      * intros q s' Hq. by eapply loop_done_app; [..|exact Hw|exact Hq]; lia.
    + wp_step. exists r, v1, dk1, tr1, g1. fold x n. split_and!; [done|lia|lia| |done]. right. split_and!; [lia|lia|]. apply Hfull. lia.
Qed.

(** C5: [write] of a file on disk, through all the layers.  With no other operation
    running, [filewrite] stores the bytes of the process at the offset of the open
    file and moves the offset: the first [m] bytes, all of them, in which case it
    returns [n], or fewer, in which case it returns -1 and every block of the disk
    is in use.  It runs one transaction per piece, each within the log, and leaves
    all of them committed: what the disk holds is what a reader sees, so that the
    bytes survive a crash. *)
Theorem filewrite_durable devsw_write others fuel f addr bs v dk tr g (s : sst) : let x := ss_file s !!! f in let n := Z.of_nat (length bs) in
  f_type x = FD_INODE → f_writable x = true → (f < length (ss_file s))%nat → idle (f_ip x) v dk tr g (ss_fs s) →
  0 <= f_off x <= i_size (fs_inode (ss_fs s) !!! f_ip x) → f_off x + n <= MAXFILE * BSIZE → supplies (FromAddr true addr) (fs_user (ss_fs s)) bs →
  wp (filewrite devsw_write others fuel f addr n) (λ r s', ∃ m v' dk' tr' g', idle (f_ip x) v' dk' tr' g' (ss_fs s') ∧
    wrote_through f (take (Z.to_nat m) bs) v s v' s' ∧
    (r = n ∧ m = n ∨ r = -1 ∧ 0 <= m < n ∧ ∀ z, 0 <= z < sb_size (fs_sb (ss_fs s)) → used (fs_sb (ss_fs s)) v' z = true)) s.
Proof.
  intros x n Et Ew Hf I Hoff Hmax Hsup. unfold filewrite, getf. wp_step. apply wp_gets. fold x. rewrite Ew, Et. simpl (negb _). cbv iota.
  wp_step. eapply wp_mono; [apply (filewrite_loop_run f addr bs (Z.to_nat n) 0 v dk tr g s); fold x n; done || lia|].
  intros r s' (m & v' & dk' & tr' & g' & I' & Hm & Hr & Hw). rewrite Z.sub_0_r in *. wp_step. exists m, v', dk', tr', g'. split_and!; [done|done|].
  fold x n in Hm, Hr. destruct Hr as [[-> ->]|(Hlt & Hm' & Hfull)]; [left; by rewrite Z.eqb_refl|right].
  rewrite (proj2 (Z.eqb_neq _ _)) by lia. split_and!; done || lia.
Qed.
End filewrite.

(** The demo disk with no operation running, and an empty file open on it. *)
Module FileWriteDemo.

Definition g2 : log := set_n 0 (set_outstanding 0 FsDemo.g1).

Lemma closed : ∃ l v dk tr, logged LogDemo.c0 1 ∅ v dk tr g2 l ∧ ∀ y, home FsDemo.g1 y → v y = FsDemo.v0 y ∧ dk y = FsDemo.v0 y.
Proof.
  destruct FsDemo.open as [l L]. destruct LogDemo.c0_ok as [Ho Hl].
  assert (wp end_op (λ _ l, ∃ v dk tr, logged LogDemo.c0 1 ∅ v dk tr g2 l ∧ ∀ y, home FsDemo.g1 y → v y = FsDemo.v0 y ∧ dk y = FsDemo.v0 y) l) as Hw.
  { eapply (end_op_commits Ho Hl); [exact L|reflexivity|reflexivity|vm_compute; lia|]. intros l' v' dk' L' Hh. eexists _, _, _. split; [exact L'|exact Hh]. }
  apply wp_reaches in Hw as (l' & H'). exists l'. exact H'.
Qed.

Definition open_file : file := File FD_INODE 1 true true 0 0 0 0.
Definition state (l : lstate RamDisk.t) : sstate RamDisk.t FlatUser.t :=
  SState (InodeDemo.with_slot WriteDemo.empty5 l) [open_file] ∅ (replicate NOFILE None).

Lemma state_idle l v dk tr : logged LogDemo.c0 1 ∅ v dk tr g2 l → (∀ y, home FsDemo.g1 y → v y = FsDemo.v0 y ∧ dk y = FsDemo.v0 y) →
  idle (c := LogDemo.c0) (d := 1) 0 v dk tr g2 (ss_fs (state l)).
Proof.
  intros L Hh. assert (∀ y, home FsDemo.g1 y → v y = FsDemo.v0 y) as Hv by (intros y Hy; by apply Hh).
  assert (∀ y, home g2 y ↔ home FsDemo.g1 y) as Hg by done. split.
  - exact L.
  - vm_compute. intuition congruence.
  - exact (home_fs_ok Hg Hv WriteDemo.disk_ok).
  - exact (home_file_wf Hg Hv WriteDemo.disk_ok WriteDemo.empty_wf).
  - split; [vm_compute; lia|vm_compute; discriminate|reflexivity].
  - reflexivity.
  - reflexivity.
  - intros y Hy. destruct (Hh y Hy) as [-> ->]. done.
Qed.
End FileWriteDemo.

Lemma filewrite_durable_witness : ∃ s : sstate RamDisk.t FlatUser.t,
  wp (filewrite (λ _, None) (ret tt) 0 0 100 3500)
    (λ r s', r = 3500 ∧ f_off (ss_file s' !!! 0%nat) = 3500 ∨ r = -1 ∧ f_off (ss_file s' !!! 0%nat) < 3500) s.
Proof.
  destruct FileWriteDemo.closed as (l & v & dk & tr & L & Hh). destruct LogDemo.c0_ok as [Ho Hl].
  exists (FileWriteDemo.state l).
  assert (supplies (FromAddr true 100) (fs_user (ss_fs (FileWriteDemo.state l))) (replicate 3500 0)) as Hs.
  { split_and!; [simpl; lia|lia|rewrite length_replicate; lia|]. intros k b [-> Hk]%lookup_replicate. simpl.
    rewrite (proj2 (Z.leb_le 0 _)), (proj2 (Z.ltb_lt _ 4096)) by lia. reflexivity. }
  eapply wp_mono; [apply (filewrite_durable (c := LogDemo.c0) (d := 1) Ho Hl ltac:(intros ip; apply not_elem_of_nil) (λ _, None) (ret tt) 0 0 100 (replicate 3500 0) v dk tr
    FileWriteDemo.g2 (FileWriteDemo.state l)); [reflexivity|reflexivity|vm_compute; lia|exact (FileWriteDemo.state_idle l v dk tr L Hh)|vm_compute; intuition discriminate|
    vm_compute; discriminate|exact Hs]|].
  intros r s' (m & v' & dk' & tr' & g' & _ & Hw & Hr). rewrite (wt_file _ _ _ _ _ _ Hw). rewrite list_lookup_total_insert_eq by (vm_compute; lia).
  set (q := length (take _ _)). simpl (f_off _). unfold q. rewrite length_take, length_replicate. change (Z.of_nat (length (replicate 3500 0))) with 3500 in Hr.
  destruct Hr as [[-> ->]|(-> & Hm & _)]; [left|right]; (split; [reflexivity|]); rewrite Z.add_0_l; [rewrite Nat.min_r by lia; reflexivity|lia].
Defined.

(** A piece of the largest size, on the demo disk. *)
Lemma write_max_fits_witness : ∃ s : fstate RamDisk.t FlatUser.t,
  wp (writei 0 (FromLocal (replicate 3072 1)) 0 3072) (λ r s', 0 <= r <= 3072) s.
Proof.
  destruct FsDemo.open as [l L]. destruct LogDemo.c0_ok as [Ho Hl]. exists (InodeDemo.with_slot WriteDemo.empty5 l).
  eapply wp_mono; [apply (write_max_fits (d := 1) Ho Hl 0 (FromLocal (replicate 3072 1)) (replicate 3072 1) 0 FsDemo.v0 (λ _, zero_block) [] FsDemo.g1
    (InodeDemo.with_slot WriteDemo.empty5 l)); [vm_compute; discriminate|unfold room; vm_compute; intuition discriminate|vm_compute; intuition discriminate|vm_compute; discriminate|
    vm_compute; lia|reflexivity|exact WriteDemo.disk_ok|exact WriteDemo.empty_wf|exact L|exists []; reflexivity]|].
  intros r s' [Hr _]. exact Hr.
Defined.
