(* ===== verification/KProc.v ===== *)
(** * The memory of a process

    The interfaces [UserMem] and [Process] of the drivers and the file layer,
    implemented by the page tables of [kernel/vm.c], the page allocator and the
    trapframe of the running process.  [user_mem_spec] discharges the
    specification that the clients were verified against. *)
From S2P Require Import Prelude Machine Cstring Spinlock Kalloc Vm VmMap VmSpec VmRefs VmCopy VmDemo UserMem Proc File.

(** The memory and the current process. *)
Record kproc := KProc { kp_k : kstate; kp_p : proc }.
Definition kpL : lens kproc kstate := Lens kp_k (λ k u, KProc k (kp_p u)).

(** [p->pagetable] *)
Definition root (u : kproc) : Z := p_pagetable (kp_p u).
Definition with_root {A} (f : Z → M kstate A) : M kproc A := r <- gets root ;; zoom kpL (f r).

(** The physical page and the byte of a user address. *)
Definition vbyte (u : kproc) (a : Z) : option Z :=
  let m := k_mem (kp_k u) in
  if (a <? 0) || (upa m (root u) a =? 0) then None else Some (m (ubyte m (root u) a)).

Section mem.
Context (kend : Z).

Lemma vbyte_some u a : 0 <= a → upa (k_mem (kp_k u)) (root u) a ≠ 0 →
  vbyte u a = Some (k_mem (kp_k u) (ubyte (k_mem (kp_k u)) (root u) a)).
Proof. intros Ha Hz. unfold vbyte. rewrite (proj2 (Z.ltb_ge a 0) Ha), (proj2 (Z.eqb_neq _ _) Hz). done. Qed.
Lemma vbyte_none u a : upa (k_mem (kp_k u)) (root u) a = 0 → vbyte u a = None.
Proof. intros Hz. unfold vbyte. rewrite (proj2 (Z.eqb_eq _ _) Hz). by rewrite orb_true_r. Qed.

(** A user address outside the range keeps its byte. *)
Lemma written_other free roots u s' va l x : root u ∈ roots → aspace (kend := kend) (roots := roots) (r := root u) free (kp_k u) →
  written (kend := kend) (roots := roots) (r := root u) free va l (kp_k u) s' →
  (∀ i, 0 <= i < Z.of_nat (length l) → upa (k_mem (kp_k u)) (root u) (va + i) ≠ 0) → 0 <= va →
  ¬ (va <= x < va + Z.of_nat (length l)) → vbyte (KProc s' (kp_p u)) x = vbyte u x.
Proof.
  intros Hr A W Hm Hva Hx. assert (∀ v, upa (k_mem s') (root u) v = upa (k_mem (kp_k u)) (root u) v) as Hup by (intros v; by apply upa_leaf, W).
  unfold vbyte. simpl. change (root (KProc s' (kp_p u))) with (root u). rewrite Hup.
  destruct (Z.ltb_spec x 0); [done|]. destruct (Z.eqb_spec (upa (k_mem (kp_k u)) (root u) x) 0) as [|Hz]; [done|].
  simpl. f_equal. unfold ubyte at 1. rewrite Hup. apply (wt_out _ _ _ _ _ W). intros i Hi E. apply Hx.
  destruct (as_user _ _ A x ltac:(lia) Hz) as ([_ A1] & _), (as_user _ _ A (va + i) ltac:(lia) (Hm i Hi)) as ([_ A2] & _).
  unfold ubyte in E. set (p := upa (k_mem (kp_k u)) (root u) x) in *. set (q := upa _ _ (va + i)) in *.
  assert (p = q) as Epq by (unfold PGSIZE in *; zdiv).
  pose proof (as_inj _ _ A x (va + i) ltac:(lia) ltac:(lia) Hz Epq) as Hpg. unfold PGSIZE in *. zdiv.
Qed.

(** The bytes of the range are the new ones. *)
Lemma written_over free roots u s' va l x : root u ∈ roots → aspace (kend := kend) (roots := roots) (r := root u) free (kp_k u) →
  written (kend := kend) (roots := roots) (r := root u) free va l (kp_k u) s' →
  (∀ i, 0 <= i < Z.of_nat (length l) → upa (k_mem (kp_k u)) (root u) (va + i) ≠ 0) → 0 <= va →
  vbyte (KProc s' (kp_p u)) x = over (vbyte u) Some va l x.
Proof.
  intros Hr A W Hm Hva. unfold over. destruct (decide (va <= x < va + Z.of_nat (length l))) as [Hin|Hout].
  - rewrite decide_True by lia. destruct (lookup_lt_is_Some_2 l (Z.to_nat (x - va))) as [b Hb]; [lia|]. rewrite Hb.
    assert (∀ v, upa (k_mem s') (root u) v = upa (k_mem (kp_k u)) (root u) v) as Hup by (intros v; by apply upa_leaf, W).
    pose proof (Hm (x - va) ltac:(lia)) as Hz. replace (va + (x - va)) with x in Hz by lia.
    rewrite vbyte_some by (simpl; change (root (KProc s' (kp_p u))) with (root u); rewrite ?Hup; done || lia).
    simpl. change (root (KProc s' (kp_p u))) with (root u). unfold ubyte. rewrite Hup.
    pose proof (wt_in _ _ _ _ _ W (x - va) ltac:(lia)) as Ein. unfold ubyte in Ein. replace (va + (x - va)) with x in Ein by lia.
    by rewrite Ein, Hb.
  - erewrite written_other by done. case_decide; [|done]. by rewrite lookup_ge_None_2 by lia.
Qed.

(** The page table of the process is an address space. *)
Definition u_aspace (u : kproc) : Prop :=
  KERNBASE <= kend ∧ ∃ free roots, root u ∈ roots ∧ aspace (kend := kend) (roots := roots) (r := root u) free (kp_k u).

Lemma copyin_vm u a n : u_aspace u → 0 <= a → 0 <= n → a + n <= 2 ^ 64 →
  (∃ bs, with_root (λ r, copyin r a n) u = (Ret (0, bs), u) ∧ Some <$> bs = (λ i, vbyte u (a + Z.of_nat i)) <$> seq 0 (Z.to_nat n)) ∨
  (∃ bs i, with_root (λ r, copyin r a n) u = (Ret (-1, bs), u) ∧ 0 <= i < n ∧ vbyte u (a + i) = None).
Proof.
  intros (Hk & free & roots & Hr & A) Ha Hn Hmax. unfold with_root, bind, gets, zoom. simpl.
  destruct (copyin_loop_run Hk Hr (Z.to_nat n) free (kp_k u) a n [] (as_ok _ _ A)) as [H1 H2]; [lia..|].
  destruct (decide (Exists (λ i, upa (k_mem (kp_k u)) (root u) (a + i) = 0) (seqZ 0 n))) as [(i & Hi%elem_of_seqZ & Hz)%Exists_exists|Hall].
  - right. destruct H2 as [l E]; [exists i; split; [lia|done]|]. exists l, i. unfold copyin. rewrite E.
    split_and!; [by destruct u|lia|lia|by apply vbyte_none].
  - left. assert (∀ i, 0 <= i < n → upa (k_mem (kp_k u)) (root u) (a + i) ≠ 0) as Hm.
    { intros i Hi Hz. apply Hall, Exists_exists. exists i. split; [apply elem_of_seqZ; lia|done]. }
    eexists. unfold copyin. rewrite (H1 Hm). split; [by destruct u|]. simpl. unfold vbytes. rewrite <-list_fmap_compose.
    apply list_fmap_ext. intros i x [-> Hi]%lookup_seq. simpl. rewrite vbyte_some; [done|lia|apply Hm; lia].
Qed.

Lemma copyout_vm u a bs : u_aspace u → 0 <= a → a + Z.of_nat (length bs) <= 2 ^ 64 →
  (∃ u', with_root (λ r, copyout r a bs) u = (Ret 0, u') ∧ u_aspace u' ∧ (∀ x, vbyte u' x = over (vbyte u) Some a bs x)) ∨
  (∃ u' i, with_root (λ r, copyout r a bs) u = (Ret (-1), u') ∧ u_aspace u' ∧ 0 <= i < Z.of_nat (length bs) ∧ vbyte u (a + i) = None ∧
     (∀ x, ¬ (a <= x < a + Z.of_nat (length bs)) → vbyte u' x = vbyte u x) ∧ (∀ x, vbyte u x = None → vbyte u' x = None)).
Proof.
  intros (Hk & free & roots & Hr & A) Ha Hmax. unfold with_root, bind, gets, zoom. simpl.
  destruct (copyout_loop_any Hk Hr (length bs) free (kp_k u) a bs A) as (s' & k & Hk' & W & Hm & Hres); [lia..|].
  assert (length (take k bs) = k) as El by (rewrite length_take; lia).
  assert (u_aspace (KProc s' (kp_p u))) as Hwf.
  { split; [done|]. exists free, roots. split; [done|]. by eapply written_aspace. }
  unfold copyout. destruct Hres as [[-> R]|(Hlt & R & Hz)]; rewrite R.
  - left. rewrite take_ge in W by lia. eexists. split_and!; [done|done|]. intros x.
    eapply written_over; [done|done|exact W| |done]. done.
  - right. eexists _, (Z.of_nat k). split_and!; [done|done|lia|lia|by apply vbyte_none| |].
    + intros x Hx. eapply written_other; [done|done|exact W|by rewrite El|done|rewrite El; lia].
    + intros x Hx. rewrite (written_over free roots u s' a (take k bs)) by (done || by rewrite El). unfold over. case_decide; [|done].
      destruct (take k bs !! _) as [b|] eqn:Eb; [|done]. apply lookup_lt_Some in Eb. rewrite El in Eb.
      pose proof (Hm (x - a) ltac:(lia)) as Hnz. replace (a + (x - a)) with x in Hnz by lia.
      rewrite vbyte_some in Hx; [done|lia|done].
Qed.

#[global] Instance user_mem : UserMem kproc := {|
  copyin_u a n := with_root (λ r, copyin r a n);
  copyout_u a bs := with_root (λ r, copyout r a bs);
  copyin_k a n := gets (λ u, bytes (k_mem (kp_k u)) a (Z.to_nat n));
  copyout_k a bs := modify (λ u, KProc (set_mem (wr_bytes (k_mem (kp_k u)) a bs) (kp_k u)) (kp_p u));
  u_byte := vbyte;
  u_wf := u_aspace;
|}.

#[global] Instance user_mem_spec : UserMemSpec kproc.
Proof. split; [exact copyin_vm|exact copyout_vm]. Qed.

(** ** The arguments of a system call, as in Syscall.v *)

Definition argraw_p (n : Z) : M kproc Z :=
  if (0 <=? n) && (n <=? 5) then p <- gets kp_p ;; zoom kpL (rd64 (tf_a n (p_trapframe p))) else panic "argraw".

Definition fetchaddr_p (addr : Z) : M kproc (Z * Z) :=
  p <- gets kp_p ;;
  if (p_sz p <=? addr) || (p_sz p <? u64 (addr + 8)) then ret (-1, 0) else
  let* '(rc, bs) := zoom kpL (copyin (p_pagetable p) addr 8) in
  if negb (rc =? 0) then ret (-1, 0) else ret (0, load64 (lmem bs) 0).

Definition fetchstr_p (addr max : Z) : M kproc (Z * list Z) :=
  p <- gets kp_p ;;
  let* '(rc, buf) := zoom kpL (copyinstr (p_pagetable p) addr max) in
  if rc <? 0 then ret (-1, buf) else
  match strlen (S (length buf)) (lmem buf) 0 with
  | Some n => ret (n, take (Z.to_nat n) buf)
  | None => panic "strlen"
  end.

#[global] Instance process : Process kproc := {|
  kalloc_u := zoom kpL kalloc;
  kfree_u pa := zoom kpL (kfree kend pa);
  argraw_u := argraw_p;
  fetchstr_u := fetchstr_p;
  fetchaddr_u := fetchaddr_p;
|}.

(** C27: the page tables implement the memory of a process, a partial map from
    addresses to bytes.  [copyin] and [copyout] of any range of 64-bit addresses,
    over page boundaries and beyond MAXVA, succeed exactly when each byte is mapped;
    [copyin] returns the bytes, [copyout] replaces them and changes no other byte
    of the process; a failing [copyout] changes bytes of its range only, and no
    byte is mapped or unmapped.  This is the interface that the file system, the
    pipes and the devices are verified against. *)
Theorem page_tables_implement_user_memory u : u_aspace u →
  (∀ a n, 0 <= a → 0 <= n → a + n <= 2 ^ 64 →
     (∃ bs, with_root (λ r, copyin r a n) u = (Ret (0, bs), u) ∧ Some <$> bs = (λ i, vbyte u (a + Z.of_nat i)) <$> seq 0 (Z.to_nat n)) ∨
     (∃ bs i, with_root (λ r, copyin r a n) u = (Ret (-1, bs), u) ∧ 0 <= i < n ∧ vbyte u (a + i) = None)) ∧
  (∀ a bs, 0 <= a → a + Z.of_nat (length bs) <= 2 ^ 64 →
     (∃ u', with_root (λ r, copyout r a bs) u = (Ret 0, u') ∧ u_aspace u' ∧ (∀ x, vbyte u' x = over (vbyte u) Some a bs x)) ∨
     (∃ u' i, with_root (λ r, copyout r a bs) u = (Ret (-1), u') ∧ u_aspace u' ∧ 0 <= i < Z.of_nat (length bs) ∧ vbyte u (a + i) = None ∧
        (∀ x, ¬ (a <= x < a + Z.of_nat (length bs)) → vbyte u' x = vbyte u x) ∧ (∀ x, vbyte u x = None → vbyte u' x = None))).
Proof. intros Hu. split; intros; [by apply copyin_vm|by apply copyout_vm]. Qed.
End mem.

(** Twenty bytes across the boundary of the two pages of the demo process. *)
Lemma page_tables_implement_user_memory_witness : ∃ u u', with_root (λ r, copyout r 4090 (replicate 20 7)) u = (Ret 0, u') ∧
  vbyte u' 4100 = Some 7.
Proof.
  destruct demo as (f & s & Dm). set (u := KProc s (proc0 <| p_pagetable := rootA |>)).
  assert (u_aspace kd u) as Hu.
  { split; [exact kd_ok|]. exists f, rts. split; [exact rts_A|]. exact (demo_aspace f s Dm). }
  destruct (proj2 (page_tables_implement_user_memory kd u Hu) 4090 (replicate 20 7)) as [(u' & E & _ & Hb)|(u' & i & _ & _ & Hi & Hn & _)];
    [lia|simpl; lia|..].
  - exists u, u'. split; [exact E|]. rewrite Hb. reflexivity.
  - exfalso. change (Z.of_nat (length (replicate 20 7))) with 20 in Hi. rewrite vbyte_some in Hn; [discriminate|lia|].
    change (root u) with rootA. rewrite (demo_upa_all f) by (exact Dm || lia). unfold PGSIZE.
    destruct (Z.ltb_spec (4090 + i) 4096), (Z.ltb_spec (4090 + i) (2 * 4096)); try discriminate. lia.
Defined.
