(* ===== verification/Sysfile.v ===== *)
(** * The system calls on files: [kernel/sysfile.c]

    Argument checking, descriptors, and the operations on directories, each a
    transaction of the log.  [exec] is an argument: Exec.v has it. *)
From S2P Require Import Prelude Machine Cstring Spinlock Sleeplock Blocks Bio Log UserMem Printf Pipe Fs File.

Definition O_RDONLY : Z := 0x000.
Definition O_WRONLY : Z := 0x001.
Definition O_RDWR : Z := 0x002.
Definition O_CREATE : Z := 0x200.
Definition O_TRUNC : Z := 0x400.

Section sysfile.
Context {D U : Type} `{DiskDriver D} `{Process U}.
Abbreviation sst := (sstate D U).
Context (devsw_read devsw_write : Z → option (bool → Z → Z → M sst Z)) (others : M sst unit).

Definition argint (n : Z) : M sst Z := x <- zoom uL (argraw_u n) ;; ret (i32 x).
Definition argaddr (n : Z) : M sst Z := zoom uL (argraw_u n).
Definition argstr (n max : Z) : M sst (Z * list Z) := addr <- argaddr n ;; zoom uL (fetchstr_u addr max).

(** The descriptor and its file. *)
Definition argfd (n : Z) : M sst (option (nat * nat)) :=
  fd <- argint n ;;
  if (fd <? 0) || (Z.of_nat NOFILE <=? fd) then ret None else
  o <- gets ss_ofile ;;
  ret (match o !!! Z.to_nat fd with Some f => Some (Z.to_nat fd, f) | None => None end).

Definition fdalloc (f : nat) : M sst Z :=
  o <- gets ss_ofile ;;
  match list_find (λ x, x = None) o with
  | Some (fd, _) => modify (λ s, s <| ss_ofile ::= <[fd := Some f]> |>) ;;; ret (Z.of_nat fd)
  | None => ret (-1)
  end.
Definition fdclear (fd : nat) : M sst unit := modify (λ s, s <| ss_ofile ::= <[fd := None]> |>).

Definition sys_dup : M sst Z :=
  a <- argfd 0 ;;
  match a with
  | None => ret (-1)
  | Some (_, f) =>
      fd <- fdalloc f ;;
      if fd <? 0 then ret (-1) else
      filedup f ;;; ret fd
  end.

Definition sys_read (fuel : nat) : M sst Z :=
  p <- argaddr 1 ;;
  n <- argint 2 ;;
  a <- argfd 0 ;;
  match a with None => ret (-1) | Some (_, f) => fileread devsw_read others fuel f p n end.

Definition sys_write (fuel : nat) : M sst Z :=
  p <- argaddr 1 ;;
  n <- argint 2 ;;
  a <- argfd 0 ;;
  match a with None => ret (-1) | Some (_, f) => filewrite devsw_write others fuel f p n end.

Definition sys_close : M sst Z :=
  a <- argfd 0 ;;
  match a with None => ret (-1) | Some (fd, f) => fdclear fd ;;; fileclose f ;;; ret 0 end.

Definition sys_fstat : M sst Z :=
  st <- argaddr 1 ;;
  a <- argfd 0 ;;
  match a with None => ret (-1) | Some (_, f) => filestat f st end.

Definition name0 : list Z := replicate (Z.to_nat DIRSIZ) 0.
Definition bump (δ : Z) (i : inode) : inode := i <| i_nlink := i16 (i_nlink i + δ) |>.

(** [bad:] of [sys_link] *)
Definition link_bad (ip : nat) : M sst Z :=
  zoom fsL (ilock ip ;;; updip ip (bump (-1)) ;;; iupdate ip ;;; iunlockput ip) ;;;
  end_op_s ;;; ret (-1).

Definition sys_link : M sst Z :=
  let* '(r0, old) := argstr 0 MAXPATH in
  if r0 <? 0 then ret (-1) else
  let* '(r1, new) := argstr 1 MAXPATH in
  if r1 <? 0 then ret (-1) else
  begin_op_s ;;;
  o <- zoom fsL (namei old) ;;
  match o with
  | None => end_op_s ;;; ret (-1)
  | Some ip =>
      zoom fsL (ilock ip) ;;;
      i <- zoom fsL (getip ip) ;;
      if i_type i =? T_DIR then zoom fsL (iunlockput ip) ;;; end_op_s ;;; ret (-1) else
      zoom fsL (updip ip (bump 1) ;;; iupdate ip ;;; iunlock ip) ;;;
      let* '(o, name) := zoom fsL (nameiparent new name0) in
      match o with
      | None => link_bad ip
      | Some dp =>
          zoom fsL (ilock dp) ;;;
          d <- zoom fsL (getip dp) ;;
          i <- zoom fsL (getip ip) ;;
          r <- (if negb (i_dev d =? i_dev i) then ret (-1) else zoom fsL (dirlink dp name (i_inum i))) ;;
          if r <? 0 then zoom fsL (iunlockput dp) ;;; link_bad ip else
          zoom fsL (iunlockput dp) ;;;
          zoom fsL (iput ip) ;;;
          end_op_s ;;;
          ret 0
      end
  end.

(** Is the directory empty except for "." and ".." ? *)
Definition isdirempty (dp : nat) : M (fstate D U) bool :=
  d <- getip dp ;;
  r <- for_each (drop 2 (entries (i_size d))) (λ off,
    let* '(n, de) := readi dp ToLocal off DIRENT in
    if negb (n =? DIRENT) then panic "isdirempty: readi" else
    ret (if negb (de_inum de =? 0) then Some tt else None)) ;;
  ret (match r with Some _ => false | None => true end).

Definition unlink_bad (dp : nat) : M sst Z := zoom fsL (iunlockput dp) ;;; end_op_s ;;; ret (-1).

Definition sys_unlink : M sst Z :=
  let* '(r, path) := argstr 0 MAXPATH in
  if r <? 0 then ret (-1) else
  begin_op_s ;;;
  let* '(o, name) := zoom fsL (nameiparent path name0) in
  match o with
  | None => end_op_s ;;; ret (-1)
  | Some dp =>
      zoom fsL (ilock dp) ;;;
      if (namecmp name (bytes_of ".") =? 0) || (namecmp name (bytes_of "..") =? 0) then unlink_bad dp else
      o <- zoom fsL (dirlookup dp name) ;;
      match o with
      | None => unlink_bad dp
      | Some (ip, off) =>
          zoom fsL (ilock ip) ;;;
          i <- zoom fsL (getip ip) ;;
          if i_nlink i <? 1 then panic "unlink: nlink < 1" else
          e <- (if i_type i =? T_DIR then zoom fsL (isdirempty ip) else ret true) ;;
          if negb e then zoom fsL (iunlockput ip) ;;; unlink_bad dp else
          n <- zoom fsL (writei dp (FromLocal (replicate (Z.to_nat DIRENT) 0)) off DIRENT) ;;
          if negb (n =? DIRENT) then panic "unlink: writei" else
          i <- zoom fsL (getip ip) ;;
          (if i_type i =? T_DIR then zoom fsL (updip dp (bump (-1)) ;;; iupdate dp) else ret tt) ;;;
          zoom fsL (iunlockput dp) ;;;
          zoom fsL (updip ip (bump (-1)) ;;; iupdate ip ;;; iunlockput ip) ;;;
          end_op_s ;;;
          ret 0
      end
  end.

(** [fail:] of [create] *)
Definition create_fail (ip dp : nat) : M (fstate D U) (option nat) :=
  updip ip (λ i, i <| i_nlink := 0 |>) ;;;
  iupdate ip ;;;
  iunlockput ip ;;;
  iunlockput dp ;;;
  ret None.

Definition create (path : list Z) (type major minor : Z) : M (fstate D U) (option nat) :=
  let* '(o, name) := nameiparent path name0 in
  match o with
  | None => ret None
  | Some dp =>
      ilock dp ;;;
      o <- dirlookup dp name ;;
      match o with
      | Some (ip, _) =>
          iunlockput dp ;;;
          ilock ip ;;;
          i <- getip ip ;;
          if (type =? T_FILE) && ((i_type i =? T_FILE) || (i_type i =? T_DEVICE)) then ret (Some ip)
          else iunlockput ip ;;; ret None
      | None =>
          d <- getip dp ;;
          o <- ialloc (i_dev d) type ;;
          match o with
          | None => iunlockput dp ;;; ret None
          | Some ip =>
              ilock ip ;;;
              updip ip (λ i, i <| i_major := major |> <| i_minor := minor |> <| i_nlink := 1 |>) ;;;
              iupdate ip ;;;
              i <- getip ip ;;
              d <- getip dp ;;
              ok <- (if type =? T_DIR then
                       r <- dirlink ip (bytes_of ".") (i_inum i) ;;
                       if r <? 0 then ret false else
                       r <- dirlink ip (bytes_of "..") (i_inum d) ;;
                       ret (0 <=? r)
                     else ret true) ;;
              if negb ok then create_fail ip dp else
              r <- dirlink dp name (i_inum i) ;;
              if r <? 0 then create_fail ip dp else
              (if type =? T_DIR then updip dp (bump 1) ;;; iupdate dp else ret tt) ;;;
              iunlockput dp ;;;
              ret (Some ip)
          end
      end
  end.

Definition open_fail (ip : nat) : M sst Z := zoom fsL (iunlockput ip) ;;; end_op_s ;;; ret (-1).

(** The inode of [open], locked; it exists, or is created. *)
Definition open_inode (path : list Z) (omode : Z) : M sst (option nat) :=
  if truth (Z.land omode O_CREATE) then
    o <- zoom fsL (create path T_FILE 0 0) ;;
    match o with None => end_op_s ;;; ret None | Some ip => ret (Some ip) end
  else
    o <- zoom fsL (namei path) ;;
    match o with
    | None => end_op_s ;;; ret None
    | Some ip =>
        zoom fsL (ilock ip) ;;;
        i <- zoom fsL (getip ip) ;;
        if (i_type i =? T_DIR) && negb (omode =? O_RDONLY) then open_fail ip ;;; ret None
        else ret (Some ip)
    end.

Definition sys_open : M sst Z :=
  omode <- argint 1 ;;
  let* '(n, path) := argstr 0 MAXPATH in
  if n <? 0 then ret (-1) else
  begin_op_s ;;;
  o <- open_inode path omode ;;
  match o with
  | None => ret (-1)
  | Some ip =>
      i <- zoom fsL (getip ip) ;;
      if (i_type i =? T_DEVICE) && ((i_major i <? 0) || (NDEV <=? i_major i)) then open_fail ip else
      o <- filealloc ;;
      match o with
      | None => open_fail ip
      | Some f =>
          fd <- fdalloc f ;;
          if fd <? 0 then fileclose f ;;; open_fail ip else
          (if i_type i =? T_DEVICE then updf f (λ x, x <| f_type := FD_DEVICE |> <| f_major := i_major i |>)
           else updf f (λ x, x <| f_type := FD_INODE |> <| f_off := 0 |>)) ;;;
          updf f (λ x, x <| f_ip := ip |> <| f_readable := negb (truth (Z.land omode O_WRONLY)) |>
            <| f_writable := truth (Z.land omode O_WRONLY) || truth (Z.land omode O_RDWR) |>) ;;;
          (if truth (Z.land omode O_TRUNC) && (i_type i =? T_FILE) then zoom fsL (itrunc ip) else ret tt) ;;;
          zoom fsL (iunlock ip) ;;;
          end_op_s ;;;
          ret fd
      end
  end.

(** [iunlockput(ip); end_op(); return 0] after [create], or [end_op(); return -1]. *)
Definition create_done (o : option nat) : M sst Z :=
  match o with
  | None => end_op_s ;;; ret (-1)
  | Some ip => zoom fsL (iunlockput ip) ;;; end_op_s ;;; ret 0
  end.

Definition sys_mkdir : M sst Z :=
  begin_op_s ;;;
  let* '(r, path) := argstr 0 MAXPATH in
  o <- (if r <? 0 then ret None else zoom fsL (create path T_DIR 0 0)) ;;
  create_done o.

Definition sys_mknod : M sst Z :=
  begin_op_s ;;;
  major <- argint 1 ;;
  minor <- argint 2 ;;
  let* '(r, path) := argstr 0 MAXPATH in
  o <- (if r <? 0 then ret None else zoom fsL (create path T_DEVICE (i16 major) (i16 minor))) ;;
  create_done o.

Definition sys_chdir : M sst Z :=
  begin_op_s ;;;
  let* '(r, path) := argstr 0 MAXPATH in
  o <- (if r <? 0 then ret None else zoom fsL (namei path)) ;;
  match o with
  | None => end_op_s ;;; ret (-1)
  | Some ip =>
      zoom fsL (ilock ip) ;;;
      i <- zoom fsL (getip ip) ;;
      if negb (i_type i =? T_DIR) then zoom fsL (iunlockput ip) ;;; end_op_s ;;; ret (-1) else
      zoom fsL (iunlock ip) ;;;
      s <- get ;;
      zoom fsL (iput (fs_cwd (ss_fs s))) ;;;
      end_op_s ;;;
      modify (λ s, s <| ss_fs ::= (λ f, f <| fs_cwd := ip |>) |>) ;;;
      ret 0
  end.

(** The loop of [sys_exec] over the arguments: the pages of [argv] and the
    strings in them, and whether all went well. *)
Fixpoint fetch_args (fuel : nat) (uargv i : Z) (argv : list (Z * list Z)) : M sst (bool * list (Z * list Z)) :=
  match fuel with
  | O => ret (false, argv)
  | S fl =>
      let* '(r, uarg) := zoom uL (fetchaddr_u (u64 (uargv + 8 * i))) in
      if r <? 0 then ret (false, argv) else
      if uarg =? 0 then ret (true, argv) else
      pg <- zoom uL kalloc_u ;;
      if pg =? 0 then ret (false, argv) else
      let* '(r, str) := zoom uL (fetchstr_u uarg PGSIZE) in
      if r <? 0 then ret (false, argv ++ [(pg, str)])
      else fetch_args fl uargv (i + 1) (argv ++ [(pg, str)])
  end.

Definition sys_exec (exec : list Z → list (list Z) → M sst Z) : M sst Z :=
  uargv <- argaddr 1 ;;
  let* '(r, path) := argstr 0 MAXPATH in
  if r <? 0 then ret (-1) else
  let* '(ok, argv) := fetch_args MAXARG uargv 0 [] in
  r <- (if ok : bool then exec path (snd <$> argv) else ret (-1)) ;;
  for_all argv (λ a, zoom uL (kfree_u (fst a))) ;;;
  ret r.

Definition sys_pipe : M sst Z :=
  fdarray <- argaddr 0 ;;
  o <- pipealloc ;;
  match o with
  | None => ret (-1)
  | Some (rf, wf) =>
      fd0 <- fdalloc rf ;;
      fd1 <- (if fd0 <? 0 then ret (-1) else fdalloc wf) ;;
      if (fd0 <? 0) || (fd1 <? 0) then
        (if 0 <=? fd0 then fdclear (Z.to_nat fd0) else ret tt) ;;;
        fileclose rf ;;; fileclose wf ;;; ret (-1)
      else
        r0 <- zoom uL (copyout_u fdarray (le 4 fd0)) ;;
        r1 <- (if r0 <? 0 then ret (-1) else zoom uL (copyout_u (u64 (fdarray + 4)) (le 4 fd1))) ;;
        if (r0 <? 0) || (r1 <? 0) then
          fdclear (Z.to_nat fd0) ;;; fdclear (Z.to_nat fd1) ;;;
          fileclose rf ;;; fileclose wf ;;; ret (-1)
        else ret 0
  end.
End sysfile.
