(* ===== verification/Exec.v ===== *)
(** * [kernel/exec.c]

    Loading a program: the new address space is built beside the old one, from
    the segments of the ELF file and the arguments on a new stack, and replaces
    it only when everything worked.  The model runs on the page tables and the
    page allocator themselves ([kproc] of KProc.v). *)
From S2P Require Import Prelude Machine Cstring Spinlock Sleeplock Kalloc Vm UserMem Blocks Bio Log Pipe Proc Fs File KProc.

Definition ELF_MAGIC : Z := 0x464C457F.
Definition ELF_PROG_LOAD : Z := 1.
Definition ELFHDR : Z := 64.                 (** [sizeof(struct elfhdr)] *)
Definition PROGHDR : Z := 56.                (** [sizeof(struct proghdr)] *)

Definition get64 := getn 8.
(** The fields of [struct elfhdr] and of [struct proghdr] that [exec] reads. *)
Definition elf_magic (b : list Z) : Z := get32 b 0.
Definition elf_entry (b : list Z) : Z := get64 b 24.
Definition elf_phoff (b : list Z) : Z := get64 b 32.
Definition elf_phnum (b : list Z) : Z := get16 b 56.

Record proghdr := ProgHdr { ph_type : Z; ph_flags : Z; ph_off : Z; ph_vaddr : Z; ph_filesz : Z; ph_memsz : Z }.
Definition load_proghdr (b : list Z) : proghdr :=
  ProgHdr (get32 b 0) (get32 b 4) (get64 b 8) (get64 b 16) (get64 b 32) (get64 b 40).

Definition flags2perm (flags : Z) : Z :=
  let perm := if truth (Z.land flags 1) then PTE_X else 0 in
  if truth (Z.land flags 2) then Z.lor perm PTE_W else perm.

(** The name of the program: what follows the last slash. *)
Fixpoint last_elem (path : list Z) (last : list Z) : list Z :=
  match path with [] => last | c :: p => if c =? 47 then last_elem p p else last_elem p last end.

(** Checks of a program header before its segment is mapped. *)
Definition ph_ok (ph : proghdr) : bool :=
  (ph_filesz ph <=? ph_memsz ph) && (ph_vaddr ph <=? u64 (ph_vaddr ph + ph_memsz ph)) && (ph_vaddr ph mod PGSIZE =? 0).

Section exec.
Context {D : Type} `{DiskDriver D} (kend trampoline : Z).
#[local] Instance proc_mem : UserMem kproc := user_mem kend.
#[local] Instance proc_env : Process kproc := process kend.
Abbreviation sst := (sstate D kproc).

Definition fstk : Type := fstate D kproc.
Definition fk {A} (m : M kstate A) : M fstk A := zoom Fs.userL (zoom kpL m).
Definition sk {A} (m : M kstate A) : M sst A := zoom fsL (fk m).
Definition cur : M sst proc := gets (λ s, kp_p (fs_user (ss_fs s))).
Definition setcur (f : proc → proc) : M sst unit :=
  modify (λ s, s <| ss_fs ::= (λ x, x <| fs_user ::= (λ u, KProc (kp_k u) (f (kp_p u))) |>) |>).

Fixpoint loadseg_loop (fuel : nat) (pagetable va : Z) (ip : nat) (offset sz i : Z) : M fstk Z :=
  match fuel with
  | O => ret 0
  | S f =>
      if i <? sz then
        pa <- fk (walkaddr pagetable (u64 (va + i))) ;;
        if pa =? 0 then panic "loadseg: address should exist" else
        let n := if sz - i <? PGSIZE then sz - i else PGSIZE in
        let* '(r, _) := readi ip (ToAddr false pa) (u32 (offset + i)) n in
        if negb (r =? n) then ret (-1) else loadseg_loop f pagetable va ip offset sz (i + PGSIZE)
      else ret 0
  end.
Definition loadseg (pagetable va : Z) (ip : nat) (offset sz : Z) : M fstk Z :=
  loadseg_loop (Z.to_nat (sz / PGSIZE + 1)) pagetable va ip offset sz 0.

(** The loop over the program headers, [None] for [goto bad]; the size of the new image. *)
Fixpoint load_program (n : nat) (pagetable : Z) (ip : nat) (off sz : Z) : M fstk (bool * Z) :=
  match n with
  | O => ret (true, sz)
  | S n =>
      let* '(r, b) := readi ip ToLocal (u32 off) PROGHDR in
      if negb (r =? PROGHDR) then ret (false, sz) else
      let ph := load_proghdr b in
      if negb (ph_type ph =? ELF_PROG_LOAD) then load_program n pagetable ip (i32 (off + PROGHDR)) sz else
      if negb (ph_ok ph) then ret (false, sz) else
      sz1 <- fk (uvmalloc kend pagetable sz (u64 (ph_vaddr ph + ph_memsz ph)) (flags2perm (ph_flags ph))) ;;
      if sz1 =? 0 then ret (false, sz) else
      r <- loadseg pagetable (ph_vaddr ph) ip (u32 (ph_off ph)) (u32 (ph_filesz ph)) ;;
      if r <? 0 then ret (false, sz1) else load_program n pagetable ip (i32 (off + PROGHDR)) sz1
  end.

(** The argument strings, pushed from [sp] down; [ustack], [None] for [goto bad]. *)
Fixpoint push_args (pagetable stackbase : Z) (argv : list (list Z)) (sp : Z) (ustack : list Z) : M sst (option (Z * list Z)) :=
  match argv with
  | [] => ret (Some (sp, ustack))
  | s :: argv =>
      if Z.of_nat MAXARG <=? Z.of_nat (length ustack) then ret None else
      let sp := u64 (sp - (Z.of_nat (length s) + 1)) in
      let sp := sp - sp mod 16 in
      if sp <? stackbase then ret None else
      r <- sk (copyout pagetable sp (s ++ [0])) ;;
      if r <? 0 then ret None else push_args pagetable stackbase argv sp (ustack ++ [sp])
  end.

(** The stack: the strings, then the array of their addresses. *)
Definition push_stack (pagetable sz : Z) (argv : list (list Z)) : M sst (option Z) :=
  let stackbase := sz - PGSIZE in
  o <- push_args pagetable stackbase argv sz [] ;;
  match o with
  | None => ret None
  | Some (sp, ustack) =>
      let words := ustack ++ [0] in
      let sp := u64 (sp - Z.of_nat (length words) * 8) in
      let sp := sp - sp mod 16 in
      if sp <? stackbase then ret None else
      r <- sk (copyout pagetable sp (words ≫= le 8)) ;;
      if r <? 0 then ret None else ret (Some sp)
  end.

(** [bad:] with a page table; [ip] is open inside a transaction or closed. *)
Definition exec_bad (pagetable sz : Z) (ip : option nat) : M sst Z :=
  (if truth pagetable then sk (proc_freepagetable kend pagetable sz) else ret tt) ;;;
  match ip with
  | Some ip => zoom fsL (iunlockput ip) ;;; end_op_s
  | None => ret tt
  end ;;;
  ret (-1).

(** Commit to the user image. *)
Definition exec_commit (path : list Z) (pagetable sz sp entry argc : Z) : M sst Z :=
  p <- cur ;;
  sk (wr64 (tf_a 1 (p_trapframe p)) sp) ;;;
  setcur (λ p, p <| p_name ::= copy_name (last_elem path path ++ [0]) |>) ;;;
  let oldpagetable := p_pagetable p in
  let oldsz := p_sz p in
  setcur (λ p, p <| p_pagetable := pagetable |> <| p_sz := sz |>) ;;;
  sk (wr64 (tf_epc (p_trapframe p)) entry) ;;;
  sk (wr64 (tf_sp (p_trapframe p)) sp) ;;;
  sk (proc_freepagetable kend oldpagetable oldsz) ;;;
  ret argc.

(** After the file is loaded: the stack, and the commit. *)
Definition exec_image (path : list Z) (argv : list (list Z)) (pagetable sz entry : Z) : M sst Z :=
  let sz := PGROUNDUP sz in
  sz1 <- sk (uvmalloc kend pagetable sz (u64 (sz + 2 * PGSIZE)) PTE_W) ;;
  if sz1 =? 0 then exec_bad pagetable sz None else
  sk (uvmclear pagetable (sz1 - 2 * PGSIZE)) ;;;
  o <- push_stack pagetable sz1 argv ;;
  match o with
  | None => exec_bad pagetable sz1 None
  | Some sp => exec_commit path pagetable sz1 sp entry (Z.of_nat (length argv))
  end.

Definition exec (path : list Z) (argv : list (list Z)) : M sst Z :=
  begin_op_s ;;;
  o <- zoom fsL (namei path) ;;
  match o with
  | None => end_op_s ;;; ret (-1)
  | Some ip =>
      zoom fsL (ilock ip) ;;;
      let* '(r, elf) := zoom fsL (readi ip ToLocal 0 ELFHDR) in
      if negb (r =? ELFHDR) then exec_bad 0 0 (Some ip) else
      if negb (elf_magic elf =? ELF_MAGIC) then exec_bad 0 0 (Some ip) else
      p <- cur ;;
      pagetable <- sk (proc_pagetable kend trampoline (p_trapframe p)) ;;
      if pagetable =? 0 then exec_bad 0 0 (Some ip) else
      let* '(ok, sz) := zoom fsL (load_program (Z.to_nat (elf_phnum elf)) pagetable ip (i32 (elf_phoff elf)) 0) in
      if negb ok then exec_bad pagetable sz (Some ip) else
      zoom fsL (iunlockput ip) ;;;
      end_op_s ;;;
      exec_image path argv pagetable sz (elf_entry elf)
  end.
End exec.
