(* ===== verification/ExecSpec.v ===== *)
(** * [exec] replaces the image of the process, or changes nothing of it *)
From S2P Require Import Prelude Frame Machine Cstring Spinlock Sleeplock Kalloc Vm UserMem Blocks Bio Log Pipe Proc Fs FsFrame File KProc Exec.

Section exec_spec.
Context {D : Type} `{DiskDriver D} (kend trampoline : Z).
#[local] Instance proc_mem' : UserMem kproc := user_mem kend.
#[local] Instance proc_env' : Process kproc := process kend.
Abbreviation sst := (sstate D kproc).

(** The process control block. *)
Definition proc_of (s : sst) : proc := kp_p (fs_user (ss_fs s)).

Lemma keeps_kpL {A} (m : M kstate A) : keeps kp_p (zoom kpL m).
Proof. by apply keeps_zoom_out. Qed.
#[local] Hint Resolve keeps_kpL : frame.

Lemma keeps_copyin a n : keeps kp_p (copyin_u a n).
Proof. unfold copyin_u, proc_mem', user_mem, with_root. frame. Qed.
Lemma keeps_copyout a bs : keeps kp_p (copyout_u a bs).
Proof. unfold copyout_u, proc_mem', user_mem, with_root. frame. Qed.
Lemma keeps_copyin_k a n : keeps kp_p (copyin_k a n).
Proof. done. Qed.
Lemma keeps_copyout_k a bs : keeps kp_p (copyout_k a bs).
Proof. by apply keeps_modify. Qed.
#[local] Hint Resolve keeps_copyin keeps_copyout keeps_copyin_k keeps_copyout_k : frame.
#[local] Hint Resolve keeps_namei keeps_ilock keeps_readi keeps_iunlockput : frame.

Abbreviation part := (fs_part (D := D) (h := kp_p)).

Lemma keeps_fk {A} (m : M kstate A) : keeps part (fk m).
Proof. unfold fk. apply keeps_userL. frame. Qed.
Lemma keeps_fsL {A} (m : M (fstate D kproc) A) : keeps part m → keeps proc_of (zoom fsL m).
Proof. by apply keeps_zoom_in. Qed.
#[local] Hint Resolve keeps_fk keeps_fsL keeps_lL : frame.
Lemma keeps_sk {A} (m : M kstate A) : keeps proc_of (sk m).
Proof. unfold sk. frame. Qed.
Lemma keeps_begin_op_s : keeps proc_of begin_op_s.
Proof. unfold begin_op_s. frame. Qed.
Lemma keeps_end_op_s : keeps proc_of end_op_s.
Proof. unfold end_op_s. frame. Qed.
#[local] Hint Resolve keeps_sk keeps_begin_op_s keeps_end_op_s : frame.

Lemma keeps_loadseg pagetable va ip offset sz : keeps part (loadseg kend pagetable va ip offset sz).
Proof.
  unfold loadseg. generalize 0 as i. generalize (Z.to_nat (sz / PGSIZE + 1)) as fuel.
  induction fuel as [|fuel IH]; intros i; cbn [loadseg_loop]; frame.
Qed.
#[local] Hint Resolve keeps_loadseg : frame.
Lemma keeps_load_program n pagetable ip off sz : keeps part (load_program kend n pagetable ip off sz).
Proof. revert off sz. induction n as [|n IH]; intros off sz; cbn [load_program]; frame. Qed.
Lemma keeps_push_args pagetable base argv sp us : keeps proc_of (push_args pagetable base argv sp us).
Proof. revert sp us. induction argv as [|a argv IH]; intros sp us; cbn [push_args]; frame. Qed.
#[local] Hint Resolve keeps_load_program keeps_push_args : frame.
Lemma keeps_push_stack pagetable sz argv : keeps proc_of (push_stack pagetable sz argv).
Proof. unfold push_stack. frame. Qed.
Lemma keeps_exec_bad pagetable sz ip : keeps proc_of (exec_bad kend pagetable sz ip).
Proof. unfold exec_bad. frame. Qed.
#[local] Hint Resolve keeps_push_stack keeps_exec_bad : frame.

(** The process [p] with a new image. *)
Definition new_image (path : list Z) (p : proc) (pagetable sz : Z) : proc :=
  p <| p_name ::= copy_name (last_elem path path ++ [0]) |> <| p_pagetable := pagetable |> <| p_sz := sz |>.

Definition replaced (path : list Z) (p p' : proc) : Prop := ∃ pagetable sz, pagetable ≠ 0 ∧ p' = new_image path p pagetable sz.

(** [exec] of a process [p]: it fails and the process is as before, or it
    returns the number of arguments and the process has the new image; on the way
    to a panic or asleep the process has the old image or the new one. *)
Definition exec_post (path : list Z) (argc : Z) (p : proc) (o : outcome Z) (s' : sst) : Prop :=
  match o with
  | Ret r => r = -1 ∧ proc_of s' = p ∨ r = argc ∧ replaced path p (proc_of s')
  | _ => proc_of s' = p ∨ replaced path p (proc_of s')
  end.

Lemma post_before {A} path argc (m : M sst A) (k : A → M sst Z) (s : sst) : keeps proc_of m →
  (∀ a t, proc_of t = proc_of s → post (k a) (exec_post path argc (proc_of s)) t) →
  post (bind m k) (exec_post path argc (proc_of s)) s.
Proof.
  intros Hm Hk. eapply (post_keeps proc_of); [done|done|]. intros o t E Ho. destruct o as [a|e|ch]; [by destruct (Ho a)|by left..].
Qed.

Lemma post_bad path argc p pagetable sz ip (s : sst) : proc_of s = p → post (exec_bad kend pagetable sz ip) (exec_post path argc p) s.
Proof.
  intros <-. unfold exec_bad. apply post_before; [frame|]. intros _ t <-.
  apply post_before; [frame|]. intros _ t' E. apply post_ret. by left.
Qed.

(** After the fields are set nothing that follows touches them. *)
Lemma post_after {A} path argc p (m : M sst A) (k : M sst Z) (s : sst) : keeps proc_of m → replaced path p (proc_of s) →
  (∀ t, replaced path p (proc_of t) → post k (exec_post path argc p) t) → post (m ;;; k) (exec_post path argc p) s.
Proof.
  intros Hm Hs Hk. eapply (post_keeps proc_of); [done|intros _ t E; apply Hk; by rewrite E|].
  intros o t E Ho. rewrite <-E in Hs. destruct o as [a|e|ch]; [by destruct (Ho a)|by right..].
Qed.

Lemma post_commit path argc p pagetable sz sp entry (s : sst) : proc_of s = p → pagetable ≠ 0 →
  post (exec_commit kend path pagetable sz sp entry argc) (exec_post path argc p) s.
Proof.
  intros <- Hp. unfold exec_commit, cur. apply post_gets. apply post_before; [frame|]. intros _ t <-.
  apply post_modify, post_modify. set (t' := _ <| ss_fs ::= _ |>).
  assert (replaced path (proc_of t) (proc_of t')) as Hr by (by exists pagetable, sz).
  apply post_after; [frame|done|]. intros t1 H1. apply post_after; [frame|done|]. intros t2 H2.
  apply post_after; [frame|done|]. intros t3 H3. apply post_ret. by right.
Qed.

End exec_spec.
