(* ===== verification/Grep.v ===== *)
(** * [user/grep.c]

    The matcher of regular expressions and the loop that splits the input into
    lines.  A string is the list of its bytes without the NUL; the input is the
    sequence of pieces that [read] can return, and [read(fd, buf, n)] returns
    at most [n] bytes of the next piece.  The matcher is proved against a
    declarative meaning of patterns, and the loop against the lines of the
    whole input, however the reads cut it. *)
From S2P Require Import Prelude Machine.

(** ** The matcher *)

(** [matchstar(c, re, text)], with [here] for [matchhere(re, _)] *)
Fixpoint matchstar (here : list Z → bool) (c : Z) (text : list Z) : bool :=
  if here text then true else
  match text with
  | [] => false
  | t :: text' => if (t =? c) || (c =? 46) then matchstar here c text' else false
  end.

Fixpoint matchhere (re text : list Z) : bool :=
  match re with
  | [] => true
  | c :: re1 =>
      match re1 with
      | 42 :: re2 => matchstar (matchhere re2) c text
      | _ =>
          if (c =? 36) && bool_decide (re1 = []) then bool_decide (text = []) else
          match text with
          | [] => false
          | t :: text' => if (c =? 46) || (c =? t) then matchhere re1 text' else false
          end
      end
  end.

(** The loop of [match] over the places of the text, its end included. *)
Fixpoint match_from (re text : list Z) : bool :=
  if matchhere re text then true else
  match text with [] => false | _ :: text' => match_from re text' end.
Definition match_ (re text : list Z) : bool :=
  match re with 94 :: re' => matchhere re' text | _ => match_from re text end.

(** ** What patterns mean *)

(** [c], or [.] for any character *)
Definition one (c x : Z) : Prop := c = 46 ∨ c = x.

(** [matches re w rest]: the pattern takes [w], with [rest] behind it. *)
Inductive matches : list Z → list Z → list Z → Prop :=
| m_nil rest : matches [] [] rest
| m_star c re u w rest : Forall (one c) u → matches re w rest → matches (c :: 42 :: re) (u ++ w) rest
| m_end : matches [36] [] []
| m_char c re x w rest : head re ≠ Some 42 → ¬ (c = 36 ∧ re = []) → one c x → matches re w rest → matches (c :: re) (x :: w) rest.

(** A prefix of [text] matches. *)
Definition prefix_matches (re text : list Z) : Prop := ∃ w rest, text = w ++ rest ∧ matches re w rest.

Lemma one_test c t : (t =? c) || (c =? 46) = true ↔ one c t.
Proof. unfold one. rewrite orb_true_iff, !Z.eqb_eq. intuition. Qed.
Lemma one_test' c t : (c =? 46) || (c =? t) = true ↔ one c t.
Proof. unfold one. rewrite orb_true_iff, !Z.eqb_eq. intuition. Qed.

Lemma matchstar_iff here c text : matchstar here c text = true ↔
  ∃ u v, text = u ++ v ∧ Forall (one c) u ∧ here v = true.
Proof.
  induction text as [|t text IH]; cbn [matchstar].
  - destruct (here []) eqn:E; split; try done; [intros _; by exists [], []|].
    intros (u & v & Eu & _ & Hv). symmetry in Eu. apply app_nil in Eu as [-> ->]. congruence.
  - destruct (here (t :: text)) eqn:E.
    { split; [|done]. intros _. by exists [], (t :: text). }
    destruct ((t =? c) || (c =? 46)) eqn:Et.
    + rewrite IH. apply one_test in Et. split.
      * intros (u & v & -> & Hu & Hv). exists (t :: u), v. by split_and!; [|constructor|].
      * intros ([|x u] & v & Eu & Hu & Hv); simpl in Eu; [by subst; congruence|]. injection Eu as -> ->.
        inversion Hu. by exists u, v.
    + split; [done|]. intros ([|x u] & v & Eu & Hu & Hv); simpl in Eu; [by subst; congruence|]. injection Eu as -> ->.
      inversion Hu. assert (one c x) as Ho by done. apply one_test in Ho. congruence.
Qed.

(** Inversion of [matches], by the first characters of the pattern. *)
Lemma matches_star_inv c re w rest : matches (c :: 42 :: re) w rest → ∃ u w', w = u ++ w' ∧ Forall (one c) u ∧ matches re w' rest.
Proof. inversion 1; subst; [eauto 6|done]. Qed.
Lemma matches_char_inv c re w rest : head re ≠ Some 42 → matches (c :: re) w rest →
  (c = 36 ∧ re = [] ∧ w = [] ∧ rest = []) ∨ (¬ (c = 36 ∧ re = []) ∧ ∃ x w', w = x :: w' ∧ one c x ∧ matches re w' rest).
Proof. intros Hh. inversion 1; subst; [done|by left|right; eauto 6]. Qed.

Lemma matchhere_iff n : ∀ re text, (length re <= n)%nat → matchhere re text = true ↔ prefix_matches re text.
Proof.
  induction n as [|n IH]; intros re text Hn.
  { destruct re; [|simpl in Hn; lia]. split; [|done]. intros _. exists [], text. split; [done|constructor]. }
  destruct re as [|c re1].
  { split; [|done]. intros _. exists [], text. split; [done|constructor]. }
  destruct (decide (head re1 = Some 42)) as [Hs|Hs].
  - destruct re1 as [|x re2]; [done|]. injection Hs as ->. cbn [matchhere]. rewrite matchstar_iff. simpl in Hn. split.
    + intros (u & v & -> & Hu & (w & rest & -> & Hw)%IH); [|lia]. exists (u ++ w), rest.
      split; [by rewrite app_assoc|by constructor].
    + intros (w & rest & -> & (u & w' & -> & Hu & Hw)%matches_star_inv). exists u, (w' ++ rest).
      split_and!; [by rewrite app_assoc|done|]. apply IH; [lia|]. by exists w', rest.
  - assert (matchhere (c :: re1) text = if (c =? 36) && bool_decide (re1 = []) then bool_decide (text = []) else
      match text with [] => false | t :: text' => if (c =? 46) || (c =? t) then matchhere re1 text' else false end) as ->.
    { cbn [matchhere]. destruct re1 as [|x re2]; [done|]. simpl in Hs. assert (x ≠ 42) by congruence. by repeat case_match. }
    destruct ((c =? 36) && bool_decide (re1 = [])) eqn:E.
    + apply andb_true_iff in E as [->%Z.eqb_eq ->%bool_decide_eq_true]. rewrite bool_decide_eq_true. split.
      * intros ->. exists [], []. split; [done|constructor].
      * intros (w & rest & -> & [(_ & _ & -> & ->)|[[] _]]%matches_char_inv); [done|done|done].
    + assert (¬ (c = 36 ∧ re1 = [])) as He.
      { intros [-> ->]. by rewrite Z.eqb_refl, bool_decide_true in E. }
      split.
      * intros Hm. destruct text as [|t text]; [done|]. destruct ((c =? 46) || (c =? t)) eqn:Et; [|done].
        apply one_test' in Et. apply IH in Hm as (w & rest & -> & Hw); [|simpl in Hn; lia]. exists (t :: w), rest. split; [done|by constructor].
      * intros (w & rest & -> & [(-> & -> & _)|(_ & x & w' & -> & Ho & Hw)]%matches_char_inv); [by destruct He| |done].
        simpl. rewrite (proj2 (one_test' c x) Ho). apply IH; [simpl in Hn; lia|]. by exists w', rest.
Qed.

Lemma match_from_iff re text : match_from re text = true ↔ ∃ a b, text = a ++ b ∧ prefix_matches re b.
Proof.
  induction text as [|t text IH]; cbn [match_from].
  - destruct (matchhere re []) eqn:E.
    + split; [|done]. intros _. exists [], []. split; [done|]. by apply (matchhere_iff (length re)).
    + split; [done|]. intros (a & b & Ea & Hb). symmetry in Ea. apply app_nil in Ea as [-> ->].
      apply (matchhere_iff (length re)) in Hb; [congruence|done].
  - destruct (matchhere re (t :: text)) eqn:E.
    + split; [|done]. intros _. exists [], (t :: text). split; [done|]. by apply (matchhere_iff (length re)).
    + rewrite IH. split.
      * intros (a & b & -> & Hb). by exists (t :: a), b.
      * intros ([|x a] & b & Ea & Hb); simpl in Ea; [|injection Ea as -> ->; by exists a, b].
        subst. apply (matchhere_iff (length re)) in Hb; [congruence|done].
Qed.

(** C38: the matcher of [grep] finds what patterns mean: [match(re, text)] is true
    exactly when the pattern matches some part of the text, or, after a leading
    caret, a part at its beginning; a character stands for itself, a dot for any
    character, a star for any number of repetitions, a dollar at the end of the
    pattern for the end of the text. *)
Theorem match_meaning re text : match_ re text = true ↔
  if decide (head re = Some 94) then prefix_matches (tail re) text else ∃ a b, text = a ++ b ∧ prefix_matches re b.
Proof.
  unfold match_. destruct re as [|c re]; [rewrite decide_False by done; apply match_from_iff|].
  destruct (decide (c = 94)) as [->|Hc].
  - rewrite decide_True by done. by apply (matchhere_iff (length re)).
  - rewrite decide_False by (intros [= ->]; done). rewrite <-match_from_iff.
    by assert (match c :: re with 94 :: re' => matchhere re' text | _ => match_from (c :: re) text end = match_from (c :: re) text) as -> by (by repeat case_match).
Qed.

(** ** The lines of the input *)

Definition BUF : nat := 1024.

(** [read(fd, buf, n)] *)
Definition read (n : nat) (inp : list (list Z)) : list Z * list (list Z) :=
  match inp with
  | [] => ([], [])
  | c :: r => (take n c, if bool_decide (drop n c = []) then r else drop n c :: r)
  end.

Fixpoint strchr (s : list Z) (c : Z) : option nat :=
  match s with
  | [] => None
  | x :: s' => if x =? 0 then None else if x =? c then Some O else S <$> strchr s' c
  end.

(** The inner loop of [grep] on the string [p]: what it writes, and where [p] ends up. *)
Fixpoint scan (fuel : nat) (re p : list Z) : list Z * list Z :=
  match fuel with
  | O => ([], p)
  | S f =>
      match strchr p 10 with
      | Some q =>
          let out := if match_ re (take q p) then take (S q) p else [] in
          let '(o, p) := scan f re (drop (S q) p) in (out ++ o, p)
      | None => ([], p)
      end
  end.

(** [grep(pattern, fd)] with [buf] holding the start of a line: what it writes. *)
Fixpoint grep (fuel : nat) (re buf : list Z) (inp : list (list Z)) : list Z :=
  match fuel with
  | O => []
  | S f =>
      let '(c, inp) := read (BUF - length buf - 1) inp in
      if bool_decide (c = []) then [] else
      let '(o, buf) := scan (S (length (buf ++ c))) re (buf ++ c) in
      o ++ grep f re buf inp
  end.

(** The lines that end in a newline, and what follows the last of them. *)
Fixpoint lines (l cur : list Z) : list (list Z) * list Z :=
  match l with
  | [] => ([], cur)
  | x :: l => if x =? 10 then let '(ls, r) := lines l [] in (cur :: ls, r) else lines l (cur ++ [x])
  end.
(** The lines that match, each with its newline. *)
Definition selected (re : list Z) (ls : list (list Z)) : list Z :=
  filter (λ l, match_ re l = true) ls ≫= (λ l, l ++ [10]).

Lemma lines_app a b cur : lines (a ++ b) cur = ((lines a cur).1 ++ (lines b (lines a cur).2).1, (lines b (lines a cur).2).2).
Proof.
  revert cur. induction a as [|x a IH]; intros cur; simpl; [by destruct (lines b cur)|].
  destruct (x =? 10); [|apply IH]. rewrite IH. by destruct (lines a []).
Qed.

Lemma lines_none a cur : 10 ∉ a → lines a cur = ([], cur ++ a).
Proof.
  revert cur. induction a as [|x a IH]; intros cur Ha; simpl; [by rewrite app_nil_r|].
  rewrite (proj2 (Z.eqb_neq x 10)) by set_solver. rewrite IH by set_solver. by rewrite <-app_assoc.
Qed.

Lemma strchr_spec s c : 0 ∉ s →
  match strchr s c with
  | Some q => ∃ a b, s = a ++ c :: b ∧ q = length a ∧ c ∉ a
  | None => c ∉ s
  end.
Proof.
  induction s as [|x s IH]; intros Hs; simpl; [set_solver|]. rewrite (proj2 (Z.eqb_neq x 0)) by set_solver.
  destruct (Z.eqb_spec x c) as [->|Hx]; [exists [], s; set_solver|]. specialize (IH ltac:(set_solver)).
  destruct (strchr s c) as [q|]; simpl; [|set_solver]. destruct IH as (a & b & -> & -> & Ha).
  exists (x :: a), b. split_and!; [done|done|set_solver].
Qed.

Lemma scan_spec fuel re : ∀ p, 0 ∉ p → (length p < fuel)%nat →
  scan fuel re p = (selected re (lines p []).1, (lines p []).2) ∧ (10 ∉ (lines p []).2) ∧ (0 ∉ (lines p []).2).
Proof.
  induction fuel as [|fuel IH]; intros p Hp Hf; [lia|]. cbn [scan]. pose proof (strchr_spec p 10 Hp) as Hs.
  destruct (strchr p 10) as [q|].
  - destruct Hs as (a & b & -> & -> & Ha). rewrite lines_app, (lines_none a) by done. simpl.
    assert (drop (S (length a)) (a ++ 10 :: b) = b) as ->.
    { change (10 :: b) with ([10] ++ b). rewrite app_assoc. apply drop_app_length'. rewrite length_app. simpl. lia. }
    destruct (IH b) as (-> & H1 & H2); [set_solver|rewrite length_app in Hf; simpl in Hf; lia|].
    assert (take (length a) (a ++ 10 :: b) = a) as -> by apply take_app_length.
    assert (take (S (length a)) (a ++ 10 :: b) = a ++ [10]) as ->.
    { change (10 :: b) with ([10] ++ b). rewrite app_assoc. apply take_app_length'. rewrite length_app. simpl. lia. }
    destruct (lines b []) as [ls r]. simpl in *. split_and!; try done. f_equal. unfold selected.
    rewrite filter_cons. destruct (match_ re a) eqn:E; case_decide; [reflexivity|congruence|congruence|reflexivity].
  - rewrite lines_none by done. simpl. split_and!; done.
Qed.

Lemma read_spec n inp : Forall (λ c, c ≠ []) inp → let '(c, inp') := read n inp in
  concat inp = c ++ concat inp' ∧ Forall (λ c, c ≠ []) inp' ∧ (length c <= n)%nat ∧ (c = [] → inp = [] ∨ n = 0%nat).
Proof.
  intros Hi. destruct inp as [|c r]; simpl; [split_and!; [done|done|lia|by left]|]. inversion Hi as [|? ? Hc Hr].
  destruct (bool_decide (drop n c = [])) eqn:E; [apply bool_decide_eq_true in E|apply bool_decide_eq_false in E]; split_and!.
  - f_equal. by rewrite <-(take_drop n c) at 1; rewrite E, app_nil_r.
  - done.
  - rewrite length_take. lia.
  - intros Et. rewrite <-(take_drop n c), Et, E in Hc. done.
  - simpl. by rewrite app_assoc, take_drop.
  - by constructor.
  - rewrite length_take. lia.
  - intros Et. right. destruct n; [done|]. by destruct c.
Qed.

(** With a full buffer that has no newline, and short lines, there is no newline left. *)
Lemma lines_full buf l : 10 ∉ buf → (BUF - 1 <= length buf)%nat → Forall (λ x, length x < BUF - 1)%nat (lines (buf ++ l) []).1 →
  (lines (buf ++ l) []).1 = [].
Proof.
  intros Hb Hl Hs. destruct (lines (buf ++ l) []).1 as [|x ls] eqn:E; [done|]. exfalso. inversion Hs as [|? ? Hx _]. subst.
  rewrite lines_app, (lines_none buf) in E by done. simpl in E.
  assert (∀ l cur x ls, (lines l cur).1 = x :: ls → (length cur <= length x)%nat) as Hlen.
  { clear. induction l as [|y l IH]; intros cur x ls; simpl; [done|]. destruct (y =? 10).
    - destruct (lines l []). simpl. by intros [= <- _].
    - intros Hc%IH. rewrite length_app in Hc. simpl in Hc. lia. }
  apply Hlen in E. lia.
Qed.

(** [grep] prints the lines that match.  However the reads cut the input into
    pieces, the output is the concatenation of the lines of the whole input that
    match the pattern, each with its newline and in order, provided the input has no
    NUL and no line is longer than the buffer (1022 bytes); what follows the last
    newline is not printed. *)
Lemma grep_prints_matching_lines re inp fuel : Forall (λ c, c ≠ []) inp → 0 ∉ concat inp →
  Forall (λ l, length l < BUF - 1)%nat (lines (concat inp) []).1 → (length (concat inp) < fuel)%nat →
  grep fuel re [] inp = selected re (lines (concat inp) []).1.
Proof.
  assert (∀ fuel buf inp, Forall (λ c, c ≠ []) inp → 10 ∉ buf → 0 ∉ buf → 0 ∉ concat inp →
    Forall (λ l, length l < BUF - 1)%nat (lines (buf ++ concat inp) []).1 → (length (concat inp) < fuel)%nat →
    grep fuel re buf inp = selected re (lines (buf ++ concat inp) []).1) as Hg; [|intros; apply Hg; auto using not_elem_of_nil].
  clear. induction fuel as [|fuel IH]; intros buf inp Hi Hb Hb0 Hz Hs Hf; [lia|]. cbn [grep].
  pose proof (read_spec (BUF - length buf - 1) inp Hi) as Hr. destruct (read _ inp) as [c inp'].
  destruct Hr as (Ec & Hi' & Hc & He). rewrite Ec in *.
  destruct (bool_decide (c = [])) eqn:E; [apply bool_decide_eq_true in E as ->|apply bool_decide_eq_false in E].
  - destruct (He eq_refl) as [->|Hn].
    + simpl in Ec. rewrite <-Ec, app_nil_r, lines_none by done. done.
    + rewrite lines_full by (done || lia). done.
  - destruct (scan_spec (S (length (buf ++ c))) re (buf ++ c)) as (-> & H1 & H2); [rewrite elem_of_app; rewrite elem_of_app in Hz; tauto|lia|].
    rewrite app_assoc in Hs |- *. rewrite (lines_app (buf ++ c) (concat inp')) in Hs |- *. set (lb := lines (buf ++ c) []) in *. simpl in Hs |- *.
    assert (lines (concat inp') lb.2 = lines (lb.2 ++ concat inp') []) as El by (rewrite lines_app, (lines_none lb.2) by done; simpl; apply surjective_pairing).
    rewrite El in Hs |- *. apply Forall_app in Hs as [_ Hs]. unfold selected at 2. rewrite filter_app, bind_app. f_equal.
    apply IH; try done; [rewrite elem_of_app in Hz; tauto|]. rewrite length_app in Hf. destruct c; [done|]. simpl in Hf. lia.
Qed.
