(* ===== verification/Ulib.v ===== *)
(** * The user library and the programs over it: [user/ulib.c], [wc.c], [cat.c], [ls.c]

    The string functions work on a memory of bytes; a program reads from a
    descriptor in pieces, as the results of its calls of [read] give them.  [char] is
    unsigned on RISC-V.  A search for a NUL has fuel; it is enough when it exceeds the length of the string. *)
From S2P Require Import Prelude Machine Cstring Blocks Grep.

(** ** Strings *)

Fixpoint strcpy (fuel : nat) (m : mem) (s t : Z) : option mem :=
  match fuel with
  | O => None
  | S f => let m' := wr m s (m t) in if truth (m t) then strcpy f m' (s + 1) (t + 1) else Some m'
  end.

Fixpoint strcmp (fuel : nat) (m : mem) (p q : Z) : option Z :=
  match fuel with
  | O => None
  | S f => if truth (m p) && (m p =? m q) then strcmp f m (p + 1) (q + 1) else Some (m p - m q)
  end.

Fixpoint ustrlen_loop (fuel : nat) (m : mem) (s n : Z) : option Z :=
  match fuel with
  | O => None
  | S f => if truth (m (s + n)) then ustrlen_loop f m s (i32 (n + 1)) else Some (u32 n)
  end.
Definition ustrlen (fuel : nat) (m : mem) (s : Z) : option Z := ustrlen_loop fuel m s 0.

(** [i < n] compares as unsigned, so [n] bytes are set. *)
Fixpoint umemset_loop (k : nat) (m : mem) (cdst i c : Z) : mem :=
  match k with
  | O => m
  | S k' => umemset_loop k' (wr m (cdst + i) (u8 c)) cdst (i + 1) c
  end.
Definition umemset (m : mem) (dst c n : Z) : mem := umemset_loop (Z.to_nat n) m dst 0 c.

(** A negative [n] copies nothing. *)
Definition umemmove (m : mem) (vdst vsrc n : Z) : mem :=
  if vdst <? vsrc then copy_fwd (Z.to_nat n) m vdst vsrc
  else copy_bwd (Z.to_nat n) m (vdst + n) (vsrc + n).

Fixpoint umemcmp (n : nat) (m : mem) (p1 p2 : Z) : Z :=
  match n with
  | O => 0
  | S n' => if negb (m p1 =? m p2) then m p1 - m p2 else umemcmp n' m (p1 + 1) (p2 + 1)
  end.

(** The length is an [uint] here and an [int] in [memmove]. *)
Definition umemcpy (m : mem) (dst src n : Z) : mem := umemmove m dst src (i32 n).

(** [gets]: [inp] are the bytes that [read(0, &c, 1)] delivers before its first failure or the end. *)
Fixpoint gets_loop (k : nat) (m : mem) (buf i : Z) (inp : list Z) : mem * Z * list Z :=
  match k, inp with
  | S k', c :: inp' =>
      let m := wr m (buf + i) c in
      if (c =? 10) || (c =? 13) then (m, i + 1, inp') else gets_loop k' m buf (i + 1) inp'
  | _, _ => (m, i, inp)
  end.
Definition gets (m : mem) (buf max : Z) (inp : list Z) : mem * list Z :=
  let '(m, i, inp) := gets_loop (Z.to_nat (max - 1)) m buf 0 inp in (wr m (buf + i) 0, inp).

Section stat.
Context {S : Type} (open : list Z → Z → M S Z) (fstat : Z → M S Z) (close : Z → M S Z).

(** [open], [fstat] and [close] are the system calls. *)
Definition stat (n : list Z) : M S Z :=
  fd <- open n 0 ;;
  if fd <? 0 then ret (-1) else
  r <- fstat fd ;;
  close fd ;;;
  ret r.
End stat.

(** ** [wc] *)
Record counts := Counts { w_l : Z; w_w : Z; w_c : Z; w_inword : bool }.
#[global] Instance counts_eta : Eta counts := λ x, Counts (w_l x) (w_w x) (w_c x) (w_inword x).

(** [strchr(" \r\t\n\v", c)]: the NUL is not found *)
Definition space (c : Z) : bool := match strchr [32; 13; 9; 10; 11] c with Some _ => true | None => false end.

Definition wc_char (x : counts) (c : Z) : counts :=
  let x := x <| w_c := i32 (w_c x + 1) |> in
  let x := if c =? 10 then x <| w_l := i32 (w_l x + 1) |> else x in
  if space c then x <| w_inword := false |>
  else if negb (w_inword x) then x <| w_w := i32 (w_w x + 1) |> <| w_inword := true |> else x.

(** What the calls of [read] return: the pieces, and whether the last call failed. *)
Definition wc (reads : list (list Z)) (failed : bool) : option (Z * Z * Z) :=
  let x := fold_left (λ x buf, fold_left wc_char buf x) reads (Counts 0 0 0 false) in
  if failed then None else Some (w_l x, w_w x, w_c x).

(** ** [cat] *)

(** [wr n] is what [write(1, buf, n)] returns for the piece; the result is what was written and how [cat] ended. *)
Inductive ended := Returned | WriteError | ReadError.
Fixpoint cat (write : list Z → Z) (reads : list (list Z)) (failed : bool) : list (list Z) * ended :=
  match reads with
  | [] => ([], if failed then ReadError else Returned)
  | b :: reads' =>
      if negb (write b =? Z.of_nat (length b)) then ([b], WriteError)
      else let '(out, e) := cat write reads' failed in (b :: out, e)
  end.

(** ** [ls] *)

(** [for(p = path + strlen(path); p >= path && *p != '/'; p--); p++]: the part behind the last slash *)
Fixpoint fmt_back (k : nat) (path : list Z) : list Z :=
  match k with
  | O => if bool_decide (path !! O = Some 47) then drop 1 path else path
  | S k' => if bool_decide (path !! k = Some 47) then drop (S k) path else fmt_back k' path
  end.
Definition fmtname (path : list Z) : list Z :=
  let p := fmt_back (length path) path in
  if DIRSIZ <=? Z.of_nat (length p) then p
  else p ++ replicate (Z.to_nat (DIRSIZ - Z.of_nat (length p))) 32.

(** ** The string functions *)

(** A string of [n] bytes at [a]. *)
Definition cstr (m : mem) (a : Z) (n : nat) : Prop := (∀ i, 0 <= i < Z.of_nat n → m (a + i) ≠ 0) ∧ m (a + Z.of_nat n) = 0.

Lemma cstr_succ m a n : cstr m a (S n) → truth (m a) = true ∧ cstr m (a + 1) n.
Proof.
  intros [H1 H2]. split; [|split].
  - specialize (H1 0 ltac:(lia)). rewrite Z.add_0_r in H1. unfold truth. by apply negb_true_iff, Z.eqb_neq.
  - intros i Hi. replace (a + 1 + i) with (a + (i + 1)) by lia. apply H1. lia.
  - rewrite <-H2. f_equal. lia.
Qed.

Lemma cstr_ext m m' a n : cstr m a n → (∀ x, a <= x <= a + Z.of_nat n → m' x = m x) → cstr m' a n.
Proof. intros [H1 H2] E. split; [intros i Hi; rewrite E by lia; by apply H1|by rewrite E by lia]. Qed.

(** [strcpy] copies the string with its NUL and nothing else, when the two do not overlap. *)
Lemma strcpy_copies n m s t fuel : cstr m t n → (n < fuel)%nat → s + Z.of_nat n < t ∨ t + Z.of_nat n < s →
  ∃ m', strcpy fuel m s t = Some m' ∧ ∀ x, m' x = if decide (s <= x <= s + Z.of_nat n) then m (t + (x - s)) else m x.
Proof.
  revert m s t fuel. induction n as [|n IH]; intros m s t [|fuel] Hc Hf Hd; try lia; cbn [strcpy].
  - destruct Hc as [_ H0]. rewrite Z.add_0_r in H0. rewrite H0. simpl. eexists. split; [done|]. intros x. case_decide.
    + replace x with s by lia. rewrite wr_eq, <-H0. f_equal. lia.
    + apply wr_ne. lia.
  - destruct (cstr_succ _ _ _ Hc) as [-> Hc']. destruct (IH (wr m s (m t)) (s + 1) (t + 1) fuel) as (m' & E & Hm); [|lia|lia|].
    { eapply cstr_ext; [exact Hc'|]. intros x Hx. apply wr_ne. lia. }
    exists m'. split; [done|]. intros x. rewrite Hm. repeat case_decide; try lia.
    + rewrite wr_ne by lia. f_equal. lia.
    + replace x with s by lia. rewrite wr_eq. f_equal. lia.
    + apply wr_ne. lia.
Qed.

(** [strcmp] tells whether the strings are the same. *)
Lemma strcmp_decides n m p q k fuel : cstr m p n → cstr m q k → (n < fuel)%nat →
  ∃ r, strcmp fuel m p q = Some r ∧ (r = 0 ↔ n = k ∧ ∀ i, 0 <= i < Z.of_nat n → m (p + i) = m (q + i)).
Proof.
  revert p q k fuel. induction n as [|n IH]; intros p q k [|fuel] Hp Hq Hf; try lia; cbn [strcmp].
  - destruct Hp as [_ H0]. rewrite Z.add_0_r in H0. rewrite H0. simpl. eexists. split; [done|]. destruct k as [|k].
    + destruct Hq as [_ Hq]. rewrite Z.add_0_r in Hq. rewrite Hq. split; [|done]. intros _. split; [done|]. intros i Hi. lia.
    + destruct Hq as [Hq _]. specialize (Hq 0 ltac:(lia)). rewrite Z.add_0_r in Hq. split; [lia|]. by intros [? _].
  - destruct (cstr_succ _ _ _ Hp) as [Ht Hp']. rewrite Ht. simpl. destruct (Z.eqb_spec (m p) (m q)) as [E|E].
    + destruct k as [|k]; [destruct Hq as [_ Hq]; rewrite Z.add_0_r in Hq; rewrite E, Hq in Ht; done|].
      destruct (cstr_succ _ _ _ Hq) as [_ Hq']. destruct (IH (p + 1) (q + 1) k fuel Hp' Hq' ltac:(lia)) as (r & -> & Hr).
      exists r. split; [done|]. rewrite Hr. split; intros [Ek Hi]; (split; [lia|]); intros i Hi'.
      * destruct (decide (i = 0)) as [->|]; [by rewrite !Z.add_0_r|]. specialize (Hi (i - 1) ltac:(lia)).
        by replace (p + 1 + (i - 1)) with (p + i) in Hi by lia; replace (q + 1 + (i - 1)) with (q + i) in Hi by lia.
      * specialize (Hi (i + 1) ltac:(lia)). by replace (p + 1 + i) with (p + (i + 1)) by lia; replace (q + 1 + i) with (q + (i + 1)) by lia.
    + eexists. split; [done|]. split; [lia|]. intros [_ Hi]. specialize (Hi 0 ltac:(lia)). by rewrite !Z.add_0_r in Hi.
Qed.

(** [memmove] copies also when the areas overlap. *)
Lemma umemmove_copies m dst src n x : 0 <= n →
  umemmove m dst src n x = if (dst <=? x) && (x <? dst + n) then m (src + (x - dst)) else m x.
Proof.
  intros Hn. unfold umemmove. destruct (Z.ltb_spec dst src).
  - rewrite copy_fwd_spec by lia. by rewrite Z2Nat.id by lia.
  - rewrite copy_bwd_spec by lia. rewrite Z2Nat.id by lia. zcases.
Qed.

(** ** [gets] *)

(** The bytes up to the first end of line, that one included, or all of them. *)
Fixpoint line (inp : list Z) : list Z :=
  match inp with
  | [] => []
  | c :: inp' => c :: if (c =? 10) || (c =? 13) then [] else line inp'
  end.

Lemma gets_loop_run k m buf i inp : let l := take k (line inp) in
  ∃ m', gets_loop k m buf i inp = (m', i + Z.of_nat (length l), drop (length l) inp) ∧
    ∀ x, m' x = if (buf + i <=? x) && (x <? buf + i + Z.of_nat (length l)) then l !!! Z.to_nat (x - buf - i) else m x.
Proof.
  revert m i inp. induction k as [|k IH]; intros m i inp l.
  { exists m. subst l. rewrite take_0. cbn [length drop gets_loop]. split; [f_equal; f_equal; lia|]. intros x. zcases. }
  destruct inp as [|c inp].
  { exists m. subst l. cbn [line take length drop gets_loop]. split; [f_equal; f_equal; lia|]. intros x. zcases. }
  cbn [gets_loop line] in *. destruct ((c =? 10) || (c =? 13)) eqn:E.
  - subst l. rewrite (take_ge [c]) by (simpl; lia). cbn [length drop]. rewrite drop_0. eexists. split; [f_equal; f_equal; lia|].
    intros x. unfold wr. zcases. replace (Z.to_nat (x - buf - i)) with O by lia. done.
  - destruct (IH (wr m (buf + i) c) (i + 1) inp) as (m' & Em & Hm). subst l. cbn [take length drop].
    exists m'. split; [rewrite Em; f_equal; f_equal; lia|]. intros x. rewrite Hm. unfold wr. clear Em Hm IH. zcases.
    + replace (Z.to_nat (x - buf - i)) with (S (Z.to_nat (x - buf - (i + 1)))) by lia. done.
    + replace (Z.to_nat (x - buf - i)) with O by lia. done.
Qed.

(** [gets] stores at most [max - 1] bytes of the next line and a NUL, and leaves the rest of the input. *)
Lemma gets_line m buf max inp : 0 < max → let l := take (Z.to_nat (max - 1)) (line inp) in
  ∃ m', gets m buf max inp = (m', drop (length l) inp) ∧ Z.of_nat (length l) < max ∧
    ∀ x, m' x = if x =? buf + Z.of_nat (length l) then 0 else if (buf <=? x) && (x <? buf + Z.of_nat (length l)) then l !!! Z.to_nat (x - buf) else m x.
Proof.
  intros Hm l. destruct (gets_loop_run (Z.to_nat (max - 1)) m buf 0 inp) as (m' & E & Hx). fold l in E, Hx. unfold gets. rewrite E. eexists. split; [done|].
  split; [unfold l; rewrite length_take; lia|]. intros x. unfold wr. rewrite Hx, Z.add_0_l, Z.add_0_r, Z.sub_0_r. done.
Qed.

(** ** [wc] *)

(** The words of a text: a byte that is no space, at the start or behind a space, begins one. *)
Fixpoint words (inword : bool) (t : list Z) : Z :=
  match t with
  | [] => 0
  | c :: t' => (if negb (space c) && negb inword then 1 else 0) + words (negb (space c)) t'
  end.
Definition lines (t : list Z) : Z := Z.of_nat (length (filter (λ c, c = 10) t)).

Lemma words_bound b t : 0 <= words b t <= Z.of_nat (length t).
Proof. revert b. induction t as [|c t IH]; intros b; [simpl; lia|]. cbn [words length]. specialize (IH (negb (space c))). destruct (_ && _); lia. Qed.

Lemma lines_cons c t : lines (c :: t) = (if c =? 10 then 1 else 0) + lines t.
Proof. unfold lines. rewrite filter_cons. destruct (Z.eqb_spec c 10); [rewrite decide_True by done; cbn [length]; lia|by rewrite decide_False]. Qed.

Lemma lines_bound t : 0 <= lines t <= Z.of_nat (length t).
Proof. unfold lines. pose proof (length_filter (λ c, c = 10) t). lia. Qed.

Lemma wc_chars t x : 0 <= w_l x → 0 <= w_w x → 0 <= w_c x → w_l x + Z.of_nat (length t) < 2 ^ 31 → w_w x + Z.of_nat (length t) < 2 ^ 31 →
  w_c x + Z.of_nat (length t) < 2 ^ 31 → let y := fold_left wc_char t x in
  w_l y = w_l x + lines t ∧ w_w y = w_w x + words (w_inword x) t ∧ w_c y = w_c x + Z.of_nat (length t).
Proof.
  revert x. induction t as [|c t IH]; intros x H1 H2 H3 L1 L2 L3 y; [subst y; simpl; unfold lines; simpl; lia|]. cbn [length] in *.
  subst y. cbn [fold_left]. assert (w_l (wc_char x c) = w_l x + (if c =? 10 then 1 else 0) ∧
    w_w (wc_char x c) = w_w x + (if negb (space c) && negb (w_inword x) then 1 else 0) ∧ w_c (wc_char x c) = w_c x + 1 ∧
    w_inword (wc_char x c) = negb (space c)) as (E1 & E2 & E3 & E4).
  { unfold wc_char. destruct x as [l w n b]. simpl in *. destruct (c =? 10), (space c), b; simpl; rewrite ?i32_id by lia; split_and!; lia || done. }
  destruct (IH (wc_char x c)) as (R1 & R2 & R3); rewrite ?E1, ?E2, ?E3; try (destruct (c =? 10); lia); try (destruct (_ && _); lia); try lia.
  rewrite R1, R2, R3, lines_cons, E1, E2, E3, E4. cbn [words]. split_and!; lia.
Qed.

(** [wc] prints the lines, words and bytes of the whole input, however the calls of [read] cut it. *)
Lemma wc_counts reads : Z.of_nat (length (concat reads)) < 2 ^ 31 →
  wc reads false = Some (lines (concat reads), words false (concat reads), Z.of_nat (length (concat reads))).
Proof.
  intros Hl. assert (∀ x, fold_left (λ x buf, fold_left wc_char buf x) reads x = fold_left wc_char (concat reads) x) as E.
  { clear Hl. induction reads as [|b r IH]; intros x; [done|]. simpl. by rewrite IH, fold_left_app. }
  unfold wc. rewrite E. destruct (wc_chars (concat reads) (Counts 0 0 0 false)) as (-> & -> & ->); simpl; try lia. done.
Qed.

(** [cat] writes what it read, up to the first failure. *)
Lemma cat_copies write reads failed : let '(out, e) := cat write reads failed in
  match e with
  | WriteError => ∃ b rest, reads = out ++ rest ∧ last out = Some b ∧ write b ≠ Z.of_nat (length b)
  | ReadError => out = reads ∧ failed = true
  | Returned => out = reads ∧ failed = false
  end.
Proof.
  induction reads as [|b r IH]; [by destruct failed|]. cbn [cat]. destruct (Z.eqb_spec (write b) (Z.of_nat (length b))) as [E|E]; simpl.
  - destruct (cat write r failed) as [out []]; [by destruct IH as [-> ->]| |by destruct IH as [-> ->]].
    destruct IH as (b' & rest & -> & Hb & Hw). exists b', rest. split_and!; [done| |done]. by destruct out.
  - by exists b, r.
Qed.

(** ** [fmtname] *)
Lemma fmt_back_spec k path : (∀ i, (k < i)%nat → path !! i ≠ Some 47) → ∃ pre, path = pre ++ fmt_back k path ∧ ((47 : Z) ∉ fmt_back k path) ∧
  (pre = [] ∨ last pre = Some 47).
Proof.
  induction k as [|k IH]; intros H; cbn [fmt_back]; case_bool_decide as E.
  - exists (take 1 path). split_and!; [by rewrite take_drop| |right].
    + intros [i Hi]%list_elem_of_lookup. rewrite lookup_drop in Hi. by apply (H (1 + i)%nat); [lia|].
    + destruct path as [|c path]; [done|]. injection E as ->. done.
  - exists []. split_and!; [done| |by left]. intros [[|i] Hi]%list_elem_of_lookup; [done|]. by apply (H (S i)); [lia|].
  - exists (take (S (S k)) path). split_and!; [by rewrite take_drop| |right].
    + intros [i Hi]%list_elem_of_lookup. rewrite lookup_drop in Hi. by apply (H (S (S k) + i)%nat); [lia|].
    + rewrite last_lookup, length_take_le by (apply lookup_lt_Some in E; lia). by rewrite lookup_take_lt by (simpl; lia).
  - apply IH. intros i Hi Ei. destruct (decide (i = S k)) as [->|]; [done|]. by apply (H i); [lia|].
Qed.

(** [fmtname] is the last element of the path, padded with blanks to [DIRSIZ] bytes. *)
Lemma fmtname_last path : ∃ pre name, path = pre ++ name ∧ ((47 : Z) ∉ name) ∧ (pre = [] ∨ last pre = Some 47) ∧
  fmtname path = name ++ replicate (Z.to_nat DIRSIZ - length name) 32.
Proof.
  destruct (fmt_back_spec (length path) path) as (pre & E & Hn & Hp).
  { intros i Hi. rewrite lookup_ge_None_2 by lia. done. }
  exists pre, (fmt_back (length path) path). split_and!; [done..|]. unfold fmtname. change DIRSIZ with 14.
  destruct (Z.leb_spec 14 (Z.of_nat (length (fmt_back (length path) path)))).
  - replace (Z.to_nat 14 - _)%nat with O by lia. by rewrite app_nil_r.
  - do 2 f_equal. lia.
Qed.
