(* ===== verification/Umalloc.v ===== *)
(** * The allocator of user programs: [user/umalloc.c]

    The free blocks form a circular list through their headers, in order of
    address, which starts at the static header [base].  A header is named by its
    address; sizes are in units of 16 bytes, [sizeof(Header)].  [sbrk] moves the
    end of the heap; [grow] says up to where the kernel grants memory. *)
From stdpp Require Import sorting.
From S2P Require Import Prelude Machine.

Definition HDR : Z := 16.                    (** [sizeof(Header)] *)

Record heap := Heap {
  h_ptr : Z → Z;             (** [s.ptr] of the header at an address *)
  h_size : Z → Z;            (** [s.size] *)
  h_freep : Z;               (** [freep], 0 before the first call *)
  h_brk : Z;                 (** the end of the memory of the process *)
}.
#[global] Instance heap_eta : Eta heap := λ m, Heap (h_ptr m) (h_size m) (h_freep m) (h_brk m).

Definition set_ptr (a v : Z) (m : heap) : heap := m <| h_ptr := upd (h_ptr m) a v |>.
Definition set_size (a v : Z) (m : heap) : heap := m <| h_size := upd (h_size m) a (u32 v) |>.

Section umalloc.
Context (base : Z) (grow : Z → bool).

(** The search of [free]: the free block behind which [bp] belongs. *)
Fixpoint free_find (fuel : nat) (m : heap) (p bp : Z) : option Z :=
  match fuel with
  | O => None
  | S f =>
      if (p <? bp) && (bp <? h_ptr m p) then Some p
      else if (h_ptr m p <=? p) && ((p <? bp) || (bp <? h_ptr m p)) then Some p
      else free_find f m (h_ptr m p) bp
  end.

(** Linking [bp] in behind [p], merged with its neighbours. *)
Definition free_link (p bp : Z) (m : heap) : heap :=
  let m := if bp + HDR * h_size m bp =? h_ptr m p then
             set_ptr bp (h_ptr m (h_ptr m p)) (set_size bp (h_size m bp + h_size m (h_ptr m p)) m)
           else set_ptr bp (h_ptr m p) m in
  let m := if p + HDR * h_size m p =? bp then
             set_ptr p (h_ptr m bp) (set_size p (h_size m p + h_size m bp) m)
           else set_ptr p bp m in
  m <| h_freep := p |>.

Definition free (fuel : nat) (ap : Z) (m : heap) : option heap :=
  let bp := ap - HDR in
  match free_find fuel m (h_freep m) bp with Some p => Some (free_link p bp m) | None => None end.

(** As [growproc]: a larger process if the kernel has the memory; a negative [n]
    makes it smaller, or leaves it if the difference wraps around. *)
Definition sbrk (n : Z) (m : heap) : Z * heap :=
  if 0 <? n then
    if grow (h_brk m + n) then (h_brk m, m <| h_brk := h_brk m + n |>) else (-1, m)
  else (h_brk m, m <| h_brk := Z.min (h_brk m) (u64 (h_brk m + n)) |>).

(** 0 for no memory *)
Definition morecore (fuel : nat) (nu : Z) (m : heap) : option (Z * heap) :=
  let nu := if nu <? 4096 then 4096 else nu in
  let '(p, m) := sbrk (i32 (nu * HDR)) m in
  if p =? -1 then Some (0, m) else
  match free fuel (p + HDR) (set_size p nu m) with Some m => Some (h_freep m, m) | None => None end.

(** A block that is large enough: unlinked, or cut at its end. *)
Definition malloc_take (nunits prevp p : Z) (m : heap) : Z * heap :=
  if h_size m p =? nunits then (p + HDR, (set_ptr prevp (h_ptr m p) m) <| h_freep := prevp |>)
  else
    let m := set_size p (h_size m p - nunits) m in
    let p := p + HDR * h_size m p in
    (p + HDR, (set_size p nunits m) <| h_freep := prevp |>).

Fixpoint malloc_loop (fuel : nat) (nunits prevp p : Z) (m : heap) : option (Z * heap) :=
  match fuel with
  | O => None
  | S f =>
      if nunits <=? h_size m p then Some (malloc_take nunits prevp p m)
      else if p =? h_freep m then
        match morecore f nunits m with
        | None => None
        | Some (p, m) => if p =? 0 then Some (0, m) else malloc_loop f nunits p (h_ptr m p) m
        end
      else malloc_loop f nunits p (h_ptr m p) m
  end.

Definition nunits (nbytes : Z) : Z := u32 ((nbytes + HDR - 1) / HDR + 1).

(** The list with [base] alone, on the first call. *)
Definition malloc_init (m : heap) : heap :=
  if h_freep m =? 0 then set_size base 0 ((set_ptr base base m) <| h_freep := base |>) else m.

Definition malloc (fuel : nat) (nbytes : Z) (m : heap) : option (Z * heap) :=
  let m := malloc_init m in
  malloc_loop fuel (nunits nbytes) (h_freep m) (h_ptr m (h_freep m)) m.

(** ** The free list *)

(** The first address of a list of blocks, [e] if there is none. *)
Definition next (l : list (Z * Z)) (e : Z) : Z := match l with [] => e | (a, _) :: _ => a end.

(** The headers of [l] are linked, the last one to [e]. *)
Fixpoint linked (m : heap) (l : list (Z * Z)) (e : Z) : Prop :=
  match l with
  | [] => True
  | (a, s) :: l' => h_size m a = s ∧ h_ptr m a = next l' e ∧ linked m l' e
  end.

(** In order, apart, and inside [lo .. hi); a block has at least its header. *)
Fixpoint apart (lo : Z) (l : list (Z * Z)) (hi : Z) : Prop :=
  match l with
  | [] => lo <= hi
  | (a, s) :: l' => lo <= a ∧ 1 <= s ∧ apart (a + HDR * s) l' hi
  end.

(** The free list of [m]: [base], of size 0, and the free blocks. *)
Record free_list (m : heap) (l : list (Z * Z)) : Prop := {
  fl_linked : linked m ((base, 0) :: l) base;
  fl_apart : apart (base + HDR) l (h_brk m);
  fl_freep : h_freep m ∈ base :: l.*1;
  fl_range : 0 < base ∧ h_brk m < 2 ^ 36;
}.

(** The bytes of the free blocks. *)
Definition in_free (l : list (Z * Z)) (x : Z) : Prop := ∃ a s, (a, s) ∈ l ∧ a <= x < a + HDR * s.

Lemma next_app l1 l2 e : next (l1 ++ l2) e = next l1 (next l2 e).
Proof. by destruct l1 as [|[]]. Qed.

Lemma linked_app m l1 l2 e : linked m (l1 ++ l2) e ↔ linked m l1 (next l2 e) ∧ linked m l2 e.
Proof. induction l1 as [|[a s] l1 IH]; simpl; [tauto|]. rewrite IH, next_app. tauto. Qed.

Lemma linked_ext m m' l e : (∀ a s, (a, s) ∈ l → h_ptr m' a = h_ptr m a ∧ h_size m' a = h_size m a) → linked m l e → linked m' l e.
Proof.
  induction l as [|[a s] l IH]; intros Hx; simpl; [done|]. destruct (Hx a s) as [-> ->]; [set_solver|].
  intros (? & ? & ?). split_and!; [done|done|]. apply IH; [|done]. intros. apply Hx with s0. set_solver.
Qed.

Lemma apart_lo lo lo' l hi : lo' <= lo → apart lo l hi → apart lo' l hi.
Proof. destruct l as [|[a s] l]; simpl; [lia|]. intros ? (? & ? & ?). split_and!; [lia|lia|done]. Qed.
Lemma apart_hi lo l hi hi' : hi <= hi' → apart lo l hi → apart lo l hi'.
Proof. intros Hh. revert lo. induction l as [|[a s] l IH]; intros lo; simpl; [lia|]. intros (? & ? & ?). split_and!; [lia|lia|auto]. Qed.
Lemma apart_app lo l1 l2 hi : apart lo (l1 ++ l2) hi ↔ ∃ mid, apart lo l1 mid ∧ apart mid l2 hi.
Proof.
  revert lo. induction l1 as [|[a s] l1 IH]; intros lo; simpl.
  - split; [intros; exists lo; split; [lia|done]|intros (mid & ? & ?); by eapply apart_lo].
  - setoid_rewrite IH. naive_solver.
Qed.
Lemma apart_in lo l hi a s : apart lo l hi → (a, s) ∈ l → lo <= a ∧ 1 <= s ∧ a + HDR * s <= hi.
Proof.
  revert lo. induction l as [|[b t] l IH]; intros lo; simpl; [set_solver|]. intros (H1 & H2 & H3) Hin.
  assert (∀ l lo, apart lo l hi → lo <= hi) as Hle.
  { clear. induction l as [|[a s] l IH]; intros lo; simpl; [done|]. intros (? & ? & ?%IH). unfold HDR in *. lia. }
  apply elem_of_cons in Hin as [[= -> ->]|Hin]; [specialize (Hle _ _ H3); lia|].
  destruct (IH _ H3 Hin) as (? & ? & ?). unfold HDR in *. lia.
Qed.
Lemma apart_le lo l hi : apart lo l hi → lo <= hi.
Proof. revert lo. induction l as [|[a s] l IH]; intros lo; simpl; [done|]. intros (? & ? & ?%IH). unfold HDR in *. lia. Qed.

(** A block apart from all blocks of the list has its place in it. *)
Lemma place lo l hi bp sz : apart lo l hi → lo <= bp → 1 <= sz → bp + HDR * sz <= hi →
  (∀ x, bp <= x < bp + HDR * sz → ¬ in_free l x) → ∃ l1 l2, l = l1 ++ l2 ∧ apart lo l1 bp ∧ apart (bp + HDR * sz) l2 hi.
Proof.
  revert lo. induction l as [|[a s] l IH]; intros lo Hl Hlo Hsz Hhi Hd; [by exists [], []|]. simpl in Hl. destruct Hl as (H1 & H2 & H3).
  assert (∀ x, a <= x < a + HDR * s → ¬ (bp <= x < bp + HDR * sz)) as Hno.
  { intros x Hx Hb. apply (Hd x Hb). exists a, s. split; [set_solver|done]. }
  destruct (Z.le_gt_cases (a + HDR * s) bp) as [Hle|Hgt].
  - destruct (IH (a + HDR * s)) as (l1 & l2 & -> & A1 & A2); try done.
    { intros x Hx (b & t & Hin & Hb). apply (Hd x Hx). exists b, t. split; [set_solver|done]. }
    exists ((a, s) :: l1), l2. simpl. split_and!; [done|lia|lia|done|done].
  - exists [], ((a, s) :: l). assert (bp + HDR * sz <= a).
    { destruct (Z.le_gt_cases (bp + HDR * sz) a); [done|]. exfalso. apply (Hno (Z.max a bp)); unfold HDR in *; lia. }
    simpl. split_and!; [done|done|lia|done|done].
Qed.

(** ** [free] *)

Lemma free_find_mono f f' m q bp p : free_find f m q bp = Some p → (f <= f')%nat → free_find f' m q bp = Some p.
Proof.
  revert f' q. induction f as [|f IH]; intros f' q; simpl; [done|]. destruct f' as [|f']; [lia|]. intros E Hf. simpl.
  repeat case_match; try done. apply IH; [done|lia].
Qed.

(** From below the place of [bp]: [l1] up to the block [p] before it. *)
Lemma find_up m l1 p sp l2 bp : linked m (l1 ++ (p, sp) :: l2) base → Forall (λ b, b.1 < bp) (l1 ++ [(p, sp)]) → base <= p →
  (∀ a s, (a, s) ∈ l2 → bp < a) → StronglySorted Z.lt (l1.*1 ++ [p]) →
  free_find (S (length l1)) m (next (l1 ++ [(p, sp)]) 0) bp = Some p.
Proof.
  intros Hlk Hb Hp Hl2. revert Hlk Hb. induction l1 as [|[a s] l1 IH]; intros Hlk Hb Hs.
  - simpl in *. destruct Hlk as (_ & Hptr & _). inversion Hb as [|? ? Hpb _]; subst. simpl in Hpb. rewrite Hptr.
    rewrite (proj2 (Z.ltb_lt p bp)) by done. destruct l2 as [|[a2 s2] l2]; simpl.
    + rewrite (proj2 (Z.ltb_ge bp base)) by lia. rewrite (proj2 (Z.leb_le base p)) by done. done.
    + rewrite (proj2 (Z.ltb_lt bp a2)) by (apply (Hl2 a2 s2); set_solver). done.
  - destruct Hlk as (_ & Hptr & Hlk). inversion Hb as [|? ? Hab Hb']; subst. inversion Hs as [|? ? Hs' Hlt]; subst. simpl in Hab.
    assert (next (l1 ++ (p, sp) :: l2) base = next (l1 ++ [(p, sp)]) 0) as En by (by destruct l1 as [|[]]).
    assert (a < next (l1 ++ [(p, sp)]) 0 < bp) as Hn.
    { destruct l1 as [|[b t] l1]; simpl in *; [inversion Hlt; inversion Hb'|inversion Hlt; inversion Hb']; subst; simpl in *; lia. }
    change (next (((a, s) :: l1) ++ [(p, sp)]) 0) with a. cbn [free_find length]. rewrite Hptr, En.
    rewrite (proj2 (Z.ltb_ge bp _)) by lia. rewrite andb_false_r. rewrite (proj2 (Z.leb_gt _ a)) by lia. simpl.
    by apply IH.
Qed.

(** From above it: up to the end of the list, and on from [base]. *)
Lemma find_top m l2 bp k : linked m l2 base → (∀ a s, (a, s) ∈ l2 → bp < a) → base < bp → StronglySorted Z.lt l2.*1 → l2 ≠ [] →
  free_find (length l2 + k) m (next l2 0) bp = free_find k m base bp.
Proof.
  intros Hlk Hb Hbase. revert Hlk Hb. induction l2 as [|[a s] l2 IH]; intros Hlk Hb Hs Hne; [done|].
  destruct Hlk as (_ & Hptr & Hlk). assert (bp < a) by (apply (Hb a s); set_solver). inversion Hs as [|? ? Hs' Hlt]; subst.
  cbn [free_find length plus]. simpl (next _ _). rewrite Hptr, (proj2 (Z.ltb_ge a bp)) by lia. cbn [andb orb].
  destruct l2 as [|[b t] l2].
  - simpl. rewrite (proj2 (Z.leb_le base a)), (proj2 (Z.ltb_ge bp base)) by lia. done.
  - simpl (next _ _). inversion Hlt; subst. rewrite (proj2 (Z.leb_gt b a)) by done. cbn [andb].
    apply IH; [done| |done|done]. intros. apply (Hb a0 s0). set_solver.
Qed.

Lemma apart_sorted lo l hi : apart lo l hi → StronglySorted Z.lt l.*1.
Proof.
  revert lo. induction l as [|[a s] l IH]; intros lo; simpl; [constructor|]. intros (H1 & H2 & H3). constructor; [by eapply IH|].
  apply Forall_fmap, Forall_forall. intros [b t] Hin. destruct (apart_in _ _ _ _ _ H3 Hin). simpl. unfold HDR in *. lia.
Qed.

(** The block behind which [bp] goes, whatever the start. *)
Lemma free_find_run m l l1 l2 bp sz p sp K : free_list m l → l = l1 ++ l2 → apart (base + HDR) l1 bp → apart (bp + HDR * sz) l2 (h_brk m) →
  1 <= sz → (base, 0) :: l1 = K ++ [(p, sp)] → ∀ fuel, (2 * length l + 3 <= fuel)%nat → free_find fuel m (h_freep m) bp = Some p.
Proof.
  intros F -> A1 A2 Hsz EK fuel Hfuel. destruct F as [Hlk Hap Hfr Hrg].
  assert (base < bp) as Hbb by (apply apart_le in A1; unfold HDR in *; lia).
  assert (∀ a s, (a, s) ∈ l2 → bp < a) as Hl2.
  { intros a s Hin. destruct (apart_in _ _ _ _ _ A2 Hin). unfold HDR in *. lia. }
  assert (Forall (λ b, b.1 < bp) ((base, 0) :: l1)) as Hl1.
  { constructor; [done|]. apply Forall_forall. intros [a s] Hin. destruct (apart_in _ _ _ _ _ A1 Hin). simpl. unfold HDR in *. lia. }
  assert (StronglySorted Z.lt ((base, 0) :: l1).*1) as Hs1.
  { constructor; [by eapply apart_sorted|]. apply Forall_fmap, Forall_forall. intros [a s] Hin. destruct (apart_in _ _ _ _ _ A1 Hin).
    simpl. unfold HDR in *. lia. }
  assert (base <= p) as Hbp.
  { assert ((p, sp) ∈ (base, 0) :: l1) as Hin by (rewrite EK; set_solver). apply elem_of_cons in Hin as [[= -> _]|Hin]; [lia|].
    destruct (apart_in _ _ _ _ _ A1 Hin). unfold HDR in *. lia. }
  assert (∀ K1 K2, K = K1 ++ K2 → free_find (S (length K2)) m (next (K2 ++ [(p, sp)]) 0) bp = Some p) as Hup.
  { intros K1 K2 ->. rewrite app_comm_cons, EK, <-!app_assoc in Hlk. apply linked_app in Hlk as [_ Hlk].
    rewrite EK, <-app_assoc in Hl1. apply Forall_app in Hl1 as [_ Hl1].
    rewrite EK, <-app_assoc, fmap_app in Hs1. apply StronglySorted_app_1_r in Hs1. rewrite fmap_app in Hs1.
    by apply (find_up m K2 p sp l2). }
  assert (length K = length l1) as ElK by (apply (f_equal length) in EK; rewrite length_app in EK; simpl in EK; lia).
  rewrite length_app in Hfuel.
  assert (free_find (S (length K)) m base bp = Some p) as Hbase.
  { specialize (Hup [] K eq_refl). rewrite <-EK in Hup. exact Hup. }
  rewrite fmap_app, app_comm_cons, elem_of_app in Hfr. destruct Hfr as [Hfr|Hfr].
  - change (base :: l1.*1) with (((base, 0) :: l1).*1) in Hfr. rewrite EK in Hfr.
    apply list_elem_of_fmap in Hfr as ([q t] & Eq & Hin). simpl in Eq. apply list_elem_of_split in Hin as (K1 & K2 & E).
    destruct (decide (K2 = [])) as [->|Hne].
    + apply app_inj_tail in E as [-> [= -> ->]]. eapply free_find_mono; [rewrite Eq; apply (Hup K1 []); by rewrite app_nil_r|simpl; lia].
    + destruct (exists_last Hne) as (K2' & [x y] & ->). rewrite app_comm_cons, app_assoc in E. apply app_inj_tail in E as [EK' [= -> ->]].
      pose proof (Hup K1 ((q, t) :: K2') EK') as Hf. simpl (next _ _) in Hf. rewrite Eq. eapply free_find_mono; [exact Hf|].
      rewrite EK', length_app in ElK. simpl in *. lia.
  - apply list_elem_of_fmap in Hfr as ([q t] & Eq & Hin). simpl in Eq. apply list_elem_of_split in Hin as (K1 & K2 & ->).
    rewrite app_comm_cons in Hlk. apply linked_app in Hlk as [_ Hlk]. apply linked_app in Hlk as [_ Hlk].
    pose proof (apart_sorted _ _ _ A2) as Hs2. rewrite fmap_app in Hs2. apply StronglySorted_app_1_r in Hs2.
    assert (free_find (length ((q, t) :: K2) + S (length K)) m q bp = Some p) as Hf.
    { rewrite <-Hbase. apply (find_top m ((q, t) :: K2)); [done| |done|done|done]. intros a s Ha. apply (Hl2 a s). set_solver. }
    rewrite Eq. eapply free_find_mono; [exact Hf|]. rewrite length_app in Hfuel. simpl in *. lia.
Qed.

Lemma in_free_cons a s l x : in_free ((a, s) :: l) x ↔ a <= x < a + HDR * s ∨ in_free l x.
Proof.
  unfold in_free. split.
  - intros (b & t & [[= -> ->]|Hin]%elem_of_cons & Hx); [by left|right; eauto].
  - intros [Hx|(b & t & Hin & Hx)]; [exists a, s; set_solver|exists b, t; set_solver].
Qed.
Lemma in_free_app l1 l2 x : in_free (l1 ++ l2) x ↔ in_free l1 x ∨ in_free l2 x.
Proof. unfold in_free. setoid_rewrite elem_of_app. naive_solver. Qed.

(** [m'] differs from [m] in the headers [A] only, and has the same heap. *)
Definition only (A : Z → Prop) (m m' : heap) : Prop :=
  (∀ a, ¬ A a → h_ptr m' a = h_ptr m a ∧ h_size m' a = h_size m a) ∧ h_brk m' = h_brk m.

Lemma only_linked A m m' l e : only A m m' → (∀ a s, (a, s) ∈ l → ¬ A a) → linked m l e → linked m' l e.
Proof. intros [Ho _] Hl. apply linked_ext. intros a s Hin. apply Ho. by eapply Hl. Qed.

(** The block at [bp], merged with the block behind it or not. *)
Lemma link_up m l2 p bp sz hi : linked m l2 base → h_ptr m p = next l2 base → h_size m bp = sz → 1 <= sz →
  apart (bp + HDR * sz) l2 hi → hi < 2 ^ 36 → 0 < base < bp →
  let m1 := if bp + HDR * h_size m bp =? h_ptr m p then
              set_ptr bp (h_ptr m (h_ptr m p)) (set_size bp (h_size m bp + h_size m (h_ptr m p)) m)
            else set_ptr bp (h_ptr m p) m in
  ∃ szn l2n, h_size m1 bp = szn ∧ h_ptr m1 bp = next l2n base ∧ linked m1 l2n base ∧ apart (bp + HDR * szn) l2n hi ∧ sz <= szn ∧
    (∀ x, in_free ((bp, szn) :: l2n) x ↔ in_free ((bp, sz) :: l2) x) ∧ only (λ a, a = bp) m m1 ∧ (length l2n <= length l2)%nat ∧
    (∀ a s, (a, s) ∈ l2n → (a, s) ∈ l2).
Proof.
  intros Hlk Hp Hs Hsz Ha Hhi Hb m1. unfold m1. rewrite Hp, Hs.
  assert (∀ a s, (a, s) ∈ l2 → a ≠ bp) as Hne by (intros a s Hin; destruct (apart_in _ _ _ _ _ Ha Hin); unfold HDR in *; lia).
  destruct (Z.eqb_spec (bp + HDR * sz) (next l2 base)) as [E|E].
  - destruct l2 as [|[a2 s2] l2]; simpl in E; [unfold HDR in E; lia|]. simpl in Hlk, Ha. destruct Hlk as (Hs2 & Hp2 & Hlk), Ha as (_ & H2 & Ha).
    pose proof (apart_le _ _ _ Ha) as Hle. exists (sz + s2), l2. simpl (next _ _). rewrite Hs2, Hp2.
    assert (h_size (set_ptr bp (next l2 base) (set_size bp (sz + s2) m)) bp = sz + s2) as Esz.
    { simpl. rewrite upd_eq, u32_id; [done|]. unfold HDR in *. lia. }
    assert (only (λ a, a = bp) m (set_ptr bp (next l2 base) (set_size bp (sz + s2) m))) as Ho.
    { split; [|done]. intros a Hna. simpl. by rewrite !upd_ne by done. }
    split_and!; [done|simpl; apply upd_eq| | |lia| |done|simpl; lia|set_solver].
    + eapply only_linked; [exact Ho| |done]. intros a s Hin. apply (Hne a s). set_solver.
    + replace (bp + HDR * (sz + s2)) with (a2 + HDR * s2) by (unfold HDR in *; lia). done.
    + intros x. rewrite (in_free_cons bp (sz + s2)), (in_free_cons bp sz), (in_free_cons a2). unfold HDR in *. split.
      * intros [Hx|Hx]; [destruct (Z.lt_ge_cases x a2); [left; lia|right; left; lia]|by right; right].
      * intros [Hx|[Hx|Hx]]; [left; lia|left; lia|by right].
  - exists sz, l2. assert (only (λ a, a = bp) m (set_ptr bp (next l2 base) m)) as Ho.
    { split; [|done]. intros a Hna. simpl. by rewrite upd_ne by done. }
    split_and!; [done|simpl; apply upd_eq| |done|lia|done|done|lia|done].
    eapply only_linked; [exact Ho| |done]. intros a s Hin. by apply (Hne a s).
Qed.

(** ... and with the block before it or not. *)
Lemma link_low m K p sp bp szn l2n hi : linked m K p → h_size m p = sp → h_size m bp = szn → h_ptr m bp = next l2n base → linked m l2n base →
  apart (bp + HDR * szn) l2n hi → hi < 2 ^ 36 → 0 <= sp → 0 < p → p < bp → 1 <= szn → (∀ a s, (a, s) ∈ K → a < p) →
  p + HDR * sp <= bp →
  let m1 := if p + HDR * h_size m p =? bp then set_ptr p (h_ptr m bp) (set_size p (h_size m p + h_size m bp) m) else set_ptr p bp m in
  let t := if p + HDR * sp =? bp then (p, sp + szn) :: l2n else (p, sp) :: (bp, szn) :: l2n in
  linked m1 (K ++ t) base ∧ only (λ a, a = p) m m1.
Proof.
  intros HK Hs Hsn Hp2 Hlk Ha Hhi Hsp Hp Hpb Hszn HKp Hle m1 t. unfold m1, t. rewrite Hs, Hsn, Hp2. pose proof (apart_le _ _ _ Ha) as Hle2.
  assert (∀ a s, (a, s) ∈ l2n → a ≠ p) as Hne by (intros a s Hin; destruct (apart_in _ _ _ _ _ Ha Hin); unfold HDR in *; lia).
  destruct (Z.eqb_spec (p + HDR * sp) bp) as [E|E].
  - assert (only (λ a, a = p) m (set_ptr p (next l2n base) (set_size p (sp + szn) m))) as Ho.
    { split; [|done]. intros a Hna. simpl. by rewrite !upd_ne by done. }
    split; [|done]. rewrite linked_app. split; [|split_and!].
    + eapply only_linked; [exact Ho| |exact HK]. intros a s Hin. specialize (HKp a s Hin). simpl in *. lia.
    + simpl. rewrite upd_eq, u32_id; [done|]. unfold HDR in *. lia.
    + simpl. apply upd_eq.
    + by eapply only_linked.
  - assert (only (λ a, a = p) m (set_ptr p bp m)) as Ho by (split; [|done]; intros a Hna; simpl; by rewrite upd_ne by done).
    split; [|done]. rewrite linked_app. split; [|split_and!; [done|simpl; apply upd_eq|split_and!]].
    + eapply only_linked; [exact Ho| |exact HK]. intros a s Hin. specialize (HKp a s Hin). simpl in *. lia.
    + done.
    + simpl. rewrite upd_ne by lia. done.
    + by eapply only_linked.
Qed.

(** The headers of the free list. *)
Definition header (l : list (Z * Z)) (a : Z) : Prop := a = base ∨ ∃ s, (a, s) ∈ l.

Lemma last_block l1 : ∃ K p sp, (base, 0) :: l1 = K ++ [(p, sp)].
Proof. destruct (exists_last (l := (base, 0) :: l1)) as (K & [p sp] & E); [done|]. eauto. Qed.

(** The new list behind [base]. *)
Lemma new_list K p sp l1 bp szn l2n hi : (base, 0) :: l1 = K ++ [(p, sp)] → apart (base + HDR) l1 bp → apart (bp + HDR * szn) l2n hi → 1 <= szn →
  ∃ l', K ++ (if p + HDR * sp =? bp then (p, sp + szn) :: l2n else (p, sp) :: (bp, szn) :: l2n) = (base, 0) :: l' ∧
    apart (base + HDR) l' hi ∧ (∀ x, in_free l' x ↔ in_free l1 x ∨ in_free ((bp, szn) :: l2n) x) ∧
    (∃ a s, (a, s) ∈ l' ∧ a <= bp ∧ bp + HDR * szn <= a + HDR * s) ∧ (length l' <= length l1 + S (length l2n))%nat ∧ p ∈ base :: l'.*1.
Proof.
  intros EK A1 A2 Hszn. pose proof (apart_le _ _ _ A1) as Hle. destruct K as [|[b0 t0] K]; simpl in EK; injection EK as <- <- El1.
  - subst l1. rewrite (proj2 (Z.eqb_neq _ _)) by (unfold HDR in *; lia). exists ((bp, szn) :: l2n). simpl in A1.
    split_and!; [done|simpl; split_and!; [lia|lia|done]| | |simpl; lia|set_solver].
    + intros x. split; [by right|]. intros [(a & s & Hin & _)|?]; [set_solver|done].
    + exists bp, szn. split_and!; [set_solver|lia|lia].
  - subst l1. apply apart_app in A1 as (mid & B1 & (B2 & B3 & B4)). simpl in B4.
    destruct (Z.eqb_spec (p + HDR * sp) bp) as [E|E].
    + exists (K ++ (p, sp + szn) :: l2n). split_and!; [done| | | |rewrite !length_app; simpl; lia|rewrite fmap_app; set_solver].
      * apply apart_app. exists mid. simpl. split_and!; [done|done|lia|]. by replace (p + HDR * (sp + szn)) with (bp + HDR * szn) by (unfold HDR in *; lia).
      * intros x. rewrite !in_free_app, !in_free_cons. unfold HDR in *. assert (¬ in_free [] x) by (intros (a & s & Hin & _); set_solver).
        assert (p <= x < p + 16 * (sp + szn) ↔ p <= x < p + 16 * sp ∨ bp <= x < bp + 16 * szn) as -> by lia. tauto.
      * exists p, (sp + szn). split_and!; [set_solver|unfold HDR in *; lia|unfold HDR in *; lia].
    + exists (K ++ (p, sp) :: (bp, szn) :: l2n). split_and!; [done| | | |rewrite !length_app; simpl; lia|rewrite fmap_app; set_solver].
      * apply apart_app. exists mid. simpl. split_and!; [done|done|lia|lia|lia|done].
      * intros x. rewrite !in_free_app, !in_free_cons. assert (¬ in_free [] x) by (intros (a & s & Hin & _); set_solver). tauto.
      * exists bp, szn. split_and!; [set_solver|lia|lia].
Qed.

Lemma free_run m l bp sz fuel : free_list m l → h_size m bp = sz → 1 <= sz → base + HDR <= bp → bp + HDR * sz <= h_brk m →
  (∀ x, bp <= x < bp + HDR * sz → ¬ in_free l x) → (2 * length l + 3 <= fuel)%nat →
  ∃ m' l', free fuel (bp + HDR) m = Some m' ∧ free_list m' l' ∧ (∀ x, in_free l' x ↔ in_free l x ∨ bp <= x < bp + HDR * sz) ∧
    (∃ a s, (a, s) ∈ l' ∧ sz <= s) ∧ only (λ a, a = bp ∨ header l a) m m' ∧ (length l' <= S (length l))%nat.
Proof.
  intros F Hs Hsz Hb Hhi Hd Hfuel. destruct (place _ _ _ _ _ (fl_apart _ _ F) Hb Hsz Hhi Hd) as (l1 & l2 & El & A1 & A2).
  destruct (last_block l1) as (K & p & sp & EK).
  pose proof (free_find_run m l l1 l2 bp sz p sp K F El A1 A2 Hsz EK fuel Hfuel) as Hf.
  unfold free. replace (bp + HDR - HDR) with bp by lia. rewrite Hf. destruct F as [Hlk Hap Hfr [Hb0 Hrg]]. subst l.
  rewrite app_comm_cons, EK, <-app_assoc in Hlk. apply linked_app in Hlk as [HK (Hps & Hpp & Hl2)]. simpl (next _ _) in HK.
  assert (∀ a s, (a, s) ∈ K ++ [(p, sp)] → base <= a < bp ∧ 0 <= s ∧ a + HDR * s <= bp) as Hlow.
  { intros a s. rewrite <-EK. intros [[= -> ->]|Hin]%elem_of_cons; [unfold HDR in *; lia|].
    destruct (apart_in _ _ _ _ _ A1 Hin). unfold HDR in *. lia. }
  destruct (Hlow p sp) as (Hp1 & Hp2 & Hp3); [set_solver|].
  destruct (link_up m l2 p bp sz (h_brk m) Hl2 Hpp Hs Hsz A2 Hrg) as (szn & l2n & U1 & U2 & U3 & U4 & U5 & U6 & U7 & U8 & U9); [unfold HDR in *; lia|].
  set (m1 := if bp + HDR * h_size m bp =? h_ptr m p then _ else _) in *.
  assert (∀ a s, (a, s) ∈ K → a < p) as HKp.
  { intros a s Hin. assert (StronglySorted Z.lt (K ++ [(p, sp)]).*1) as Hsrt.
    { rewrite <-EK. simpl. constructor; [by eapply apart_sorted|]. apply Forall_fmap, Forall_forall. intros [b t] Hin'.
      destruct (apart_in _ _ _ _ _ A1 Hin'). simpl. unfold HDR in *. lia. }
    rewrite fmap_app in Hsrt. eapply (StronglySorted_app_1_elem_of Z.lt _ _ a p) in Hsrt; [done| |simpl; set_solver].
    apply list_elem_of_fmap. by exists (a, s). }
  destruct (link_low m1 K p sp bp szn l2n (h_brk m)) as [V1 V2]; try done.
  { eapply only_linked; [exact U7| |exact HK]. intros a s Hin. specialize (HKp a s Hin). simpl in *. lia. }
  { destruct (proj1 U7 p) as [_ ->]; [lia|done]. }
  { lia. } { lia. } { lia. }
  destruct (new_list K p sp l1 bp szn l2n (h_brk m) EK A1 U4) as (l' & W1 & W2 & W3 & (wa & ws & W4 & W4' & W4'') & W5 & W6); [lia|].
  set (m2 := if p + HDR * h_size m1 p =? bp then _ else _) in *.
  exists (m2 <| h_freep := p |>), l'. assert (h_brk m2 = h_brk m) as Ebrk by (rewrite (proj2 V2); apply U7).
  split_and!; [done|split|..].
  - rewrite W1 in V1. eapply linked_ext; [|exact V1]. done.
  - simpl. by rewrite Ebrk.
  - done.
  - simpl. by rewrite Ebrk.
  - intros x. rewrite W3, U6, in_free_cons, in_free_app. tauto.
  - exists wa, ws. split; [done|]. unfold HDR in *. lia.
  - split; [|done]. intros a Ha. simpl. destruct (proj1 V2 a) as [-> ->].
    { intros ->. apply Ha. right. assert ((p, sp) ∈ (base, 0) :: l1) as Hin by (rewrite EK; set_solver).
      apply elem_of_cons in Hin as [[= -> _]|Hin]; [by left|]. right. exists sp. set_solver. }
    apply U7. intros ->. apply Ha. by left.
  - rewrite length_app. lia.
Qed.

(** ** [malloc] *)

Lemma relink m A y sy e e' : linked m (A ++ [(y, sy)]) e → (∀ a s, (a, s) ∈ A → a ≠ y) → linked (set_ptr y e' m) (A ++ [(y, sy)]) e'.
Proof.
  rewrite !linked_app. intros [HA (Hs & _ & _)] Hne. split; [|split_and!; [done|simpl; apply upd_eq|done]].
  eapply linked_ext; [|exact HA]. intros a s Hin. simpl. by rewrite upd_ne by (by apply (Hne a s)).
Qed.

(** The block that the header [y] points to. *)
Lemma split_at m l y a : free_list m l → header l y → h_ptr m y = a → a ≠ base →
  ∃ J s K2, l = J ++ (a, s) :: K2 ∧ ∃ A sy, (base, 0) :: J = A ++ [(y, sy)].
Proof.
  intros [Hlk _ _ _] Hy Hp Ha. assert (∃ sy, (y, sy) ∈ (base, 0) :: l) as [sy Hin].
  { destruct Hy as [->|[t Ht]]; [exists 0; set_solver|exists t; set_solver]. }
  apply list_elem_of_split in Hin as (A & R & E). rewrite E in Hlk. apply linked_app in Hlk as [_ (_ & Hn & _)].
  rewrite Hp in Hn. destruct R as [|[b t] R]; simpl in Hn; [done|]. subst b.
  change ((y, sy) :: (a, t) :: R) with ([(y, sy)] ++ (a, t) :: R) in E. rewrite app_assoc in E.
  destruct (A ++ [(y, sy)]) as [|b J] eqn:EA; [by destruct A|]. simpl in E. injection E as <- ->. exists J, t, R. split; [done|]. by exists A, sy.
Qed.

Lemma apart_disjoint lo J a s K2 hi x : apart lo (J ++ (a, s) :: K2) hi → in_free J x ∨ in_free K2 x → ¬ (a <= x < a + HDR * s).
Proof.
  intros (mid & A1 & (H1 & H2 & A2))%apart_app [(b & t & Hin & Hx)|(b & t & Hin & Hx)] Hax.
  - destruct (apart_in _ _ _ _ _ A1 Hin). lia.
  - destruct (apart_in _ _ _ _ _ A2 Hin). lia.
Qed.

(** What [malloc_take] leaves: the block [blk] of [n] units, out of the free
    list [l]. *)
Definition taken (m : heap) (l : list (Z * Z)) (n blk : Z) (m' : heap) (l' : list (Z * Z)) : Prop :=
  free_list m' l' ∧ h_size m' blk = n ∧ base + HDR <= blk ∧
  (∀ x, in_free l' x ↔ in_free l x ∧ ¬ (blk <= x < blk + HDR * n)) ∧ (∀ x, blk <= x < blk + HDR * n → in_free l x) ∧
  only (λ b, b = blk ∨ header l b) m m' ∧ (length l' <= length l)%nat.

Lemma below_sorted J a : apart (base + HDR) J a → StronglySorted Z.lt ((base, 0) :: J).*1 ∧ ∀ b t, (b, t) ∈ (base, 0) :: J → b < a.
Proof.
  intros A1. pose proof (apart_le _ _ _ A1). split.
  - constructor; [by eapply apart_sorted|]. apply Forall_fmap, Forall_forall. intros [b t'] Hin'.
    destruct (apart_in _ _ _ _ _ A1 Hin'). simpl. unfold HDR in *. lia.
  - intros b t [[= -> _]|Hin]%elem_of_cons; [unfold HDR in *; lia|]. destruct (apart_in _ _ _ _ _ A1 Hin). unfold HDR in *. lia.
Qed.

Lemma below_header J a s K2 A y sy : (base, 0) :: J = A ++ [(y, sy)] → header (J ++ (a, s) :: K2) y ∧ y ∈ base :: J.*1 ∧ (y, sy) ∈ (base, 0) :: J.
Proof.
  intros EA. assert ((y, sy) ∈ (base, 0) :: J) as Hin by (rewrite EA; set_solver). split_and!; [|change (base :: J.*1) with ((base, 0) :: J).*1; rewrite EA, fmap_app; set_solver|done].
  apply elem_of_cons in Hin as [[= -> _]|Hin]; [by left|right]. exists sy. set_solver.
Qed.

(** A block of the right size is unlinked ... *)
Lemma take_exact m J a n K2 A y sy : free_list m (J ++ (a, n) :: K2) → (base, 0) :: J = A ++ [(y, sy)] →
  taken m (J ++ (a, n) :: K2) n a ((set_ptr y (h_ptr m a) m) <| h_freep := y |>) (J ++ K2).
Proof.
  intros [Hlk Hap Hfr [Hb0 Hrg]] EA. rewrite app_comm_cons in Hlk. apply linked_app in Hlk as [HJ (Has & -> & HK2)]. simpl (next _ _) in HJ.
  pose proof (λ x, apart_disjoint _ _ _ _ _ _ x Hap) as Hdis. pose proof Hap as (mid & A1 & (B1 & B2 & B3))%apart_app.
  destruct (below_sorted J a) as [Hsrt HJa]; [by eapply apart_hi|]. destruct (below_header J a n K2 A y sy EA) as (Hh & Hyj & Hin).
  pose proof (HJa y sy Hin) as Hya. pose proof (apart_le _ _ _ A1) as Hmid.
  split_and!; [split|..].
  - rewrite app_comm_cons. apply linked_app. split.
    + rewrite EA in HJ, Hsrt |- *. eapply linked_ext; [|apply (relink m A y sy a (next K2 base) HJ)]; [done|]. intros b t Hb ->.
      rewrite fmap_app in Hsrt. eapply (StronglySorted_app_1_elem_of Z.lt _ _ y y) in Hsrt; [lia| |simpl; set_solver].
      apply list_elem_of_fmap. by exists (y, t).
    + eapply linked_ext; [|exact HK2]. intros b t Hb. simpl. destruct (apart_in _ _ _ _ _ B3 Hb). by rewrite upd_ne by (unfold HDR in *; lia).
  - apply apart_app. exists mid. split; [done|]. eapply apart_lo; [|exact B3]. unfold HDR in *. lia.
  - rewrite fmap_app. simpl (h_freep _). set_solver.
  - done.
  - done.
  - lia.
  - intros x. rewrite !in_free_app, in_free_cons. specialize (Hdis x). tauto.
  - intros x Hx. apply in_free_app. right. apply in_free_cons. by left.
  - split; [|done]. intros b Hb. simpl. rewrite upd_ne; [done|]. intros ->. apply Hb. by right.
  - rewrite !length_app. simpl. lia.
Qed.

(** ... and a larger one cut at its end. *)
Lemma take_cut m J a s K2 A y sy n : free_list m (J ++ (a, s) :: K2) → (base, 0) :: J = A ++ [(y, sy)] → 1 <= n < s →
  let blk := a + HDR * (s - n) in
  taken m (J ++ (a, s) :: K2) n blk ((set_size blk n (set_size a (s - n) m)) <| h_freep := y |>) (J ++ (a, s - n) :: K2).
Proof.
  intros [Hlk Hap Hfr [Hb0 Hrg]] EA Hn blk. rewrite app_comm_cons in Hlk. apply linked_app in Hlk as [HJ (Has & Hp & HK2)]. simpl (next _ _) in HJ.
  pose proof (λ x, apart_disjoint _ _ _ _ _ _ x Hap) as Hdis. pose proof Hap as (mid & A1 & (B1 & B2 & B3))%apart_app.
  destruct (below_sorted J a) as [_ HJa]; [by eapply apart_hi|]. destruct (below_header J a s K2 A y sy EA) as (Hh & Hyj & Hin).
  pose proof (apart_le _ _ _ A1) as Hmid. pose proof (apart_le _ _ _ B3) as Hend.
  assert (blk ≠ a) as Hne by (unfold blk, HDR; lia). set (m' := set_size blk n (set_size a (s - n) m)).
  assert (∀ b, b ≠ a → b ≠ blk → h_ptr m' b = h_ptr m b ∧ h_size m' b = h_size m b) as Hsame by (intros b H1 H2; simpl; by rewrite !upd_ne by done).
  assert (∀ v, 1 <= v <= s → u32 v = v) as Hu by (intros v Hv; apply u32_id; unfold HDR in *; lia).
  split_and!; [split|..].
  - rewrite app_comm_cons. apply linked_app. split; [|split_and!].
    + eapply linked_ext; [|exact HJ]. intros b t Hb. specialize (HJa b t Hb). apply Hsame; unfold blk, HDR in *; lia.
    + simpl. rewrite upd_ne, upd_eq by done. apply Hu. lia.
    + exact Hp.
    + eapply linked_ext; [|exact HK2]. intros b t Hb. destruct (apart_in _ _ _ _ _ B3 Hb). apply Hsame; unfold blk, HDR in *; lia.
  - apply apart_app. exists mid. simpl. split_and!; [done|done|lia|]. eapply apart_lo; [|exact B3]. unfold HDR in *. lia.
  - rewrite fmap_app. simpl (h_freep _). set_solver.
  - done.
  - simpl. rewrite upd_eq. apply Hu. lia.
  - unfold blk, HDR in *. lia.
  - intros x. rewrite !in_free_app, !in_free_cons. specialize (Hdis x).
    assert (a <= x < a + HDR * (s - n) ↔ a <= x < a + HDR * s ∧ ¬ (blk <= x < blk + HDR * n)) as -> by (unfold blk, HDR; lia).
    assert (blk <= x < blk + HDR * n → a <= x < a + HDR * s) by (unfold blk, HDR; lia). tauto.
  - intros x Hx. apply in_free_app. right. apply in_free_cons. left. unfold blk, HDR in *. lia.
  - split; [|done]. intros b Hb. apply Hsame; [|by intros ->; apply Hb; left]. intros ->. apply Hb. right. right. exists s. set_solver.
  - rewrite !length_app. simpl. lia.
Qed.

Lemma malloc_take_run m l y a n : free_list m l → header l y → h_ptr m y = a → a ≠ base → 1 <= n → n <= h_size m a →
  ∃ blk m' l', malloc_take n y a m = (blk + HDR, m') ∧ taken m l n blk m' l'.
Proof.
  intros F Hy Hp Ha Hn Hs. destruct (split_at m l y a F Hy Hp Ha) as (J & s & K2 & -> & A & sy & EA).
  assert (h_size m a = s ∧ HDR * s < 2 ^ 36) as [Es Hs36].
  { destruct F as [Hlk Hap _ [Hb Hr]]. rewrite app_comm_cons in Hlk. apply linked_app in Hlk as [_ (Has & _)]. split; [done|].
    apply apart_app in Hap as (mid & H1%apart_le & (? & ? & H2%apart_le)). unfold HDR in *. lia. }
  unfold malloc_take. rewrite Es in *. destruct (Z.eqb_spec s n) as [->|Hsn].
  - eexists _, _, _. split; [done|]. by eapply take_exact.
  - eexists _, _, _. cbn zeta. replace (h_size (set_size a (s - n) m) a) with (s - n); [split; [done|]; eapply take_cut; [done|done|lia]|].
    simpl. rewrite upd_eq, u32_id; [done|]. unfold HDR in *. lia.
Qed.

Lemma malloc_loop_S f n q p m : malloc_loop (S f) n q p m =
  (if n <=? h_size m p then Some (malloc_take n q p m)
   else if p =? h_freep m then
     match morecore f n m with
     | None => None
     | Some (p, m) => if p =? 0 then Some (0, m) else malloc_loop f n p (h_ptr m p) m
     end
   else malloc_loop f n p (h_ptr m p) m).
Proof. done. Qed.

(** Once round the list from [x]: a block that fits is taken, or [morecore] is
    called at [freep]. *)
Lemma malloc_loop_run m l n e f sf : h_freep m = f → ∀ V x, h_ptr m x = next (V ++ [(f, sf)]) e → linked m (V ++ [(f, sf)]) e →
  (∀ a s, (a, s) ∈ V ++ [(f, sf)] → header l a) → header l x → (∀ s, (f, s) ∉ V) → ∀ fuel,
  (∃ y a s, header l y ∧ h_ptr m y = a ∧ (a, s) ∈ V ++ [(f, sf)] ∧ n <= s ∧ h_size m a = s ∧
     malloc_loop (S (length V) + fuel) n x (h_ptr m x) m = Some (malloc_take n y a m)) ∨
  ((∀ a s, (a, s) ∈ V ++ [(f, sf)] → s < n) ∧ malloc_loop (S (length V) + fuel) n x (h_ptr m x) m =
     match morecore fuel n m with
     | None => None
     | Some (p, m) => if p =? 0 then Some (0, m) else malloc_loop fuel n p (h_ptr m p) m
     end).
Proof.
  intros Hf V. induction V as [|[a s] V IH]; intros x Hx Hlk HV Hhx Hnf fuel.
  - simpl in Hx, Hlk. destruct Hlk as (Hs & _ & _). cbn [length plus malloc_loop]. rewrite Hx, Hs, Hf.
    destruct (Z.leb_spec n sf) as [Hle|Hgt]; [left|right].
    + exists x, f, sf. split_and!; [done|done|set_solver|done|done|done].
    + rewrite Z.eqb_refl. split; [|done]. intros a s Hin. assert ((a, s) = (f, sf)) as [= -> ->] by set_solver. done.
  - simpl in Hx, Hlk. destruct Hlk as (Hs & Hp & Hlk). change (S (length ((a, s) :: V)) + fuel)%nat with (S (S (length V) + fuel)).
    rewrite malloc_loop_S, Hx, Hs, Hf.
    destruct (Z.leb_spec n s) as [Hle|Hgt]; [left|].
    + exists x, a, s. split_and!; [done|done|set_solver|done|done|done].
    + rewrite (proj2 (Z.eqb_neq a f)) by (intros ->; apply (Hnf s); set_solver).
      destruct (IH a Hp Hlk) with (fuel := fuel) as [(y & b & t & ? & ? & ? & ? & ? & ?)|[Hno E]].
      * intros. apply (HV a0 s0). set_solver.
      * apply (HV a s). set_solver.
      * intros t Ht. apply (Hnf t). set_solver.
      * left. exists y, b, t. split_and!; try done. simpl. apply elem_of_cons. by right.
      * right. split; [|done]. intros b t [[= -> ->]|Hin]%elem_of_cons; [done|]. by apply (Hno b t).
Qed.

(** The list as the search from [freep] visits it. *)
Lemma rotated m l : free_list m l → ∃ V sf e, h_ptr m (h_freep m) = next (V ++ [(h_freep m, sf)]) e ∧ linked m (V ++ [(h_freep m, sf)]) e ∧
  (∀ s, (h_freep m, s) ∉ V) ∧ (∀ a s, (a, s) ∈ V ++ [(h_freep m, sf)] ↔ (a, s) ∈ (base, 0) :: l) ∧ length V = length l.
Proof.
  intros [Hlk Hap Hfr _]. change (base :: l.*1) with ((base, 0) :: l).*1 in Hfr.
  apply list_elem_of_fmap in Hfr as ([f sf] & Ef & Hin). simpl in Ef. rewrite Ef. apply list_elem_of_split in Hin as (A & B & E).
  pose proof (proj1 (below_sorted l (h_brk m) Hap)) as Hs. rewrite E in Hlk, Hs. exists (B ++ A), sf, (next B base).
  apply linked_app in Hlk as [HA (Hsf & Hp & HB)]. simpl (next _ _) in HA.
  assert (∀ x, next (A ++ [(f, sf)]) x = base) as Hn.
  { intros x. destruct A as [|[a s] A]; simpl in *; congruence. }
  split_and!.
  - rewrite Hp, <-app_assoc, next_app, Hn. done.
  - rewrite <-app_assoc. apply linked_app. rewrite Hn. split; [done|]. apply linked_app. split; [done|]. split_and!; [done|done|done].
  - intros s Hin. rewrite fmap_app in Hs. apply elem_of_app in Hin as [Hin|Hin].
    + apply StronglySorted_app_1_r in Hs. apply StronglySorted_inv in Hs as [_ Hlt]. rewrite Forall_forall in Hlt.
      specialize (Hlt f). apply (Z.lt_irrefl f), Hlt, list_elem_of_fmap. by exists (f, s).
    + eapply (StronglySorted_app_1_elem_of Z.lt _ _ f f) in Hs; [lia| |simpl; apply elem_of_cons; by left].
      apply list_elem_of_fmap. by exists (f, s).
  - intros a s. rewrite E, !elem_of_app, !elem_of_cons. assert ((a, s) ∈ [] ↔ False) as -> by (split; [by intros ?%elem_of_nil|done]). tauto.
  - apply (f_equal length) in E. rewrite length_app in E |- *. simpl in E. lia.
Qed.

(** Once round: a block that fits is taken; otherwise [morecore] is called. *)
Lemma malloc_round m l n fuel : free_list m l → 1 <= n →
  (∃ blk m' l', malloc_loop (S (length l) + fuel) n (h_freep m) (h_ptr m (h_freep m)) m = Some (blk + HDR, m') ∧ taken m l n blk m' l') ∨
  ((∀ a s, (a, s) ∈ l → s < n) ∧ malloc_loop (S (length l) + fuel) n (h_freep m) (h_ptr m (h_freep m)) m =
     match morecore fuel n m with
     | None => None
     | Some (p, m) => if p =? 0 then Some (0, m) else malloc_loop fuel n p (h_ptr m p) m
     end).
Proof.
  intros F Hn. destruct (rotated m l F) as (V & sf & e & Hx & Hlk & Hnf & HV & Hlen). rewrite <-Hlen.
  assert (∀ a s, (a, s) ∈ V ++ [(h_freep m, sf)] → header l a) as Hh.
  { intros a s [[= -> _]|Hin]%HV%elem_of_cons; [by left|right; eauto]. }
  destruct (malloc_loop_run m l n e _ sf eq_refl V (h_freep m) Hx Hlk Hh) with (fuel := fuel) as [(y & a & s & Hy & Hp & Hin & Hs & Es & E)|[Hno E]].
  - apply (Hh _ sf). apply elem_of_app. right. by apply elem_of_cons; left.
  - done.
  - left. rewrite E. assert (a ≠ base) as Ha.
    { intros ->. destruct F as [(Hb & _) _ _ _]. lia. }
    rewrite <-Es in Hs. destruct (malloc_take_run m l y a n F Hy Hp Ha Hn Hs) as (blk & m' & l' & -> & HT). eauto 10.
  - right. split; [|exact E]. intros a s Hin. apply (Hno a s), HV. by apply elem_of_cons; right.
Qed.

(** The units [morecore] asks for. *)
Definition ask (n : Z) : Z := Z.max n 4096.

Lemma morecore_run m l n fuel : free_list m l → HDR * n < 2 ^ 31 → (∀ b, grow b = true → b < 2 ^ 36) → (2 * length l + 3 <= fuel)%nat →
  if grow (h_brk m + HDR * ask n) then
    ∃ m' l', morecore fuel n m = Some (h_freep m', m') ∧ free_list m' l' ∧ h_brk m' = h_brk m + HDR * ask n ∧
      (∀ x, in_free l' x ↔ in_free l x ∨ h_brk m <= x < h_brk m') ∧ (∃ a s, (a, s) ∈ l' ∧ n <= s) ∧
      (∀ a, a ≠ h_brk m → ¬ header l a → h_ptr m' a = h_ptr m a ∧ h_size m' a = h_size m a) ∧ (length l' <= S (length l))%nat
  else morecore fuel n m = Some (0, m).
Proof.
  intros F Hn Hg Hfuel. unfold morecore, sbrk. replace (if n <? 4096 then 4096 else n) with (ask n).
  2: { unfold ask. destruct (Z.ltb_spec n 4096); lia. }
  rewrite i32_id, (Z.mul_comm (ask n)) by (unfold ask, HDR in *; lia). destruct F as [Hlk Hap Hfr [Hb0 Hrg]].
  pose proof (apart_le _ _ _ Hap) as Hbrk. rewrite (proj2 (Z.ltb_lt 0 (HDR * ask n))) by (unfold ask, HDR in *; lia).
  destruct (grow (h_brk m + HDR * ask n)) eqn:Eg; [|done].
  rewrite (proj2 (Z.eqb_neq _ _)) by (unfold HDR in *; lia). specialize (Hg _ Eg).
  set (m1 := set_size (h_brk m) (ask n) (m <| h_brk := h_brk m + HDR * ask n |>)).
  assert (∀ a, a ≠ h_brk m → h_ptr m1 a = h_ptr m a ∧ h_size m1 a = h_size m a) as Hsame by (intros a Ha; simpl; by rewrite upd_ne by done).
  assert (∀ a s, (a, s) ∈ l → a + HDR * s <= h_brk m ∧ 1 <= s) as Hend by (intros a s Hin; destruct (apart_in _ _ _ _ _ Hap Hin); lia).
  assert (1 <= ask n) as Hask by (unfold ask; lia).
  destruct (free_run m1 l (h_brk m) (ask n) fuel) as (m' & l' & E & F' & Hin & (a & s & Ha & Hs) & Ho & Hlen); try done.
  - split; [|simpl; eapply apart_hi; [|exact Hap]; unfold HDR in *; lia|done|done].
    eapply linked_ext; [|exact Hlk]. intros a s [[= -> _]|Ha]%elem_of_cons; apply Hsame; [unfold HDR in *; lia|].
    destruct (Hend a s Ha). unfold HDR in *. lia.
  - simpl. rewrite upd_eq, u32_id; [done|]. unfold ask, HDR in *. lia.
  - intros x Hx (a & s & Ha & Hxa). destruct (Hend a s Ha). lia.
  - destruct Ho as [Ho Hb]. change (h_brk m1) with (h_brk m + HDR * ask n) in Hb. exists m', l'. rewrite E, Hb. split_and!; try done.
    + exists a, s. split; [done|]. unfold ask in *. lia.
    + intros b H1 H2. destruct (Ho b) as [-> ->]; [intros [?|?]; done|]. by apply Hsame.
Qed.

(** A heap before the first call, or with its free list. *)
Definition heap_ok (m : heap) (l : list (Z * Z)) : Prop :=
  free_list m l ∨ h_freep m = 0 ∧ l = [] ∧ 0 < base ∧ base + HDR <= h_brk m < 2 ^ 36.

Lemma malloc_init_run m l : heap_ok m l → free_list (malloc_init m) l ∧
  h_brk (malloc_init m) = h_brk m ∧ ∀ a, ¬ header l a → h_ptr (malloc_init m) a = h_ptr m a ∧ h_size (malloc_init m) a = h_size m a.
Proof.
  unfold malloc_init. intros [F|(Hf & -> & Hb & Hk)].
  - rewrite (proj2 (Z.eqb_neq _ _)); [done|]. destruct F as [_ Hap Hfr [Hb _]]. apply elem_of_cons in Hfr as [->|Hin]; [lia|].
    apply list_elem_of_fmap in Hin as ([a s] & -> & Hin). destruct (apart_in _ _ _ _ _ Hap Hin). simpl. unfold HDR in *. lia.
  - rewrite Hf. simpl. split_and!; [split|done|].
    + simpl. rewrite !upd_eq. done.
    + simpl. lia.
    + simpl. set_solver.
    + simpl. lia.
    + intros a Ha. simpl. rewrite !upd_ne; [done|..]; intros ->; apply Ha; by left.
Qed.

Lemma nunits_range nbytes : 0 <= nbytes <= 2 ^ 31 - 32 →
  1 <= nunits nbytes ∧ HDR * nunits nbytes < 2 ^ 31 ∧ nbytes + HDR <= HDR * nunits nbytes < nbytes + 2 * HDR.
Proof.
  intros Hn. unfold nunits, HDR. pose proof (Z.div_mod (nbytes + 16 - 1) 16 ltac:(lia)). pose proof (Z.mod_pos_bound (nbytes + 16 - 1) 16 ltac:(lia)).
  rewrite u32_id by lia. lia.
Qed.

(** C30: [malloc], from the first call on, for up to 2^31 - 32 bytes: with fuel
    for a walk over the free list before and after it has grown, it returns.
    It returns 0 only when no free block is large enough and the kernel refuses
    to grow the heap by the units asked for, and then nothing has changed hands.
    Otherwise it returns the address behind the header of a block that has room
    for the bytes and wastes less than two units: every byte of the block was free or is new
    memory, the new free list is in order and holds exactly the other free
    bytes, the heap grows only if no block was large enough, and no header but
    those of free blocks, of the new block and of new memory is written. *)
Theorem malloc_allocates m l nbytes fuel : heap_ok m l → 0 <= nbytes <= 2 ^ 31 - 32 → (∀ b, grow b = true → b < 2 ^ 36) →
  (3 * length l + 6 <= fuel)%nat →
  let n := nunits nbytes in
  ∃ r m' l', malloc fuel nbytes m = Some (r, m') ∧ free_list m' l' ∧
    (h_brk m' = h_brk m ∨ h_brk m' = h_brk m + HDR * ask n ∧ ∀ a s, (a, s) ∈ l → s < n) ∧
    ((r = 0 ∧ (∀ a s, (a, s) ∈ l → s < n) ∧ grow (h_brk m + HDR * ask n) = false ∧ l' = l ∧ h_brk m' = h_brk m) ∨
     ∃ blk, r = blk + HDR ∧ 0 < blk ∧ h_size m' blk = n ∧ nbytes + HDR <= HDR * n < nbytes + 2 * HDR ∧
       (∀ x, blk <= x < blk + HDR * n → in_free l x ∨ h_brk m <= x < h_brk m') ∧
       (∀ x, in_free l' x ↔ (in_free l x ∨ h_brk m <= x < h_brk m') ∧ ¬ (blk <= x < blk + HDR * n)) ∧
       (∀ a, a ≠ blk → ¬ header l a → ¬ in_free l a → ¬ (h_brk m <= a < h_brk m') → h_ptr m' a = h_ptr m a ∧ h_size m' a = h_size m a)).
Proof.
  intros H0 Hnb Hg Hfuel n. destruct (nunits_range nbytes Hnb) as (N1 & N2 & N3). fold n in N1, N2, N3.
  destruct (malloc_init_run m l H0) as (F & Eb & Hi). unfold malloc. fold n. set (m0 := malloc_init m) in *. rewrite <-Eb.
  assert (0 < base) as Hb by apply F.
  replace fuel with (S (length l) + (fuel - S (length l)))%nat by lia.
  destruct (malloc_round m0 l n (fuel - S (length l)) F N1) as [(blk & m' & l' & -> & F' & Hs & Hbl & Hfree & Hin & [Ho Hbk] & _)|[Hno ->]].
  { eexists _, m', l'. split_and!; [done|done|by left|right]. exists blk. rewrite Hbk.
    split_and!; [done|unfold HDR in *; lia|done|lia|lia|by left; apply Hin| |].
    - intros x. rewrite Hfree. intuition lia.
    - intros a Ha1 Ha2 Ha3 _. destruct (Ho a) as [-> ->]; [tauto|]. by apply Hi. }
  pose proof (morecore_run m0 l n (fuel - S (length l)) F N2 Hg ltac:(lia)) as Hmc. destruct (grow _) eqn:Eg.
  2: { rewrite Hmc. simpl. exists 0, m0, l. split_and!; [done|done|by left|left]. split_and!; done. }
  destruct Hmc as (m1 & l1 & -> & F1 & Eb1 & Hin1 & (a & s & Ha & Hs) & Ho1 & Hl1).
  rewrite (proj2 (Z.eqb_neq (h_freep m1) 0)).
  2: { destruct F1 as [_ Hap Hfr _]. apply elem_of_cons in Hfr as [->|Hfr]; [lia|]. apply list_elem_of_fmap in Hfr as ([b t] & -> & Hbt).
       destruct (apart_in _ _ _ _ _ Hap Hbt). simpl. unfold HDR in *. lia. }
  replace (fuel - S (length l))%nat with (S (length l1) + (fuel - S (length l) - S (length l1)))%nat by lia.
  destruct (malloc_round m1 l1 n (fuel - S (length l) - S (length l1)) F1 N1)
    as [(blk & m' & l' & -> & F' & Hs' & Hbl & Hfree & Hin & [Ho Hbk] & _)|[Hno1 _]]; [|specialize (Hno1 a s Ha); lia].
  eexists _, m', l'. split_and!; [done|done|right; split; [congruence|done]|right]. exists blk. rewrite Hbk.
  split_and!; [done|unfold HDR in *; lia|done|lia|lia| | |].
  - intros x Hx. by apply Hin1, Hin.
  - intros x. rewrite Hfree, Hin1. done.
  - intros b H1 H2 H3 H4. assert (¬ in_free l1 b) as H5 by (rewrite Hin1; tauto).
    assert (¬ header l1 b) as H6.
    { intros [->|[t Ht]]; [by apply H2; left|]. apply H5. exists b, t. split; [done|]. destruct (apart_in _ _ _ _ _ (fl_apart _ _ F1) Ht). unfold HDR. lia. }
    destruct (Ho b) as [-> ->]; [tauto|]. destruct (Ho1 b) as [-> ->]; [unfold HDR, ask in *; lia|done|]. by apply Hi.
Qed.

(** [free] on a block that is not free and inside the heap, whatever block
    [freep] points to: with fuel for two rounds of the list its search ends, the
    new list is in order and holds exactly the free bytes of before and those of
    the block; no header but those of free blocks and of the block itself is
    written. *)
Lemma free_releases m l bp fuel : free_list m l → 1 <= h_size m bp → base + HDR <= bp → bp + HDR * h_size m bp <= h_brk m →
  (∀ x, bp <= x < bp + HDR * h_size m bp → ¬ in_free l x) → (2 * length l + 3 <= fuel)%nat →
  ∃ m' l', free fuel (bp + HDR) m = Some m' ∧ free_list m' l' ∧
    (∀ x, in_free l' x ↔ in_free l x ∨ bp <= x < bp + HDR * h_size m bp) ∧
    only (λ a, a = bp ∨ header l a) m m'.
Proof.
  intros F H1 H2 H3 H4 H5. destruct (free_run m l bp (h_size m bp) fuel) as (m' & l' & ? & ? & ? & _ & ? & _); try done. exists m', l'. done.
Qed.
End umalloc.

Module UmallocDemo.
Definition grow (b : Z) : bool := b <? 2 ^ 20.
Definition m0 : heap := Heap (λ _, 0) (λ _, 0) 0 8192.

Lemma ok0 : heap_ok 4096 m0 [].
Proof. right. split_and!; done. Qed.
Lemma grow_small b : grow b = true → b < 2 ^ 36.
Proof. unfold grow. intros ?%Z.ltb_lt. lia. Qed.

(** One free block of 10 units, and behind it a block of 5 in use. *)
Definition m1 : heap := Heap (λ a, if a =? 4096 then 8192 else 4096) (λ a, if a =? 8192 then 10 else if a =? 8352 then 5 else 0) 4096 16384.
Lemma ok1 : free_list 4096 m1 [(8192, 10)].
Proof. split; [done|done|set_solver|done]. Qed.
End UmallocDemo.

(** The first call: the heap grows by 64 KB, and the end of it is handed out. *)
Lemma malloc_allocates_witness : ∃ r m' l', malloc 4096 UmallocDemo.grow 10 100 UmallocDemo.m0 = Some (r, m') ∧ free_list 4096 m' l' ∧ r = 73616 ∧
  h_brk m' = 73728.
Proof.
  pose proof (malloc_allocates 4096 UmallocDemo.grow UmallocDemo.m0 [] 100 10 UmallocDemo.ok0 ltac:(lia) UmallocDemo.grow_small ltac:(simpl; lia)) as H.
  destruct H as (r & m' & l' & E & F & _). exists r, m', l'. split; [exact E|]. split; [exact F|]. vm_compute in E. injection E as <- <-. split; reflexivity.
Defined.

(** A request of 2 GB asks [sbrk] for a negative number of bytes: the heap does
    not grow, and yet the block behind its end counts as free. *)
Lemma malloc_2gb : match malloc 4096 UmallocDemo.grow 10 (2 ^ 31) UmallocDemo.m0 with
  | Some (r, m') => h_brk m' = h_brk UmallocDemo.m0 ∧ h_brk m' < r
  | None => False
  end.
Proof. vm_compute. done. Qed.
