(* ===== verification/Virtio.v ===== *)
(** * The disk driver: [kernel/virtio_disk.c]

    The driver and the device share descriptors and two rings of chain heads:
    the driver adds requests to the available ring, the device adds completed
    ones to the used ring.  The parts of [virtio_disk_rw] between its calls of
    [sleep], and [virtio_disk_intr], run under [vdisk_lock]; [step] interleaves
    them, for any number of processes, with each other and with the device.  The
    device is hardware: what it does with a well-formed request is a hypothesis
    ([device_ok]), from the virtio specification; that the driver only makes
    well-formed requests is proved. *)
From S2P Require Import Prelude Machine Spinlock Sleeplock Blocks Ring.

Definition NUM : Z := 8.

Definition VIRTIO_MMIO_MAGIC_VALUE : Z := 0x000.
Definition VIRTIO_MMIO_VERSION : Z := 0x004.
Definition VIRTIO_MMIO_DEVICE_ID : Z := 0x008.
Definition VIRTIO_MMIO_VENDOR_ID : Z := 0x00c.
Definition VIRTIO_MMIO_DEVICE_FEATURES : Z := 0x010.
Definition VIRTIO_MMIO_DRIVER_FEATURES : Z := 0x020.
Definition VIRTIO_MMIO_QUEUE_SEL : Z := 0x030.
Definition VIRTIO_MMIO_QUEUE_NUM_MAX : Z := 0x034.
Definition VIRTIO_MMIO_QUEUE_NUM : Z := 0x038.
Definition VIRTIO_MMIO_QUEUE_READY : Z := 0x044.
Definition VIRTIO_MMIO_QUEUE_NOTIFY : Z := 0x050.
Definition VIRTIO_MMIO_INTERRUPT_STATUS : Z := 0x060.
Definition VIRTIO_MMIO_INTERRUPT_ACK : Z := 0x064.
Definition VIRTIO_MMIO_STATUS : Z := 0x070.
Definition VIRTIO_MMIO_QUEUE_DESC_LOW : Z := 0x080.
Definition VIRTIO_MMIO_QUEUE_DESC_HIGH : Z := 0x084.
Definition VIRTIO_MMIO_DRIVER_DESC_LOW : Z := 0x090.
Definition VIRTIO_MMIO_DRIVER_DESC_HIGH : Z := 0x094.
Definition VIRTIO_MMIO_DEVICE_DESC_LOW : Z := 0x0a0.
Definition VIRTIO_MMIO_DEVICE_DESC_HIGH : Z := 0x0a4.
Definition VIRTIO_CONFIG_S_ACKNOWLEDGE : Z := 1.
Definition VIRTIO_CONFIG_S_DRIVER : Z := 2.
Definition VIRTIO_CONFIG_S_DRIVER_OK : Z := 4.
Definition VIRTIO_CONFIG_S_FEATURES_OK : Z := 8.
Definition VIRTIO_BLK_F_RO : Z := 5.
Definition VIRTIO_BLK_F_SCSI : Z := 7.
Definition VIRTIO_BLK_F_CONFIG_WCE : Z := 11.
Definition VIRTIO_BLK_F_MQ : Z := 12.
Definition VIRTIO_F_ANY_LAYOUT : Z := 27.
Definition VIRTIO_RING_F_INDIRECT_DESC : Z := 28.
Definition VIRTIO_RING_F_EVENT_IDX : Z := 29.
Definition VRING_DESC_F_NEXT : Z := 1.
Definition VRING_DESC_F_WRITE : Z := 2.
Definition VIRTIO_BLK_T_IN : Z := 0.
Definition VIRTIO_BLK_T_OUT : Z := 1.

(** The addresses the driver gives to the device: [&disk.ops[i]], [b->data] and
    [&disk.info[i].status]. *)
Inductive ptr := PNull | POp (i : Z) | PData (b : nat) | PStatus (i : Z).

Record virtq_desc := Desc { d_addr : ptr; d_len : Z; d_flags : Z; d_next : Z }.
Record virtio_blk_req := Req { rq_type : Z; rq_reserved : Z; rq_sector : Z }.

(** The device behind its registers. *)
Class VirtioRegs (V : Type) := {
  ReadR : Z → M V Z;
  WriteR : Z → Z → M V unit;
}.

(** [struct disk], the buffers, and the device: its registers, the requests it
    has taken from the available ring and not completed, its place in that ring,
    and its sectors of 512 bytes. *)
Record vdisk (V : Type) := VDisk {
  v_ctx : ctx;
  v_desc : Z → virtq_desc;      (** [disk.desc] *)
  v_ring : list Z;              (** [disk.avail->ring] *)
  v_aidx : Z;                   (** [disk.avail->idx] *)
  v_used : list Z;              (** [disk.used->ring], the [id]s *)
  v_uidx : Z;                   (** [disk.used->idx] *)
  v_free : Z → bool;            (** [disk.free] *)
  v_used_idx : Z;               (** [disk.used_idx] *)
  v_info_b : Z → option nat;    (** [disk.info[].b] *)
  v_status : Z → Z;             (** [disk.info[].status] *)
  v_ops : Z → virtio_blk_req;   (** [disk.ops] *)
  v_data : nat → block;         (** [b->data] *)
  v_bdisk : nat → Z;            (** [b->disk] *)
  v_blockno : nat → Z;          (** [b->blockno] *)
  v_regs : V;
  v_seen : Z;
  v_taken : list Z;
  v_sectors : Z → list Z;
}.
Arguments VDisk {V} _ _ _ _ _ _ _ _ _ _ _ _ _ _ _ _ _ _.
Arguments v_ctx {V} _.
Arguments v_desc {V} _.
Arguments v_ring {V} _.
Arguments v_aidx {V} _.
Arguments v_used {V} _.
Arguments v_uidx {V} _.
Arguments v_free {V} _.
Arguments v_used_idx {V} _.
Arguments v_info_b {V} _.
Arguments v_status {V} _.
Arguments v_ops {V} _.
Arguments v_data {V} _.
Arguments v_bdisk {V} _.
Arguments v_blockno {V} _.
Arguments v_regs {V} _.
Arguments v_seen {V} _.
Arguments v_taken {V} _.
Arguments v_sectors {V} _.
#[global] Instance vdisk_eta {V} : Eta (vdisk V) := λ s,
  VDisk (v_ctx s) (v_desc s) (v_ring s) (v_aidx s) (v_used s) (v_uidx s) (v_free s) (v_used_idx s) (v_info_b s) (v_status s)
    (v_ops s) (v_data s) (v_bdisk s) (v_blockno s) (v_regs s) (v_seen s) (v_taken s) (v_sectors s).

Section virtio.
Context {V : Type} `{VirtioRegs V}.

Definition ctx_v : lens (vdisk V) ctx := Lens v_ctx (λ c s, s <| v_ctx := c |>).
Definition regsL : lens (vdisk V) V := Lens v_regs (λ r s, s <| v_regs := r |>).

Definition set_desc (i : Z) (d : virtq_desc) : M (vdisk V) unit := modify (λ s, s <| v_desc ::= λ f, upd f i d |>).
Definition set_free (i : Z) (x : bool) : M (vdisk V) unit := modify (λ s, s <| v_free ::= λ f, upd f i x |>).

(** -1 for none *)
Definition alloc_desc : M (vdisk V) Z :=
  r <- for_each (seqZ 0 NUM) (λ i,
    free <- gets (λ s, v_free s i) ;;
    if free : bool then set_free i false ;;; ret (Some i) else ret None) ;;
  ret (default (-1) r).

Definition free_desc (i : Z) : M (vdisk V) unit :=
  if NUM <=? i then panic "free_desc 1" else
  free <- gets (λ s, v_free s i) ;;
  if free : bool then panic "free_desc 2" else
  set_desc i (Desc PNull 0 0 0) ;;;
  set_free i true ;;;
  zoom ctx_v (wakeup ChDiskFree).

(** Every round frees a descriptor that was in use, so [NUM] rounds are enough. *)
Fixpoint free_chain_loop (fuel : nat) (i : Z) : M (vdisk V) unit :=
  match fuel with
  | O => ret tt
  | S f =>
      d <- gets (λ s, v_desc s i) ;;
      free_desc i ;;;
      if truth (Z.land (d_flags d) VRING_DESC_F_NEXT) then free_chain_loop f (d_next d) else ret tt
  end.
Definition free_chain (i : Z) : M (vdisk V) unit := free_chain_loop (Z.to_nat NUM) i.

(** [idx[0]], [idx[1]], [idx[2]], or [None] for -1 *)
Definition alloc3_desc : M (vdisk V) (option (Z * Z * Z)) :=
  i0 <- alloc_desc ;;
  if i0 <? 0 then ret None else
  i1 <- alloc_desc ;;
  if i1 <? 0 then free_desc i0 ;;; ret None else
  i2 <- alloc_desc ;;
  if i2 <? 0 then free_desc i0 ;;; free_desc i1 ;;; ret None else
  ret (Some (i0, i1, i2)).

(** The request in the descriptors, and the word to the device. *)
Definition submit (b : nat) (write : bool) (sector : Z) (idx : Z * Z * Z) : M (vdisk V) unit :=
  let '(i0, i1, i2) := idx in
  modify (λ s, s <| v_ops ::= λ f, upd f i0 (Req (if write then VIRTIO_BLK_T_OUT else VIRTIO_BLK_T_IN) 0 sector) |>) ;;;
  set_desc i0 (Desc (POp i0) 16 VRING_DESC_F_NEXT (u16 i1)) ;;;
  set_desc i1 (Desc (PData b) BSIZE (Z.lor (if write then 0 else VRING_DESC_F_WRITE) VRING_DESC_F_NEXT) (u16 i2)) ;;;
  modify (λ s, s <| v_status ::= λ f, upd f i0 0xff |>) ;;;
  set_desc i2 (Desc (PStatus i0) 1 VRING_DESC_F_WRITE 0) ;;;
  modify (λ s, s <| v_bdisk ::= λ f, upd f b 1 |>) ;;;
  modify (λ s, s <| v_info_b ::= λ f, upd f i0 (Some b) |>) ;;;
  modify (λ s, s <| v_ring := <[cell NUM (v_aidx s) := u16 i0]> (v_ring s) |>) ;;;
  modify (λ s, s <| v_aidx := u16 (v_aidx s + 1) |>) ;;;
  zoom regsL (WriteR VIRTIO_MMIO_QUEUE_NOTIFY 0).

(** [virtio_disk_rw] up to the sleep for the request: without descriptors it
    sleeps and starts again from the allocation; with them it gives up the lock
    in [sleep(b, &disk.vdisk_lock)], since [b->disk] is 1. *)
Definition rw_start (b : nat) (write : bool) : M (vdisk V) (Z * Z * Z) :=
  blockno <- gets (λ s, v_blockno s b) ;;
  let sector := u32 (blockno * (BSIZE / 512)) in
  zoom ctx_v (lock LkDisk) ;;;
  idx <- alloc3_desc ;;
  match idx with
  | None => zoom ctx_v (sleep ChDiskFree LkDisk)
  | Some idx => submit b write sector idx ;;; zoom ctx_v (unlock LkDisk) ;;; ret idx
  end.

(** ... and from there: it sleeps again while [b->disk] is 1. *)
Definition rw_wait (b : nat) (idx : Z * Z * Z) : M (vdisk V) unit :=
  zoom ctx_v (lock LkDisk) ;;;
  d <- gets (λ s, v_bdisk s b) ;;
  if d =? 1 then zoom ctx_v (sleep (ChBuf b) LkDisk) else
  let i0 := idx.1.1 in
  modify (λ s, s <| v_info_b ::= λ f, upd f i0 None |>) ;;;
  free_chain i0 ;;;
  zoom ctx_v (unlock LkDisk).

(** A request without a buffer: the kernel page table does not map address 0. *)
Fixpoint intr_loop (fuel : nat) : M (vdisk V) unit :=
  match fuel with
  | O => ret tt
  | S f =>
      s <- get ;;
      if v_used_idx s =? v_uidx s then ret tt else
      let id := v_used s !!! cell NUM (v_used_idx s) in
      if truth (v_status s id) then panic "virtio_disk_intr status" else
      match v_info_b s id with
      | None => panic "kerneltrap"
      | Some b =>
          modify (λ s, s <| v_bdisk ::= λ f, upd f b 0 |>) ;;;
          zoom ctx_v (wakeup (ChBuf b)) ;;;
          modify (λ s, s <| v_used_idx := u16 (v_used_idx s + 1) |>) ;;;
          intr_loop f
      end
  end.

Definition virtio_disk_intr : M (vdisk V) unit :=
  zoom ctx_v (lock LkDisk) ;;;
  st <- zoom regsL (ReadR VIRTIO_MMIO_INTERRUPT_STATUS) ;;
  zoom regsL (WriteR VIRTIO_MMIO_INTERRUPT_ACK (Z.land st 0x3)) ;;;
  s <- get ;;
  intr_loop (S (Z.to_nat (ring_len 16 (v_used_idx s) (v_uidx s)))) ;;;
  zoom ctx_v (unlock LkDisk).

(** ** The device

    [request s i]: the chain of descriptors from [i] as the device reads it:
    whether to write the disk, the buffer, the sector, and where the status goes. *)
Definition request (s : vdisk V) (i : Z) : option (bool * nat * Z * Z) :=
  let d0 := v_desc s i in
  let d1 := v_desc s (d_next d0) in
  let d2 := v_desc s (d_next d1) in
  match d_addr d0, d_addr d1, d_addr d2 with
  | POp k, PData b, PStatus st =>
      let op := v_ops s k in
      if (d_flags d0 =? VRING_DESC_F_NEXT) && (d_flags d2 =? VRING_DESC_F_WRITE) &&
         (d_len d0 =? 16) && (d_len d1 =? BSIZE) && (d_len d2 =? 1) && (rq_reserved op =? 0) then
        if (rq_type op =? VIRTIO_BLK_T_OUT) && (d_flags d1 =? VRING_DESC_F_NEXT) then Some (true, b, rq_sector op, st)
        else if (rq_type op =? VIRTIO_BLK_T_IN) && (d_flags d1 =? Z.lor VRING_DESC_F_WRITE VRING_DESC_F_NEXT)
        then Some (false, b, rq_sector op, st) else None
      else None
  | _, _, _ => None
  end.

(** The requests the device has not completed, and the completed ones
    [virtio_disk_intr] has not seen. *)
Definition queued (s : vdisk V) : list Z := ring NUM 16 (v_ring s) (v_seen s) (v_aidx s) ++ v_taken s.
Definition completed (s : vdisk V) : list Z := ring NUM 16 (v_used s) (v_used_idx s) (v_uidx s).

Definition dev_fetch (s s' : vdisk V) : Prop := v_seen s ≠ v_aidx s ∧ ∃ r,
  s' = s <| v_taken := v_taken s ++ [v_ring s !!! cell NUM (v_seen s)] |> <| v_seen := u16 (v_seen s + 1) |> <| v_regs := r |>.

(** Two sectors to or from the buffer, status 0, and an entry in the used ring. *)
Definition complete (i : Z) (w : bool) (b : nat) (sec st : Z) (s : vdisk V) : vdisk V :=
  let s := if w then s <| v_sectors ::= λ f, upd (upd f sec (take 512 (v_data s b))) (sec + 1) (drop 512 (v_data s b)) |>
           else s <| v_data ::= λ f, upd f b (v_sectors s sec ++ v_sectors s (sec + 1)) |> in
  s <| v_status ::= λ f, upd f st 0 |> <| v_used := <[cell NUM (v_uidx s) := i]> (v_used s) |> <| v_uidx := u16 (v_uidx s + 1) |>
    <| v_taken := filter (λ j, j ≠ i) (v_taken s) |>.

Definition dev_complete (i : Z) (s s' : vdisk V) : Prop := i ∈ v_taken s ∧ ∃ w b sec st r,
  request s i = Some (w, b, sec, st) ∧ s' = (complete i w b sec st s) <| v_regs := r |>.

(** The device serves requests as the virtio specification says, as long as the
    requests are well-formed. *)
Definition device_ok (device : vdisk V → vdisk V → Prop) : Prop := ∀ s s', device s s' →
  (∀ i, i ∈ queued s → is_Some (request s i)) → dev_fetch s s' ∨ ∃ i, dev_complete i s s'.

(** ** The system: processes in [virtio_disk_rw], interrupts and the device

    A process is named by its buffer, whose sleep lock it holds; outside of the
    driver it may change the buffer. *)
Inductive thread := TIdle | TStart (w : bool) | TWait (w : bool) (idx : Z * Z * Z).
Record sys := Sys { y_disk : vdisk V; y_thr : nat → thread }.

Inductive step (device : vdisk V → vdisk V → Prop) : sys → sys → Prop :=
| step_owner y b v n : y_thr y b = TIdle → 0 <= n < 2 ^ 31 →
    step device y (Sys ((y_disk y) <| v_data ::= λ f, upd f b v |> <| v_blockno ::= λ f, upd f b n |>) (y_thr y))
| step_call y b w : y_thr y b = TIdle → step device y (Sys (y_disk y) (upd (y_thr y) b (TStart w)))
| step_start y b w idx s : y_thr y b = TStart w → rw_start b w (y_disk y) = (Ret idx, s) →
    step device y (Sys s (upd (y_thr y) b (TWait w idx)))
| step_start_sleep y b w ch s : y_thr y b = TStart w → rw_start b w (y_disk y) = (Blocked ch, s) →
    step device y (Sys s (y_thr y))
| step_return y b w idx s : y_thr y b = TWait w idx → rw_wait b idx (y_disk y) = (Ret tt, s) →
    step device y (Sys s (upd (y_thr y) b TIdle))
| step_wait_sleep y b w idx ch s : y_thr y b = TWait w idx → rw_wait b idx (y_disk y) = (Blocked ch, s) →
    step device y (Sys s (y_thr y))
| step_intr y s : virtio_disk_intr (y_disk y) = (Ret tt, s) → step device y (Sys s (y_thr y))
| step_device y s : device (y_disk y) s → step device y (Sys s (y_thr y))
| step_cpu y c : quiet (λ l, l = LkDisk) c → step device y (Sys ((y_disk y) <| v_ctx := c |>) (y_thr y)).

(** No request, all descriptors free. *)
Record start_state (y : sys) : Prop := {
  st_quiet : quiet (λ l, l = LkDisk) (v_ctx (y_disk y));
  st_thr : ∀ b, y_thr y b = TIdle;
  st_free : ∀ i, 0 <= i < NUM → v_free (y_disk y) i = true;
  st_rings : length (v_ring (y_disk y)) = Z.to_nat NUM ∧ length (v_used (y_disk y)) = Z.to_nat NUM;
  st_zero : v_aidx (y_disk y) = 0 ∧ v_seen (y_disk y) = 0 ∧ v_uidx (y_disk y) = 0 ∧ v_used_idx (y_disk y) = 0 ∧ v_taken (y_disk y) = [];
  st_blockno : ∀ b, 0 <= v_blockno (y_disk y) b < 2 ^ 31;
}.
End virtio.
Arguments sys V : clear implicits.

(** ** The promise: a disk of blocks

    Every call transfers its block once, in one step between call and return. *)
Record adisk := ADisk {
  a_disk : Z → block;
  a_data : nat → block;
  a_blockno : nat → Z;
  a_req : nat → option (bool * bool);    (** write, transferred *)
}.

Definition same_disk (a a' : adisk) : Prop := ∀ x, a_disk a' x = a_disk a x.
Definition same_data (a a' : adisk) : Prop := ∀ b, a_data a' b = a_data a b.
Definition same_blockno (a a' : adisk) : Prop := ∀ b, a_blockno a' b = a_blockno a b.
Definition set_req (b : nat) (r : option (bool * bool)) (a a' : adisk) : Prop := ∀ b', a_req a' b' = upd (a_req a) b r b'.

Inductive astep : adisk → adisk → Prop :=
| as_owner a a' b : a_req a b = None → same_disk a a' → (∀ c, a_req a' c = a_req a c) →
    (∀ c, c ≠ b → a_data a' c = a_data a c ∧ a_blockno a' c = a_blockno a c) → astep a a'
| as_call a a' b w : a_req a b = None → same_disk a a' → same_data a a' → same_blockno a a' →
    set_req b (Some (w, false)) a a' → astep a a'
| as_write a a' b : a_req a b = Some (true, false) → same_data a a' → same_blockno a a' →
    (∀ x, a_disk a' x = upd (a_disk a) (a_blockno a b) (a_data a b) x) → set_req b (Some (true, true)) a a' → astep a a'
| as_read a a' b : a_req a b = Some (false, false) → same_disk a a' → same_blockno a a' →
    (∀ c, a_data a' c = upd (a_data a) b (a_disk a (a_blockno a b)) c) → set_req b (Some (false, true)) a a' → astep a a'
| as_return a a' b w : a_req a b = Some (w, true) → same_disk a a' → same_data a a' → same_blockno a a' →
    set_req b None a a' → astep a a'
| as_skip a a' : same_disk a a' → same_data a a' → same_blockno a a' → (∀ b, a_req a' b = a_req a b) → astep a a'.
