(* ===== verification/VirtioSpec.v ===== *)
(** * The disk driver implements a disk of blocks

    The parts of the driver as functions of the state, the invariant that ties
    descriptors, rings and processes together, its preservation by every step of
    driver, interrupts and device, and the refinement of [astep]. *)
From S2P Require Import Prelude Machine Spinlock Sleeplock Blocks Ring Virtio.

#[global] Instance disk_ring : RingDims NUM 16.
Proof. split; [done|done|exists 8192; done|done]. Qed.

(** Registers can always be read and written. *)
Class VirtioRegsSpec (V : Type) `{VirtioRegs V} : Prop := {
  read_reg : ∀ r v, ∃ x v', ReadR r v = (Ret x, v');
  write_reg : ∀ r x v, ∃ v', WriteR r x v = (Ret tt, v');
}.

Section run.
Context {V : Type} {Rg : VirtioRegs V} {Rs : VirtioRegsSpec V}.
Implicit Types s : vdisk V.

(** ** The driver, part by part *)

Lemma alloc_desc_run s :
  (∃ i, 0 <= i < NUM ∧ v_free s i = true ∧ alloc_desc s = (Ret i, s <| v_free ::= λ f, upd f i false |>)) ∨
  (alloc_desc s = (Ret (-1), s) ∧ ∀ i, 0 <= i < NUM → v_free s i = false).
Proof.
  unfold alloc_desc.
  set (body := λ i : Z, free <- gets (λ s, v_free s i) ;; if free : bool then set_free i false ;;; ret (Some i) else ret None).
  assert (∀ l, (∀ i, i ∈ l → 0 <= i < NUM) →
    (∃ i, i ∈ l ∧ v_free s i = true ∧ for_each l body s = (Ret (Some i), s <| v_free ::= λ f, upd f i false |>)) ∨
    (for_each l body s = (Ret None, s) ∧ ∀ i, i ∈ l → v_free s i = false)) as Hl.
  { induction l as [|i l IH]; intros Hr; [right; split; [done|]; intros i Hi; by apply elem_of_nil in Hi|].
    destruct (v_free s i) eqn:E.
    - left. exists i. split; [by left|]. split; [done|]. cbn [for_each]. unfold body at 1, bind, gets. by rewrite E.
    - assert (for_each (i :: l) body s = for_each l body s) as -> by (cbn [for_each]; unfold body at 1, bind, gets; by rewrite E).
      destruct IH as [(j & Hj & Hf & Ej)|[Ej Hf]]; [by intros j Hj; apply Hr; right|left; exists j; split; [by right|done]|right].
      split; [done|]. intros j [->|Hj]%elem_of_cons; [done|by apply Hf]. }
  destruct (Hl (seqZ 0 NUM)) as [(i & Hi & Hf & E)|[E Hf]]; [intros i Hi%elem_of_seqZ; lia| |]; unfold bind; rewrite E.
  - left. exists i. apply elem_of_seqZ in Hi. split; [lia|done].
  - right. split; [done|]. intros i Hi. apply Hf, elem_of_seqZ. lia.
Qed.

Definition freed (i : Z) s : vdisk V :=
  s <| v_desc ::= λ f, upd f i (Desc PNull 0 0 0) |> <| v_free ::= λ f, upd f i true |> <| v_ctx ::= woke ChDiskFree |>.

Lemma free_desc_run i s : 0 <= i < NUM → v_free s i = false → free_desc i s = (Ret tt, freed i s).
Proof. intros Hi Hf. unfold free_desc. rewrite (proj2 (Z.leb_gt NUM i)) by lia. unfold bind, gets. by rewrite Hf. Qed.

(** [s'] is [s] with the free descriptors [X] taken, up to the contents of free
    descriptors, the registers and the CPU, which holds the same locks. *)
Record lent (X : list Z) (s s' : vdisk V) : Prop := {
  le_free : ∀ i, v_free s' i = (if decide (i ∈ X) then false else v_free s i);
  le_was : ∀ i, i ∈ X → 0 <= i < NUM ∧ v_free s i = true;
  le_desc : ∀ i, v_free s i = false → v_desc s' i = v_desc s i;
  le_hart : c_hart (v_ctx s') = c_hart (v_ctx s);
  le_rest : s' = (s <| v_desc := v_desc s' |>) <| v_free := v_free s' |> <| v_ctx := v_ctx s' |>;
}.
Lemma lent_refl s : lent [] s s.
Proof. split; [done|by intros i Hi%elem_of_nil|done|done|by destruct s]. Qed.

(** Taking another descriptor: there is one, or all are taken. *)
Lemma lent_alloc X s s' : lent X s s' →
  (∃ i s'', alloc_desc s' = (Ret i, s'') ∧ 0 <= i ∧ (i ∉ X) ∧ lent (i :: X) s s'') ∨ alloc_desc s' = (Ret (-1), s').
Proof.
  intros [Hf Hw Hd Hh Hr]. destruct (alloc_desc_run s') as [(i & Hi & Hfi & E)|[E _]]; [left|by right].
  eexists i, _. split; [exact E|]. split; [lia|]. rewrite Hf in Hfi. case_decide as HX; [done|]. split; [done|]. split; simpl.
  - intros j. destruct (decide (j = i)) as [->|Hj]; [by rewrite upd_eq, decide_True by set_solver|]. rewrite upd_ne, Hf by done.
    apply decide_ext. set_solver.
  - intros j [->|Hj]%elem_of_cons; [done|by apply Hw].
  - done.
  - done.
  - rewrite Hr. by destruct s.
Qed.

(** ... and giving one back. *)
Lemma lent_free X i s s' : lent (i :: X) s s' → i ∉ X → ∃ s'', free_desc i s' = (Ret tt, s'') ∧ lent X s s''.
Proof.
  intros [Hf Hw Hd Hh Hr] HX. destruct (Hw i) as [Hi Hfi]; [by left|]. eexists. split; [apply free_desc_run; [done|]|].
  { rewrite Hf, decide_True; [done|by left]. }
  split; simpl.
  - intros j. destruct (decide (j = i)) as [->|Hj]; [by rewrite upd_eq, decide_False|]. rewrite upd_ne, Hf by done.
    apply decide_ext. set_solver.
  - intros j Hj. apply Hw. by right.
  - intros j Hj. rewrite upd_ne by congruence. by apply Hd.
  - done.
  - unfold freed. rewrite Hr. by destruct s.
Qed.

Lemma alloc3_desc_run s : ∃ s',
  (∃ i0 i1 i2, alloc3_desc s = (Ret (Some (i0, i1, i2)), s') ∧ lent [i2; i1; i0] s s' ∧ NoDup [i2; i1; i0]) ∨
  (alloc3_desc s = (Ret None, s') ∧ lent [] s s').
Proof.
  unfold alloc3_desc. destruct (lent_alloc _ _ _ (lent_refl s)) as [(i0 & s1 & E0 & H0 & N0 & L0)|E0];
    [|exists s; right; split; [by unfold bind; rewrite E0|apply lent_refl]].
  rewrite (bind_Ret _ _ _ _ _ E0), (proj2 (Z.ltb_ge i0 0)) by done.
  destruct (lent_alloc _ _ _ L0) as [(i1 & s2 & E1 & H1 & N1 & L1)|E1].
  2: { destruct (lent_free _ _ _ _ L0) as (s' & F0 & L); [set_solver|]. exists s'. right. split; [|done].
       rewrite (bind_Ret _ _ _ _ _ E1). simpl. by rewrite (bind_Ret _ _ _ _ _ F0). }
  rewrite (bind_Ret _ _ _ _ _ E1), (proj2 (Z.ltb_ge i1 0)) by done.
  destruct (lent_alloc _ _ _ L1) as [(i2 & s3 & E2 & H2 & N2 & L2)|E2].
  - exists s3. left. exists i0, i1, i2. rewrite (bind_Ret _ _ _ _ _ E2), (proj2 (Z.ltb_ge i2 0)) by done. split; [done|]. split; [done|].
    by apply NoDup_cons_2, NoDup_cons_2, NoDup_singleton.
  - rewrite (bind_Ret _ _ _ _ _ E2). simpl.
    assert (lent [i0; i1] s s2) as L1'.
    { destruct L1 as [Hf Hw Hd Hh Hr]. split; [|intros j Hj; apply Hw; set_solver|done|done|done]. intros j. rewrite Hf. apply decide_ext. set_solver. }
    destruct (lent_free _ _ _ _ L1') as (s3 & F0 & L3); [set_solver|]. destruct (lent_free _ _ _ _ L3) as (s4 & F1 & L4); [set_solver|].
    exists s4. right. split; [|done]. by rewrite (bind_Ret _ _ _ _ _ F0), (bind_Ret _ _ _ _ _ F1).
Qed.

(** The lock of the disk is free on this CPU. *)
Definition dq (c : ctx) : Prop := quiet (λ l, l = LkDisk) c.

Lemma lock_v s : dq (v_ctx s) →
  zoom ctx_v (lock LkDisk) s = (Ret tt, s <| v_ctx := set_chart (taken LkDisk (c_hart (v_ctx s))) (v_ctx s) |>).
Proof. intros [Ho Hl]. apply (zoom_run ctx_v _ s). apply lock_run; [done|by apply Hl]. Qed.
Lemma unlock_v c s : dq c → c_hart (v_ctx s) = taken LkDisk (c_hart c) →
  zoom ctx_v (unlock LkDisk) s = (Ret tt, s <| v_ctx := set_chart (c_hart c) (v_ctx s) |>).
Proof. intros [Ho Hl] E. apply (zoom_run ctx_v _ s). apply unlock_run; [done|by apply Hl|done]. Qed.
Lemma sleep_v {A} ch c s : dq c → c_hart (v_ctx s) = taken LkDisk (c_hart c) →
  zoom ctx_v (sleep (A := A) ch LkDisk) s = (Blocked ch, s <| v_ctx := set_chart (c_hart c) (v_ctx s) |>).
Proof.
  intros [Ho Hl] E. apply (zoom_run ctx_v _ s). unfold sleep. erewrite bind_Ret; [done|]. apply unlock_run; [done|by apply Hl|done].
Qed.
Lemma dq_hart c c' : dq c → c_hart c' = c_hart c → dq c'.
Proof. unfold dq, quiet. by intros ? ->. Qed.

Lemma lent_unlock X s s1 cL c : lent X (s <| v_ctx := cL |>) s1 → c_hart c = c_hart (v_ctx s) → lent X s (s1 <| v_ctx := c |>).
Proof. intros [Hf Hw Hd Hh Hr] Hc. split; simpl in *; [done|done|done|done|]. rewrite Hr. by destruct s. Qed.

(** The state behind [submit]. *)
Definition submitted (b : nat) (w : bool) (sec : Z) (idx : Z * Z * Z) (r : V) s : vdisk V :=
  let '(i0, i1, i2) := idx in
  s <| v_ops ::= λ f, upd f i0 (Req (if w then VIRTIO_BLK_T_OUT else VIRTIO_BLK_T_IN) 0 sec) |>
    <| v_desc ::= λ f, upd (upd (upd f i0 (Desc (POp i0) 16 VRING_DESC_F_NEXT (u16 i1))) i1
        (Desc (PData b) BSIZE (Z.lor (if w then 0 else VRING_DESC_F_WRITE) VRING_DESC_F_NEXT) (u16 i2))) i2 (Desc (PStatus i0) 1 VRING_DESC_F_WRITE 0) |>
    <| v_status ::= λ f, upd f i0 0xff |> <| v_bdisk ::= λ f, upd f b 1 |> <| v_info_b ::= λ f, upd f i0 (Some b) |>
    <| v_ring := <[cell NUM (v_aidx s) := u16 i0]> (v_ring s) |> <| v_aidx := u16 (v_aidx s + 1) |> <| v_regs := r |>.

Lemma submit_run b w sec idx s : ∃ r, submit b w sec idx s = (Ret tt, submitted b w sec idx r s).
Proof.
  destruct idx as [[i0 i1] i2]. unfold submit, submitted, set_desc, bind, modify, zoom. simpl.
  destruct (write_reg VIRTIO_MMIO_QUEUE_NOTIFY 0 (v_regs s)) as [r E]. rewrite E. by exists r.
Qed.

Lemma rw_start_run b w s : dq (v_ctx s) →
  (∃ i0 i1 i2 s1 r, rw_start b w s = (Ret (i0, i1, i2), submitted b w (u32 (v_blockno s b * 2)) (i0, i1, i2) r s1) ∧
     lent [i2; i1; i0] s s1 ∧ NoDup [i2; i1; i0]) ∨
  (∃ s1, rw_start b w s = (Blocked ChDiskFree, s1) ∧ lent [] s s1).
Proof.
  intros Hq. set (c := set_chart (taken LkDisk (c_hart (v_ctx s))) (v_ctx s)).
  assert (rw_start b w s = bind alloc3_desc (λ idx, match idx with
    | None => zoom ctx_v (sleep ChDiskFree LkDisk)
    | Some idx => submit b w (u32 (v_blockno s b * 2)) idx ;;; zoom ctx_v (unlock LkDisk) ;;; ret idx
    end) (s <| v_ctx := c |>)) as ->.
  { unfold rw_start. unfold bind at 1, gets. cbv zeta. change (BSIZE / 512) with 2. by rewrite (bind_Ret _ _ _ _ _ (lock_v s Hq)). }
  destruct (alloc3_desc_run (s <| v_ctx := c |>)) as (s1 & [(i0 & i1 & i2 & E & L & N)|[E L]]);
    rewrite (bind_Ret _ _ _ _ _ E); [left|right].
  - destruct (submit_run b w (u32 (v_blockno s b * 2)) (i0, i1, i2) s1) as [r Es].
    eexists i0, i1, i2, (s1 <| v_ctx := set_chart (c_hart (v_ctx s)) (v_ctx s1) |>), r.
    split; [|by split; [apply (lent_unlock _ _ _ c)|]]. rewrite (bind_Ret _ _ _ _ _ Es).
    by erewrite bind_Ret; [|apply (unlock_v (v_ctx s)); [done|exact (le_hart _ _ _ L)]].
  - eexists. split; [apply (sleep_v _ (v_ctx s)); [done|exact (le_hart _ _ _ L)]|]. by apply (lent_unlock _ _ _ c).
Qed.

(** A chain of three descriptors in use. *)
Record chained s (i0 i1 i2 : Z) : Prop := {
  cd_range : Forall (λ i, 0 <= i < NUM) [i0; i1; i2];
  cd_nodup : NoDup [i0; i1; i2];
  cd_used : Forall (λ i, v_free s i = false) [i0; i1; i2];
  cd_next0 : truth (Z.land (d_flags (v_desc s i0)) VRING_DESC_F_NEXT) = true ∧ d_next (v_desc s i0) = i1;
  cd_next1 : truth (Z.land (d_flags (v_desc s i1)) VRING_DESC_F_NEXT) = true ∧ d_next (v_desc s i1) = i2;
  cd_next2 : truth (Z.land (d_flags (v_desc s i2)) VRING_DESC_F_NEXT) = false;
}.

Lemma free_chain_step f i s : 0 <= i < NUM → v_free s i = false → free_chain_loop (S f) i s =
  (if truth (Z.land (d_flags (v_desc s i)) VRING_DESC_F_NEXT) then free_chain_loop f (d_next (v_desc s i)) else ret tt) (freed i s).
Proof. intros Hi Hf. cbn [free_chain_loop]. unfold bind at 1, gets. by rewrite (bind_Ret _ _ _ _ _ (free_desc_run i s Hi Hf)). Qed.

Lemma free_chain_run i0 i1 i2 s : chained s i0 i1 i2 → free_chain i0 s = (Ret tt, freed i2 (freed i1 (freed i0 s))).
Proof.
  intros [Hr Hn Hu [N0 D0] [N1 D1] N2]. rewrite !Forall_cons in Hr, Hu. destruct Hr as (R0 & R1 & R2 & _), Hu as (U0 & U1 & U2 & _).
  rewrite !NoDup_cons, !not_elem_of_cons in Hn. destruct Hn as ((n01 & n02 & _) & (n12 & _) & _).
  unfold free_chain. change (Z.to_nat NUM) with 8%nat. rewrite free_chain_step, N0, D0 by done.
  assert (∀ i j, j ≠ i → v_desc (freed i s) j = v_desc s j ∧ v_free (freed i s) j = v_free s j) as F.
  { intros i j Hij. simpl. by rewrite !upd_ne by done. }
  rewrite free_chain_step; [|done|simpl; rewrite upd_ne by done; done]. simpl (v_desc (freed i0 s) i1). rewrite !upd_ne, N1, D1 by done.
  rewrite free_chain_step; [|done|simpl; rewrite !upd_ne by done; done]. simpl (v_desc (freed i1 (freed i0 s)) i2).
  by rewrite !upd_ne, N2 by done.
Qed.

Definition returned (i0 i1 i2 : Z) (c : ctx) s : vdisk V :=
  (freed i2 (freed i1 (freed i0 (s <| v_info_b ::= λ f, upd f i0 None |>)))) <| v_ctx := c |>.

Lemma rw_wait_run b i0 i1 i2 s : dq (v_ctx s) → chained s i0 i1 i2 → ∃ c, dq c ∧
  rw_wait b (i0, i1, i2) s =
    if v_bdisk s b =? 1 then (Blocked (ChBuf b), s <| v_ctx := c |>) else (Ret tt, returned i0 i1 i2 c s).
Proof.
  intros Hq Hc. unfold rw_wait. rewrite (bind_Ret _ _ _ _ _ (lock_v s Hq)). set (cL := set_chart _ _). unfold bind at 1, gets.
  simpl (v_bdisk _ b). destruct (v_bdisk s b =? 1).
  - eexists. split; [|rewrite (sleep_v (ChBuf b) (v_ctx s)) by done; done]. by apply (dq_hart (v_ctx s)).
  - cbv zeta. simpl (_.1.1). unfold bind at 1, modify.
    set (s1 := (s <| v_ctx := cL |>) <| v_info_b ::= λ f, upd f i0 None |>).
    assert (chained s1 i0 i1 i2) as Hc1 by (destruct Hc; by split).
    erewrite bind_Ret by (apply (free_chain_run i0 i1 i2 s1 Hc1)). exists (set_chart (c_hart (v_ctx s)) (v_ctx (freed i2 (freed i1 (freed i0 s1))))).
    split; [by apply (dq_hart (v_ctx s))|]. by rewrite (unlock_v (v_ctx s)).
Qed.

(** What [virtio_disk_intr] does to the buffers of the completed requests. *)
Definition signal (info : Z → option nat) (f : nat → Z) (i : Z) : nat → Z :=
  match info i with Some b => upd f b 0 | None => f end.

Lemma intr_loop_run fuel s : (length (completed s) < fuel)%nat → 0 <= v_used_idx s < 2 ^ 16 → 0 <= v_uidx s < 2 ^ 16 →
  (∀ i, i ∈ completed s → v_status s i = 0 ∧ is_Some (v_info_b s i)) → ∃ c, c_hart c = c_hart (v_ctx s) ∧
  intr_loop fuel s = (Ret tt, s <| v_bdisk := foldl (signal (v_info_b s)) (v_bdisk s) (completed s) |> <| v_used_idx := v_uidx s |> <| v_ctx := c |>).
Proof.
  revert s. induction fuel as [|f IH]; intros s Hf Hu Hi Hok; [lia|]. cbn [intr_loop]. unfold bind at 1, get.
  pose proof (ring_empty NUM 16 (v_used s) _ _ Hu Hi) as Hem.
  destruct (Z.eqb_spec (v_used_idx s) (v_uidx s)) as [E|E].
  { exists (v_ctx s). split; [done|]. unfold completed. rewrite (proj1 Hem E). simpl. unfold ret. destruct s. simpl in *. by subst. }
  assert (0 < ring_len 16 (v_used_idx s) (v_uidx s)) as Hp.
  { pose proof (ring_len_bound NUM 16 (v_used_idx s) (v_uidx s)). pose proof (length_ring NUM 16 (v_used s) (v_used_idx s) (v_uidx s)) as Hlen.
    destruct (decide (ring_len 16 (v_used_idx s) (v_uidx s) = 0)) as [E0|?]; [|lia]. rewrite E0 in Hlen. apply nil_length_inv, Hem in Hlen. done. }
  pose proof (ring_pop NUM 16 (v_used s) _ _ Hp) as Epop. set (id := v_used s !!! cell NUM (v_used_idx s)) in *.
  assert (completed s = id :: ring NUM 16 (v_used s) (u16 (v_used_idx s + 1)) (v_uidx s)) as Ec by exact Epop.
  destruct (Hok id) as [Hst [b Hb]]; [rewrite Ec; by left|]. rewrite Hst. simpl (truth 0). cbv iota. rewrite Hb.
  unfold bind, modify, zoom, wakeup. simpl. set (s1 := VDisk _ _ _ _ _ _ _ _ _ _ _ _ _ _ _ _ _ _).
  destruct (IH s1) as (c & Hc & E1).
  - unfold completed. simpl. rewrite Ec in Hf. simpl in Hf. lia.
  - apply Z.mod_pos_bound. done.
  - done.
  - intros i Hin. apply Hok. rewrite Ec. by right.
  - exists c. split; [done|]. rewrite E1, Ec. cbn [foldl]. unfold signal at 3. rewrite Hb. done.
Qed.

Lemma virtio_disk_intr_run s : dq (v_ctx s) → 0 <= v_used_idx s < 2 ^ 16 → 0 <= v_uidx s < 2 ^ 16 →
  (∀ i, i ∈ completed s → v_status s i = 0 ∧ is_Some (v_info_b s i)) → ∃ c r, dq c ∧
  virtio_disk_intr s = (Ret tt, s <| v_bdisk := foldl (signal (v_info_b s)) (v_bdisk s) (completed s) |>
    <| v_used_idx := v_uidx s |> <| v_ctx := c |> <| v_regs := r |>).
Proof.
  intros Hq Hu Hi Hok. unfold virtio_disk_intr. rewrite (bind_Ret _ _ _ _ _ (lock_v s Hq)). set (cL := set_chart _ _).
  destruct (read_reg VIRTIO_MMIO_INTERRUPT_STATUS (v_regs s)) as (x & r & Er).
  destruct (write_reg VIRTIO_MMIO_INTERRUPT_ACK (Z.land x 0x3) r) as (r' & Ew).
  set (s0 := s <| v_ctx := cL |>). set (s1 := s0 <| v_regs := r' |>).
  unfold zoom at 1 2, bind at 1 2. simpl (lget regsL s0). rewrite Er.
  change (lget regsL (lset regsL r s0)) with r. rewrite Ew.
  change (lset regsL r' (lset regsL r s0)) with s1. cbv beta iota. unfold bind at 1, get.
  destruct (intr_loop_run (S (Z.to_nat (ring_len 16 (v_used_idx s1) (v_uidx s1)))) s1) as (c & Hc & E); try done.
  { unfold completed. rewrite (length_ring NUM 16). lia. }
  rewrite (bind_Ret _ _ _ _ _ E). exists (set_chart (c_hart (v_ctx s)) c), r'. split; [by apply (dq_hart (v_ctx s))|].
  rewrite (unlock_v (v_ctx s)); [|done|simpl; rewrite Hc; done]. by destruct s.
Qed.

(** ** The invariant *)

Definition ixs (idx : Z * Z * Z) : list Z := [idx.1.1; idx.1.2; idx.2].

(** The request of the process with buffer [b]. *)
Record chain_ok s (b : nat) (w : bool) (i0 i1 i2 : Z) : Prop := {
  ck_range : Forall (λ i, 0 <= i < NUM) [i0; i1; i2];
  ck_nodup : NoDup [i0; i1; i2];
  ck_used : Forall (λ i, v_free s i = false) [i0; i1; i2];
  ck_desc0 : v_desc s i0 = Desc (POp i0) 16 VRING_DESC_F_NEXT i1;
  ck_desc1 : v_desc s i1 = Desc (PData b) BSIZE (Z.lor (if w then 0 else VRING_DESC_F_WRITE) VRING_DESC_F_NEXT) i2;
  ck_desc2 : v_desc s i2 = Desc (PStatus i0) 1 VRING_DESC_F_WRITE 0;
  ck_op : v_ops s i0 = Req (if w then VIRTIO_BLK_T_OUT else VIRTIO_BLK_T_IN) 0 (2 * v_blockno s b);
  ck_info : v_info_b s i0 = Some b;
  ck_bdisk : if decide (i0 ∈ queued s ++ completed s) then v_bdisk s b = 1 else v_bdisk s b = 0;
  ck_status : i0 ∉ queued s → v_status s i0 = 0;
}.

Record vinv s (thr : nat → thread) : Prop := {
  vi_quiet : dq (v_ctx s);
  vi_ring : length (v_ring s) = Z.to_nat NUM ∧ length (v_used s) = Z.to_nat NUM;
  vi_idx : Forall (λ x, 0 <= x < 2 ^ 16) [v_aidx s; v_seen s; v_uidx s; v_used_idx s];
  vi_chain : ∀ b w i0 i1 i2, thr b = TWait w (i0, i1, i2) → chain_ok s b w i0 i1 i2;
  vi_apart : ∀ b b' w w' x x', thr b = TWait w x → thr b' = TWait w' x' → b ≠ b' → ∀ i, i ∈ ixs x → i ∉ ixs x';
  vi_free : ∀ i, 0 <= i < NUM → v_free s i = false → ∃ b w x, thr b = TWait w x ∧ i ∈ ixs x;
  vi_live : NoDup (queued s ++ completed s);
  vi_heads : ∀ i, i ∈ queued s ++ completed s → ∃ b w i1 i2, thr b = TWait w (i, i1, i2);
  vi_blockno : ∀ b, 0 <= v_blockno s b < 2 ^ 31;
}.

Lemma chain_chained s b w i0 i1 i2 : chain_ok s b w i0 i1 i2 → chained s i0 i1 i2.
Proof. intros [R N U D0 D1 D2 _ _ _ _]. split; [done|done|done|by rewrite D0|rewrite D1; by destruct w|by rewrite D2]. Qed.

(** The device finds every request well-formed. *)
Lemma chain_request s b w i0 i1 i2 : chain_ok s b w i0 i1 i2 → request s i0 = Some (w, b, 2 * v_blockno s b, i0).
Proof.
  intros [R N U D0 D1 D2 Op _ _ _]. unfold request. rewrite D0. simpl (d_next _). rewrite D1. simpl (d_next _). rewrite D2.
  simpl (d_addr _). cbv iota. rewrite Op. by destruct w.
Qed.

(** There are at most [NUM] requests in the rings. *)
Lemma few (l : list Z) : NoDup l → (∀ i, i ∈ l → 0 <= i < NUM) → (length l <= Z.to_nat NUM)%nat.
Proof.
  intros Hn Hl. rewrite <-(length_seqZ 0 NUM). apply submseteq_length, NoDup_submseteq; [done|].
  intros i Hi. apply elem_of_seqZ. specialize (Hl i Hi). lia.
Qed.

Lemma live_range s thr i : vinv s thr → i ∈ queued s ++ completed s → 0 <= i < NUM.
Proof.
  intros I Hi. destruct (vi_heads _ _ I i Hi) as (b & w & i1 & i2 & Hb). destruct (vi_chain _ _ I _ _ _ _ _ Hb) as [R _ _ _ _ _ _ _ _ _].
  by apply Forall_cons in R as [R _].
Qed.

Lemma chain_ok_ext s s' b w i0 i1 i2 : chain_ok s b w i0 i1 i2 →
  (∀ i, i ∈ [i0; i1; i2] → v_free s' i = v_free s i ∧ v_desc s' i = v_desc s i) →
  v_ops s' i0 = v_ops s i0 → v_info_b s' i0 = v_info_b s i0 → v_blockno s' b = v_blockno s b → v_bdisk s' b = v_bdisk s b →
  (i0 ∈ queued s' ++ completed s' ↔ i0 ∈ queued s ++ completed s) → (i0 ∉ queued s' → v_status s' i0 = 0) → chain_ok s' b w i0 i1 i2.
Proof.
  intros [R N U D0 D1 D2 Op In Bd St] Hfd Eo Ei Eb Ed Hl Hst. rewrite !Forall_cons in U. destruct U as (U0 & U1 & U2 & _).
  destruct (Hfd i0) as [F0 E0]; [set_solver|]. destruct (Hfd i1) as [F1 E1]; [set_solver|]. destruct (Hfd i2) as [F2 E2]; [set_solver|].
  split; try done; try congruence; [by rewrite !Forall_cons, F0, F1, F2|]. rewrite Ed. revert Bd. repeat case_decide; tauto.
Qed.

(** A process and the head of its request determine each other. *)
Lemma same_head s thr b b' w w' i i1 i2 i1' i2' : vinv s thr → thr b = TWait w (i, i1, i2) → thr b' = TWait w' (i, i1', i2') → b' = b.
Proof.
  intros I H1 H2. destruct (decide (b' = b)) as [|Hne]; [done|]. exfalso.
  apply (vi_apart _ _ I _ _ _ _ _ _ H1 H2 (not_eq_sym Hne) i); unfold ixs; simpl; set_solver.
Qed.

(** What the promise sees. *)
Definition abs s (thr : nat → thread) : adisk :=
  ADisk (λ x, v_sectors s (2 * x) ++ v_sectors s (2 * x + 1)) (v_data s) (v_blockno s)
    (λ b, match thr b with
          | TIdle => None
          | TStart w => Some (w, false)
          | TWait w idx => Some (w, bool_decide (idx.1.1 ∉ queued s))
          end).

Lemma owner_ok s thr b v n : vinv s thr → thr b = TIdle → 0 <= n < 2 ^ 31 →
  let s' := s <| v_data ::= λ f, upd f b v |> <| v_blockno ::= λ f, upd f b n |> in
  vinv s' thr ∧ astep (abs s thr) (abs s' thr).
Proof.
  intros [Q R X C A F L H B] Hb Hn s'. split.
  - split; try done.
    + intros c w i0 i1 i2 Hc. eapply chain_ok_ext; [by apply C|done|done|done| |done|done|exact (ck_status _ _ _ _ _ _ (C _ _ _ _ _ Hc))]. simpl. rewrite upd_ne; [done|congruence].
    + intros c. simpl. destruct (decide (c = b)) as [->|Hc]; [by rewrite upd_eq|by rewrite upd_ne].
  - apply (as_owner _ _ b); [simpl; by rewrite Hb|done|done|]. intros c Hc. simpl. by rewrite !upd_ne.
Qed.

Lemma call_ok s thr b w : vinv s thr → thr b = TIdle → vinv s (upd thr b (TStart w)) ∧ astep (abs s thr) (abs s (upd thr b (TStart w))).
Proof.
  intros [Q R X C A F L H B] Hb. assert (∀ c v x, upd thr b (TStart w) c = TWait v x ↔ thr c = TWait v x) as Hu.
  { intros c v x. destruct (decide (c = b)) as [->|Hc]; [rewrite upd_eq, Hb; done|by rewrite upd_ne]. }
  split.
  - split; try done.
    + intros c v i0 i1 i2. rewrite Hu. apply C.
    + intros c c' v v' x x'. rewrite !Hu. apply A.
    + intros i Hi Hf. setoid_rewrite Hu. by apply F.
    + intros i Hi. setoid_rewrite Hu. by apply H.
  - apply (as_call _ _ b w); [simpl; by rewrite Hb|done|done|done|]. intros c. unfold abs. simpl.
    destruct (decide (c = b)) as [->|Hc]; [by rewrite !upd_eq|by rewrite !upd_ne].
Qed.

(** Only the CPU, the registers and free descriptors have changed. *)
Lemma idle_ok s thr s' : vinv s thr → (∀ i, v_free s' i = v_free s i) → (∀ i, v_free s i = false → v_desc s' i = v_desc s i) → dq (v_ctx s') →
  s' = (s <| v_desc := v_desc s' |>) <| v_free := v_free s' |> <| v_ctx := v_ctx s' |> <| v_regs := v_regs s' |> →
  vinv s' thr ∧ astep (abs s thr) (abs s' thr).
Proof.
  intros [Q R X C A F L H B] Hf Hd Hq E. revert Hf Hd Hq E. generalize (v_desc s') (v_free s') (v_ctx s') (v_regs s'). intros d f c r Hf Hd Hq ->.
  split; [|by apply as_skip]. split; try done.
  - intros b w i0 i1 i2 Hb. pose proof (C _ _ _ _ _ Hb) as Hc. eapply chain_ok_ext; [done| |done|done|done|done|done|exact (ck_status _ _ _ _ _ _ Hc)].
    intros i Hi. split; [apply Hf|]. apply Hd. pose proof (ck_used _ _ _ _ _ _ Hc) as Hu. rewrite Forall_forall in Hu. by apply Hu.
  - intros i Hi Hfi. simpl in Hfi. rewrite Hf in Hfi. by apply F.
Qed.

Lemma u16_small i : 0 <= i < NUM → u16 i = i.
Proof. intros Hi. apply Z.mod_small. unfold NUM in Hi. lia. Qed.

(** A head that is free is in no ring. *)
Lemma free_not_live s thr i : vinv s thr → v_free s i = true → i ∉ queued s ++ completed s.
Proof.
  intros I Hf Hi. destruct (vi_heads _ _ I i Hi) as (b & w & i1 & i2 & Hb). pose proof (ck_used _ _ _ _ _ _ (vi_chain _ _ I _ _ _ _ _ Hb)) as Hu.
  apply Forall_cons in Hu as [Hu _]. congruence.
Qed.

(** The available ring has room for a request whose head is not in it. *)
Lemma queued_push s thr i0 : vinv s thr → 0 <= i0 < NUM → (i0 ∉ queued s ++ completed s) →
  ring NUM 16 (<[cell NUM (v_aidx s) := i0]> (v_ring s)) (v_seen s) (u16 (v_aidx s + 1)) = ring NUM 16 (v_ring s) (v_seen s) (v_aidx s) ++ [i0].
Proof.
  intros I Hi Hn. apply (ring_push NUM 16); [apply I|]. pose proof (ring_len_bound NUM 16 (v_seen s) (v_aidx s)).
  assert (length (i0 :: queued s ++ completed s) <= Z.to_nat NUM)%nat as Hl.
  { apply few; [constructor; [done|apply I]|]. intros i [->|Hj]%elem_of_cons; [done|by eapply live_range]. }
  simpl in Hl. rewrite length_app in Hl. unfold queued in Hl. rewrite length_app, (length_ring NUM 16) in Hl. lia.
Qed.

Section start.
Context (s : vdisk V) (thr : nat → thread) (b : nat) (w : bool) (i0 i1 i2 : Z) (s1 : vdisk V) (r : V).
Context (I : vinv s thr) (Hb : thr b = TStart w) (HL : lent [i2; i1; i0] s s1) (HN : NoDup [i2; i1; i0]).
Let s' := submitted b w (u32 (v_blockno s b * 2)) (i0, i1, i2) r s1.
Let thr' := upd thr b (TWait w (i0, i1, i2)).

Lemma start_queued x : (x ∈ queued s' ↔ x = i0 ∨ x ∈ queued s) ∧ completed s' = completed s ∧ queued s' ++ completed s' ≡ₚ i0 :: queued s ++ completed s.
Proof using All.
  pose proof HL as [Lf Lw Ld Lh Lr]. destruct (Lw i0) as [R0 F0]; [set_solver|].
  assert (completed s' = completed s) as Ec by (unfold completed, s', submitted; rewrite Lr; done).
  assert (queued s' = (ring NUM 16 (v_ring s) (v_seen s) (v_aidx s) ++ [i0]) ++ v_taken s) as Eq.
  { rewrite <-(queued_push s thr i0 I R0) by (by eapply free_not_live). unfold queued, s', submitted. rewrite Lr. simpl. by rewrite (u16_small i0). }
  split_and!; [rewrite Eq; unfold queued; rewrite !elem_of_app, list_elem_of_singleton; tauto|done|].
  rewrite Eq, Ec. unfold queued. rewrite <-!app_assoc. simpl. by rewrite <-Permutation_middle.
Qed.

Lemma start_new : chain_ok s' b w i0 i1 i2.
Proof using All.
  pose proof HL as [Lf Lw Ld Lh Lr]. destruct (Lw i0) as [R0 F0]; [set_solver|]. destruct (Lw i1) as [R1 F1]; [set_solver|]. destruct (Lw i2) as [R2 F2]; [set_solver|].
  pose proof HN as HN'. rewrite !NoDup_cons, !not_elem_of_cons in HN'. destruct HN' as ((n21 & n20 & _) & (n10 & _) & _).
  assert (v_blockno s1 = v_blockno s) as Eb by (by rewrite Lr). pose proof (vi_blockno _ _ I b) as Hbl.
  split.
  - by rewrite !Forall_cons.
  - rewrite !NoDup_cons, !not_elem_of_cons. split_and!; try done; try by apply not_elem_of_nil. constructor.
  - rewrite !Forall_cons. unfold s', submitted. simpl. rewrite !Lf, !decide_True by set_solver. done.
  - unfold s', submitted. simpl. by rewrite upd_ne, upd_ne, upd_eq, (u16_small i1) by done.
  - unfold s', submitted. simpl. by rewrite upd_ne, upd_eq, (u16_small i2) by done.
  - unfold s', submitted. simpl. by rewrite upd_eq.
  - unfold s', submitted. simpl. rewrite upd_eq, Eb, u32_id by lia. f_equal. lia.
  - unfold s', submitted. simpl. by rewrite upd_eq.
  - rewrite decide_True; [unfold s', submitted; simpl; by rewrite upd_eq|]. destruct (start_queued i0) as (Hq & _). apply elem_of_app. left. apply Hq. by left.
  - intros Hn. destruct Hn. apply start_queued. by left.
Qed.

Lemma start_other c v j0 j1 j2 : c ≠ b → thr c = TWait v (j0, j1, j2) → chain_ok s' c v j0 j1 j2.
Proof using All.
  intros Hcb Hc. pose proof (vi_chain _ _ I _ _ _ _ _ Hc) as Hck. pose proof HL as [Lf Lw Ld Lh Lr].
  pose proof (ck_used _ _ _ _ _ _ Hck) as Hu. rewrite Forall_forall in Hu.
  assert (∀ j, j ∈ [j0; j1; j2] → j ≠ i0 ∧ j ≠ i1 ∧ j ≠ i2) as Hne.
  { intros j Hj. specialize (Hu j Hj). destruct (Lw i0), (Lw i1), (Lw i2); [set_solver..|]. split_and!; congruence. }
  destruct (Hne j0) as (n0 & n1 & n2); [set_solver|].
  eapply chain_ok_ext; [exact Hck|..].
  - intros j Hj. destruct (Hne j Hj) as (m0 & m1 & m2). unfold s', submitted. simpl. rewrite Lf, decide_False by set_solver.
    rewrite !upd_ne by done. split; [done|]. by apply Ld, Hu.
  - unfold s', submitted. simpl. rewrite upd_ne by done. by rewrite Lr.
  - unfold s', submitted. simpl. rewrite upd_ne by done. by rewrite Lr.
  - unfold s', submitted. simpl. by rewrite Lr.
  - unfold s', submitted. simpl. rewrite upd_ne by done. by rewrite Lr.
  - destruct (start_queued j0) as (_ & _ & ->). rewrite elem_of_cons. tauto.
  - intros Hn. unfold s', submitted. simpl. rewrite upd_ne by done. rewrite Lr. simpl. apply (ck_status _ _ _ _ _ _ Hck). intros Hin. apply Hn, start_queued. by right.
Qed.

Lemma start_old c v x i : thr c = TWait v x → i ∈ ixs x → i ∉ [i2; i1; i0].
Proof using All.
  destruct x as [[j0 j1] j2]. intros Hc Hi Hi'. pose proof (ck_used _ _ _ _ _ _ (vi_chain _ _ I _ _ _ _ _ Hc)) as Hu. rewrite Forall_forall in Hu.
  specialize (Hu i Hi). destruct (le_was _ _ _ HL i Hi'). congruence.
Qed.

Lemma start_vinv : vinv s' thr'.
Proof using All.
  pose proof start_new as Hnew. destruct (start_queued i0) as (_ & Ec & Ep).
  pose proof HL as [Lf Lw Ld Lh Lr]. pose proof I as [Q [R1 R2] X C A F L H B].
  assert (∀ c v x, thr' c = TWait v x → c = b ∧ v = w ∧ x = (i0, i1, i2) ∨ c ≠ b ∧ thr c = TWait v x) as Hthr.
  { intros c v x. unfold thr'. destruct (decide (c = b)) as [->|Hc]; [rewrite upd_eq; intros [= -> ->]; by left|rewrite upd_ne by done; by right]. }
  split.
  - apply (dq_hart (v_ctx s)); [done|]. exact Lh.
  - unfold s', submitted. simpl. rewrite length_insert. by rewrite Lr.
  - unfold s', submitted. rewrite Lr. simpl. rewrite !Forall_cons in X |- *. split_and!; try apply X; try apply Z.mod_pos_bound; done.
  - intros c v j0 j1 j2 [(-> & -> & [= -> -> ->])|[Hc E]]%Hthr; [done|by apply start_other].
  - intros c c' v v' x x' [(-> & -> & ->)|[Hc E]]%Hthr [(-> & -> & ->)|[Hc' E']]%Hthr Hne i Hi.
    + done.
    + intros Hi'. apply (start_old _ _ _ _ E' Hi'). unfold ixs in Hi. simpl in Hi. set_solver.
    + intros Hi'. apply (start_old _ _ _ _ E Hi). unfold ixs in Hi'. simpl in Hi'. set_solver.
    + by eapply (A c c').
  - intros i Hi Hf. unfold s', submitted in Hf. simpl in Hf. rewrite Lf in Hf. case_decide as HX.
    + exists b, w, (i0, i1, i2). unfold thr'. rewrite upd_eq. split; [done|]. unfold ixs. simpl. set_solver.
    + destruct (F i Hi Hf) as (c & v & x & Hc & Hx). exists c, v, x. split; [|done]. unfold thr'. rewrite upd_ne; [done|]. congruence.
  - rewrite Ep. constructor; [|done]. eapply free_not_live; [done|]. apply (Lw i0). set_solver.
  - intros i. rewrite Ep, elem_of_cons. intros [->|Hi]; [exists b, w, i1, i2; unfold thr'; by rewrite upd_eq|].
    destruct (H i Hi) as (c & v & j1 & j2 & Hc). exists c, v, j1, j2. unfold thr'. rewrite upd_ne; [done|congruence].
  - unfold s', submitted. rewrite Lr. done.
Qed.

Lemma start_skip : astep (abs s thr) (abs s' thr').
Proof using All.
  pose proof HL as [_ _ _ _ Lr].
  assert (v_sectors s' = v_sectors s ∧ v_data s' = v_data s ∧ v_blockno s' = v_blockno s) as (E1 & E2 & E3) by (unfold s', submitted; rewrite Lr; done).
  apply as_skip; intros c; unfold abs; cbn [a_disk a_data a_blockno a_req]; [by rewrite E1|by rewrite E2|by rewrite E3|].
  unfold thr'. destruct (decide (c = b)) as [->|Hc].
  - rewrite upd_eq, Hb. rewrite bool_decide_eq_false_2; [done|]. intros Hn. apply Hn, start_queued. by left.
  - rewrite upd_ne by done. destruct (thr c) as [|v|v [[j0 j1] j2]] eqn:Ec'; try done. do 2 f_equal. apply bool_decide_ext. simpl (_.1.1).
    rewrite (proj1 (start_queued j0)). assert (j0 ≠ i0); [|tauto]. intros ->. apply (start_old _ _ _ i0 Ec'); unfold ixs; simpl; set_solver.
Qed.
End start.

Lemma returned_outside i0 i1 i2 c s i : i ∉ [i0; i1; i2] →
  v_free (returned i0 i1 i2 c s) i = v_free s i ∧ v_desc (returned i0 i1 i2 c s) i = v_desc s i.
Proof. rewrite !not_elem_of_cons. intros (? & ? & ? & _). simpl. by rewrite !upd_ne. Qed.
Lemma returned_inside i0 i1 i2 c s i : i ∈ [i0; i1; i2] → v_free (returned i0 i1 i2 c s) i = true.
Proof.
  intros Hi. simpl. unfold upd. repeat case_decide; try done. exfalso. set_solver.
Qed.

Lemma return_ok s thr b w i0 i1 i2 c : vinv s thr → thr b = TWait w (i0, i1, i2) → v_bdisk s b ≠ 1 → dq c →
  let s' := returned i0 i1 i2 c s in let thr' := upd thr b TIdle in vinv s' thr' ∧ astep (abs s thr) (abs s' thr').
Proof.
  intros I Hb Hd Hq s' thr'. pose proof I as [Q R X C A F L H B]. pose proof (C _ _ _ _ _ Hb) as Hck.
  assert (i0 ∉ queued s ++ completed s) as Hnl by (pose proof (ck_bdisk _ _ _ _ _ _ Hck) as Hbd; intros Hin; rewrite decide_True in Hbd; done).
  assert (∀ c' v x, thr' c' = TWait v x → c' ≠ b ∧ thr c' = TWait v x) as Hthr.
  { intros c' v x. unfold thr'. destruct (decide (c' = b)) as [->|Hc]; [by rewrite upd_eq|by rewrite upd_ne]. }
  assert (∀ c' v x i, c' ≠ b → thr c' = TWait v x → i ∈ ixs x → i ∉ [i0; i1; i2]) as Hout.
  { intros c' v x i Hne Hc Hi. exact (A _ _ _ _ _ _ Hc Hb Hne i Hi). }
  split; [split; try done|].
  - intros c' v j0 j1 j2 [Hne Hc]%Hthr. eapply chain_ok_ext; [by apply C| |done| |done|done|done|exact (ck_status _ _ _ _ _ _ (C _ _ _ _ _ Hc))].
    + intros j Hj. apply returned_outside. exact (Hout _ _ _ j Hne Hc Hj).
    + simpl. rewrite upd_ne; [done|]. intros ->. apply (Hout _ _ _ i0 Hne Hc); unfold ixs; simpl; set_solver.
  - intros c1 c2 v1 v2 x1 x2 [_ H1]%Hthr [_ H2]%Hthr. exact (A _ _ _ _ _ _ H1 H2).
  - intros i Hi Hf. destruct (decide (i ∈ [i0; i1; i2])) as [Hin|Hin]; [unfold s' in Hf; rewrite returned_inside in Hf; done|].
    unfold s' in Hf. rewrite (proj1 (returned_outside _ _ _ _ _ _ Hin)) in Hf. destruct (F i Hi Hf) as (c' & v & x & Hc & Hx).
    exists c', v, x. split; [|done]. unfold thr'. rewrite upd_ne; [done|]. intros ->. rewrite Hb in Hc. injection Hc as <- <-. done.
  - intros i Hi. destruct (H i Hi) as (c' & v & j1 & j2 & Hc). exists c', v, j1, j2. unfold thr'. rewrite upd_ne; [done|].
    intros ->. rewrite Hb in Hc. injection Hc as <- <- <- <-. done.
  - apply (as_return _ _ b w); try done.
    + simpl. rewrite Hb. simpl. rewrite bool_decide_eq_true_2; [done|]. intros Hin. apply Hnl, elem_of_app. by left.
    + intros c'. unfold thr'. cbn [abs a_req]. destruct (decide (c' = b)) as [->|Hc]; [by rewrite !upd_eq|by rewrite !upd_ne].
Qed.

(** ** Interrupts *)

Lemma signal_other info f l b : (∀ i, i ∈ l → info i ≠ Some b) → foldl (signal info) f l b = f b.
Proof.
  revert f. induction l as [|i l IH]; intros f Hl; simpl; [done|]. rewrite IH by (intros j Hj; apply Hl; by right).
  unfold signal. destruct (info i) as [b'|] eqn:E; [|done]. rewrite upd_ne; [done|]. intros ->. apply (Hl i); [by left|done].
Qed.
Lemma signal_one info f l b i : i ∈ l → info i = Some b → foldl (signal info) f l b = 0.
Proof.
  intros Hi E. induction l as [|x l IH] using rev_ind; [by apply elem_of_nil in Hi|]. rewrite foldl_snoc. unfold signal at 1.
  apply elem_of_app in Hi as [Hi|Hi]; [|apply list_elem_of_singleton in Hi as <-; by rewrite E, upd_eq]. destruct (info x) as [b'|]; [|by apply IH].
  destruct (decide (b = b')) as [->|Hne]; [by rewrite upd_eq|rewrite upd_ne by done; by apply IH].
Qed.

Lemma intr_ok s thr c r : vinv s thr → dq c →
  let s' := s <| v_bdisk := foldl (signal (v_info_b s)) (v_bdisk s) (completed s) |> <| v_used_idx := v_uidx s |> <| v_ctx := c |> <| v_regs := r |> in
  vinv s' thr ∧ astep (abs s thr) (abs s' thr).
Proof.
  intros I Hq s'. pose proof I as [Q R X C A F L H B].
  assert (completed s' = []) as Ec.
  { unfold completed. simpl. apply (ring_empty NUM 16); [| |done]; rewrite !Forall_cons in X; apply X. }
  assert (queued s' = queued s) as Eq by done.
  split; [|by apply as_skip]. split; try done.
  - simpl. rewrite !Forall_cons in X |- *. tauto.
  - intros b w i0 i1 i2 Hb. pose proof (C _ _ _ _ _ Hb) as Hck. pose proof Hck as [K1 K2 K3 K4 K5 K6 K7 K8 K9 K10]. split; try done.
    rewrite Ec, app_nil_r, Eq. simpl (v_bdisk s' b).
    assert (∀ i, i ∈ completed s → v_info_b s i = Some b → i = i0) as Hone.
    { intros i Hi Ei. destruct (H i) as (b' & w' & j1 & j2 & Hb'); [apply elem_of_app; by right|].
      pose proof (ck_info _ _ _ _ _ _ (C _ _ _ _ _ Hb')) as Ei'. rewrite Ei in Ei'. injection Ei' as <-. rewrite Hb in Hb'. by injection Hb'. }
    apply NoDup_app in L as (_ & Hdis & _). destruct (decide (i0 ∈ queued s)) as [Hqi|Hqi].
    + rewrite signal_other; [|intros i Hi Ei; apply (Hdis i0); [done|]; by rewrite <-(Hone i Hi Ei)].
      rewrite decide_True in K9; [done|apply elem_of_app; by left].
    + destruct (decide (i0 ∈ completed s)) as [Hci|Hci]; [by apply (signal_one _ _ _ _ i0)|].
      rewrite signal_other; [|intros i Hi Ei; apply Hci; by rewrite <-(Hone i Hi Ei)].
      rewrite decide_False in K9; [done|]. rewrite elem_of_app. tauto.
  - rewrite Ec, app_nil_r, Eq. by apply NoDup_app in L as (? & _).
  - intros i. rewrite Ec, app_nil_r, Eq. intros Hi. apply H, elem_of_app. by left.
Qed.

(** ** The device *)

(** Its view of the rings has changed, and no list of requests. *)
Lemma fetch_ok s thr s' : vinv s thr → dev_fetch s s' → vinv s' thr ∧ astep (abs s thr) (abs s' thr).
Proof.
  intros I (Hne & r & ->). pose proof I as [Q R X C A F L H B]. set (s' := _ <| v_regs := r |>).
  rewrite !Forall_cons in X. destruct X as (X1 & X2 & X3 & X4 & _).
  assert (queued s' ≡ₚ queued s) as Ep.
  { unfold queued. simpl. rewrite (ring_pop NUM 16 (v_ring s) (v_seen s)).
    - rewrite app_assoc, <-Permutation_cons_append. done.
    - pose proof (ring_len_bound NUM 16 (v_seen s) (v_aidx s)). pose proof (length_ring NUM 16 (v_ring s) (v_seen s) (v_aidx s)) as Hlen.
      destruct (decide (ring_len 16 (v_seen s) (v_aidx s) = 0)) as [E0|?]; [|lia]. rewrite E0 in Hlen.
      apply nil_length_inv, (ring_empty NUM 16) in Hlen; done. }
  assert (completed s' = completed s) as Ec by done.
  split.
  - split; try done.
    + simpl. rewrite !Forall_cons. split; [done|]. split; [by apply Z.mod_pos_bound|done].
    + intros b w i0 i1 i2 Hb. pose proof (C _ _ _ _ _ Hb) as Hck. eapply chain_ok_ext; [exact Hck|done|done|done|done|done|by rewrite Ep, Ec|].
      rewrite Ep. apply (ck_status _ _ _ _ _ _ Hck).
    + by rewrite Ep, Ec.
    + intros i. rewrite Ep, Ec. apply H.
  - apply as_skip; try done. intros b. unfold abs. cbn [a_req]. destruct (thr b) as [|w|w x]; try done. do 2 f_equal. apply bool_decide_ext.
    by rewrite Ep.
Qed.

Section complete.
Context (s : vdisk V) (thr : nat → thread) (b : nat) (w : bool) (i i1 i2 : Z) (r : V).
Context (I : vinv s thr) (Hb : thr b = TWait w (i, i1, i2)) (Hi : i ∈ v_taken s).
Let s' := (complete i w b (2 * v_blockno s b) i s) <| v_regs := r |>.

Lemma complete_fields : v_ctx s' = v_ctx s ∧ v_desc s' = v_desc s ∧ v_ring s' = v_ring s ∧ v_aidx s' = v_aidx s ∧ v_seen s' = v_seen s ∧
  v_free s' = v_free s ∧ v_used_idx s' = v_used_idx s ∧ v_info_b s' = v_info_b s ∧ v_ops s' = v_ops s ∧ v_bdisk s' = v_bdisk s ∧
  v_blockno s' = v_blockno s ∧ v_status s' = upd (v_status s) i 0 ∧ v_used s' = <[cell NUM (v_uidx s) := i]> (v_used s) ∧
  v_uidx s' = u16 (v_uidx s + 1) ∧ v_taken s' = filter (λ j, j ≠ i) (v_taken s).
Proof. unfold s', complete. by destruct w. Qed.

Lemma complete_lists : (∀ x, x ∈ queued s' ↔ x ∈ queued s ∧ x ≠ i) ∧ queued s' ++ completed s' ≡ₚ queued s ++ completed s.
Proof using All.
  destruct complete_fields as (_ & _ & E1 & E2 & E3 & _ & E4 & _ & _ & _ & _ & _ & E5 & E6 & E7).
  pose proof (vi_live _ _ I) as HL. pose proof HL as HL'. apply NoDup_app in HL' as (Hq & Hdis & _). pose proof Hq as Hq'.
  unfold queued in Hq'. apply NoDup_app in Hq' as (_ & Hrt & Ht).
  assert (i ∈ queued s) as Hiq by (unfold queued; apply elem_of_app; by right).
  assert (queued s' = ring NUM 16 (v_ring s) (v_seen s) (v_aidx s) ++ filter (λ j, j ≠ i) (v_taken s)) as Eq by (unfold queued; by rewrite E1, E2, E3, E7).
  assert (completed s' = completed s ++ [i]) as Ec.
  { unfold completed. rewrite E4, E5, E6. apply (ring_push NUM 16); [apply I|]. pose proof (ring_len_bound NUM 16 (v_used_idx s) (v_uidx s)).
    assert (length (i :: completed s) <= Z.to_nat NUM)%nat as Hl.
    { apply few; [constructor; [by apply Hdis|by apply NoDup_app in HL as (_ & _ & ?)]|].
      intros j [->|Hj]%elem_of_cons; eapply live_range; try done; apply elem_of_app; [by left|by right]. }
    simpl in Hl. unfold completed in Hl. rewrite (length_ring NUM 16) in Hl. lia. }
  assert (v_taken s ≡ₚ i :: filter (λ j, j ≠ i) (v_taken s)) as Ep.
  { apply NoDup_Permutation; [done|constructor; [rewrite list_elem_of_filter; tauto|by apply NoDup_filter]|].
    intros x. rewrite elem_of_cons, list_elem_of_filter. destruct (decide (x = i)) as [->|]; tauto. }
  split.
  - intros x. rewrite Eq. unfold queued. rewrite !elem_of_app, list_elem_of_filter. split; [|tauto].
    intros [Hx|[Hx Hx']]; [|tauto]. split; [by left|]. intros ->. by apply (Hrt i).
  - rewrite Eq, Ec. unfold queued. rewrite Ep at 2. rewrite <-!app_assoc. apply Permutation_app_head. simpl.
    rewrite (app_assoc _ _ [i]). by rewrite <-Permutation_cons_append.
Qed.

Lemma complete_vinv : vinv s' thr.
Proof using All.
  destruct complete_lists as [Hq Hp]. destruct complete_fields as (E0 & Ed & E1 & E2 & E3 & Ef & E4 & Ei & Eo & Eb & En & Es & E5 & E6 & E7).
  pose proof I as [Q R X C A F L H B]. split.
  - by rewrite E0.
  - rewrite E1, E5, length_insert. done.
  - rewrite E2, E3, E4, E6. rewrite !Forall_cons in X |- *. split_and!; try apply X; by apply Z.mod_pos_bound.
  - intros c v j0 j1 j2 Hc. pose proof (C _ _ _ _ _ Hc) as Hck. eapply chain_ok_ext; [exact Hck|by rewrite Ef, Ed|by rewrite Eo|by rewrite Ei|by rewrite En|by rewrite Eb|by rewrite Hp|].
    intros Hn. rewrite Es. destruct (decide (j0 = i)) as [->|Hne]; [by rewrite upd_eq|]. rewrite upd_ne by done.
    apply (ck_status _ _ _ _ _ _ Hck). intros Hin. by apply Hn, Hq.
  - done.
  - by rewrite Ef.
  - by rewrite Hp.
  - intros j. rewrite Hp. apply H.
  - by rewrite En.
Qed.

Lemma complete_req : set_req b (Some (w, true)) (abs s thr) (abs s' thr).
Proof using All.
  destruct complete_lists as [Hq _]. intros c. unfold abs. cbn [a_req]. destruct (decide (c = b)) as [->|Hne].
  - rewrite upd_eq, Hb. simpl (_.1.1). rewrite bool_decide_eq_true_2; [done|]. rewrite Hq. tauto.
  - rewrite upd_ne by done. destruct (thr c) as [|v|v [[j0 j1] j2]] eqn:Ec; try done. do 2 f_equal. apply bool_decide_ext. simpl (_.1.1).
    rewrite Hq. assert (j0 ≠ i); [|tauto]. intros ->. apply Hne. by eapply same_head.
Qed.

Lemma complete_transfer : astep (abs s thr) (abs s' thr).
Proof using All.
  pose proof complete_req as Hr. assert (a_req (abs s thr) b = Some (w, false)) as Hb'.
  { unfold abs. cbn [a_req]. rewrite Hb. simpl (_.1.1). rewrite bool_decide_eq_false_2; [done|]. intros Hn. apply Hn. unfold queued. apply elem_of_app. by right. }
  unfold s', complete in *. destruct w.
  - apply (as_write _ _ b); try done. intros x. simpl. destruct (decide (x = v_blockno s b)) as [->|Hne].
    + rewrite (upd_ne _ (2 * v_blockno s b + 1)) by lia. rewrite !upd_eq. apply take_drop.
    + rewrite !upd_ne by lia. done.
  - apply (as_read _ _ b); done.
Qed.
End complete.

(** ** Every step *)

Lemma start_state_inv (y : sys V) : start_state y → vinv (y_disk y) (y_thr y).
Proof.
  intros [Q T F R (Z1 & Z2 & Z3 & Z4 & Z5) B].
  assert (queued (y_disk y) = [] ∧ completed (y_disk y) = []) as [E1 E2].
  { unfold queued, completed. rewrite Z1, Z2, Z3, Z4, Z5. done. }
  split; [done|done|by rewrite Z1, Z2, Z3, Z4; repeat constructor|by intros; congruence|by intros; congruence| | | |done].
  - intros i Hi Hf. rewrite F in Hf; done.
  - rewrite E1, E2. constructor.
  - intros i. rewrite E1, E2. by intros ?%elem_of_nil.
Qed.

Lemma completed_ok s thr i : vinv s thr → i ∈ completed s → v_status s i = 0 ∧ is_Some (v_info_b s i).
Proof.
  intros I Hi. destruct (vi_heads _ _ I i) as (b & w & i1 & i2 & Hb); [apply elem_of_app; by right|].
  pose proof (vi_chain _ _ I _ _ _ _ _ Hb) as Hck. rewrite (ck_info _ _ _ _ _ _ Hck). split; [|done]. apply (ck_status _ _ _ _ _ _ Hck).
  pose proof (vi_live _ _ I) as L. apply NoDup_app in L as (_ & Hdis & _). intros Hq. by apply (Hdis i).
Qed.

Lemma intr_runs s thr : vinv s thr → ∃ c r, dq c ∧
  virtio_disk_intr s = (Ret tt, s <| v_bdisk := foldl (signal (v_info_b s)) (v_bdisk s) (completed s) |>
    <| v_used_idx := v_uidx s |> <| v_ctx := c |> <| v_regs := r |>).
Proof.
  intros I. pose proof (vi_idx _ _ I) as X. rewrite !Forall_cons in X. destruct X as (_ & _ & ? & ? & _).
  apply virtio_disk_intr_run; [apply I|done|done|]. intros i. by apply (completed_ok _ thr).
Qed.

Context (device : vdisk V → vdisk V → Prop) (Hdev : device_ok device).

Lemma device_inv s thr s' : vinv s thr → device s s' → vinv s' thr ∧ astep (abs s thr) (abs s' thr).
Proof using All.
  intros I Hd. assert (∀ i, i ∈ queued s → ∃ b w i1 i2, thr b = TWait w (i, i1, i2) ∧ request s i = Some (w, b, 2 * v_blockno s b, i)) as Hq.
  { intros i Hi. destruct (vi_heads _ _ I i) as (b & w & i1 & i2 & Hb); [apply elem_of_app; by left|]. exists b, w, i1, i2. split; [done|].
    eapply chain_request. by apply (vi_chain _ _ I). }
  destruct (Hdev s s' Hd) as [Hf|(i & Hi & w & b & sec & st & r & Hr & ->)].
  - intros i Hi. destruct (Hq i Hi) as (b & w & i1 & i2 & _ & E). by rewrite E.
  - by apply fetch_ok.
  - destruct (Hq i) as (b' & w' & i1 & i2 & Hb & E); [unfold queued; apply elem_of_app; by right|]. rewrite E in Hr. injection Hr as -> -> <- <-.
    split; [by eapply complete_vinv|by eapply complete_transfer].
Qed.

Lemma vstep_inv (y y' : sys V) : vinv (y_disk y) (y_thr y) → step device y y' →
  vinv (y_disk y') (y_thr y') ∧ astep (abs (y_disk y) (y_thr y)) (abs (y_disk y') (y_thr y')).
Proof using All.
  intros I Hs. destruct Hs as [y b v n Hb Hn|y b w Hb|y b w idx s Hb E|y b w ch s Hb E|y b w [[i0 i1] i2] s Hb E|y b w [[i0 i1] i2] ch s Hb E|y s E|y s Hd|y c Hc];
    cbn [y_disk y_thr].
  - by apply owner_ok.
  - by apply call_ok.
  - destruct (rw_start_run b w _ (vi_quiet _ _ I)) as [(i0 & i1 & i2 & s1 & r & E' & HL & HN)|(s1 & E' & _)]; rewrite E in E'; [|done].
    injection E' as -> ->. split; [by apply start_vinv|by apply start_skip].
  - destruct (rw_start_run b w _ (vi_quiet _ _ I)) as [(i0 & i1 & i2 & s1 & r & E' & _)|(s1 & E' & [Lf Lw Ld Lh Lr])]; rewrite E in E'; [done|].
    injection E' as -> ->. apply idle_ok; [done|done|done|by eapply dq_hart; [apply I|]|]. rewrite Lr. by destruct (y_disk y).
  - pose proof (chain_chained _ _ _ _ _ _ (vi_chain _ _ I _ _ _ _ _ Hb)) as Hch.
    destruct (rw_wait_run b i0 i1 i2 _ (vi_quiet _ _ I) Hch) as (c & Hc & E'). rewrite E in E'. destruct (Z.eqb_spec (v_bdisk (y_disk y) b) 1); [done|].
    injection E' as ->. by apply (return_ok _ _ b w).
  - pose proof (chain_chained _ _ _ _ _ _ (vi_chain _ _ I _ _ _ _ _ Hb)) as Hch.
    destruct (rw_wait_run b i0 i1 i2 _ (vi_quiet _ _ I) Hch) as (c & Hc & E'). rewrite E in E'. destruct (_ =? 1); [|done].
    injection E' as -> ->. by apply idle_ok.
  - destruct (intr_runs _ _ I) as (c & r & Hc & E'). rewrite E in E'. injection E' as ->. by apply intr_ok.
  - by apply device_inv.
  - by apply idle_ok.
Qed.

Lemma reach_inv (y0 y : sys V) : start_state y0 → rtc (step device) y0 y → vinv (y_disk y) (y_thr y).
Proof using All. intros H0%start_state_inv Hr. induction Hr as [|y0 y1 y2 Hs _ IH]; [done|]. by apply IH, (vstep_inv y0 y1). Qed.

(** C7: the driver implements a disk of blocks.  Whatever the interleaving of
    processes, interrupts and device, every step of the system is a step of the
    promise [astep]: each [virtio_disk_rw] transfers its block between buffer
    and disk exactly once, in one piece, between its call and its return; it returns only after
    the transfer; and nothing else changes the disk, or a buffer that is with
    the driver. *)
Theorem virtio_refines_block_disk (y0 y y' : sys V) : start_state y0 → rtc (step device) y0 y → step device y y' →
  astep (abs (y_disk y) (y_thr y)) (abs (y_disk y') (y_thr y')).
Proof using All. intros H0 Hr Hs. by apply vstep_inv; [eapply reach_inv|]. Qed.

End run.

(** A device that serves requests as specified, with registers that read 0. *)
Module VirtioDemo.
#[global] Instance regs : VirtioRegs unit := {| ReadR := λ _, ret 0; WriteR := λ _ _, ret tt |}.
#[global] Instance regs_spec : VirtioRegsSpec unit.
Proof. split; intros *; [by eexists _, _|by eexists]. Qed.

Definition device (s s' : vdisk unit) : Prop := dev_fetch s s' ∨ ∃ i, dev_complete i s s'.
Lemma device_fine : device_ok device.
Proof. intros s s' Hd _. exact Hd. Qed.

Definition v0 : vdisk unit :=
  VDisk (Ctx (Hart 0 true true []) 1 false []) (λ _, Desc PNull 0 0 0) (replicate 8 0) 0 (replicate 8 0) 0 (λ _, true) 0 (λ _, None) (λ _, 0)
    (λ _, Req 0 0 0) (λ _, replicate 1024 7) (λ _, 0) (λ _, 5) tt 0 [] (λ _, replicate 512 0).
Definition y0 : sys unit := Sys v0 (λ _, TIdle).
Lemma y0_start : start_state y0.
Proof.
  split; try done. split; [|by intros l ->; apply not_elem_of_nil]. split_and!; simpl; try lia; try done. constructor.
Qed.

(** Buffer 3 is written to block 5, up to the completion by the device. *)
Definition y1 : sys unit := Sys v0 (upd (y_thr y0) 3%nat (TStart true)).
Definition y2 : sys unit := Sys (snd (rw_start 3 true v0)) (upd (y_thr y1) 3%nat (TWait true (0, 1, 2))).
Definition v3 : vdisk unit := (y_disk y2) <| v_taken := [0] |> <| v_seen := 1 |>.
Definition y3 : sys unit := Sys v3 (y_thr y2).
Definition y4 : sys unit := Sys (complete 0 true 3 10 0 v3) (y_thr y3).

Lemma to_y3 : rtc (step device) y0 y3.
Proof.
  eapply rtc_l; [apply (step_call device y0 3 true); done|]. fold y1.
  eapply rtc_l; [apply (step_start device y1 3 true (0, 1, 2) (snd (rw_start 3 true v0))); [done|vm_compute; done]|]. fold y2.
  eapply rtc_l; [|apply rtc_refl]. apply (step_device device y2 v3). left. split; [done|]. exists tt. done.
Qed.

Lemma regs_unit (s : vdisk unit) : s = s <| v_regs := tt |>.
Proof. by destruct s as [? ? ? ? ? ? ? ? ? ? ? ? ? ? []]. Qed.
Lemma to_y4 : step device y3 y4.
Proof.
  apply (step_device device y3). right. exists 0. split; [by left|]. exists true, 3%nat, 10, 0, tt. split; [vm_compute; reflexivity|apply regs_unit].
Qed.
End VirtioDemo.

Lemma virtio_refines_block_disk_witness :
  astep (abs (y_disk VirtioDemo.y3) (y_thr VirtioDemo.y3)) (abs (y_disk VirtioDemo.y4) (y_thr VirtioDemo.y4)) ∧
  a_disk (abs (y_disk VirtioDemo.y4) (y_thr VirtioDemo.y4)) 5 = replicate 1024 7.
Proof.
  split; [|vm_compute; reflexivity].
  exact (virtio_refines_block_disk VirtioDemo.device VirtioDemo.device_fine _ _ _ VirtioDemo.y0_start VirtioDemo.to_y3 VirtioDemo.to_y4).
Defined.

