(* ===== verification/VirtioInit.v ===== *)
(** * Starting the disk: [virtio_disk_init] of [kernel/virtio_disk.c]

    The handshake with the device, the pages for the rings, and the proof that
    the driver then is in the state the theorems about it start from. *)
From S2P Require Import Prelude Machine Cstring Spinlock Kalloc Vm VmMap VmSpec VmRefs Cow VmAlloc Sleeplock Blocks Ring Virtio.

(** The driver, the memory of the kernel, and [disk.desc], [disk.avail] and
    [disk.used]. *)
Record vboot (V : Type) := VBoot { vb_disk : vdisk V; vb_k : kstate; vb_desc : Z; vb_avail : Z; vb_used : Z }.
Arguments VBoot {V} _ _ _ _ _.
Arguments vb_disk {V} _.
Arguments vb_k {V} _.
Arguments vb_desc {V} _.
Arguments vb_avail {V} _.
Arguments vb_used {V} _.
#[global] Instance vboot_eta {V} : Eta (vboot V) := λ s, VBoot (vb_disk s) (vb_k s) (vb_desc s) (vb_avail s) (vb_used s).

Section init.
Context {V : Type} `{VirtioRegs V}.

Definition vbL : lens (vboot V) (vdisk V) := Lens vb_disk (λ d s, s <| vb_disk := d |>).
Definition vkL : lens (vboot V) kstate := Lens vb_k (λ k s, s <| vb_k := k |>).
Definition rR (r : Z) : M (vboot V) Z := zoom vbL (zoom regsL (ReadR r)).
Definition wR (r v : Z) : M (vboot V) unit := zoom vbL (zoom regsL (WriteR r (u32 v))).
Definition updd (f : vdisk V → vdisk V) : M (vboot V) unit := modify (λ s, s <| vb_disk := f (vb_disk s) |>).

(** [features &= ~(1 << b)] *)
Definition clear_feature (features b : Z) : Z := Z.land features (not64 (Z.shiftl 1 b)).

(** The memory of the three structures is in [vb_k]; [updd] says what its zeros
    are in [desc], [avail] and [used]. *)
Definition virtio_disk_init : M (vboot V) unit :=
  let status := 0 in
  magic <- rR VIRTIO_MMIO_MAGIC_VALUE ;;
  if negb (magic =? 0x74726976) then panic "could not find virtio disk" else
  version <- rR VIRTIO_MMIO_VERSION ;;
  if negb (version =? 2) then panic "could not find virtio disk" else
  device <- rR VIRTIO_MMIO_DEVICE_ID ;;
  if negb (device =? 2) then panic "could not find virtio disk" else
  vendor <- rR VIRTIO_MMIO_VENDOR_ID ;;
  if negb (vendor =? 0x554d4551) then panic "could not find virtio disk" else
  wR VIRTIO_MMIO_STATUS status ;;;
  let status := Z.lor status VIRTIO_CONFIG_S_ACKNOWLEDGE in
  wR VIRTIO_MMIO_STATUS status ;;;
  let status := Z.lor status VIRTIO_CONFIG_S_DRIVER in
  wR VIRTIO_MMIO_STATUS status ;;;
  features <- rR VIRTIO_MMIO_DEVICE_FEATURES ;;
  let features := foldl clear_feature features
    [VIRTIO_BLK_F_RO; VIRTIO_BLK_F_SCSI; VIRTIO_BLK_F_CONFIG_WCE; VIRTIO_BLK_F_MQ; VIRTIO_F_ANY_LAYOUT; VIRTIO_RING_F_EVENT_IDX; VIRTIO_RING_F_INDIRECT_DESC] in
  wR VIRTIO_MMIO_DRIVER_FEATURES features ;;;
  let status := Z.lor status VIRTIO_CONFIG_S_FEATURES_OK in
  wR VIRTIO_MMIO_STATUS status ;;;
  status <- rR VIRTIO_MMIO_STATUS ;;
  if negb (truth (Z.land status VIRTIO_CONFIG_S_FEATURES_OK)) then panic "virtio disk FEATURES_OK unset" else
  wR VIRTIO_MMIO_QUEUE_SEL 0 ;;;
  ready <- rR VIRTIO_MMIO_QUEUE_READY ;;
  if truth ready then panic "virtio disk should not be ready" else
  max <- rR VIRTIO_MMIO_QUEUE_NUM_MAX ;;
  if max =? 0 then panic "virtio disk has no queue 0" else
  if max <? NUM then panic "virtio disk max queue too short" else
  desc <- zoom vkL kalloc ;;
  avail <- zoom vkL kalloc ;;
  used <- zoom vkL kalloc ;;
  modify (λ s, s <| vb_desc := desc |> <| vb_avail := avail |> <| vb_used := used |>) ;;;
  if (desc =? 0) || (avail =? 0) || (used =? 0) then panic "virtio disk kalloc" else
  zoom vkL (fill desc 0 PGSIZE) ;;; updd (λ d, d <| v_desc := λ _, Desc PNull 0 0 0 |>) ;;;
  zoom vkL (fill avail 0 PGSIZE) ;;; updd (λ d, d <| v_ring := replicate (Z.to_nat NUM) 0 |> <| v_aidx := 0 |>) ;;;
  zoom vkL (fill used 0 PGSIZE) ;;; updd (λ d, d <| v_used := replicate (Z.to_nat NUM) 0 |> <| v_uidx := 0 |>) ;;;
  wR VIRTIO_MMIO_QUEUE_NUM NUM ;;;
  wR VIRTIO_MMIO_QUEUE_DESC_LOW desc ;;;
  wR VIRTIO_MMIO_QUEUE_DESC_HIGH (Z.shiftr desc 32) ;;;
  wR VIRTIO_MMIO_DRIVER_DESC_LOW avail ;;;
  wR VIRTIO_MMIO_DRIVER_DESC_HIGH (Z.shiftr avail 32) ;;;
  wR VIRTIO_MMIO_DEVICE_DESC_LOW used ;;;
  wR VIRTIO_MMIO_DEVICE_DESC_HIGH (Z.shiftr used 32) ;;;
  wR VIRTIO_MMIO_QUEUE_READY 0x1 ;;;
  for_all (seqZ 0 NUM) (λ i, updd (λ d, d <| v_free ::= λ f, upd f i true |>)) ;;;
  let status := Z.lor status VIRTIO_CONFIG_S_DRIVER_OK in
  wR VIRTIO_MMIO_STATUS status.

(** ** The device

    [view v r] is what the device holds for register [r]. *)
Definition tracked : list Z := [
  VIRTIO_MMIO_MAGIC_VALUE; VIRTIO_MMIO_VERSION; VIRTIO_MMIO_DEVICE_ID; VIRTIO_MMIO_VENDOR_ID; VIRTIO_MMIO_DEVICE_FEATURES; VIRTIO_MMIO_DRIVER_FEATURES;
  VIRTIO_MMIO_STATUS; VIRTIO_MMIO_QUEUE_SEL; VIRTIO_MMIO_QUEUE_READY; VIRTIO_MMIO_QUEUE_NUM_MAX; VIRTIO_MMIO_QUEUE_NUM;
  VIRTIO_MMIO_QUEUE_DESC_LOW; VIRTIO_MMIO_QUEUE_DESC_HIGH; VIRTIO_MMIO_DRIVER_DESC_LOW; VIRTIO_MMIO_DRIVER_DESC_HIGH;
  VIRTIO_MMIO_DEVICE_DESC_LOW; VIRTIO_MMIO_DEVICE_DESC_HIGH ].

(** A write is kept; a status of 0 resets the queue. *)
Definition dev_write (r x : Z) (w : Z → Z) : Z → Z :=
  let w := upd w r x in
  if (r =? VIRTIO_MMIO_STATUS) && (x =? 0) then upd w VIRTIO_MMIO_QUEUE_READY 0 else w.

Record virtio_device (view : V → Z → Z) : Prop := {
  vd_read : ∀ r v, r ∈ tracked → ReadR r v = (Ret (view v r), v);
  vd_write : ∀ r x v, r ∈ tracked → ∃ v', WriteR r x v = (Ret tt, v') ∧ ∀ r', r' ∈ tracked → view v' r' = dev_write r x (view v) r';
}.

Section run.
Context (view : V → Z → Z) (Hdev : virtio_device view).

(** The registers of the device. *)
Definition regs_are (s : vboot V) (W : Z → Z) : Prop := ∀ r, r ∈ tracked → view (v_regs (vb_disk s)) r = W r.
Definition set_regs (v : V) (s : vboot V) : vboot V := s <| vb_disk := (vb_disk s) <| v_regs := v |> |>.

Lemma rR_run s W r : regs_are s W → bool_decide (r ∈ tracked) = true → rR r s = (Ret (W r), s).
Proof using Hdev.
  intros HW Hr%bool_decide_eq_true. unfold rR, zoom. simpl. rewrite (vd_read _ Hdev) by done. rewrite HW by done. by destruct s as [[] ? ? ? ?].
Qed.
Lemma wR_run s W r x : regs_are s W → bool_decide (r ∈ tracked) = true →
  ∃ v, wR r x s = (Ret tt, set_regs v s) ∧ regs_are (set_regs v s) (dev_write r (u32 x) W).
Proof using Hdev.
  intros HW Hr%bool_decide_eq_true. destruct (vd_write _ Hdev r (u32 x) (v_regs (vb_disk s)) Hr) as (v & E & Hv). exists v. split.
  - unfold wR, zoom. simpl. rewrite E. done.
  - intros r' Hr'. simpl. rewrite Hv by done. unfold dev_write. pose proof (HW r' Hr') as E'.
    case_match; unfold upd; repeat case_decide; done.
Qed.

Lemma wp_rR s W r Q : regs_are s W → bool_decide (r ∈ tracked) = true → Q (W r) s → wp (rR r) Q s.
Proof using Hdev. intros HW Hr HQ. eapply wp_intro; [by eapply rR_run|done]. Qed.
Definition with_regs (v : V) (d : vdisk V) : vdisk V := d <| v_regs := v |>.
Lemma with_regs_twice v v' d : with_regs v (with_regs v' d) = with_regs v d.
Proof. done. Qed.
Lemma wp_wR d k a b c W r x Q : regs_are (VBoot d k a b c) W → bool_decide (r ∈ tracked) = true →
  (∀ v, regs_are (VBoot (with_regs v d) k a b c) (dev_write r (u32 x) W) → Q tt (VBoot (with_regs v d) k a b c)) → wp (wR r x) Q (VBoot d k a b c).
Proof using Hdev.
  intros HW Hr HQ. destruct (wR_run _ W r x HW Hr) as (v & E & H'). eapply wp_intro; [exact E|exact (HQ v H')].
Qed.

(** ** Memory *)

Lemma wp_page kend roots n free d k a b c (Q : Z → vboot V → Prop) : KERNBASE <= kend → vm_ok kend (n :: free) roots k → can_kalloc k →
  (vm_ok kend free roots (allocated n k) → can_kalloc (allocated n k) → n ≠ 0 → ram_page kend n → n ∉ free →
    Q n (VBoot d (allocated n k) a b c)) → wp (zoom vkL kalloc) Q (VBoot d k a b c).
Proof.
  intros Hk Hok Hc HQ. destruct (alloc_page Hk n Hok) as (K & U & _). destruct (proj1 U) as [Hr _].
  assert (n ≠ 0) as Hn by (unfold KERNBASE in *; lia). apply wp_zoom. eapply wp_intro.
  - apply kalloc_some; [exact Hc|exact (proj1 (inv_chain _ _ _ (vm_kmem _ _ _ _ Hok)))|exact Hn].
  - apply HQ; [exact K|exact Hc|exact Hn|exact (proj1 U)|exact (proj1 (proj2 U))].
Qed.
Lemma wp_fill p d k a b c (Q : unit → vboot V → Prop) : Q tt (VBoot d (set_mem (memset (k_mem k) p 0 PGSIZE) k) a b c) →
  wp (zoom vkL (fill p 0 PGSIZE)) Q (VBoot d k a b c).
Proof. done. Qed.
Lemma wp_updd f d k a b c (Q : unit → vboot V → Prop) : Q tt (VBoot (f d) k a b c) → wp (updd f) Q (VBoot d k a b c).
Proof. done. Qed.

Definition free_all (f : Z → bool) : Z → bool := foldl (λ f i, upd f i true) f (seqZ 0 NUM).
Lemma wp_free_all d k a b c (Q : unit → vboot V → Prop) : Q tt (VBoot (d <| v_free := free_all (v_free d) |>) k a b c) →
  wp (for_all (seqZ 0 NUM) (λ i, updd (λ d, d <| v_free ::= λ f, upd f i true |>))) Q (VBoot d k a b c).
Proof. intros HQ. eapply wp_intro; [reflexivity|exact HQ]. Qed.
Lemma free_all_true f i : 0 <= i < NUM → free_all f i = true.
Proof.
  intros Hi. unfold NUM in Hi. assert (i = 0 ∨ i = 1 ∨ i = 2 ∨ i = 3 ∨ i = 4 ∨ i = 5 ∨ i = 6 ∨ i = 7) as Hc by lia. by destruct_or! Hc; subst i.
Qed.

(** What the device reports before the handshake. *)
Record answers (W : Z → Z) : Prop := {
  an_id : W VIRTIO_MMIO_MAGIC_VALUE = 0x74726976 ∧ W VIRTIO_MMIO_VERSION = 2 ∧ W VIRTIO_MMIO_DEVICE_ID = 2 ∧ W VIRTIO_MMIO_VENDOR_ID = 0x554d4551;
  an_max : NUM <= W VIRTIO_MMIO_QUEUE_NUM_MAX;
  an_features : 0 <= W VIRTIO_MMIO_DEVICE_FEATURES < 2 ^ 32;
}.

Definition features_off : list Z :=
  [VIRTIO_BLK_F_RO; VIRTIO_BLK_F_SCSI; VIRTIO_BLK_F_CONFIG_WCE; VIRTIO_BLK_F_MQ; VIRTIO_F_ANY_LAYOUT; VIRTIO_RING_F_EVENT_IDX; VIRTIO_RING_F_INDIRECT_DESC].

(** The registers after the driver is done. *)
Definition handshake (features desc avail used : Z) (W : Z → Z) : Z → Z :=
  foldl (λ W '(r, x), dev_write r (u32 x) W) W [
    (VIRTIO_MMIO_STATUS, 0); (VIRTIO_MMIO_STATUS, Z.lor 0 VIRTIO_CONFIG_S_ACKNOWLEDGE);
    (VIRTIO_MMIO_STATUS, Z.lor (Z.lor 0 VIRTIO_CONFIG_S_ACKNOWLEDGE) VIRTIO_CONFIG_S_DRIVER); (VIRTIO_MMIO_DRIVER_FEATURES, features);
    (VIRTIO_MMIO_STATUS, Z.lor (Z.lor (Z.lor 0 VIRTIO_CONFIG_S_ACKNOWLEDGE) VIRTIO_CONFIG_S_DRIVER) VIRTIO_CONFIG_S_FEATURES_OK);
    (VIRTIO_MMIO_QUEUE_SEL, 0); (VIRTIO_MMIO_QUEUE_NUM, NUM); (VIRTIO_MMIO_QUEUE_DESC_LOW, desc); (VIRTIO_MMIO_QUEUE_DESC_HIGH, Z.shiftr desc 32);
    (VIRTIO_MMIO_DRIVER_DESC_LOW, avail); (VIRTIO_MMIO_DRIVER_DESC_HIGH, Z.shiftr avail 32); (VIRTIO_MMIO_DEVICE_DESC_LOW, used);
    (VIRTIO_MMIO_DEVICE_DESC_HIGH, Z.shiftr used 32); (VIRTIO_MMIO_QUEUE_READY, 1); (VIRTIO_MMIO_STATUS, Z.lor 11 VIRTIO_CONFIG_S_DRIVER_OK)].

(** The driver after the initialisation. *)
Record inited (s s' : vboot V) : Prop := {
  in_ctx : v_ctx (vb_disk s') = v_ctx (vb_disk s);
  in_same : v_used_idx (vb_disk s') = v_used_idx (vb_disk s) ∧ v_seen (vb_disk s') = v_seen (vb_disk s) ∧ v_taken (vb_disk s') = v_taken (vb_disk s) ∧
    v_blockno (vb_disk s') = v_blockno (vb_disk s);
  in_free : v_free (vb_disk s') = free_all (v_free (vb_disk s));
  in_rings : v_ring (vb_disk s') = replicate (Z.to_nat NUM) 0 ∧ v_used (vb_disk s') = replicate (Z.to_nat NUM) 0;
  in_zero : v_aidx (vb_disk s') = 0 ∧ v_uidx (vb_disk s') = 0;
}.

Definition zeroes (m : mem) (d a u : Z) : mem := memset (memset (memset m d 0 PGSIZE) a 0 PGSIZE) u 0 PGSIZE.

Ltac reads HW := apply wp_bind; eapply wp_rR; [exact HW|reflexivity|]; cbv beta.
Ltac writes HW := apply wp_bind; eapply wp_wR; [exact HW|reflexivity|]; clear HW; intros ? HW; cbv beta; rewrite ?with_regs_twice in HW |- *.

#[local] Opaque memset allocated.
Lemma init_run kend roots n0 n1 n2 free s W : KERNBASE <= kend → regs_are s W → answers W →
  vm_ok kend (n0 :: n1 :: n2 :: free) roots (vb_k s) → can_kalloc (vb_k s) →
  wp virtio_disk_init (λ _ s', inited s s' ∧ regs_are s' (handshake (foldl clear_feature (W VIRTIO_MMIO_DEVICE_FEATURES) features_off) n0 n1 n2 W) ∧
    vb_desc s' = n0 ∧ vb_avail s' = n1 ∧ vb_used s' = n2 ∧ k_mem (vb_k s') = zeroes (k_mem (allocated n2 (allocated n1 (allocated n0 (vb_k s))))) n0 n1 n2) s.
Proof using Hdev.
  intros Hk HW [(A1 & A2 & A3 & A4) Am _] Hok Hc. destruct s as [d k a b c]. simpl in Hok, Hc. unfold virtio_disk_init.
  reads HW. rewrite A1, Z.eqb_refl. cbn [negb]. reads HW. rewrite A2, Z.eqb_refl. cbn [negb].
  reads HW. rewrite A3, Z.eqb_refl. cbn [negb]. reads HW. rewrite A4, Z.eqb_refl. cbn [negb].
  writes HW. writes HW. writes HW. reads HW.
  match goal with |- context [foldl clear_feature ?x _] => change x with (W VIRTIO_MMIO_DEVICE_FEATURES) end. writes HW. writes HW. reads HW.
  match goal with |- wp (if negb (truth (Z.land ?x _)) then _ else _) _ _ => change x with 11 end. cbn [negb truth Z.land Z.eqb Pos.land].
  change (truth (Z.land 11 _)) with true. cbn [negb]. writes HW. reads HW.
  match goal with |- wp (if truth ?x then _ else _) _ _ => change x with 0 end. change (truth 0) with false. cbv iota. reads HW.
  match goal with |- wp (if ?x =? 0 then _ else _) _ _ => change x with (W VIRTIO_MMIO_QUEUE_NUM_MAX) end.
  rewrite (proj2 (Z.eqb_neq _ 0)), (proj2 (Z.ltb_ge _ NUM)) by (unfold NUM in *; lia).
  apply wp_bind. eapply (wp_page kend roots n0); [done|exact Hok|exact Hc|]. intros Hok0 Hc0 Hn0 Hr0 _. cbv beta.
  apply wp_bind. eapply (wp_page kend roots n1); [done|exact Hok0|exact Hc0|]. intros Hok1 Hc1 Hn1 Hr1 _. cbv beta.
  apply wp_bind. eapply (wp_page kend roots n2); [done|exact Hok1|exact Hc1|]. intros Hok2 Hc2 Hn2 Hr2 _. cbv beta.
  apply wp_bind, wp_modify. rewrite (proj2 (Z.eqb_neq n0 0)), (proj2 (Z.eqb_neq n1 0)), (proj2 (Z.eqb_neq n2 0)) by done. cbn [orb].
  match goal with |- wp _ _ ?t => change t with (VBoot (with_regs v4 d) (allocated n2 (allocated n1 (allocated n0 k))) n0 n1 n2) end.
  apply wp_bind, wp_fill, wp_bind, wp_updd, wp_bind, wp_fill, wp_bind, wp_updd, wp_bind, wp_fill, wp_bind, wp_updd.
  match goal with |- wp _ _ (VBoot ?D ?K _ _ _) => set (d2 := D); set (K2 := K) end.
  assert (k_mem K2 = zeroes (k_mem (allocated n2 (allocated n1 (allocated n0 k)))) n0 n1 n2) as HK by reflexivity.
  match type of HW with regs_are _ ?W' => assert (regs_are (VBoot d2 K2 n0 n1 n2) W') as HW2 by exact HW end. clear HW.
  writes HW2. writes HW2. writes HW2. writes HW2. writes HW2. writes HW2. writes HW2. writes HW2.
  apply wp_bind, wp_free_all. match type of HW2 with regs_are (VBoot ?D _ _ _ _) ?W' =>
    assert (regs_are (VBoot (D <| v_free := free_all (v_free D) |>) K2 n0 n1 n2) W') as HW3 by exact HW2 end. clear HW2.
  eapply wp_wR; [exact HW3|reflexivity|]. intros v' HW4. split_and!; [|unfold handshake; cbn [foldl]; exact HW4|reflexivity|reflexivity|reflexivity|exact HK].
  split; repeat apply conj; reflexivity.
Qed.
#[local] Transparent memset allocated.

Lemma clear_feature_bit f x b : 0 <= x < 64 → 0 <= b < 64 → Z.testbit (clear_feature f x) b = Z.testbit f b && negb (b =? x).
Proof.
  intros Hx Hb. unfold clear_feature, not64, u64. rewrite Z.land_spec, Z.mod_pow2_bits_low, Z.lnot_spec, Z.shiftl_1_l, Z.pow2_bits_eqb by lia.
  by rewrite Z.eqb_sym.
Qed.
Lemma clear_features_bit l f b : Forall (λ x, 0 <= x < 64) l → 0 <= b < 64 → b ∈ l → Z.testbit (foldl clear_feature f l) b = false.
Proof.
  intros Hl Hb Hin. induction l as [|x l IH] using rev_ind; [by apply elem_of_nil in Hin|]. apply Forall_app in Hl as [Hl [Hx _]%Forall_cons].
  rewrite foldl_app. simpl. rewrite clear_feature_bit by lia. destruct (Z.eqb_spec b x) as [->|Hne]; [apply andb_false_r|].
  rewrite IH by (done || set_solver). done.
Qed.

Lemma zeroes_zero m n0 n1 n2 x : n0 mod PGSIZE = 0 → n1 mod PGSIZE = 0 → n2 mod PGSIZE = 0 →
  n0 <= x < n0 + PGSIZE ∨ n1 <= x < n1 + PGSIZE ∨ n2 <= x < n2 + PGSIZE → zeroes m n0 n1 n2 x = 0.
Proof.
  intros H0 H1 H2 Hx. unfold zeroes. destruct (decide (n2 <= x < n2 + PGSIZE)); [by rewrite memset_in|]. rewrite memset_other by done.
  destruct (decide (n1 <= x < n1 + PGSIZE)); [by rewrite memset_in|]. rewrite memset_other by done. rewrite memset_in by lia. done.
Qed.

Lemma inited_start s s' : inited s s' → quiet (λ l, l = LkDisk) (v_ctx (vb_disk s)) →
  v_used_idx (vb_disk s) = 0 → v_seen (vb_disk s) = 0 → v_taken (vb_disk s) = [] → (∀ b, 0 <= v_blockno (vb_disk s) b < 2 ^ 31) →
  start_state (Sys (vb_disk s') (λ _, TIdle)).
Proof.
  intros [Ec (I1 & I2 & I3 & I4) If [Ir Iu] [Ia Iui]] Hq E1 E2 E3 Hb.
  split; simpl; [by rewrite Ec|done|intros i Hi; rewrite If; by apply free_all_true|by rewrite Ir, Iu| |intros b; by rewrite I4].
  split_and!; [done|by rewrite I2|done|by rewrite I1|by rewrite I3].
Qed.

(** The address in two registers. *)
Lemma two_words a : 0 <= a < 2 ^ 64 → u32 a + 2 ^ 32 * u32 (Z.shiftr a 32) = a.
Proof.
  intros Ha. unfold u32. rewrite Z.shiftr_div_pow2 by done. rewrite (Z.mod_small (a / 2 ^ 32)) by (split; [apply Z.div_pos|apply Z.div_lt_upper_bound]; lia).
  pose proof (Z.div_mod a (2 ^ 32) ltac:(lia)). lia.
Qed.

(** With a virtio disk that answers as the specification says and three free
    pages, [virtio_disk_init] ends without a panic: the device has been told
    that the driver is ready, with none of the features the driver cannot
    handle, the queue size and the addresses of the three structures, which are
    zeroed pages of their own; and the driver is in the state from which its
    theorems start. *)
Lemma virtio_disk_init_ready kend roots free s W : KERNBASE <= kend → regs_are s W → answers W → vm_ok kend free roots (vb_k s) → can_kalloc (vb_k s) →
  (3 <= length free)%nat → quiet (λ l, l = LkDisk) (v_ctx (vb_disk s)) →
  v_used_idx (vb_disk s) = 0 → v_seen (vb_disk s) = 0 → v_taken (vb_disk s) = [] → (∀ b, 0 <= v_blockno (vb_disk s) b < 2 ^ 31) →
  ∃ s' W', virtio_disk_init s = (Ret tt, s') ∧ start_state (Sys (vb_disk s') (λ _, TIdle)) ∧ regs_are s' W' ∧
    W' VIRTIO_MMIO_STATUS = 15 ∧ W' VIRTIO_MMIO_QUEUE_NUM = NUM ∧ W' VIRTIO_MMIO_QUEUE_READY = 1 ∧
    (∀ b, b ∈ features_off → Z.testbit (W' VIRTIO_MMIO_DRIVER_FEATURES) b = false) ∧
    W' VIRTIO_MMIO_QUEUE_DESC_LOW + 2 ^ 32 * W' VIRTIO_MMIO_QUEUE_DESC_HIGH = vb_desc s' ∧
    W' VIRTIO_MMIO_DRIVER_DESC_LOW + 2 ^ 32 * W' VIRTIO_MMIO_DRIVER_DESC_HIGH = vb_avail s' ∧
    W' VIRTIO_MMIO_DEVICE_DESC_LOW + 2 ^ 32 * W' VIRTIO_MMIO_DEVICE_DESC_HIGH = vb_used s' ∧
    NoDup [vb_desc s'; vb_avail s'; vb_used s'] ∧
    (∀ p x, p ∈ [vb_desc s'; vb_avail s'; vb_used s'] → ram_page kend p ∧ (p <= x < p + PGSIZE → k_mem (vb_k s') x = 0)).
Proof using Hdev.
  intros Hk HW HA Hok Hc Hf Hq E1 E2 E3 Hb. destruct free as [|n0 [|n1 [|n2 free]]]; [simpl in Hf; lia..|].
  pose proof (init_run kend roots n0 n1 n2 free s W Hk HW HA Hok Hc) as Hrun. apply wp_run in Hrun as ([] & s' & R & Hin & HW' & D0 & D1 & D2 & Hmem).
  pose proof (inv_ram _ _ _ (vm_kmem _ _ _ _ Hok)) as Hram. pose proof (inv_nodup _ _ _ (vm_kmem _ _ _ _ Hok)) as Hnd.
  assert (ram_page kend n0 ∧ ram_page kend n1 ∧ ram_page kend n2) as (R0 & R1 & R2) by (split_and!; apply Hram; repeat first [by left | right]).
  assert (∀ n, ram_page kend n → 0 <= n < 2 ^ 64) as Hr by (intros n [? _]; unfold KERNBASE in *; change PHYSTOP with 2281701376 in *; lia).
  eexists s', _. rewrite D0, D1, D2. split_and!; [exact R|by apply (inited_start s)|exact HW'|reflexivity|reflexivity|reflexivity| | | | | |]; clear R HW' Hin.
  - intros b Hbf. change (handshake _ _ _ _ _ _) with (u32 (foldl clear_feature (W VIRTIO_MMIO_DEVICE_FEATURES) features_off)).
    assert (0 <= b < 32) as Hb32 by (revert b Hbf; apply Forall_forall; repeat constructor; by vm_compute). unfold u32. rewrite Z.mod_pow2_bits_low by lia.
    apply clear_features_bit; [|lia|done]. by repeat constructor.
  - exact (two_words n0 (Hr _ R0)).
  - exact (two_words n1 (Hr _ R1)).
  - exact (two_words n2 (Hr _ R2)).
  - apply (NoDup_app [n0; n1; n2] free). exact Hnd.
  - intros p x Hp. rewrite Hmem. clear - R0 R1 R2 Hp. split.
    + apply elem_of_cons in Hp as [->|[->|[->|[]%elem_of_nil]%elem_of_cons]%elem_of_cons]; assumption.
    + intros Hx. apply zeroes_zero; [exact (proj2 R0)|exact (proj2 R1)|exact (proj2 R2)|].
      apply elem_of_cons in Hp as [->|[->|[->|[]%elem_of_nil]%elem_of_cons]%elem_of_cons]; [left|right; left|right; right]; exact Hx.
Qed.
End run.
End init.

(** A device that is its registers. *)
Module VirtioInitDemo.
#[global] Instance plain_regs : VirtioRegs (Z → Z) := {
  ReadR r := gets (λ w, w r);
  WriteR r x := modify (dev_write r x);
}.
Lemma plain_device : virtio_device (V := Z → Z) (λ w r, w r).
Proof. split; [done|]. intros r x v _. by exists (dev_write r x v). Qed.

Definition regs0 : Z → Z := λ r,
  if r =? VIRTIO_MMIO_MAGIC_VALUE then 0x74726976 else if r =? VIRTIO_MMIO_VENDOR_ID then 0x554d4551
  else if r =? VIRTIO_MMIO_QUEUE_NUM_MAX then 1024 else 2.
Definition d0 : vdisk (Z → Z) :=
  VDisk (Ctx (Hart 0 false false []) 1 false []) (λ _, Desc PNull 0 0 0) [] 0 [] 0 (λ _, false) 0 (λ _, None) (λ _, 0) (λ _, Req 0 0 0) (λ _, [])
    (λ _, 0) (λ _, 0) regs0 0 [] (λ _, []).
Definition kend1 : Z := PHYSTOP - 3 * PGSIZE.

Lemma three_pages : ∃ k free, vm_ok kend1 free [] k ∧ can_kalloc k ∧ (3 <= length free)%nat.
Proof.
  destruct (kinit_frees_ram kend1 ltac:(by vm_compute) boot) as (k & _ & Hi & Hu & _); [by vm_compute|exact boot_unlocked|done|done|]. eexists k, _. split_and!.
  - split; [exact Hi|]. split; [intros r p t [[]%elem_of_nil _]|intros r p t r' p' [[]%elem_of_nil _]].
  - by apply unlocked_can_kalloc.
  - rewrite length_reverse. unfold page_range. rewrite length_fmap, length_seq. by vm_compute.
Qed.
End VirtioInitDemo.
