(* ===== verification/Asm.v ===== *)
(** * Assembly: [kernel/trampoline.S], [kernel/swtch.S], [kernel/kernelvec.S]

    The instructions the kernel's assembly uses, on a hart with its registers,
    its control registers and byte memory behind an address translation [tr]
    (of [satp] and a virtual address), and the routines instruction by
    instruction.  Each routine ends in a jump; [kernelvec] is in two parts, with
    the call of [kerneltrap] between them. *)
From S2P Require Import Prelude Machine Cstring Proc.

Inductive reg :=
| ra | sp | gp | tp | t0 | t1 | t2 | s0 | s1 | a0 | a1 | a2 | a3 | a4 | a5 | a6 | a7
| s2 | s3 | s4 | s5 | s6 | s7 | s8 | s9 | s10 | s11 | t3 | t4 | t5 | t6.
Inductive csr :=
| sscratch | satp | sepc | sip | sie | mscratch | mepc | mhartid | mstatus | medeleg | mideleg | mie | mtvec | pmpaddr0 | pmpcfg0.
#[global] Instance reg_eq_dec : EqDecision reg.
Proof. solve_decision. Defined.
#[global] Instance csr_eq_dec : EqDecision csr.
Proof. solve_decision. Defined.

Inductive instr :=
| Sd (rs : reg) (off : Z) (base : reg)
| Ld (rd : reg) (off : Z) (base : reg)
| Li (rd : reg) (imm : Z)
| Addi (rd rs : reg) (imm : Z)
| Add (rd rs1 rs2 : reg)
| Mul (rd rs1 rs2 : reg)
| Csrw (c : csr) (rs : reg)
| Csrr (rd : reg) (c : csr)
| Csrrw (rd : reg) (c : csr) (rs : reg)
| Sfence_vma
| Jr (rs : reg)
| Sret
| Mret.

Record cpu := Cpu { c_reg : reg → Z; c_csr : csr → Z; c_mem : mem; c_pc : Z }.
#[global] Instance cpu_eta : Eta cpu := λ c, Cpu (c_reg c) (c_csr c) (c_mem c) (c_pc c).

(** ** The routines *)

Definition uservec : list instr := [
  Csrw sscratch a0;
  Li a0 TRAPFRAME;
  Sd ra 40 a0; Sd sp 48 a0; Sd gp 56 a0; Sd tp 64 a0; Sd t0 72 a0; Sd t1 80 a0; Sd t2 88 a0; Sd s0 96 a0; Sd s1 104 a0;
  Sd a1 120 a0; Sd a2 128 a0; Sd a3 136 a0; Sd a4 144 a0; Sd a5 152 a0; Sd a6 160 a0; Sd a7 168 a0;
  Sd s2 176 a0; Sd s3 184 a0; Sd s4 192 a0; Sd s5 200 a0; Sd s6 208 a0; Sd s7 216 a0; Sd s8 224 a0; Sd s9 232 a0; Sd s10 240 a0; Sd s11 248 a0;
  Sd t3 256 a0; Sd t4 264 a0; Sd t5 272 a0; Sd t6 280 a0;
  Csrr t0 sscratch;
  Sd t0 112 a0;
  Ld sp 8 a0;
  Ld tp 32 a0;
  Ld t0 16 a0;
  Ld t1 0 a0;
  Sfence_vma;
  Csrw satp t1;
  Sfence_vma;
  Jr t0].

Definition userret : list instr := [
  Sfence_vma;
  Csrw satp a0;
  Sfence_vma;
  Li a0 TRAPFRAME;
  Ld ra 40 a0; Ld sp 48 a0; Ld gp 56 a0; Ld tp 64 a0; Ld t0 72 a0; Ld t1 80 a0; Ld t2 88 a0; Ld s0 96 a0; Ld s1 104 a0;
  Ld a1 120 a0; Ld a2 128 a0; Ld a3 136 a0; Ld a4 144 a0; Ld a5 152 a0; Ld a6 160 a0; Ld a7 168 a0;
  Ld s2 176 a0; Ld s3 184 a0; Ld s4 192 a0; Ld s5 200 a0; Ld s6 208 a0; Ld s7 216 a0; Ld s8 224 a0; Ld s9 232 a0; Ld s10 240 a0; Ld s11 248 a0;
  Ld t3 256 a0; Ld t4 264 a0; Ld t5 272 a0; Ld t6 280 a0;
  Ld a0 112 a0;
  Sret].

Definition swtch : list instr := [
  Sd ra 0 a0; Sd sp 8 a0; Sd s0 16 a0; Sd s1 24 a0; Sd s2 32 a0; Sd s3 40 a0; Sd s4 48 a0; Sd s5 56 a0; Sd s6 64 a0; Sd s7 72 a0;
  Sd s8 80 a0; Sd s9 88 a0; Sd s10 96 a0; Sd s11 104 a0;
  Ld ra 0 a1; Ld sp 8 a1; Ld s0 16 a1; Ld s1 24 a1; Ld s2 32 a1; Ld s3 40 a1; Ld s4 48 a1; Ld s5 56 a1; Ld s6 64 a1; Ld s7 72 a1;
  Ld s8 80 a1; Ld s9 88 a1; Ld s10 96 a1; Ld s11 104 a1;
  Jr ra].

(** Up to the call of [kerneltrap], and from its return. *)
Definition kernelvec_save : list instr := [
  Addi sp sp (-256);
  Sd ra 0 sp; Sd sp 8 sp; Sd gp 16 sp; Sd tp 24 sp; Sd t0 32 sp; Sd t1 40 sp; Sd t2 48 sp; Sd s0 56 sp; Sd s1 64 sp;
  Sd a0 72 sp; Sd a1 80 sp; Sd a2 88 sp; Sd a3 96 sp; Sd a4 104 sp; Sd a5 112 sp; Sd a6 120 sp; Sd a7 128 sp;
  Sd s2 136 sp; Sd s3 144 sp; Sd s4 152 sp; Sd s5 160 sp; Sd s6 168 sp; Sd s7 176 sp; Sd s8 184 sp; Sd s9 192 sp; Sd s10 200 sp; Sd s11 208 sp;
  Sd t3 216 sp; Sd t4 224 sp; Sd t5 232 sp; Sd t6 240 sp].
Definition kernelvec_restore : list instr := [
  Ld ra 0 sp; Ld sp 8 sp; Ld gp 16 sp; Ld t0 32 sp; Ld t1 40 sp; Ld t2 48 sp; Ld s0 56 sp; Ld s1 64 sp;
  Ld a0 72 sp; Ld a1 80 sp; Ld a2 88 sp; Ld a3 96 sp; Ld a4 104 sp; Ld a5 112 sp; Ld a6 120 sp; Ld a7 128 sp;
  Ld s2 136 sp; Ld s3 144 sp; Ld s4 152 sp; Ld s5 160 sp; Ld s6 168 sp; Ld s7 176 sp; Ld s8 184 sp; Ld s9 192 sp; Ld s10 200 sp; Ld s11 208 sp;
  Ld t3 216 sp; Ld t4 224 sp; Ld t5 232 sp; Ld t6 240 sp;
  Addi sp sp 256;
  Sret].

Definition timervec : list instr := [
  Csrrw a0 mscratch a0;
  Sd a1 0 a0; Sd a2 8 a0; Sd a3 16 a0;
  Ld a1 24 a0;
  Ld a2 32 a0;
  Ld a3 0 a1;
  Add a3 a3 a2;
  Sd a3 0 a1;
  Li a1 2;
  Csrw sip a1;
  Ld a3 16 a0; Ld a2 8 a0; Ld a1 0 a0;
  Csrrw a0 mscratch a0;
  Mret].

(** [_entry], up to the call of [start], with the address of [stack0] *)
Definition _entry (stack0 : Z) : list instr := [
  Li sp stack0;
  Li a0 (1024 * 4);
  Csrr a1 mhartid;
  Addi a1 a1 1;
  Mul a0 a0 a1;
  Add sp sp a0].

Ltac find_slot := repeat first [by left | right].

(** ** The hart *)

Section asm.
Context (tr : Z → Z → Z).

(** The physical address of [off(base)]. *)
Definition addr (c : cpu) (off : Z) (base : reg) : Z := tr (c_csr c satp) (u64 (c_reg c base + off)).
Definition setr (r : reg) (v : Z) (c : cpu) : cpu := c <| c_reg ::= λ f, upd f r v |>.
Definition setc (k : csr) (v : Z) (c : cpu) : cpu := c <| c_csr ::= λ f, upd f k v |>.

Definition exec (i : instr) (c : cpu) : cpu :=
  match i with
  | Sd rs off base => c <| c_mem := store64 (c_mem c) (addr c off base) (c_reg c rs) |>
  | Ld rd off base => setr rd (load64 (c_mem c) (addr c off base)) c
  | Li rd imm => setr rd imm c
  | Addi rd rs imm => setr rd (u64 (c_reg c rs + imm)) c
  | Add rd rs1 rs2 => setr rd (u64 (c_reg c rs1 + c_reg c rs2)) c
  | Mul rd rs1 rs2 => setr rd (u64 (c_reg c rs1 * c_reg c rs2)) c
  | Csrw k rs => setc k (c_reg c rs) c
  | Csrr rd k => setr rd (c_csr c k) c
  | Csrrw rd k rs => setr rd (c_csr c k) (setc k (c_reg c rs) c)
  | Sfence_vma => c
  | Jr rs => c <| c_pc := c_reg c rs |>
  | Sret => c <| c_pc := c_csr c sepc |>
  | Mret => c <| c_pc := c_csr c mepc |>
  end.
Definition run (p : list instr) (c : cpu) : cpu := foldl (flip exec) c p.

Lemma run_app p q c : run (p ++ q) c = run q (run p c).
Proof. apply foldl_app. Qed.
Lemma run_cons i p c : run (i :: p) c = run p (exec i c).
Proof. done. Qed.

(** Registers hold 64-bit words. *)
Definition words (g : reg → Z) : Prop := ∀ r, 0 <= g r < 2 ^ 64.

(** ** Saving and restoring registers *)

(** Where each register goes; slots do not overlap. *)
Abbreviation slots := (list (reg * Z)).
Definition disjoint_slots (fr : slots) : Prop := ∀ i j x y, fr !! i = Some x → fr !! j = Some y → i ≠ j → x.2 + 8 <= y.2 ∨ y.2 + 8 <= x.2.

Definition saves (base : reg) (fr : slots) : list instr := (λ x, Sd x.1 x.2 base) <$> fr.
Definition restores (base : reg) (fr : slots) : list instr := (λ x, Ld x.1 x.2 base) <$> fr.

Definition store_all (g : reg → Z) (p : Z) (fr : slots) (m : mem) : mem := foldl (λ m x, store64 m (p + x.2) (g x.1)) m fr.
Definition load_all (m : mem) (p : Z) (fr : slots) (g : reg → Z) : reg → Z := foldl (λ g x, upd g x.1 (load64 m (p + x.2))) g fr.

(** The slots are at [p], whatever the virtual address. *)
Definition slots_at (c : cpu) (base : reg) (fr : slots) (p : Z) : Prop := ∀ x, x ∈ fr → addr c x.2 base = p + x.2.

Lemma saves_run base fr p c : slots_at c base fr p → run (saves base fr) c = c <| c_mem := store_all (c_reg c) p fr (c_mem c) |>.
Proof.
  revert c. induction fr as [|[r o] fr IH]; intros c Ha; [by destruct c|]. unfold saves. rewrite fmap_cons, run_cons. simpl exec.
  fold (saves base fr). assert (addr c o base = p + o) as -> by (apply (Ha (r, o)); by left). rewrite IH; [done|]. intros x Hx. apply (Ha x). by right.
Qed.

(** The base register is not among them, or is restored to what it holds. *)
Lemma restores_run base fr p c : slots_at c base fr p → (∀ o, (base, o) ∈ fr → load64 (c_mem c) (p + o) = c_reg c base) →
  run (restores base fr) c = c <| c_reg := load_all (c_mem c) p fr (c_reg c) |>.
Proof.
  revert c. induction fr as [|[r o] fr IH]; intros c Ha Hb; [by destruct c|]. unfold restores. rewrite fmap_cons, run_cons. simpl exec.
  fold (restores base fr). assert (addr c o base = p + o) as -> by (apply (Ha (r, o)); by left).
  assert (c_reg (setr r (load64 (c_mem c) (p + o)) c) base = c_reg c base) as Eb.
  { simpl. destruct (decide (base = r)) as [->|Hne]; [rewrite upd_eq; apply Hb; by left|by rewrite upd_ne]. }
  rewrite IH; [done| |].
  - intros x Hx. rewrite <-(Ha x) by (by right). unfold addr. by rewrite Eb.
  - intros o' Ho'. rewrite Eb. apply Hb. by right.
Qed.

Lemma store_all_outside g p fr m a : (∀ x, x ∈ fr → a + 8 <= p + x.2 ∨ p + x.2 + 8 <= a) → load64 (store_all g p fr m) a = load64 m a.
Proof.
  revert m. induction fr as [|x fr IH]; intros m Ho; [done|]. simpl. rewrite IH by (intros y Hy; apply Ho; by right).
  apply load64_store64_ne. apply Ho. by left.
Qed.

Lemma store_all_inside g p fr m r o : words g → disjoint_slots fr → (r, o) ∈ fr → load64 (store_all g p fr m) (p + o) = g r.
Proof.
  intros Hw. revert m. induction fr as [|[r' o'] fr IH]; intros m Hd Hin; [by apply elem_of_nil in Hin|]. simpl.
  destruct (decide ((r, o) ∈ fr)) as [Hf|Hf].
  - apply IH; [|done]. intros i j x y Hi Hj Hij. apply (Hd (S i) (S j)); [done|done|lia].
  - apply elem_of_cons in Hin as [[= -> ->]|?]; [|done]. rewrite store_all_outside; [by apply load64_store64|].
    intros y Hy. apply list_elem_of_lookup in Hy as [j Hj]. destruct (Hd 0%nat (S j) (r', o') y); [done|done|lia|simpl in *; lia..].
Qed.

Lemma load_all_other m p fr g r : r ∉ fr.*1 → load_all m p fr g r = g r.
Proof.
  revert g. induction fr as [|[r' o] fr IH]; intros g Hr; [done|]. simpl in Hr |- *. rewrite not_elem_of_cons in Hr. destruct Hr as [Hne Hr].
  rewrite IH by done. by rewrite upd_ne.
Qed.
Lemma load_all_in m p fr g r o : NoDup fr.*1 → (r, o) ∈ fr → load_all m p fr g r = load64 m (p + o).
Proof.
  revert g. induction fr as [|[r' o'] fr IH]; intros g Hn Hin; [by apply elem_of_nil in Hin|]. simpl in Hn |- *. apply NoDup_cons in Hn as [Hr Hn].
  apply elem_of_cons in Hin as [[= -> ->]|Hin]; [by rewrite load_all_other, upd_eq|by apply IH].
Qed.

(** ** Traps from user space *)

(** The registers but [a0], in the order of the code. *)
Definition user_slots : slots := [(ra, 40); (sp, 48); (gp, 56); (tp, 64); (t0, 72); (t1, 80); (t2, 88); (s0, 96); (s1, 104);
  (a1, 120); (a2, 128); (a3, 136); (a4, 144); (a5, 152); (a6, 160); (a7, 168); (s2, 176); (s3, 184); (s4, 192); (s5, 200); (s6, 208);
  (s7, 216); (s8, 224); (s9, 232); (s10, 240); (s11, 248); (t3, 256); (t4, 264); (t5, 272); (t6, 280)].

(** The trapframe slot of a register. *)
Definition tf_off (r : reg) : Z :=
  match r with
  | ra => 40 | sp => 48 | gp => 56 | tp => 64 | t0 => 72 | t1 => 80 | t2 => 88 | s0 => 96 | s1 => 104 | a0 => 112 | a1 => 120 | a2 => 128
  | a3 => 136 | a4 => 144 | a5 => 152 | a6 => 160 | a7 => 168 | s2 => 176 | s3 => 184 | s4 => 192 | s5 => 200 | s6 => 208 | s7 => 216 | s8 => 224
  | s9 => 232 | s10 => 240 | s11 => 248 | t3 => 256 | t4 => 264 | t5 => 272 | t6 => 280
  end.
Lemma user_slots_all r : r ≠ a0 → (r, tf_off r) ∈ user_slots.
Proof. destruct r; intros Hr; try done; find_slot. Qed.
Lemma user_slots_range x : x ∈ user_slots → 40 <= x.2 <= 280 ∧ (x.2 + 8 <= 112 ∨ 120 <= x.2).
Proof. intros Hx. repeat (apply elem_of_cons in Hx as [->|Hx]; [simpl; lia|]). by apply elem_of_nil in Hx. Qed.

Lemma user_slots_a0 : a0 ∉ user_slots.*1.
Proof. refine (bool_decide_unpack _ _). by vm_compute. Qed.

(** Slots of a table that [o1 < o2] sorts, with 8 bytes each. *)
Lemma slots_step fr : (∀ i x y, fr !! i = Some x → fr !! S i = Some y → x.2 + 8 <= y.2) → disjoint_slots fr.
Proof.
  intros Hs. assert (∀ k i x y, fr !! i = Some x → fr !! (S k + i)%nat = Some y → x.2 + 8 <= y.2) as Hlt.
  { induction k as [|k IH]; intros i x y Hi Hj; [by eapply Hs|]. destruct (fr !! (S k + i)%nat) as [z|] eqn:Ez.
    - specialize (IH i x z Hi Ez). specialize (Hs _ _ _ Ez Hj). lia.
    - apply lookup_ge_None in Ez. apply lookup_lt_Some in Hj. lia. }
  intros i j x y Hi Hj Hij. destruct (Nat.lt_total i j) as [Hl|[?|Hl]]; [left|done|right].
  - apply (Hlt (j - i - 1)%nat i x y Hi). by replace (S (j - i - 1) + i)%nat with j by lia.
  - apply (Hlt (i - j - 1)%nat j y x Hj). by replace (S (i - j - 1) + j)%nat with i by lia.
Qed.
Definition ascending (fr : slots) : bool := forallb (λ x, x.1 + 8 <=? x.2) (zip fr.*2 (tail fr.*2)).
Lemma ascending_disjoint fr : ascending fr = true → disjoint_slots fr.
Proof.
  intros Ha. apply slots_step. intros i x y Hi Hj. unfold ascending in Ha. rewrite forallb_forall in Ha.
  specialize (Ha (x.2, y.2)). apply Z.leb_le, Ha. apply list_elem_of_In, list_elem_of_lookup. exists i.
  apply lookup_zip_Some. split; [by rewrite list_lookup_fmap, Hi|by rewrite lookup_tail, list_lookup_fmap, Hj].
Qed.

Lemma user_slots_disjoint : disjoint_slots user_slots.
Proof. by apply ascending_disjoint. Qed.
Lemma user_slots_nodup : NoDup user_slots.*1.
Proof. refine (bool_decide_unpack _ _). by vm_compute. Qed.

Lemma exec_ld c rd off base a : addr c off base = a → exec (Ld rd off base) c = setr rd (load64 (c_mem c) a) c.
Proof. by intros <-. Qed.
Lemma exec_sd c rs off base a : addr c off base = a → exec (Sd rs off base) c = c <| c_mem := store64 (c_mem c) a (c_reg c rs) |>.
Proof. by intros <-. Qed.

Section user.
Context (u p : Z) (Htr : ∀ o, 0 <= o <= 280 → tr u (TRAPFRAME + o) = p + o).

Lemma tf_addr c off : c_csr c satp = u → c_reg c a0 = TRAPFRAME → 0 <= off <= 280 → addr c off a0 = p + off.
Proof using Htr.
  intros Hu Ha Ho. unfold addr. rewrite Hu, Ha, u64_id; [by apply Htr|]. change TRAPFRAME with 274877898752. lia.
Qed.

Lemma uservec_run c : c_csr c satp = u → words (c_reg c) →
  let c' := run uservec c in
  (∀ r, load64 (c_mem c') (p + tf_off r) = c_reg c r) ∧
  (∀ a, a + 8 <= p + 40 ∨ p + 288 <= a → load64 (c_mem c') a = load64 (c_mem c) a) ∧
  c_reg c' sp = load64 (c_mem c) (tf_kernel_sp p) ∧ c_reg c' tp = load64 (c_mem c) (tf_kernel_hartid p) ∧
  c_csr c' satp = load64 (c_mem c) (tf_kernel_satp p) ∧ c_pc c' = load64 (c_mem c) (tf_kernel_trap p).
Proof using Htr.
  intros Hu Hw c'.
  set (c1 := setr a0 TRAPFRAME (setc sscratch (c_reg c a0) c)).
  set (m := store_all (c_reg c1) p user_slots (c_mem c)).
  set (m' := store64 m (p + 112) (c_reg c a0)).
  assert (slots_at c1 a0 user_slots p) as Ha.
  { intros x Hx%user_slots_range. apply tf_addr; [done|done|lia]. }
  assert (c' = c <| c_mem := m' |> <| c_pc := load64 m' (p + 16) |> <| c_csr := upd (upd (c_csr c) sscratch (c_reg c a0)) satp (load64 m' (p + 0)) |>
    <| c_reg := upd (upd (upd (upd (upd (upd (c_reg c) a0 TRAPFRAME) t0 (c_reg c a0)) sp (load64 m' (p + 8))) tp (load64 m' (p + 32))) t0 (load64 m' (p + 16))) t1 (load64 m' (p + 0)) |>) as Ec.
  { unfold c'. change uservec with ([Csrw sscratch a0; Li a0 TRAPFRAME] ++ saves a0 user_slots ++
      [Csrr t0 sscratch; Sd t0 112 a0; Ld sp 8 a0; Ld tp 32 a0; Ld t0 16 a0; Ld t1 0 a0; Sfence_vma; Csrw satp t1; Sfence_vma; Jr t0]).
    rewrite !run_app. change (run [Csrw sscratch a0; Li a0 TRAPFRAME] c) with c1. rewrite (saves_run a0 user_slots p c1 Ha).
    rewrite run_cons. rewrite run_cons, (exec_sd _ _ _ _ (p + 112)) by (by apply tf_addr).
    rewrite run_cons, (exec_ld _ _ _ _ (p + 8)) by (by apply tf_addr). rewrite run_cons, (exec_ld _ _ _ _ (p + 32)) by (by apply tf_addr).
    rewrite run_cons, (exec_ld _ _ _ _ (p + 16)) by (by apply tf_addr). rewrite run_cons, (exec_ld _ _ _ _ (p + 0)) by (by apply tf_addr).
    reflexivity. }
  assert (∀ a, a + 8 <= p + 40 ∨ p + 288 <= a → load64 m' a = load64 (c_mem c) a) as Hout.
  { intros a Hap. unfold m'. rewrite load64_store64_ne by lia. apply store_all_outside. intros x Hx%user_slots_range. lia. }
  rewrite Ec. simpl. rewrite !Hout by lia. split_and!; [|done..].
  intros r. destruct (decide (r = a0)) as [->|Hr]; [by apply load64_store64|]. pose proof (user_slots_all r Hr) as Hin.
  unfold m'. rewrite load64_store64_ne by (apply user_slots_range in Hin; simpl in Hin; lia).
  unfold m. rewrite (store_all_inside _ _ _ _ r); [simpl; by rewrite upd_ne| |apply user_slots_disjoint|done].
  intros r'. simpl. destruct (decide (r' = a0)) as [->|Hr']; [by rewrite upd_eq|by rewrite upd_ne].
Qed.

Lemma userret_run c : c_reg c a0 = u →
  let c' := run userret c in
  (∀ r, c_reg c' r = load64 (c_mem c) (p + tf_off r)) ∧ c_mem c' = c_mem c ∧ c_csr c' satp = u ∧ c_pc c' = c_csr c sepc.
Proof using Htr.
  intros Hu c'. set (c1 := setr a0 TRAPFRAME (setc satp u c)).
  assert (slots_at c1 a0 user_slots p) as Ha.
  { intros x Hx%user_slots_range. apply tf_addr; [done|done|lia]. }
  assert (c' = run [Ld a0 112 a0; Sret] (run (restores a0 user_slots) c1)) as ->.
  { unfold c'. change userret with ([Sfence_vma; Csrw satp a0; Sfence_vma; Li a0 TRAPFRAME] ++ restores a0 user_slots ++ [Ld a0 112 a0; Sret]).
    rewrite !run_app. do 2 f_equal. unfold c1. rewrite <-Hu. done. }
  rewrite (restores_run a0 user_slots p c1 Ha) by (intros o Ho; destruct user_slots_a0; by apply (list_elem_of_fmap_2 fst _ (a0, o))).
  rewrite run_cons, (exec_ld _ _ _ _ (p + 112)).
  2: { apply tf_addr; [done| |lia]. etrans; [exact (load_all_other _ _ _ _ a0 user_slots_a0)|done]. }
  split_and!; [|done..]. intros r. destruct (decide (r = a0)) as [->|Hr]; [apply upd_eq|]. etrans; [apply upd_ne; done|].
  apply load_all_in; [apply user_slots_nodup|by apply user_slots_all].
Qed.

(** A trap from user space and the return to it are transparent.  [uservec]
    saves all 31 registers of the process in its trapframe and writes nothing
    else, and enters the kernel at [kernel_trap] with the stack, hart id and page table the
    trapframe names; and when the kernel, whatever it has done to the registers, calls
    [userret] with the page table of the process and the trapframe words as they
    were, every register has its value again and execution continues at [sepc]. *)
Lemma trampoline_roundtrip c c2 : c_csr c satp = u → words (c_reg c) → let c1 := run uservec c in
  c_reg c2 a0 = u → (∀ r, load64 (c_mem c2) (p + tf_off r) = load64 (c_mem c1) (p + tf_off r)) → let c3 := run userret c2 in
  (∀ r, c_reg c3 r = c_reg c r) ∧ c_csr c3 satp = u ∧ c_pc c3 = c_csr c2 sepc ∧ c_mem c3 = c_mem c2 ∧
  c_reg c1 sp = load64 (c_mem c) (tf_kernel_sp p) ∧ c_reg c1 tp = load64 (c_mem c) (tf_kernel_hartid p) ∧
  c_csr c1 satp = load64 (c_mem c) (tf_kernel_satp p) ∧ c_pc c1 = load64 (c_mem c) (tf_kernel_trap p) ∧
  (∀ a, a + 8 <= p + 40 ∨ p + 288 <= a → load64 (c_mem c1) a = load64 (c_mem c) a).
Proof using Htr.
  intros Hu Hw c1 Ha Hm c3. destruct (uservec_run c Hu Hw) as (S1 & S2 & S3 & S4 & S5 & S6). destruct (userret_run c2 Ha) as (R1 & R2 & R3 & R4).
  split_and!; try done. intros r. unfold c3. by rewrite R1, Hm, S1.
Qed.
End user.

(** ** Context switches *)

Definition ctx_slots : slots := [(ra, 0); (sp, 8); (s0, 16); (s1, 24); (s2, 32); (s3, 40); (s4, 48); (s5, 56); (s6, 64); (s7, 72); (s8, 80);
  (s9, 88); (s10, 96); (s11, 104)].
Lemma ctx_slots_range x : x ∈ ctx_slots → 0 <= x.2 <= 104.
Proof. intros Hx. repeat (apply elem_of_cons in Hx as [->|Hx]; [simpl; lia|]). by apply elem_of_nil in Hx. Qed.
Lemma ctx_slots_nodup : NoDup ctx_slots.*1.
Proof. refine (bool_decide_unpack _ _). by vm_compute. Qed.
Lemma ctx_slots_arg : (a0 ∉ ctx_slots.*1) ∧ a1 ∉ ctx_slots.*1.
Proof. refine (bool_decide_unpack _ _). by vm_compute. Qed.

(** [old] and [new] at their physical addresses, which do not overlap. *)
Definition contexts (c : cpu) (old new : Z) : Prop :=
  (∀ o, 0 <= o <= 104 → addr c o a0 = old + o ∧ addr c o a1 = new + o) ∧ (old + 112 <= new ∨ new + 112 <= old).

Lemma swtch_run c old new : contexts c old new → words (c_reg c) → let c' := run swtch c in
  (∀ r o, (r, o) ∈ ctx_slots → load64 (c_mem c') (old + o) = c_reg c r ∧ c_reg c' r = load64 (c_mem c) (new + o)) ∧
  (∀ r, r ∉ ctx_slots.*1 → c_reg c' r = c_reg c r) ∧ c_pc c' = load64 (c_mem c) new ∧
  (∀ a, a + 8 <= old ∨ old + 112 <= a → load64 (c_mem c') a = load64 (c_mem c) a).
Proof.
  intros [Hc Hd] Hw c'. set (m := store_all (c_reg c) old ctx_slots (c_mem c)).
  assert (slots_at c a0 ctx_slots old) as H0 by (intros x Hx%ctx_slots_range; by apply Hc).
  assert (slots_at (c <| c_mem := m |>) a1 ctx_slots new) as H1 by (intros x Hx%ctx_slots_range; by apply Hc).
  assert (∀ a, a + 8 <= old ∨ old + 112 <= a → load64 m a = load64 (c_mem c) a) as Hout.
  { intros a Ha. apply store_all_outside. intros x Hx%ctx_slots_range. lia. }
  assert (c' = run [Jr ra] (c <| c_mem := m |> <| c_reg := load_all m new ctx_slots (c_reg c) |>)) as ->.
  { unfold c'. change swtch with (saves a0 ctx_slots ++ restores a1 ctx_slots ++ [Jr ra]). rewrite !run_app, (saves_run a0 ctx_slots old c H0). fold m.
    rewrite (restores_run a1 ctx_slots new _ H1); [done|]. intros o Ho. destruct ctx_slots_arg as [_ Hn]. destruct Hn. by apply (list_elem_of_fmap_2 fst _ (a1, o)). }
  assert (∀ r o, (r, o) ∈ ctx_slots → load_all m new ctx_slots (c_reg c) r = load64 (c_mem c) (new + o)) as Hl.
  { intros r o Hin. rewrite (load_all_in _ _ _ _ r o ctx_slots_nodup Hin). apply Hout. apply ctx_slots_range in Hin. simpl in Hin. lia. }
  split_and!.
  - intros r o Hin. split; [|by apply Hl]. apply store_all_inside; [done|by apply ascending_disjoint|done].
  - intros r Hr. by apply (load_all_other m new ctx_slots).
  - etrans; [apply (Hl ra 0); by left|]. by rewrite Z.add_0_r.
  - done.
Qed.

(** [swtch] suspends and resumes.  A thread that calls [swtch(old, new)] is
    resumed by any later [swtch(_, old)], on whatever hart, as long as the words
    of [old] are as they were: then [ra], [sp] and [s0] to [s11] have the values
    of the call, and execution continues behind it. *)
Lemma swtch_resumes c c2 old new x : contexts c old new → words (c_reg c) → let c1 := run swtch c in
  contexts c2 x old → words (c_reg c2) → (∀ o, 0 <= o <= 104 → load64 (c_mem c2) (old + o) = load64 (c_mem c1) (old + o)) →
  let c3 := run swtch c2 in
  (∀ r, r ∈ [ra; sp; s0; s1; s2; s3; s4; s5; s6; s7; s8; s9; s10; s11] → c_reg c3 r = c_reg c r) ∧ c_pc c3 = c_reg c ra ∧
  (∀ r, r ∉ [ra; sp; s0; s1; s2; s3; s4; s5; s6; s7; s8; s9; s10; s11] → c_reg c3 r = c_reg c2 r).
Proof.
  intros Hc Hw c1 Hc2 Hw2 Hm c3. destruct (swtch_run c old new Hc Hw) as (S1 & _). destruct (swtch_run c2 x old Hc2 Hw2) as (R1 & R2 & R3 & _).
  split_and!; [|unfold c3; rewrite R3; rewrite <-(Z.add_0_r old), Hm by lia; apply S1; by left|exact R2].
  intros r Hr. change [ra; sp; s0; s1; s2; s3; s4; s5; s6; s7; s8; s9; s10; s11] with ctx_slots.*1 in Hr.
  apply list_elem_of_fmap in Hr as ([r' o] & -> & Hin). simpl fst. unfold c3. rewrite (proj2 (R1 _ o Hin)), Hm by (by apply ctx_slots_range in Hin). by apply S1.
Qed.

(** ** Traps in the kernel *)

Definition kernel_slots : slots := [(ra, 0); (sp, 8); (gp, 16); (tp, 24); (t0, 32); (t1, 40); (t2, 48); (s0, 56); (s1, 64); (a0, 72); (a1, 80);
  (a2, 88); (a3, 96); (a4, 104); (a5, 112); (a6, 120); (a7, 128); (s2, 136); (s3, 144); (s4, 152); (s5, 160); (s6, 168); (s7, 176); (s8, 184);
  (s9, 192); (s10, 200); (s11, 208); (t3, 216); (t4, 224); (t5, 232); (t6, 240)].
(** All but [tp]. *)
Definition kernel_back : slots := filter (λ x, x.1 ≠ tp) kernel_slots.

Lemma kernel_slots_all r : ∃ o, (r, o) ∈ kernel_slots.
Proof. destruct r; eexists; find_slot. Qed.
Lemma kernel_slots_range x : x ∈ kernel_slots → 0 <= x.2 <= 240.
Proof. intros Hx. repeat (apply elem_of_cons in Hx as [->|Hx]; [simpl; lia|]). by apply elem_of_nil in Hx. Qed.
Lemma kernel_back_nodup : NoDup kernel_back.*1.
Proof. refine (bool_decide_unpack _ _). by vm_compute. Qed.

Lemma kernel_back_tp : tp ∉ kernel_back.*1.
Proof. refine (bool_decide_unpack _ _). by vm_compute. Qed.
Lemma kernel_back_in r o : r ≠ tp → (r, o) ∈ kernel_slots → (r, o) ∈ kernel_back.
Proof. intros Hr Hin. by apply list_elem_of_filter. Qed.

(** A trap in the kernel is transparent.  [kernelvec] saves every register
    below the stack pointer; if [kerneltrap] keeps the stack pointer and the
    saved words, every register but [tp] has its value again when the
    interrupted code continues at [sepc], and [tp] is that of the hart that runs
    it then. *)
Lemma kernelvec_transparent c c2 p : words (c_reg c) → 256 <= c_reg c sp →
  (∀ o, 0 <= o <= 240 → tr (c_csr c satp) (c_reg c sp - 256 + o) = p + o) → c_csr c2 satp = c_csr c satp →
  let c1 := run kernelvec_save c in
  c_reg c2 sp = c_reg c1 sp → (∀ o, 0 <= o <= 240 → load64 (c_mem c2) (p + o) = load64 (c_mem c1) (p + o)) →
  let c3 := run kernelvec_restore c2 in
  (∀ r, r ≠ tp → c_reg c3 r = c_reg c r) ∧ c_reg c3 tp = c_reg c2 tp ∧ c_pc c3 = c_csr c2 sepc ∧ c_mem c3 = c_mem c2.
Proof.
  intros Hw Hsp Htr Hsat c1 Hsp2 Hm c3. pose proof (Hw sp) as Hsp'. set (k := setr sp (c_reg c sp - 256) c).
  assert (∀ q o, c_csr q satp = c_csr c satp → c_reg q sp = c_reg c sp - 256 → 0 <= o <= 240 → addr q o sp = p + o) as Ha.
  { intros q o E1 E2 Ho. unfold addr. rewrite E1, E2, u64_id by lia. by apply Htr. }
  assert (c1 = k <| c_mem := store_all (c_reg k) p kernel_slots (c_mem c) |>) as E1.
  { unfold c1. change kernelvec_save with (Addi sp sp (-256) :: saves sp kernel_slots). rewrite run_cons. simpl exec.
    rewrite u64_id by lia. change (c_reg c sp + -256) with (c_reg c sp - 256). fold k. rewrite (saves_run sp kernel_slots p k); [done|].
    intros x Hx%kernel_slots_range. apply Ha; [done|apply upd_eq|done]. }
  assert (words (c_reg k)) as Hwk.
  { intros r. simpl. destruct (decide (r = sp)) as [->|Hr]; [rewrite upd_eq; lia|by rewrite upd_ne]. }
  assert (∀ r o, (r, o) ∈ kernel_slots → load64 (c_mem c2) (p + o) = c_reg k r) as Hload.
  { intros r o Hin. rewrite Hm by (by apply kernel_slots_range in Hin). rewrite E1. apply store_all_inside; [done|by apply ascending_disjoint|done]. }
  assert (c_reg c2 sp = c_reg c sp - 256) as Hs2 by (rewrite Hsp2, E1; apply upd_eq).
  assert (∀ x, x ∈ kernel_back → x ∈ kernel_slots) as Hsub by (by intros x [_ Hx]%list_elem_of_filter).
  assert (c3 = run [Addi sp sp 256; Sret] (c2 <| c_reg := load_all (c_mem c2) p kernel_back (c_reg c2) |>)) as ->.
  { unfold c3. change kernelvec_restore with (restores sp kernel_back ++ [Addi sp sp 256; Sret]). rewrite run_app.
    rewrite (restores_run sp kernel_back p c2); [reflexivity|intros x Hx%Hsub%kernel_slots_range; by apply Ha|]. intros o Ho%Hsub. rewrite (Hload sp o Ho), Hs2. apply upd_eq. }
  assert (∀ r, r ≠ tp → load_all (c_mem c2) p kernel_back (c_reg c2) r = c_reg k r) as Hl.
  { intros r Hr. destruct (kernel_slots_all r) as [o Ho]. rewrite (load_all_in _ _ _ _ r o); [by apply Hload|apply kernel_back_nodup|by apply kernel_back_in]. }
  split_and!; [|exact (load_all_other (c_mem c2) p kernel_back (c_reg c2) tp kernel_back_tp)|reflexivity|reflexivity].
  intros r Hr. destruct (decide (r = sp)) as [->|Hrs].
  - etrans; [apply upd_eq|]. change (c_reg (c2 <| c_reg := load_all (c_mem c2) p kernel_back (c_reg c2) |>) sp) with (load_all (c_mem c2) p kernel_back (c_reg c2) sp).
    rewrite (Hl sp) by done. unfold k. simpl. rewrite upd_eq, u64_id by lia. lia.
  - etrans; [by apply upd_ne|]. etrans; [by apply (Hl r)|]. by apply upd_ne.
Qed.

(** ** The timer interrupt, in machine mode, where addresses are physical *)

Section timer.
Context (c : cpu) (q t : Z).
Context (Hphys : ∀ a, tr (c_csr c satp) a = a) (Hw : words (c_reg c)) (Hmem : byte_mem (c_mem c)).
Context (Hq : c_csr c mscratch = q) (Hqr : 0 <= q /\ q + 40 <= 2 ^ 64) (Ht : load64 (c_mem c) (q + 24) = t) (Htr : t + 8 <= 2 ^ 64)
  (Hd : t + 8 <= q ∨ q + 40 <= t).

Lemma timer_sd g k m pc rs off base b : k satp = c_csr c satp → g base = b → 0 <= b + off < 2 ^ 64 →
  exec (Sd rs off base) (Cpu g k m pc) = Cpu g k (store64 m (b + off) (g rs)) pc.
Proof using Hphys. intros E1 E2 Hr. unfold exec, addr. simpl. by rewrite E1, E2, Hphys, u64_id. Qed.
Lemma timer_ld g k m pc rd off base b : k satp = c_csr c satp → g base = b → 0 <= b + off < 2 ^ 64 →
  exec (Ld rd off base) (Cpu g k m pc) = Cpu (upd g rd (load64 m (b + off))) k m pc.
Proof using Hphys. intros E1 E2 Hr. unfold exec, addr. simpl. by rewrite E1, E2, Hphys, u64_id. Qed.
Lemma timer_add g k m pc rd r1 r2 x y : g r1 = x → g r2 = y → exec (Add rd r1 r2) (Cpu g k m pc) = Cpu (upd g rd (u64 (x + y))) k m pc.
Proof. by intros <- <-. Qed.

(** The timer interrupt is transparent to the code it interrupts: [timervec]
    moves the next tick of the hart's timer by the interval, raises a supervisor
    software interrupt, and leaves every register and [mscratch] as they were. *)
Lemma timervec_ticks : let c' := run timervec c in
  (∀ r, c_reg c' r = c_reg c r) ∧ load64 (c_mem c') t = u64 (load64 (c_mem c) t + load64 (c_mem c) (q + 32)) ∧
  c_csr c' sip = 2 ∧ c_csr c' mscratch = q ∧ c_pc c' = c_csr c mepc.
Proof using All.
  intros c'. set (m1 := store64 (store64 (store64 (c_mem c) q (c_reg c a1)) (q + 8) (c_reg c a2)) (q + 16) (c_reg c a3)).
  assert (∀ a, a + 8 <= q ∨ q + 24 <= a → load64 m1 a = load64 (c_mem c) a) as Hm1.
  { intros a Ha. unfold m1. by rewrite !load64_store64_ne by lia. }
  set (v := u64 (load64 (c_mem c) t + load64 (c_mem c) (q + 32))). set (m2 := store64 m1 t v).
  assert (0 <= v < 2 ^ 64) as Hv by apply u64_range.
  assert (0 <= t) as Ht0.
  { rewrite <-Ht. pose proof (load_bound 8 (c_mem c) (q + 24) Hmem). unfold load64. lia. }
  assert (load64 m2 q = c_reg c a1 ∧ load64 m2 (q + 8) = c_reg c a2 ∧ load64 m2 (q + 16) = c_reg c a3) as (L1 & L2 & L3).
  { unfold m2, m1. rewrite !(load64_store64_ne _ _ t) by lia. rewrite load64_store64 by apply Hw.
    rewrite (load64_store64_ne _ (q + 8) (q + 16)), load64_store64 by (lia || apply Hw).
    rewrite (load64_store64_ne _ q (q + 16)), (load64_store64_ne _ q (q + 8)), load64_store64 by (lia || apply Hw). done. }
  assert (c' = Cpu (upd (upd (upd (upd (upd (upd (upd (upd (upd (upd (c_reg c) a0 q) a1 t) a2 (load64 (c_mem c) (q + 32))) a3 (load64 (c_mem c) t)) a3 v) a1 2)
      a3 (c_reg c a3)) a2 (c_reg c a2)) a1 (c_reg c a1)) a0 (c_reg c a0))
    (upd (upd (upd (c_csr c) mscratch (c_reg c a0)) sip 2) mscratch q) m2 (c_csr c mepc)) as ->.
  { unfold c', timervec. rewrite run_cons.
    change (exec (Csrrw a0 mscratch a0) c) with (Cpu (upd (c_reg c) a0 (c_csr c mscratch)) (upd (c_csr c) mscratch (c_reg c a0)) (c_mem c) (c_pc c)). rewrite Hq.
    rewrite run_cons, (timer_sd _ _ _ _ _ _ _ q), Z.add_0_r by (done || lia). rewrite run_cons, (timer_sd _ _ _ _ _ _ _ q) by (done || lia).
    rewrite run_cons, (timer_sd _ _ _ _ _ _ _ q) by (done || lia). change (store64 _ (q + 16) _) with m1.
    rewrite run_cons, (timer_ld _ _ _ _ _ _ _ q), (Hm1 (q + 24)), Ht by (done || lia).
    rewrite run_cons, (timer_ld _ _ _ _ _ _ _ q), (Hm1 (q + 32)) by (done || lia).
    rewrite run_cons, (timer_ld _ _ _ _ _ _ _ t), Z.add_0_r, (Hm1 t) by (done || lia).
    rewrite run_cons, (timer_add _ _ _ _ _ _ _ (load64 (c_mem c) t) (load64 (c_mem c) (q + 32))) by done. fold v.
    rewrite run_cons, (timer_sd _ _ _ _ _ _ _ t), Z.add_0_r by (done || lia). change (store64 m1 t _) with m2.
    rewrite run_cons. change (exec (Li a1 2) (Cpu ?g ?k ?m ?pc)) with (Cpu (upd g a1 2) k m pc).
    rewrite run_cons. change (exec (Csrw sip a1) (Cpu ?g ?k ?m ?pc)) with (Cpu g (upd k sip 2) m pc).
    rewrite run_cons, (timer_ld _ _ _ _ _ _ _ q), L3 by (done || lia). rewrite run_cons, (timer_ld _ _ _ _ _ _ _ q), L2 by (done || lia).
    rewrite run_cons, (timer_ld _ _ _ _ _ _ _ q), Z.add_0_r, L1 by (done || lia). reflexivity. }
  cbn [c_reg c_csr c_mem c_pc]. split_and!; [|by apply load64_store64|by rewrite upd_ne, upd_eq|by rewrite upd_eq|done].
  intros r. destruct r; reflexivity.
Qed.
End timer.
End asm.

(** A hart without translation whose registers hold 7. *)
(** ** Types *)

(** Registers, control registers and the program counter hold 64-bit words, memory holds bytes. *)
Record typed (c : cpu) : Prop := {
  ty_reg : words (c_reg c);
  ty_csr : ∀ k, 0 <= c_csr c k < 2 ^ 64;
  ty_mem : byte_mem (c_mem c);
  ty_pc : 0 <= c_pc c < 2 ^ 64;
}.
Definition imm_ok (i : instr) : Prop := match i with Li _ imm => 0 <= imm < 2 ^ 64 | _ => True end.

Lemma typed_setr r v c : typed c → 0 <= v < 2 ^ 64 → typed (setr r v c).
Proof.
  intros [T1 T2 T3 T4] Hv. split; try done. intros r'. simpl. destruct (decide (r' = r)) as [->|Hr]; [by rewrite upd_eq|by rewrite upd_ne].
Qed.
Lemma typed_setc k v c : typed c → 0 <= v < 2 ^ 64 → typed (setc k v c).
Proof.
  intros [T1 T2 T3 T4] Hv. split; try done. intros k'. simpl. destruct (decide (k' = k)) as [->|Hr]; [by rewrite upd_eq|by rewrite upd_ne].
Qed.

Lemma exec_typed tr i c : imm_ok i → typed c → typed (exec tr i c).
Proof.
  intros Hi T. pose proof T as [T1 T2 T3 T4].
  destruct i; simpl in *; try (apply typed_setr; [try apply typed_setc|]); try apply typed_setc; try apply u64_range; try done.
  - split; try done. by apply store_byte.
  - by apply (load_bound 8).
  - by split; [..|apply T1].
  - by split; [..|apply T2].
  - by split; [..|apply T2].
Qed.

Lemma run_typed tr p c : Forall imm_ok p → typed c → typed (run tr p c).
Proof. intros Hp. revert c. induction Hp as [|i p Hi Hp IH]; intros c T; [done|]. rewrite run_cons. by apply IH, exec_typed. Qed.


Module AsmDemo.
Definition flat (_ a : Z) : Z := a.
Definition c0 : cpu := Cpu (λ _, 7) (λ _, 9) (λ _, 0) 0.
Definition at_call (old new : Z) : cpu := setr a1 new (setr a0 old c0).
Definition stacked : cpu := setr sp 4096 c0.
Definition ticking : cpu := (setc mscratch 1000 c0) <| c_mem := store64 (store64 (λ _, 0) 1024 2000) 1032 100 |>.

Lemma words7 : words (c_reg c0).
Proof. intros r. simpl. lia. Qed.
Lemma words_setr r v c : words (c_reg c) → 0 <= v < 2 ^ 64 → words (c_reg (setr r v c)).
Proof. intros Hw Hv r'. simpl. destruct (decide (r' = r)) as [->|Hr]; [by rewrite upd_eq|by rewrite upd_ne]. Qed.
Lemma setr_mem r v c a : load64 (c_mem (setr r v c)) a = load64 (c_mem c) a.
Proof. done. Qed.
Lemma setr_eq r v c : c_reg (setr r v c) r = v.
Proof. apply upd_eq. Qed.
Lemma mem_set m c a : load64 (c_mem (c <| c_mem := m |>)) a = load64 m a.
Proof. done. Qed.
Lemma at_call_ok old new : 0 <= old <= 5000 → 0 <= new <= 5000 → old + 112 <= new ∨ new + 112 <= old →
  contexts flat (at_call old new) old new ∧ words (c_reg (at_call old new)).
Proof.
  intros Ho Hn Hd. split; [split; [|done]|by repeat apply words_setr; [apply words7|lia..]].
  intros o Hr. unfold addr, flat. simpl. rewrite upd_eq, upd_ne, upd_eq, !u64_id by (done || lia). done.
Qed.
Lemma contexts_mem m c old new : contexts flat c old new → contexts flat (c <| c_mem := m |>) old new.
Proof. done. Qed.
Lemma ticking_bytes : byte_mem (c_mem ticking).
Proof. intros a. unfold ticking. simpl. unfold store64. cbn [store]. unfold wr. repeat case_match; first [by apply Z.mod_pos_bound|lia]. Qed.
Lemma ticking_24 : load64 (c_mem ticking) (1000 + 24) = 2000.
Proof. vm_compute. reflexivity. Qed.
End AsmDemo.

