(* ===== verification/UserRet.v ===== *)
(** * To user space and back

    [usertrapret] of [kernel/trap.c] and the trampoline of [kernel/trampoline.S]
    together: what the C code leaves in the trapframe and the control registers is
    what the assembly takes from there. *)
From S2P Require Import Prelude Machine Cstring Spinlock Kalloc Vm Proc Syscall Trap Asm.

Section return_.
Context {F D : Type} `{FileSys F} `{PlicDev D} (kernelvec usertrap_pc uservec_pc userret_pc trampoline : Z).
Abbreviation tst := (tstate F D).
Abbreviation usertrapret' := (Trap.usertrapret (F := F) (D := D) usertrap_pc uservec_pc userret_pc trampoline).
Abbreviation mem_of s := (k_mem (ps_k (t_p s))).

(** The memory after the kernel's part of the trapframe was filled in. *)
Definition filled_tf (s : tst) (p : proc) : mem :=
  let tf := p_trapframe p in
  store64 (store64 (store64 (store64 (mem_of s) (tf_kernel_satp tf) (t_satp s)) (tf_kernel_sp tf) (u64 (p_kstack p + PGSIZE)))
    (tf_kernel_trap tf) usertrap_pc) (tf_kernel_hartid tf) (t_tp s).

Lemma filled_other s p a : a + 8 <= p_trapframe p ∨ p_trapframe p + 40 <= a ∨ a = tf_epc (p_trapframe p) → load64 (filled_tf s p) a = load64 (mem_of s) a.
Proof.
  intros Ha. unfold filled_tf, tf_kernel_satp, tf_kernel_sp, tf_kernel_trap, tf_kernel_hartid. unfold tf_epc in Ha.
  rewrite !load64_store64_ne by lia. done.
Qed.

Lemma filled_words s p : let tf := p_trapframe p in 0 <= t_satp s < 2 ^ 64 → 0 <= usertrap_pc < 2 ^ 64 → 0 <= t_tp s < 2 ^ 64 → let m := filled_tf s p in
  load64 m (tf_kernel_satp tf) = t_satp s ∧ load64 m (tf_kernel_sp tf) = u64 (p_kstack p + PGSIZE) ∧
  load64 m (tf_kernel_trap tf) = usertrap_pc ∧ load64 m (tf_kernel_hartid tf) = t_tp s.
Proof.
  intros tf H1 H2 H3 m. subst m. unfold filled_tf. fold tf. unfold tf_kernel_satp, tf_kernel_sp, tf_kernel_trap, tf_kernel_hartid.
  assert (0 <= u64 (p_kstack p + PGSIZE) < 2 ^ 64) by (by apply Z.mod_pos_bound).
  split_and!; repeat first [rewrite load64_store64 by done|rewrite load64_store64_ne by lia]; done.
Qed.

Lemma usertrapret_run i p (s : tst) : hart_ok (hart_of (t_p s)) → ps_cur (t_p s) = Some i → ps_proc (t_p s) !! i = Some p →
  wp usertrapret' (λ r s', r = (TRAMPOLINE + (userret_pc - trampoline), MAKE_SATP (p_pagetable p)) ∧
    mem_of s' = filled_tf s p ∧ t_sepc s' = load64 (mem_of s) (tf_epc (p_trapframe p)) ∧
    t_stvec s' = TRAMPOLINE + (uservec_pc - trampoline) ∧ t_sstatus s' = Z.lor (Z.land (t_sstatus s) (not64 SSTATUS_SPP)) SSTATUS_SPIE ∧
    h_sie (k_hart (ps_k (t_p s'))) = false) s.
Proof.
  destruct s as [[[h m fl fr n] ps q ip np cur tk fst out fs] sc se sv ss stv sip sat tpv dev]. simpl. intros Ho Hc Hp.
  unfold usertrapret. wp_step. apply wp_zoom. apply (wp_intro _ _ _ _ _ (me_run _ i Ho Hc)). simpl.
  wp_step. do 2 apply wp_zoom. unfold intr_off. apply wp_modify. simpl. wp_step. apply wp_modify. simpl.
  wp_step. apply wp_zoom. simpl. eapply wp_intro; [by apply (pget_run i p)|]. simpl. wp_step. unfold get. apply wp_gets.
  do 4 (wp_step; do 2 apply wp_zoom; unfold wr64; apply wp_modify; simpl). wp_step. apply wp_modify. simpl. wp_step. do 2 apply wp_zoom. unfold rd64. apply wp_gets. simpl.
  wp_step. apply wp_modify. simpl. wp_step. simpl. split_and!; try reflexivity.
  match goal with |- _ = load64 m ?a => change (load64 (filled_tf (TState (PState (KState h m fl fr n) ps q ip np cur tk fst out fs) sc se sv ss stv sip sat tpv dev) p) a = load64 m a) end.
  by apply filled_other; right; right.
Qed.

(** The bits of [sstatus] that [sret] looks at. *)
Lemma sstatus_user x : Z.testbit (Z.lor (Z.land x (not64 SSTATUS_SPP)) SSTATUS_SPIE) 8 = false ∧
  Z.testbit (Z.lor (Z.land x (not64 SSTATUS_SPP)) SSTATUS_SPIE) 5 = true.
Proof.
  rewrite !Z.lor_spec, !Z.land_spec. change (Z.testbit (not64 SSTATUS_SPP) 8) with false. change (Z.testbit SSTATUS_SPIE 8) with false.
  change (Z.testbit SSTATUS_SPIE 5) with true. by rewrite andb_false_r, orb_true_r.
Qed.

Section user.
(** The address translation maps the page [TRAPFRAME] of the process to its trapframe. *)
Context (tr : Z → Z → Z) {i : nat} {p : proc} (Htr : ∀ o, 0 <= o <= 280 → tr (MAKE_SATP (p_pagetable p)) (TRAPFRAME + o) = p_trapframe p + o).

(** C20: the way to user space and back.  [usertrapret], from a process with registers in
    its trapframe, turns interrupts off, points [stvec] at [uservec], chooses user mode with
    interrupts on for [sret] and jumps to [userret] with the page table of the process;
    [userret] loads every register from the trapframe and goes on at its [epc].  At the next trap,
    with whatever registers, [uservec] saves them all in the trapframe and enters [usertrap] on the
    kernel stack of the process, with the page table and the hart number that the kernel had:
    the words the C code stored are the words the assembly uses. *)
Theorem user_round_trip (s : tst) : hart_ok (hart_of (t_p s)) → ps_cur (t_p s) = Some i → ps_proc (t_p s) !! i = Some p →
  0 <= t_satp s < 2 ^ 64 → 0 <= t_tp s < 2 ^ 64 → 0 <= usertrap_pc < 2 ^ 64 →
  let u := MAKE_SATP (p_pagetable p) in let tf := p_trapframe p in
  ∃ s', usertrapret' s = (Ret (TRAMPOLINE + (userret_pc - trampoline), u), s') ∧ t_stvec s' = TRAMPOLINE + (uservec_pc - trampoline) ∧
    Z.testbit (t_sstatus s') 8 = false ∧ Z.testbit (t_sstatus s') 5 = true ∧ h_sie (k_hart (ps_k (t_p s'))) = false ∧
    ∀ c, c_mem c = mem_of s' → c_csr c sepc = t_sepc s' → c_reg c a0 = u → let c1 := run tr userret c in
      (∀ r, c_reg c1 r = load64 (mem_of s) (tf + tf_off r)) ∧ c_pc c1 = load64 (mem_of s) (tf_epc tf) ∧ c_csr c1 satp = u ∧
      ∀ c2, c_csr c2 satp = u → words (c_reg c2) → (∀ o, 0 <= o < 40 → load64 (c_mem c2) (tf + o) = load64 (c_mem c1) (tf + o)) →
        let c3 := run tr uservec c2 in
        c_pc c3 = usertrap_pc ∧ c_reg c3 sp = u64 (p_kstack p + PGSIZE) ∧ c_reg c3 tp = t_tp s ∧ c_csr c3 satp = t_satp s ∧
        ∀ r, load64 (c_mem c3) (tf + tf_off r) = c_reg c2 r.
Proof.
  intros Ho Hc Hp H1 H2 H3 u tf. destruct (proj1 (wp_run _ _ _) (usertrapret_run i p s Ho Hc Hp)) as (r & s' & E & -> & Em & Ee & Es & Ess & Eh).
  destruct (sstatus_user (t_sstatus s)) as [B1 B2]. destruct (filled_words s p H1 H3 H2) as (F1 & F2 & F3 & F4).
  exists s'. split_and!; [done|done|by rewrite Ess|by rewrite Ess|done|]. intros c Hm Hsepc Ha c1.
  destruct (userret_run tr u tf Htr c Ha) as (R1 & R2 & R3 & R4). fold c1 in R1, R2, R3, R4. split_and!; [|by rewrite R4, Hsepc|done|].
  - intros r. rewrite R1, Hm, Em. apply filled_other. right. left. fold tf. destruct r; simpl; lia.
  - intros c2 Hu Hw Hk c3. destruct (uservec_run tr u tf Htr c2 Hu Hw) as (S1 & _ & S3 & S4 & S5 & S6). fold c3 in S1, S3, S4, S5, S6.
    rewrite S3, S4, S5, S6. unfold tf_kernel_sp, tf_kernel_hartid, tf_kernel_satp, tf_kernel_trap in *. rewrite !Hk by lia. rewrite R2, Hm, Em. done.
Qed.
End user.
End return_.

Module UserRetDemo.
(** A process whose trapframe is at 4096, with a flat memory behind its page table. *)
Definition tf : Z := 4096.
Definition proc1 : proc := proc0 <| p_trapframe := tf |> <| p_pagetable := 8192 |> <| p_kstack := 16384 |>.
Definition tr (_ a : Z) : Z := a - TRAPFRAME + tf.
Definition s0 : tstate unit unit :=
  TState (PState (KState (Hart 0 true true []) (store64 (store64 (λ _, 0) (tf + 24) 100) (tf + 112) 7) 0 (λ _, 0) 1) [proc1] [] None 2 (Some O) 0 false [] tt)
    8 0 0 0 0 0 9 0 tt.
Definition cpu_of (s : tstate unit unit) : cpu :=
  setr a0 (MAKE_SATP 8192) (setc sepc (t_sepc s) (Cpu (λ _, 0) (λ _, 0) (k_mem (ps_k (t_p s))) 0)).

Lemma hart0 : hart_ok (hart_of (t_p s0)).
Proof. split_and!; simpl; try done. constructor. Qed.
End UserRetDemo.

Lemma user_round_trip_witness : ∃ s', usertrapret 500 600 700 560 UserRetDemo.s0 = (Ret (TRAMPOLINE + 140, MAKE_SATP 8192), s') ∧
  c_pc (run UserRetDemo.tr userret (UserRetDemo.cpu_of s')) = 100 ∧ c_reg (run UserRetDemo.tr userret (UserRetDemo.cpu_of s')) a0 = 7.
Proof.
  destruct (user_round_trip (F := unit) (D := unit) 500 600 700 560 UserRetDemo.tr (i := O) (p := UserRetDemo.proc1)
    ltac:(intros o Ho; unfold UserRetDemo.tr; simpl; unfold UserRetDemo.tf; lia) UserRetDemo.s0 UserRetDemo.hart0 eq_refl eq_refl
    ltac:(simpl; lia) ltac:(simpl; lia) ltac:(lia)) as (s' & E & _ & _ & _ & _ & H).
  destruct (H (UserRetDemo.cpu_of s') eq_refl eq_refl eq_refl) as (Hr & Hpc & _).
  exists s'. split; [exact E|]. split; [etrans; [exact Hpc|]|etrans; [exact (Hr a0)|]]; vm_compute; reflexivity.
Defined.
