(* ===== verification/Start.v ===== *)
(** * Entering the kernel: [kernel/entry.S] and [kernel/start.c]

    A hart enters at [_entry] in machine mode, gets its stack, and [start] sets
    up its control registers and its timer and leaves for [main] in supervisor
    mode.  [main], [timervec], [timer_scratch] and [stack0] are addresses of the
    linker. *)
From S2P Require Import Prelude Machine Cstring Asm.

Definition CLINT : Z := 0x2000000.
Definition CLINT_MTIMECMP (hartid : Z) : Z := CLINT + 0x4000 + 8 * hartid.
Definition CLINT_MTIME : Z := CLINT + 0xBFF8.
Definition MSTATUS_MPP_MASK : Z := Z.shiftl 3 11.
Definition MSTATUS_MPP_S : Z := Z.shiftl 1 11.
Definition MSTATUS_MIE : Z := Z.shiftl 1 3.
Definition SIE_SEIE : Z := Z.shiftl 1 9.
Definition SIE_STIE : Z := Z.shiftl 1 5.
Definition SIE_SSIE : Z := Z.shiftl 1 1.
Definition MIE_MTIE : Z := Z.shiftl 1 7.

(** ** The register accesses of [kernel/riscv.h] *)
Definition r_mhartid (c : cpu) : Z := c_csr c mhartid.
Definition r_mstatus (c : cpu) : Z := c_csr c mstatus.
Definition r_sie (c : cpu) : Z := c_csr c sie.
Definition r_mie (c : cpu) : Z := c_csr c mie.
Definition w_mstatus (x : Z) (c : cpu) : cpu := setc mstatus x c.
Definition w_mepc (x : Z) (c : cpu) : cpu := setc mepc x c.
Definition w_sie (x : Z) (c : cpu) : cpu := setc sie x c.
Definition w_mie (x : Z) (c : cpu) : cpu := setc mie x c.
Definition w_medeleg (x : Z) (c : cpu) : cpu := setc medeleg x c.
Definition w_mideleg (x : Z) (c : cpu) : cpu := setc mideleg x c.
Definition w_mtvec (x : Z) (c : cpu) : cpu := setc mtvec x c.
Definition w_pmpcfg0 (x : Z) (c : cpu) : cpu := setc pmpcfg0 x c.
Definition w_pmpaddr0 (x : Z) (c : cpu) : cpu := setc pmpaddr0 x c.
Definition w_satp (x : Z) (c : cpu) : cpu := setc satp x c.
Definition w_mscratch (x : Z) (c : cpu) : cpu := setc mscratch x c.
Definition w_tp (x : Z) (c : cpu) : cpu := setr tp x c.

Section start.
Context (main timervec timer_scratch stack0 : Z).

(** [&timer_scratch[id][0]] *)
Definition scratch_of (id : Z) : Z := timer_scratch + 40 * id.

Definition timerinit (c : cpu) : cpu :=
  let id := i32 (r_mhartid c) in
  let interval := 1000000 in
  let c := c <| c_mem := store64 (c_mem c) (CLINT_MTIMECMP id) (u64 (load64 (c_mem c) CLINT_MTIME + interval)) |> in
  let scratch := scratch_of id in
  let c := c <| c_mem := store64 (c_mem c) (scratch + 8 * 3) (u64 (CLINT_MTIMECMP id)) |> in
  let c := c <| c_mem := store64 (c_mem c) (scratch + 8 * 4) interval |> in
  let c := w_mscratch scratch c in
  let c := w_mtvec timervec c in
  let c := w_mstatus (Z.lor (r_mstatus c) MSTATUS_MIE) c in
  w_mie (Z.lor (r_mie c) MIE_MTIE) c.

Definition start (c : cpu) : cpu :=
  let x := r_mstatus c in
  let x := Z.land x (not64 MSTATUS_MPP_MASK) in
  let x := Z.lor x MSTATUS_MPP_S in
  let c := w_mstatus x c in
  let c := w_mepc main c in
  let c := w_satp 0 c in
  let c := w_medeleg 0xffff c in
  let c := w_mideleg 0xffff c in
  let c := w_sie (Z.lor (Z.lor (Z.lor (r_sie c) SIE_SEIE) SIE_STIE) SIE_SSIE) c in
  let c := w_pmpaddr0 0x3fffffffffffff c in
  let c := w_pmpcfg0 0xf c in
  let c := timerinit c in
  let id := i32 (r_mhartid c) in
  let c := w_tp (u64 id) c in
  exec (λ _ a, a) Mret c.

(** From the first instruction to [main]; in machine mode addresses are physical. *)
Definition boot_hart (c : cpu) : cpu := start (run (λ _ a, a) (_entry stack0) c).

(** The privilege [mret] goes to: 1 is supervisor mode. *)
Definition mpp (c : cpu) : Z := Z.land (Z.shiftr (c_csr c mstatus) 11) 3.
Definition bit (x k : Z) : bool := Z.testbit x k.

(** ** The hart at [main] *)

Lemma entry_regs c : 0 <= c_csr c mhartid < Z.of_nat NCPU → 0 <= stack0 < 2 ^ 32 → let c1 := run (λ _ a, a) (_entry stack0) c in
  c_reg c1 sp = stack0 + 4096 * (c_csr c mhartid + 1) ∧ c_csr c1 = c_csr c ∧ c_mem c1 = c_mem c.
Proof.
  intros Hh Hs. unfold NCPU in Hh. split_and!; [|done|done].
  change (c_reg _ sp) with (u64 (stack0 + u64 (1024 * 4 * u64 (c_csr c mhartid + 1)))). rewrite (u64_id (c_csr c mhartid + 1)), (u64_id (1024 * 4 * _)), u64_id by lia. lia.
Qed.

Lemma start_mstatus x : 0 <= x < 2 ^ 64 → let y := Z.lor (Z.lor (Z.land x (not64 MSTATUS_MPP_MASK)) MSTATUS_MPP_S) MSTATUS_MIE in
  Z.land (Z.shiftr y 11) 3 = 1 ∧ bit y 3 = true.
Proof.
  intros Hx y. split.
  - apply Z.bits_inj'. intros k Hk. unfold y. rewrite Z.land_spec, Z.shiftr_spec, !Z.lor_spec, Z.land_spec by lia.
    destruct (decide (k < 2)) as [D|D].
    + assert (k = 0 ∨ k = 1) as [->| ->] by lia; rewrite ?andb_false_r; [|reflexivity]. rewrite orb_true_r. reflexivity.
    + change 3 with (Z.ones 2). rewrite Z.ones_spec_high by lia. rewrite andb_false_r. symmetry. change 1 with (Z.ones 1). apply Z.ones_spec_high. lia.
  - unfold bit, y. rewrite Z.lor_spec. change (Z.testbit MSTATUS_MIE 3) with true. apply orb_true_r.
Qed.

Lemma sie_bits x : let y := Z.lor (Z.lor (Z.lor x SIE_SEIE) SIE_STIE) SIE_SSIE in bit y 1 = true ∧ bit y 5 = true ∧ bit y 9 = true.
Proof. unfold bit. rewrite !Z.lor_spec. by rewrite !orb_true_r. Qed.

(** A hart that enters the kernel gets a stack of its own, and arrives at
    [main] in supervisor mode with paging off, its number in [tp] and all traps
    delegated; machine mode keeps the timer: its interrupts are enabled, go to
    [timervec], and the scratch area of the hart is set up as [timervec] uses it.
    The timers and scratch areas of the other harts are not touched. *)
Lemma boot_hart_main c : 0 <= c_csr c mhartid < Z.of_nat NCPU → 0 <= c_csr c mstatus < 2 ^ 64 → 0 <= stack0 < 2 ^ 32 →
  KERNBASE <= timer_scratch < 2 ^ 32 →
  let id := c_csr c mhartid in let c' := boot_hart c in
  c_pc c' = main ∧ mpp c' = 1 ∧ c_csr c' satp = 0 ∧ c_reg c' tp = id ∧ c_reg c' sp = stack0 + 4096 * (id + 1) ∧
  c_csr c' medeleg = 0xffff ∧ c_csr c' mideleg = 0xffff ∧ bit (c_csr c' sie) 1 = true ∧ bit (c_csr c' sie) 5 = true ∧ bit (c_csr c' sie) 9 = true ∧
  bit (c_csr c' mstatus) 3 = true ∧ bit (c_csr c' mie) 7 = true ∧ c_csr c' mtvec = timervec ∧ c_csr c' mscratch = scratch_of id ∧
  load64 (c_mem c') (scratch_of id + 24) = CLINT_MTIMECMP id ∧ load64 (c_mem c') (scratch_of id + 32) = 1000000 ∧
  load64 (c_mem c') (CLINT_MTIMECMP id) = u64 (load64 (c_mem c) CLINT_MTIME + 1000000) ∧
  ∀ id' k, 0 <= id' < Z.of_nat NCPU → id' ≠ id → 0 <= k < 5 →
    load64 (c_mem c') (CLINT_MTIMECMP id') = load64 (c_mem c) (CLINT_MTIMECMP id') ∧
    load64 (c_mem c') (scratch_of id' + 8 * k) = load64 (c_mem c) (scratch_of id' + 8 * k).
Proof.
  intros Hh Hm Hs Ht. cbv zeta. unfold boot_hart. destruct (entry_regs c Hh Hs) as (Esp & Ec & Em). set (c1 := run _ _ c) in *.
  set (id := c_csr c mhartid) in *. unfold NCPU, KERNBASE in *. assert (i32 id = id) as Eid by (apply i32_id; lia).
  set (m1 := store64 (c_mem c1) (CLINT_MTIMECMP id) (u64 (load64 (c_mem c1) CLINT_MTIME + 1000000))).
  set (m2 := store64 (store64 m1 (scratch_of id + 24) (u64 (CLINT_MTIMECMP id))) (scratch_of id + 32) 1000000).
  assert (c_mem (start c1) = m2) as Emem.
  { unfold m2, m1. rewrite <-Eid at 1 2 3 4. unfold id. rewrite <-Ec. reflexivity. }
  assert (c_csr (start c1) mscratch = scratch_of id) as Esc by (rewrite <-Eid; unfold id; rewrite <-Ec; reflexivity).
  assert (c_reg (start c1) tp = id) as Etp.
  { etrans; [|exact (u64_id id ltac:(lia))]. rewrite <-Eid at 1. unfold id. rewrite <-Ec. reflexivity. }
  rewrite Emem, Esc, Etp. unfold scratch_of, CLINT_MTIMECMP, CLINT in *.
  split_and!; try reflexivity.
  - unfold mpp. change (c_csr (start c1) mstatus) with (Z.lor (Z.lor (Z.land (c_csr c1 mstatus) (not64 MSTATUS_MPP_MASK)) MSTATUS_MPP_S) MSTATUS_MIE).
    rewrite Ec. by apply start_mstatus.
  - exact Esp.
  - apply sie_bits.
  - apply sie_bits.
  - apply sie_bits.
  - change (c_csr (start c1) mstatus) with (Z.lor (Z.lor (Z.land (c_csr c1 mstatus) (not64 MSTATUS_MPP_MASK)) MSTATUS_MPP_S) MSTATUS_MIE).
    rewrite Ec. by apply start_mstatus.
  - unfold bit. change (c_csr (start c1) mie) with (Z.lor (c_csr c1 mie) MIE_MTIE). rewrite Z.lor_spec. apply orb_true_r.
  - unfold m2. rewrite load64_store64_ne, u64_id, load64_store64 by lia. done.
  - unfold m2. by rewrite load64_store64 by lia.
  - unfold m2, m1. rewrite !load64_store64_ne, load64_store64, Em by (lia || apply u64_range). done.
  - intros id' k Hid' Hne Hk. unfold m2, m1. by rewrite !load64_store64_ne, Em by lia.
Qed.
End start.
