(* ===== verification/Sh.v ===== *)
(** * The shell: the parser of [user/sh.c]

    The line is the list [s] of its characters without the NUL; a position in it
    is an index, and [es] its length.  A word is kept as the two positions [q]
    and [eq], as the C code keeps two pointers, until [nulterminate] cuts the
    words out of the buffer.  The C code adds the arguments of a command to an
    [execcmd] that redirections may already have wrapped; here the arguments and
    the redirections are collected and put together at the end.  [panic] ends
    the parser with a message.  [malloc] is taken to succeed. *)
From S2P Require Import Prelude Machine Sysfile.

Definition MAXARGS : nat := 10.

Abbreviation word := (nat * nat)%type.       (** [q] and [eq] *)

Record redir := Redir { r_file : word; r_mode : Z; r_fd : Z }.

Inductive cmd :=
| EXEC (argv : list word)
| REDIR (c : cmd) (r : redir)
| PIPE (left right : cmd)
| LIST (left right : cmd)
| BACK (c : cmd).

(** Successful at a position, or a panic; [PFuel] is no outcome of the code. *)
Inductive pres (A : Type) := POk (a : A) (i : nat) | PErr (msg : string) | PFuel.
Arguments POk {A} _ _.
Arguments PErr {A} _.
Arguments PFuel {A}.

Definition pbind {A B} (m : pres A) (k : A → nat → pres B) : pres B :=
  match m with POk a i => k a i | PErr e => PErr e | PFuel => PFuel end.
Notation "'let^' a , i := m 'in' k" := (pbind m (λ a i, k)) (at level 10, a name, i name, m at level 100, k at level 200) : kernel_scope.

(** [whitespace] and [symbols] *)
Definition whitespace : list Z := [32; 9; 13; 10; 11].
Definition symbols : list Z := [60; 124; 62; 38; 59; 40; 41].
Definition is_ws (c : Z) : bool := bool_decide (c ∈ whitespace).
Definition is_word (c : Z) : bool := negb (is_ws c) && negb (bool_decide (c ∈ symbols)).

(** The length of the longest prefix of characters that satisfy [P]. *)
Fixpoint span (P : Z → bool) (l : list Z) : nat :=
  match l with c :: l' => if P c then S (span P l') else O | [] => O end.

Section parser.
Context (s : list Z).
Let es := length s.

(** [*s] at a position: the NUL at [es] *)
Definition ch (i : nat) : Z := default 0 (s !! i).
Definition skip_ws (i : nat) : nat := i + span is_ws (drop i s).

(** The token, [q], [eq] and the new position; 97 is ['a'], 43 is ['+']. *)
Definition gettoken (i : nat) : Z * word * nat :=
  let q := skip_ws i in
  let c := ch q in
  let '(ret, eq) :=
    if c =? 0 then (c, q)
    else if bool_decide (c ∈ [124; 40; 41; 59; 38; 60]) then (c, S q)
    else if c =? 62 then if ch (S q) =? 62 then (43, S (S q)) else (c, S q)
    else (97, (q + span is_word (drop q s))%nat) in
  (ret, (q, eq), skip_ws eq).

Definition peek (i : nat) (toks : list Z) : nat * bool :=
  let i := skip_ws i in
  (i, negb (ch i =? 0) && bool_decide (ch i ∈ toks)).

Fixpoint parseredirs (fuel i : nat) (rs : list redir) : pres (list redir) :=
  match fuel with
  | O => PFuel
  | S f =>
      let '(i, p) := peek i [60; 62] in
      if p : bool then
        let '(tok, _, i) := gettoken i in
        let '(t, w, i) := gettoken i in
        if negb (t =? 97) then PErr "missing file for redirection" else
        let r := if tok =? 60 then Redir w O_RDONLY 0
                 else if tok =? 62 then Redir w (Z.lor (Z.lor O_WRONLY O_CREATE) O_TRUNC) 1
                 else Redir w (Z.lor O_WRONLY O_CREATE) 1 in
        parseredirs f i (rs ++ [r])
      else POk rs i
  end.

(** [cmd = redircmd(cmd, ...)] for each redirection *)
Definition wrap (c : cmd) (rs : list redir) : cmd := foldl REDIR c rs.

(** The loop of [parseexec] *)
Fixpoint exec_loop (fuel i : nat) (argv : list word) (rs : list redir) : pres cmd :=
  match fuel with
  | O => PFuel
  | S f =>
      let '(i, p) := peek i [124; 41; 38; 59] in
      if p : bool then POk (wrap (EXEC argv) rs) i else
      let '(tok, w, i) := gettoken i in
      if tok =? 0 then POk (wrap (EXEC argv) rs) i else
      if negb (tok =? 97) then PErr "syntax" else
      if (MAXARGS <=? S (length argv))%nat then PErr "too many args" else
      let^ rs, i := parseredirs (S (es - i)) i rs in
      exec_loop f i (argv ++ [w]) rs
  end.

(** [while(peek(ps, es, "&"))] *)
Fixpoint back_loop (fuel i : nat) (c : cmd) : pres cmd :=
  match fuel with
  | O => PFuel
  | S f =>
      let '(i, p) := peek i [38] in
      if p : bool then let '(_, _, i) := gettoken i in back_loop f i (BACK c) else POk c i
  end.

Fixpoint parseline (fuel i : nat) : pres cmd :=
  match fuel with
  | O => PFuel
  | S f =>
      let^ c, i := parsepipe f i in
      let^ c, i := back_loop (S (es - i)) i c in
      let '(i, p) := peek i [59] in
      if p : bool then
        let '(_, _, i) := gettoken i in
        let^ r, i := parseline f i in
        POk (LIST c r) i
      else POk c i
  end
with parsepipe (fuel i : nat) : pres cmd :=
  match fuel with
  | O => PFuel
  | S f =>
      let^ c, i := parseexec f i in
      let '(i, p) := peek i [124] in
      if p : bool then
        let '(_, _, i) := gettoken i in
        let^ r, i := parsepipe f i in
        POk (PIPE c r) i
      else POk c i
  end
with parseexec (fuel i : nat) : pres cmd :=
  match fuel with
  | O => PFuel
  | S f =>
      let '(i, p) := peek i [40] in
      if p : bool then parseblock f i else
      let^ rs, i := parseredirs (S (es - i)) i [] in
      exec_loop (S (es - i)) i [] rs
  end
with parseblock (fuel i : nat) : pres cmd :=
  match fuel with
  | O => PFuel
  | S f =>
      let '(i, p) := peek i [40] in
      if negb p then PErr "parseblock" else
      let '(_, _, i) := gettoken i in
      let^ c, i := parseline f i in
      let '(i, p) := peek i [41] in
      if negb p then PErr "syntax - missing )" else
      let '(_, _, i) := gettoken i in
      let^ rs, i := parseredirs (S (es - i)) i [] in
      POk (wrap c rs) i
  end.

(** [parsecmd] up to [nulterminate] *)
Definition parsecmd (fuel : nat) : pres cmd :=
  let^ c, i := parseline fuel 0 in
  let '(i, _) := peek i [] in
  if negb (i =? es)%nat then PErr "syntax" else POk c i.
End parser.

(** [*eq = 0] *)
Definition cut (w : word) (buf : list Z) : list Z := <[snd w := 0]> buf.

(** [buf] is the line with its NUL. *)
Fixpoint nulterminate (c : cmd) (buf : list Z) : list Z :=
  match c with
  | EXEC argv => foldl (flip cut) buf argv
  | REDIR c r => cut (r_file r) (nulterminate c buf)
  | PIPE l r | LIST l r => nulterminate r (nulterminate l buf)
  | BACK c => nulterminate c buf
  end.
