(* ===== verification/ShSpec.v ===== *)
(** * The parser of the shell accepts a grammar

    The line as a list of tokens, the grammar of commands over tokens, and the
    proof that [parsecmd] accepts exactly the lines of the grammar, with the
    tree the grammar gives them, and that it always returns. *)
From S2P Require Import Prelude Machine Sysfile Sh.

(** A token: its kind, and where it is. *)
Abbreviation tok := (Z * word)%type.

Lemma span_le P l : (span P l <= length l)%nat.
Proof. induction l as [|c l IH]; simpl; [lia|]. destruct (P c); simpl; lia. Qed.
Lemma span_pos P c l : P c = true → span P (c :: l) = S (span P l).
Proof. simpl. by intros ->. Qed.
Lemma span_in P l k : (k < span P l)%nat → ∃ c, l !! k = Some c ∧ P c = true.
Proof.
  revert k. induction l as [|c l IH]; intros k Hk; simpl in Hk; [lia|]. destruct (P c) eqn:E; [|lia].
  destruct k as [|k]; [by exists c|]. apply IH. lia.
Qed.
Lemma span_stop P l c : l !! span P l = Some c → P c = false.
Proof. induction l as [|x l IH]; [done|]. simpl. destruct (P x) eqn:E; [apply IH|simpl; congruence]. Qed.

Section tokens.
Context (s : list Z) (H0 : 0 ∉ s).
Let es := length s.

Lemma ch_end i : (es <= i)%nat → ch s i = 0.
Proof. intros Hi. unfold ch. by rewrite lookup_ge_None_2. Qed.
Lemma ch_zero i : ch s i = 0 ↔ (es <= i)%nat.
Proof using H0.
  split; [|apply ch_end]. unfold ch. intros E. destruct (s !! i) as [c|] eqn:Ei; [|by apply lookup_ge_None in Ei]. simpl in E. subst.
  destruct H0. by eapply list_elem_of_lookup_2.
Qed.

Lemma skip_ge i : (i <= skip_ws s i)%nat.
Proof. unfold skip_ws. lia. Qed.
Lemma skip_le i : (i <= es)%nat → (skip_ws s i <= es)%nat.
Proof. intros Hi. unfold skip_ws. pose proof (span_le is_ws (drop i s)). rewrite length_drop in *. unfold es in *. lia. Qed.
Lemma skip_stop i : is_ws (ch s (skip_ws s i)) = false.
Proof.
  unfold skip_ws, ch. destruct (s !! (i + span is_ws (drop i s))%nat) as [c|] eqn:E; [|done]. simpl. rewrite <-lookup_drop in E. by apply span_stop in E.
Qed.
Lemma skip_id i : is_ws (ch s i) = false → skip_ws s i = i.
Proof.
  unfold skip_ws, ch. intros Hw. destruct (drop i s) as [|c l] eqn:E; [simpl; lia|].
  assert (s !! i = Some c) as Ei by (rewrite <-(Nat.add_0_r i), <-lookup_drop, E; done). rewrite Ei in Hw. simpl in Hw. simpl. rewrite Hw. lia.
Qed.
Lemma skip_skip i : skip_ws s (skip_ws s i) = skip_ws s i.
Proof. apply skip_id, skip_stop. Qed.
Lemma gettoken_skip i : gettoken s (skip_ws s i) = gettoken s i.
Proof. unfold gettoken. by rewrite skip_skip. Qed.

(** The kind of a token is told by its first character. *)
Definition first (t c : Z) : Prop := t = c ∧ c ∈ symbols ∨ t = 43 ∧ c = 62 ∨ t = 97 ∧ is_word c = true ∧ c ≠ 0.

Lemma gettoken_cases i : let '(t, (q, e), i') := gettoken s i in q = skip_ws s i ∧ i' = skip_ws s e ∧
  (t = 0 ∧ e = q ∧ (es <= q)%nat ∨ t ≠ 0 ∧ (q < e)%nat ∧ (q < es)%nat ∧ first t (ch s q)).
Proof using H0.
  unfold gettoken. set (q := skip_ws s i). destruct (Z.eqb_spec (ch s q) 0) as [E|E].
  { split_and!; [done|done|left]. split_and!; [done|done|by apply ch_zero]. }
  assert (q < es)%nat as Hq by (destruct (decide (q < es)%nat); [done|]; destruct E; apply ch_zero; lia).
  pose proof (skip_stop i) as Hws. fold q in Hws. case_bool_decide as Hs.
  { split_and!; [done|done|right]. split_and!; [done|lia|done|left]. split; [done|]. revert Hs. unfold symbols. set_solver. }
  destruct (Z.eqb_spec (ch s q) 62) as [E62|E62].
  { rewrite E62. destruct (ch s (S q) =? 62); (split_and!; [done|done|right]); (split_and!; [done|lia|done|]); [right; by left|left].
    split; [done|]. unfold symbols. set_solver. }
  assert (is_word (ch s q) = true) as Hw.
  { unfold is_word. rewrite Hws. simpl. rewrite bool_decide_eq_false_2; [done|]. unfold symbols. set_solver. }
  split_and!; [done|done|right]. split_and!; [done| |done|right; right; done].
  destruct (drop q s) as [|c l] eqn:Ed; [apply (f_equal length) in Ed; rewrite length_drop in Ed; simpl in Ed; unfold es in *; lia|].
  rewrite span_pos; [lia|]. assert (s !! q = Some c) as Ec by (rewrite <-(Nat.add_0_r q), <-lookup_drop, Ed; done). unfold ch in Hw. by rewrite Ec in Hw.
Qed.

Fixpoint tokens_n (n i : nat) : list tok :=
  match n with
  | O => []
  | S n => let '(t, w, i') := gettoken s i in if t =? 0 then [] else (t, w) :: tokens_n n i'
  end.
Definition tokens (i : nat) : list tok := tokens_n (es - i) i.

Lemma tokens_n_enough n m i : (es - i <= n)%nat → (es - i <= m)%nat → tokens_n n i = tokens_n m i.
Proof using H0.
  revert m i. induction n as [|n IH]; intros m i Hn Hm.
  - destruct m as [|m]; [done|]. simpl. pose proof (gettoken_cases i) as Hg. destruct (gettoken s i) as [[t [q e]] i']. destruct Hg as (-> & -> & [(-> & _)|(_ & _ & Hq & _)]); [done|].
    pose proof (skip_ge i). lia.
  - simpl. pose proof (gettoken_cases i) as Hg. destruct (gettoken s i) as [[t [q e]] i'] eqn:Eg. destruct Hg as (-> & -> & [(-> & _ & Hq)|(Ht & Hqe & Hq & _)]).
    + destruct m as [|m]; [done|]. simpl. by rewrite Eg.
    + rewrite (proj2 (Z.eqb_neq t 0)) by done. pose proof (skip_ge i). pose proof (skip_ge e). destruct m as [|m]; [lia|]. simpl. rewrite Eg.
      rewrite (proj2 (Z.eqb_neq t 0)) by done. f_equal. apply IH; lia.
Qed.

Lemma tokens_eq i : tokens i = let '(t, w, i') := gettoken s i in if t =? 0 then [] else (t, w) :: tokens i'.
Proof using H0.
  unfold tokens at 1. destruct (es - i)%nat as [|n] eqn:En.
  - simpl. pose proof (gettoken_cases i) as Hg. destruct (gettoken s i) as [[t [q e]] i']. destruct Hg as (-> & -> & [(-> & _)|(_ & _ & Hq & _)]); [done|].
    pose proof (skip_ge i). lia.
  - simpl. pose proof (gettoken_cases i) as Hg. destruct (gettoken s i) as [[t [q e]] i']. destruct Hg as (-> & -> & [(-> & _)|(Ht & Hqe & Hq & _)]); [done|].
    rewrite (proj2 (Z.eqb_neq t 0)) by done. f_equal. pose proof (skip_ge i). pose proof (skip_ge e). apply tokens_n_enough; lia.
Qed.

Lemma tokens_skip i : tokens (skip_ws s i) = tokens i.
Proof using H0. by rewrite tokens_eq, gettoken_skip, <-tokens_eq. Qed.

Lemma tokens_length i : (length (tokens i) <= es - i)%nat.
Proof using H0.
  remember (es - i)%nat as n eqn:En. revert i En. induction n as [n IH] using lt_wf_ind. intros i En. rewrite tokens_eq.
  pose proof (gettoken_cases i) as Hg. destruct (gettoken s i) as [[t [q e]] i']. destruct Hg as (-> & -> & [(-> & _)|(Ht & Hqe & Hq & _)]); [simpl; lia|].
  rewrite (proj2 (Z.eqb_neq t 0)) by done. pose proof (skip_ge i). pose proof (skip_ge e). simpl. specialize (IH (es - skip_ws s e)%nat ltac:(lia) _ eq_refl). lia.
Qed.

Lemma gettoken_le i : (i <= es)%nat → (snd (gettoken s i) <= es)%nat.
Proof using H0.
  intros Hi%skip_le. unfold gettoken. set (q := skip_ws s i) in *. fold es in Hi. pose proof (span_le is_word (drop q s)) as Hs. rewrite length_drop in Hs. fold es in Hs.
  destruct (Z.eqb_spec (ch s q) 0) as [E|E]; [by apply skip_le|]. rewrite ch_zero in E.
  case_bool_decide; [apply skip_le; fold es; lia|]. destruct (ch s q =? 62); [|apply skip_le; fold es; lia].
  destruct (Z.eqb_spec (ch s (S q)) 62) as [E2|E2]; apply skip_le; fold es; [|lia]. destruct (decide (S q < es)%nat); [lia|].
  rewrite (ch_end (S q)) in E2 by (fold es; lia). done.
Qed.

(** The tokens left at a position of the line. *)
Definition at_ (i : nat) (l : list tok) : Prop := tokens i = l ∧ (i <= es)%nat.

(** What a call of [gettoken] does to the tokens that are left. *)
Lemma gettoken_at i l : at_ i l → match l with
  | [] => ∃ w i', gettoken s i = (0, w, i') ∧ at_ i' []
  | (t, w) :: l => ∃ i', gettoken s i = (t, w, i') ∧ at_ i' l ∧ t ≠ 0
  end.
Proof using H0.
  intros [<- Hi]. pose proof (gettoken_le i Hi) as Hle. unfold at_. rewrite tokens_eq. pose proof (gettoken_cases i) as Hg.
  destruct (gettoken s i) as [[t [q e]] i']. simpl in Hle. destruct Hg as (Eq & Ei & Hc). destruct Hc as [(-> & -> & Hq)|(Ht & _)].
  - exists (q, q), i'. split; [done|]. split; [|done]. subst. rewrite tokens_skip, tokens_skip. apply nil_length_inv. pose proof (tokens_length (skip_ws s i)).
    rewrite tokens_skip in *. lia.
  - rewrite (proj2 (Z.eqb_neq t 0)) by done. by exists i'.
Qed.

(** ... and of [peek]. *)
Definition head_in (T : list Z) (l : list tok) : bool :=
  match l with (t, _) :: _ => bool_decide (t ∈ T ∨ t = 43 ∧ 62 ∈ T) | [] => false end.

Lemma peek_at i l T : at_ i l → T ⊆ symbols → ∃ i', peek s i T = (i', head_in T l) ∧ at_ i' l.
Proof using H0.
  intros [<- Hi] HT. exists (skip_ws s i). split; [|split; [apply tokens_skip|by apply skip_le]]. unfold peek. f_equal. rewrite tokens_eq.
  pose proof (gettoken_cases i) as Hg. destruct (gettoken s i) as [[t [q e]] i']. destruct Hg as (-> & _ & Hc). set (q := skip_ws s i) in *.
  destruct Hc as [(-> & _ & Hq)|(Ht & _ & Hq & Hf)]; [by rewrite (ch_end q)|]. rewrite (proj2 (Z.eqb_neq t 0)) by done. simpl.
  rewrite (proj2 (Z.eqb_neq (ch s q) 0)) by (rewrite ch_zero; lia). simpl. apply bool_decide_ext.
  assert ((43 ∉ symbols) ∧ (97 ∉ symbols)) as [N1 N2] by (split; refine (bool_decide_unpack _ _); by vm_compute).
  destruct Hf as [[-> Hs]|[[-> ->]|(-> & Hw & _)]].
  - split; [by left|]. intros [?|[E ?]]; [done|]. rewrite E in Hs. done.
  - split; [by right|]. intros [?|[_ ?]]; [|done]. destruct N1. by apply HT.
  - split.
    + intros Hin%HT. unfold is_word in Hw. rewrite (bool_decide_eq_true_2 _ Hin) in Hw. by rewrite andb_false_r in Hw.
    + intros [?|[? _]]; [|done]. destruct N2. by apply HT.
Qed.

(** ** The loops over tokens *)

Definition redir_of (t : Z) (w : word) : redir :=
  if t =? 60 then Redir w O_RDONLY 0
  else if t =? 62 then Redir w (Z.lor (Z.lor O_WRONLY O_CREATE) O_TRUNC) 1
  else Redir w (Z.lor O_WRONLY O_CREATE) 1.
Definition is_redir (t : Z) : bool := bool_decide (t ∈ [60; 62; 43]).
(** Where a simple command ends. *)
Definition stops (l : list tok) : bool := match l with [] => true | (t, _) :: _ => bool_decide (t ∈ [124; 41; 38; 59]) end.

Fixpoint t_redirs (l : list tok) : option (list redir * list tok) :=
  match l with
  | (t, _) :: l1 =>
      if is_redir t then
        match l1 with
        | (t', w) :: l2 => if t' =? 97 then match t_redirs l2 with Some (rs, l') => Some (redir_of t w :: rs, l') | None => None end else None
        | [] => None
        end
      else Some ([], l)
  | [] => Some ([], [])
  end.

Fixpoint t_items (l : list tok) : option (list word * list redir * list tok) :=
  match l with
  | [] => Some ([], [], [])
  | (t, w) :: l1 =>
      if t =? 97 then match t_items l1 with Some (a, rs, l') => Some (w :: a, rs, l') | None => None end
      else if is_redir t then
        match l1 with
        | (t', w) :: l2 => if t' =? 97 then match t_items l2 with Some (a, rs, l') => Some (a, redir_of t w :: rs, l') | None => None end else None
        | [] => None
        end
      else if stops l then Some ([], [], l) else None
  end.

(** The outcome of a part of the parser: it gets as far as [l], or panics. *)
Definition lands {A} (r : pres A) (o : option (A * list tok)) : Prop :=
  match o with Some (a, l) => ∃ i, r = POk a i ∧ at_ i l | None => ∃ e, r = PErr e end.

Lemma head_in_redir l : head_in [60; 62] l = match l with (t, _) :: _ => is_redir t | [] => false end.
Proof. clear es H0 s. destruct l as [|[t w] l]; [done|]. simpl. unfold is_redir. apply bool_decide_ext. set_solver. Qed.
Lemma redirs_sub : [60; 62] ⊆ symbols.
Proof. clear es H0 s. unfold symbols. set_solver. Qed.
Lemma one_sub c : bool_decide (c ∈ symbols) = true → [c] ⊆ symbols.
Proof. clear es H0 s. intros Hc%bool_decide_eq_true. set_solver. Qed.
Lemma stops_sub : [124; 41; 38; 59] ⊆ symbols.
Proof. clear es H0 s. unfold symbols. set_solver. Qed.

Lemma parseredirs_run n : ∀ l i rs f, (length l <= n)%nat → at_ i l → (length l < f)%nat →
  lands (parseredirs s f i rs) (match t_redirs l with Some (rs', l') => Some (rs ++ rs', l') | None => None end).
Proof using H0.
  induction n as [|n IH]; intros l i rs f Hn Hi Hf; (destruct f as [|f]; [lia|]); cbn [parseredirs];
    destruct (peek_at i l [60; 62] Hi redirs_sub) as (i1 & -> & Hi1); rewrite head_in_redir.
  { destruct l; [|simpl in Hn; lia]. exists i1. by rewrite app_nil_r. }
  destruct l as [|[t w0] l]; [exists i1; by rewrite app_nil_r|]. cbn [t_redirs]. destruct (is_redir t) eqn:Et; [|exists i1; by rewrite app_nil_r].
  destruct (gettoken_at _ _ Hi1) as (i2 & -> & Hi2 & _). pose proof (gettoken_at _ _ Hi2) as Hg. destruct l as [|[t' w] l].
  { destruct Hg as (w & i3 & -> & _). by eexists. }
  destruct Hg as (i3 & -> & Hi3 & _). destruct (Z.eqb_spec t' 97) as [->|Hne]; [|by eexists]. simpl in Hn, Hf.
  specialize (IH l i3 (rs ++ [redir_of t w]) f ltac:(lia) Hi3 ltac:(lia)). change (negb true) with false. cbv iota. fold (redir_of t w).
  destruct (t_redirs l) as [[rs' l']|]; [by rewrite <-app_assoc in IH|done].
Qed.

Lemma t_redirs_rest n : ∀ l rs l', (length l <= n)%nat → t_redirs l = Some (rs, l') → (length l' <= length l)%nat ∧ head_in [60; 62] l' = false.
Proof. clear es H0 s.
  induction n as [|n IH]; intros l rs l' Hn E; (destruct l as [|[t w] l]; [simpl in E; injection E as <- <-; done|]); [simpl in Hn; lia|].
  cbn [t_redirs] in E. destruct (is_redir t) eqn:Et; [|injection E as <- <-; rewrite head_in_redir; done].
  destruct l as [|[t' w'] l]; [done|]. destruct (t' =? 97); [|done]. destruct (t_redirs l) as [[rs1 l1]|] eqn:E1; [|done]. injection E as <- <-.
  simpl in Hn |- *. destruct (IH l rs1 l1 ltac:(lia) E1). split; [lia|done].
Qed.

Lemma t_items_redirs n : ∀ l, (length l <= n)%nat → t_items l =
  match t_redirs l with
  | Some (rs, l1) => match t_items l1 with Some (a, rs', l') => Some (a, rs ++ rs', l') | None => None end
  | None => None
  end.
Proof. clear es H0 s.
  induction n as [|n IH]; intros l Hn; (destruct l as [|[t w] l]; [done|]); [simpl in Hn; lia|]. cbn [t_redirs].
  destruct (is_redir t) eqn:Et.
  2: { cbv beta iota. by destruct (t_items ((t, w) :: l)) as [[[a rs] l']|]. }
  cbn [t_items]. rewrite Et. assert ((t =? 97) = false) as -> by (apply Z.eqb_neq; intros ->; done).
  destruct l as [|[t' w'] l]; [done|]. destruct (t' =? 97); [|done]. simpl in Hn. rewrite (IH l) by lia.
  destruct (t_redirs l) as [[rs1 l1]|]; [|done]. by destruct (t_items l1) as [[[a rs'] l']|].
Qed.

Lemma exec_loop_run n : ∀ l i argv rs f, (length l <= n)%nat → at_ i l → (length l < f)%nat → head_in [60; 62] l = false → (length argv < MAXARGS)%nat →
  lands (exec_loop s f i argv rs)
    (match t_items l with
     | Some (a, rs', l') => if (length argv + length a <? MAXARGS)%nat then Some (wrap (EXEC (argv ++ a)) (rs ++ rs'), l') else None
     | None => None
     end).
Proof using H0.
  induction n as [|n IH]; intros l i argv rs f Hn Hi Hf Hr Ha; (destruct f as [|f]; [lia|]); cbn [exec_loop];
    destruct (peek_at i l [124; 41; 38; 59] Hi stops_sub) as (i1 & -> & Hi1); pose proof (gettoken_at _ _ Hi1) as Hg;
    (destruct l as [|[t w] l]; [destruct Hg as (w & i2 & -> & Hi2); simpl; rewrite Nat.add_0_r, !app_nil_r;
       rewrite (proj2 (Nat.ltb_lt _ _) Ha); exists i2; done|]); [simpl in Hn; lia|].
  destruct Hg as (i2 & -> & Hi2 & Ht). rewrite head_in_redir in Hr. cbn [t_items]. rewrite Hr. cbn [head_in stops].
  assert (bool_decide (t ∈ [124; 41; 38; 59] ∨ t = 43 ∧ 62 ∈ [124; 41; 38; 59]) = bool_decide (t ∈ [124; 41; 38; 59])) as -> by (apply bool_decide_ext; set_solver).
  destruct (bool_decide (t ∈ [124; 41; 38; 59])) eqn:Es.
  { assert ((t =? 97) = false) as -> by (apply Z.eqb_neq; intros ->; done). rewrite Nat.add_0_r, !app_nil_r, (proj2 (Nat.ltb_lt _ _) Ha). by exists i1. }
  rewrite (proj2 (Z.eqb_neq t 0)) by done. destruct (Z.eqb_spec t 97) as [->|Hne]; [|by eexists]. change (negb true) with false. cbv iota.
  simpl in Hn, Hf. destruct (Nat.leb_spec MAXARGS (S (length argv))) as [Hmax|Hmax].
  { destruct (t_items l) as [[[a rs'] l']|]; [|by eexists]. rewrite (proj2 (Nat.ltb_ge _ _)) by (simpl; lia). by eexists. }
  pose proof (tokens_length i2) as Hl2. rewrite (proj1 Hi2) in Hl2.
  pose proof (parseredirs_run (length l) l i2 rs (S (length s - i2)) ltac:(lia) Hi2 ltac:(fold es; lia)) as Hred.
  rewrite (t_items_redirs (length l) l) by lia. destruct (t_redirs l) as [[rs1 l1]|] eqn:E1; [|destruct Hred as [e ->]; by exists e].
  destruct Hred as (i3 & -> & Hi3). destruct (t_redirs_rest (length l) l rs1 l1 ltac:(lia) E1) as [Hl1 Hr1]. cbn [pbind].
  specialize (IH l1 i3 (argv ++ [w]) (rs ++ rs1) f ltac:(lia) Hi3 ltac:(lia) Hr1). rewrite length_app in IH. simpl in IH. specialize (IH ltac:(lia)).
  destruct (t_items l1) as [[[a rs'] l']|]; [|done]. simpl. replace (length argv + 1 + length a)%nat with (length argv + S (length a))%nat in IH by lia.
  by rewrite <-!app_assoc in IH.
Qed.

Fixpoint t_backs (l : list tok) (c : cmd) : cmd * list tok :=
  match l with (t, _) :: l' => if t =? 38 then t_backs l' (BACK c) else (c, l) | [] => (c, l) end.

Lemma back_loop_run l : ∀ i c f, at_ i l → (length l < f)%nat → lands (back_loop s f i c) (Some (t_backs l c)).
Proof using H0.
  induction l as [|[t w] l IH]; intros i c f Hi Hf; (destruct f as [|f]; [lia|]); cbn [back_loop];
    destruct (peek_at i _ [38] Hi (one_sub 38 eq_refl)) as (i1 & -> & Hi1); cbn [head_in t_backs lands].
  { by exists i1. }
  assert (bool_decide (t ∈ [38] ∨ t = 43 ∧ 62 ∈ [38]) = (t =? 38)) as ->.
  { destruct (Z.eqb_spec t 38); [apply bool_decide_eq_true_2; set_solver|apply bool_decide_eq_false_2; set_solver]. }
  destruct (t =? 38); [|by exists i1]. destruct (gettoken_at _ _ Hi1) as (i2 & -> & Hi2 & _). apply IH; [done|simpl in Hf; lia].
Qed.
End tokens.

(** ** The grammar *)

Inductive gredirs : list tok → list redir → Prop :=
| gr_nil : gredirs [] []
| gr_cons t w0 w l rs : is_redir t = true → gredirs l rs → gredirs ((t, w0) :: (97, w) :: l) (redir_of t w :: rs).

(** The words and redirections of a simple command, in any order. *)
Inductive gitems : list tok → list word → list redir → Prop :=
| gi_nil : gitems [] [] []
| gi_word w l a rs : gitems l a rs → gitems ((97, w) :: l) (w :: a) rs
| gi_redir t w0 w l a rs : is_redir t = true → gitems l a rs → gitems ((t, w0) :: (97, w) :: l) a (redir_of t w :: rs).

Inductive gexec : list tok → cmd → Prop :=
| ge_simple l a rs : gitems l a rs → (length a < MAXARGS)%nat → gexec l (wrap (EXEC a) rs)
| ge_block w1 l w2 l' c rs : gline l c → gredirs l' rs → gexec ((40, w1) :: l ++ (41, w2) :: l') (wrap c rs)
with gpipe : list tok → cmd → Prop :=
| gp_exec l c : gexec l c → gpipe l c
| gp_pipe l w l' c c' : gexec l c → gpipe l' c' → gpipe (l ++ (124, w) :: l') (PIPE c c')
with gback : list tok → cmd → Prop :=
| gb_pipe l c : gpipe l c → gback l c
| gb_back l w c : gback l c → gback (l ++ [(38, w)]) (BACK c)
with gline : list tok → cmd → Prop :=
| gl_back l c : gback l c → gline l c
| gl_list l w l' c c' : gback l c → gline l' c' → gline (l ++ (59, w) :: l') (LIST c c').

(** ** The loops and the grammar *)

Lemma t_redirs_sound n : ∀ l rs l', (length l <= n)%nat → t_redirs l = Some (rs, l') → ∃ l1, l = l1 ++ l' ∧ gredirs l1 rs.
Proof.
  induction n as [|n IH]; intros l rs l' Hn E; (destruct l as [|[t w] l]; [simpl in E; injection E as <- <-; exists []; split; [done|constructor]|]);
    [simpl in Hn; lia|].
  cbn [t_redirs] in E. destruct (is_redir t) eqn:Et; [|injection E as <- <-; exists []; split; [done|constructor]].
  destruct l as [|[t' w'] l]; [done|]. destruct (Z.eqb_spec t' 97) as [->|]; [|done]. destruct (t_redirs l) as [[rs1 l1]|] eqn:E1; [|done]. injection E as <- <-.
  simpl in Hn. destruct (IH l rs1 l1 ltac:(lia) E1) as (k & -> & Hk). exists ((t, w) :: (97, w') :: k). split; [done|by constructor].
Qed.
Lemma t_redirs_complete l rs l' : gredirs l rs → head_in [60; 62] l' = false → t_redirs (l ++ l') = Some (rs, l').
Proof.
  intros Hg Hh. induction Hg as [|t w0 w l rs Ht _ IH]; simpl.
  - rewrite head_in_redir in Hh. destruct l' as [|[t w] l']; [done|]. cbn [t_redirs]. by rewrite Hh.
  - by rewrite Ht, IH.
Qed.

Lemma t_items_sound n : ∀ l a rs l', (length l <= n)%nat → t_items l = Some (a, rs, l') → ∃ l1, l = l1 ++ l' ∧ gitems l1 a rs ∧ stops l' = true.
Proof.
  induction n as [|n IH]; intros l a rs l' Hn E; (destruct l as [|[t w] l]; [simpl in E; injection E as <- <- <-; exists []; split_and!; [done|constructor|done]|]);
    [simpl in Hn; lia|].
  simpl in Hn. cbn [t_items] in E. destruct (Z.eqb_spec t 97) as [->|Ht].
  { destruct (t_items l) as [[[a1 rs1] l1]|] eqn:E1; [|done]. injection E as <- <- <-. destruct (IH l a1 rs1 l1 ltac:(lia) E1) as (k & -> & Hk & Hs).
    exists ((97, w) :: k). split_and!; [done|by constructor|done]. }
  destruct (is_redir t) eqn:Et.
  - destruct l as [|[t' w'] l]; [done|]. destruct (Z.eqb_spec t' 97) as [->|]; [|done]. destruct (t_items l) as [[[a1 rs1] l1]|] eqn:E1; [|done].
    injection E as <- <- <-. simpl in Hn. destruct (IH l a1 rs1 l1 ltac:(lia) E1) as (k & -> & Hk & Hs).
    exists ((t, w) :: (97, w') :: k). split_and!; [done|by constructor|done].
  - destruct (stops ((t, w) :: l)) eqn:Es; [|done]. injection E as <- <- <-. exists []. split_and!; [done|constructor|done].
Qed.
Lemma stops_not t : bool_decide (t ∈ [124; 41; 38; 59]) = true → (t =? 97) = false ∧ is_redir t = false.
Proof.
  intros Ht%bool_decide_eq_true. rewrite Z.eqb_neq. unfold is_redir. rewrite bool_decide_eq_false.
  repeat (apply elem_of_cons in Ht as [->|Ht]; [split; [lia|set_solver]|]). by apply elem_of_nil in Ht.
Qed.
Lemma t_items_complete l a rs l' : gitems l a rs → stops l' = true → t_items (l ++ l') = Some (a, rs, l').
Proof.
  intros Hg Hs. induction Hg as [|w l a rs _ IH|t w0 w l a rs Ht _ IH]; simpl.
  - destruct l' as [|[t w] l']; [done|]. cbn [t_items]. destruct (stops_not t Hs) as [-> ->]. by rewrite Hs.
  - by rewrite IH.
  - assert ((t =? 97) = false) as -> by (apply Z.eqb_neq; intros ->; done). by rewrite Ht, IH.
Qed.

Lemma t_backs_sound l : ∀ c c' l', t_backs l c = (c', l') → (∃ l1, l = l1 ++ l' ∧ ∀ l0, gback l0 c → gback (l0 ++ l1) c').
Proof.
  induction l as [|[t w] l IH]; intros c c' l' E; cbn [t_backs] in E.
  { injection E as <- <-. exists []. split; [done|]. intros l0. by rewrite app_nil_r. }
  destruct (Z.eqb_spec t 38) as [->|]; [|injection E as <- <-; exists []; split; [done|]; intros l0; by rewrite app_nil_r].
  destruct (IH _ _ _ E) as (k & -> & Hk). exists ((38, w) :: k). split; [done|]. intros l0 H0.
  rewrite (app_assoc l0 [(38, w)] k : l0 ++ (38, w) :: k = _). apply Hk. by constructor.
Qed.
(** A command with its [&]s. *)
Lemma gback_split l c : gback l c → ∃ l0 c0 l1, l = l0 ++ l1 ∧ gpipe l0 c0 ∧ (l1 = [] ∨ head_in [38] l1 = true) ∧
  ∀ rest, head_in [38] rest = false → t_backs (l1 ++ rest) c0 = (c, rest).
Proof.
  induction 1 as [l c Hp|l w c _ (l0 & c0 & l1 & -> & Hp & Hh & IH)].
  - exists l, c, []. rewrite app_nil_r. split_and!; [done|done|by left|]. intros rest Hr. destruct rest as [|[t w] rest]; [done|]. simpl in Hr |- *.
    destruct (Z.eqb_spec t 38) as [->|]; [|done]. apply bool_decide_eq_false in Hr. set_solver.
  - exists l0, c0, (l1 ++ [(38, w)]). split_and!; [by rewrite app_assoc|done|right; destruct Hh as [->|Hh]; [done|by destruct l1 as [|[]]]|].
    intros rest Hr. clear Hp Hh. revert c0 IH. induction l1 as [|[t w1] l1 IHl]; intros c0 IH.
    + specialize (IH [] eq_refl). simpl in IH. injection IH as ->. simpl. destruct rest as [|[t w1] rest]; [done|]. simpl in Hr |- *.
      destruct (Z.eqb_spec t 38) as [->|]; [|done]. apply bool_decide_eq_false in Hr. set_solver.
    + simpl. destruct (t =? 38) eqn:Et.
      * apply IHl. intros r Hr'. specialize (IH r Hr'). simpl in IH. by rewrite Et in IH.
      * specialize (IH [] eq_refl). simpl in IH. rewrite Et in IH. by injection IH.
Qed.

(** ** The parser and the grammar *)

(** ** The equations of the parser *)

Section equations.
Context (s : list Z) (f i : nat).

Lemma parseline_S : parseline s (S f) i =
      let^ c, i := parsepipe s f i in
      let^ c, i := back_loop s (S (length s - i)) i c in
      let '(i, p) := peek s i [59] in
      if p : bool then
        let '(_, _, i) := gettoken s i in
        let^ r, i := parseline s f i in
        POk (LIST c r) i
      else POk c i.
Proof. reflexivity. Qed.
Lemma parsepipe_S : parsepipe s (S f) i =
      let^ c, i := parseexec s f i in
      let '(i, p) := peek s i [124] in
      if p : bool then
        let '(_, _, i) := gettoken s i in
        let^ r, i := parsepipe s f i in
        POk (PIPE c r) i
      else POk c i.
Proof. reflexivity. Qed.
Lemma parseexec_S : parseexec s (S f) i =
      let '(i, p) := peek s i [40] in
      if p : bool then parseblock s f i else
      let^ rs, i := parseredirs s (S (length s - i)) i [] in
      exec_loop s (S (length s - i)) i [] rs.
Proof. reflexivity. Qed.
Lemma parseblock_S : parseblock s (S f) i =
      let '(i, p) := peek s i [40] in
      if negb p then PErr "parseblock" else
      let '(_, _, i) := gettoken s i in
      let^ c, i := parseline s f i in
      let '(i, p) := peek s i [41] in
      if negb p then PErr "syntax - missing )" else
      let '(_, _, i) := gettoken s i in
      let^ rs, i := parseredirs s (S (length s - i)) i [] in
      POk (wrap c rs) i.
Proof. reflexivity. Qed.
End equations.

Section parser.
Context (s : list Z) (H0 : 0 ∉ s).
Local Abbreviation at_ := (at_ s).

Lemma head_one t l : t ≠ 62 → head_in [t] l = match l with (t', _) :: _ => t' =? t | [] => false end.
Proof.
  intros Ht. destruct l as [|[t' w] l]; [done|]. simpl. destruct (Z.eqb_spec t' t); [apply bool_decide_eq_true_2|apply bool_decide_eq_false_2]; set_solver.
Qed.
Lemma head_one_true t l : t ≠ 62 → head_in [t] l = true → ∃ w l', l = (t, w) :: l'.
Proof. intros Ht. rewrite head_one by done. destruct l as [|[t' w] l]; [done|]. intros ->%Z.eqb_eq. by exists w, l. Qed.

(** A [peek] for one symbol. *)
Lemma peek_one i l t : at_ i l → bool_decide (t ∈ symbols) = true → ∃ i', peek s i [t] = (i', head_in [t] l) ∧ at_ i' l.
Proof using H0. intros Hi Ht. apply peek_at; [done|done|by apply one_sub]. Qed.

Lemma at_fuel i l : at_ i l → (length l < S (length s - i))%nat.
Proof using H0. intros [<- _]. pose proof (tokens_length s H0 i). lia. Qed.

Lemma redirs_lands i l : at_ i l → lands s (parseredirs s (S (length s - i)) i []) (t_redirs l).
Proof using H0.
  intros Hi. pose proof (parseredirs_run s H0 _ l i [] _ (le_n _) Hi (at_fuel i l Hi)) as H. by destruct (t_redirs l) as [[]|].
Qed.

(** A simple command. *)
Lemma parseexec_simple f i l : at_ i l → head_in [40] l = false →
  lands s (parseexec s (S f) i)
    (match t_items l with Some (a, rs, l') => if (length a <? MAXARGS)%nat then Some (wrap (EXEC a) rs, l') else None | None => None end).
Proof using H0.
  intros Hi Hh. rewrite parseexec_S. destruct (peek_one i l 40 Hi eq_refl) as (i1 & -> & Hi1). rewrite Hh.
  pose proof (redirs_lands i1 l Hi1) as Hr. rewrite (t_items_redirs (length l)) by done. destruct (t_redirs l) as [[rs l1]|] eqn:E1; [|destruct Hr as [e ->]; by exists e].
  destruct Hr as (i2 & -> & Hi2). cbn [pbind]. destruct (t_redirs_rest (length l) l rs l1 ltac:(lia) E1) as [_ Hr1].
  pose proof (exec_loop_run s H0 _ l1 i2 [] rs _ (le_n _) Hi2 (at_fuel i2 l1 Hi2) Hr1 ltac:(simpl; unfold MAXARGS; lia)) as He.
  destruct (t_items l1) as [[[a rs'] l']|]; [|done]. exact He.
Qed.

(** What a parser that returns has read. *)
Definition reads (P : nat → pres cmd) (G : list tok → cmd → Prop) : Prop :=
  ∀ i l c i', at_ i l → P i = POk c i' → ∃ l1 l', l = l1 ++ l' ∧ at_ i' l' ∧ G l1 c.

Lemma block_reads f : reads (parseline s f) gline → reads (parseblock s (S f)) gexec.
Proof using H0.
  intros IH i l c i' Hi E. rewrite parseblock_S in E. destruct (peek_one i l 40 Hi eq_refl) as (i1 & E1 & Hi1). rewrite E1 in E.
  destruct (head_in [40] l) eqn:Eh; [|done]. apply head_one_true in Eh as (w1 & l2 & ->); [|done]. cbn [negb] in E.
  destruct (gettoken_at s H0 _ _ Hi1) as (i2 & E2 & Hi2 & _). rewrite E2 in E.
  destruct (parseline s f i2) as [c2 i3| |] eqn:E3; [|discriminate E..]. cbn [pbind] in E. destruct (IH _ _ _ _ Hi2 E3) as (l3 & l4 & -> & Hi3 & Hg).
  destruct (peek_one i3 l4 41 Hi3 eq_refl) as (i4 & E4 & Hi4). rewrite E4 in E. destruct (head_in [41] l4) eqn:Eh; [|done].
  apply head_one_true in Eh as (w2 & l5 & ->); [|done]. cbn [negb] in E. destruct (gettoken_at s H0 _ _ Hi4) as (i5 & E5 & Hi5 & _). rewrite E5 in E.
  pose proof (redirs_lands i5 l5 Hi5) as Hr. destruct (t_redirs l5) as [[rs l6]|] eqn:E6; [|destruct Hr as [e Hr]; by rewrite Hr in E].
  destruct Hr as (i6 & Er & Hi6). rewrite Er in E. cbn [pbind] in E. injection E as <- <-.
  destruct (t_redirs_sound _ l5 rs l6 (le_n _) E6) as (k & -> & Hk). exists ((40, w1) :: l3 ++ (41, w2) :: k), l6. split_and!; [|done|by constructor].
  simpl. by rewrite <-app_assoc.
Qed.
Lemma exec_reads f : reads (parseblock s f) gexec → reads (parseexec s (S f)) gexec.
Proof using H0.
  intros IH i l c i' Hi E. destruct (head_in [40] l) eqn:Eh.
  - rewrite parseexec_S in E. destruct (peek_one i l 40 Hi eq_refl) as (i1 & E1 & Hi1). rewrite E1, Eh in E. by apply (IH i1).
  - pose proof (parseexec_simple f i l Hi Eh) as Hp. rewrite E in Hp. destruct (t_items l) as [[[a rs] l']|] eqn:Et; [|by destruct Hp].
    destruct (Nat.ltb_spec (length a) MAXARGS) as [Ha|Ha]; [|by destruct Hp]. destruct Hp as (i1 & Hp & Hi1). injection Hp as -> <-.
    destruct (t_items_sound _ l a rs l' (le_n _) Et) as (k & -> & Hk & _). exists k, l'. split_and!; [done|done|by constructor].
Qed.
Lemma pipe_reads f : reads (parseexec s f) gexec → reads (parsepipe s f) gpipe → reads (parsepipe s (S f)) gpipe.
Proof using H0.
  intros IHe IH i l c i' Hi E. rewrite parsepipe_S in E. destruct (parseexec s f i) as [c1 i1| |] eqn:E1; [|discriminate E..]. cbn [pbind] in E.
  destruct (IHe _ _ _ _ Hi E1) as (l1 & l2 & -> & Hi1 & Hg). destruct (peek_one i1 l2 124 Hi1 eq_refl) as (i2 & E2 & Hi2). rewrite E2 in E.
  destruct (head_in [124] l2) eqn:Eh; [|injection E as <- <-; exists l1, l2; split_and!; [done|done|by constructor]].
  apply head_one_true in Eh as (w & l3 & ->); [|done]. destruct (gettoken_at s H0 _ _ Hi2) as (i3 & E3 & Hi3 & _). rewrite E3 in E.
  destruct (parsepipe s f i3) as [c4 i4| |] eqn:E4; [|discriminate E..]. cbn [pbind] in E. injection E as <- <-. destruct (IH _ _ _ _ Hi3 E4) as (l4 & l5 & -> & Hi4 & Hg4).
  exists (l1 ++ (124, w) :: l4), l5. split_and!; [by rewrite <-app_assoc|done|by constructor].
Qed.
Lemma line_reads f : reads (parsepipe s f) gpipe → reads (parseline s f) gline → reads (parseline s (S f)) gline.
Proof using H0.
  intros IHp IH i l c i' Hi E. rewrite parseline_S in E. destruct (parsepipe s f i) as [c1 i1| |] eqn:E1; [|discriminate E..]. cbn [pbind] in E.
  destruct (IHp _ _ _ _ Hi E1) as (l1 & l2 & -> & Hi1 & Hg). pose proof (back_loop_run s H0 l2 i1 c1 _ Hi1 (at_fuel _ _ Hi1)) as Hb.
  destruct (t_backs l2 c1) as [c2 l3] eqn:Eb. destruct Hb as (i2 & Hb & Hi2). rewrite Hb in E. cbn [pbind] in E.
  destruct (t_backs_sound _ _ _ _ Eb) as (k & -> & Hk). specialize (Hk l1 (gb_pipe _ _ Hg)).
  destruct (peek_one i2 l3 59 Hi2 eq_refl) as (i3 & E3 & Hi3). rewrite E3 in E.
  destruct (head_in [59] l3) eqn:Eh; [|injection E as <- <-; exists (l1 ++ k), l3; split_and!; [by rewrite app_assoc|done|by constructor]].
  apply head_one_true in Eh as (w & l4 & ->); [|done]. destruct (gettoken_at s H0 _ _ Hi3) as (i4 & E4 & Hi4 & _). rewrite E4 in E.
  destruct (parseline s f i4) as [c5 i5| |] eqn:E5; [|discriminate E..]. cbn [pbind] in E. injection E as <- <-. destruct (IH _ _ _ _ Hi4 E5) as (l5 & l6 & -> & Hi5 & Hg5).
  exists ((l1 ++ k) ++ (59, w) :: l5), l6. split_and!; [by rewrite <-!app_assoc|done|by constructor].
Qed.

Lemma parser_reads f : reads (parseline s f) gline ∧ reads (parsepipe s f) gpipe ∧ reads (parseexec s f) gexec ∧ reads (parseblock s f) gexec.
Proof using H0.
  induction f as [|f (Hl & Hp & He & Hb)]; [split_and!; intros i l c i' _ E; done|].
  split_and!; [by apply line_reads|by apply pipe_reads|by apply exec_reads|by apply block_reads].
Qed.

(** ** Every line of the grammar is parsed *)

Definition follows (T : list Z) (l : list tok) : bool := match l with [] => true | (t, _) :: _ => bool_decide (t ∈ T) end.

Definition accepts (P : nat → pres cmd) (fuel k : nat) (G : list tok → cmd → Prop) (F : list tok → bool) : Prop :=
  ∀ l c, G l c → (4 * length l + k <= fuel)%nat → ∀ i rest, at_ i (l ++ rest) → F rest = true → ∃ i', P i = POk c i' ∧ at_ i' rest.

Lemma follows_head T t l : follows T l = true → (t ∉ T) → t ≠ 62 → head_in [t] l = false.
Proof.
  intros Hf Ht H62. rewrite head_one by done. destruct l as [|[t' w] l]; [done|]. simpl in Hf. apply bool_decide_eq_true in Hf.
  apply Z.eqb_neq. intros ->. done.
Qed.
Lemma follows_sub T T' l : follows T l = true → T ⊆ T' → follows T' l = true.
Proof. intros Hf Hs. destruct l as [|[t w] l]; [done|]. simpl in *. apply bool_decide_eq_true in Hf. apply bool_decide_eq_true. by apply Hs. Qed.
Lemma follows_redir T l : follows T l = true → T ⊆ [124; 41; 38; 59] → head_in [60; 62] l = false.
Proof.
  intros Hf Hs. rewrite head_in_redir. pose proof (follows_sub _ _ _ Hf Hs) as H. destruct l as [|[t w] l]; [done|]. by apply stops_not.
Qed.
Lemma items_head l a rs rest : gitems l a rs → stops rest = true → head_in [40] (l ++ rest) = false.
Proof.
  intros Hg Hs. destruct Hg as [|w l a rs|t w0 w l a rs Ht].
  - by apply (follows_head [124; 41; 38; 59]); [|set_solver|].
  - by rewrite head_one.
  - rewrite head_one by done. simpl. apply Z.eqb_neq. intros ->. done.
Qed.

Lemma block_accepts f : accepts (parseline s f) f 4 gline (follows [41]) →
  ∀ w1 l w2 l' c rs, gline l c → gredirs l' rs → (4 * length l + 4 <= f)%nat → ∀ i rest, at_ i ((40, w1) :: l ++ (41, w2) :: l' ++ rest) → stops rest = true →
    ∃ i', parseblock s (S f) i = POk (wrap c rs) i' ∧ at_ i' rest.
Proof using H0.
  intros IH w1 l w2 l' c rs Hl Hr Hf i rest Hi Hs. rewrite parseblock_S. destruct (peek_one i _ 40 Hi eq_refl) as (i1 & -> & Hi1). cbn [head_in].
  rewrite bool_decide_eq_true_2 by set_solver. cbn [negb]. destruct (gettoken_at s H0 _ _ Hi1) as (i2 & -> & Hi2 & _).
  destruct (IH l c Hl Hf i2 ((41, w2) :: l' ++ rest) Hi2 eq_refl) as (i3 & -> & Hi3). cbn [pbind].
  destruct (peek_one i3 _ 41 Hi3 eq_refl) as (i4 & -> & Hi4). cbn [head_in]. rewrite bool_decide_eq_true_2 by set_solver. cbn [negb].
  destruct (gettoken_at s H0 _ _ Hi4) as (i5 & -> & Hi5 & _). pose proof (redirs_lands i5 _ Hi5) as Hrd.
  rewrite (t_redirs_complete l' rs rest) in Hrd by (done || by apply (follows_redir [124; 41; 38; 59])). destruct Hrd as (i6 & -> & Hi6). by exists i6.
Qed.
Lemma exec_accepts f : (∀ f', f = S f' → accepts (parseline s f') f' 4 gline (follows [41])) → accepts (parseexec s (S f)) (S f) 2 gexec stops.
Proof using H0.
  intros IH l c Hg Hf i rest Hi Hs. destruct Hg as [l a rs Hit Ha|w1 l w2 l' c rs Hl Hr].
  - pose proof (parseexec_simple f i _ Hi (items_head _ _ _ _ Hit Hs)) as Hp. rewrite (t_items_complete l a rs rest Hit Hs) in Hp.
    rewrite (proj2 (Nat.ltb_lt _ _) Ha) in Hp. exact Hp.
  - rewrite parseexec_S. destruct (peek_one i _ 40 Hi eq_refl) as (i1 & -> & Hi1). simpl in Hf, Hi1. rewrite length_app in Hf. cbn [head_in app].
    rewrite bool_decide_eq_true_2 by set_solver. rewrite <-app_assoc in Hi1. destruct f as [|f]; [lia|].
    refine (block_accepts f (IH f eq_refl) w1 l w2 l' c rs Hl Hr _ i1 rest Hi1 Hs). lia.
Qed.
Lemma pipe_accepts f : accepts (parseexec s f) f 2 gexec stops → accepts (parsepipe s f) f 3 gpipe (follows [41; 38; 59]) →
  accepts (parsepipe s (S f)) (S f) 3 gpipe (follows [41; 38; 59]).
Proof using H0.
  intros IHe IH l c Hg Hf i rest Hi Hs. rewrite parsepipe_S. destruct Hg as [l c He|l w l' c c' He Hp].
  - destruct (IHe l c He ltac:(lia) i rest Hi) as (i1 & -> & Hi1); [apply (follows_sub _ _ _ Hs); set_solver|]. cbn [pbind].
    destruct (peek_one i1 _ 124 Hi1 eq_refl) as (i2 & -> & Hi2). rewrite (follows_head _ 124 _ Hs) by (done || set_solver). by exists i2.
  - rewrite length_app in Hf. simpl in Hf. rewrite <-app_assoc in Hi.
    destruct (IHe l c He ltac:(lia) i _ Hi eq_refl) as (i1 & -> & Hi1). cbn [pbind].
    destruct (peek_one i1 _ 124 Hi1 eq_refl) as (i2 & -> & Hi2). cbn [head_in app]. rewrite bool_decide_eq_true_2 by set_solver.
    destruct (gettoken_at s H0 _ _ Hi2) as (i3 & -> & Hi3 & _). destruct (IH l' c' Hp ltac:(lia) i3 rest Hi3 Hs) as (i4 & -> & Hi4). by exists i4.
Qed.

(** A command, its [&]s and what follows. *)
Lemma back_accepts f i l c rest : accepts (parsepipe s f) f 3 gpipe (follows [41; 38; 59]) → gback l c → (4 * length l + 3 <= f)%nat →
  at_ i (l ++ rest) → follows [41; 59] rest = true →
  ∃ i', (let^ c0, i0 := parsepipe s f i in back_loop s (S (length s - i0)) i0 c0) = POk c i' ∧ at_ i' rest.
Proof using H0.
  intros IH Hg Hf Hi Hs. destruct (gback_split _ _ Hg) as (l0 & c0 & l1 & -> & Hp & Hh & Hb). rewrite length_app in Hf. rewrite <-app_assoc in Hi.
  destruct (IH l0 c0 Hp ltac:(lia) i (l1 ++ rest) Hi) as (i1 & -> & Hi1).
  { destruct Hh as [->|(w & l2 & ->)%head_one_true]; [|done|done]. apply (follows_sub _ _ _ Hs). set_solver. }
  cbn [pbind]. pose proof (back_loop_run s H0 _ i1 c0 _ Hi1 (at_fuel _ _ Hi1)) as Hl.
  rewrite (Hb rest) in Hl by (apply (follows_head _ 38 _ Hs); [set_solver|done]). exact Hl.
Qed.
Lemma line_accepts f : accepts (parsepipe s f) f 3 gpipe (follows [41; 38; 59]) → accepts (parseline s f) f 4 gline (follows [41]) →
  accepts (parseline s (S f)) (S f) 4 gline (follows [41]).
Proof using H0.
  intros IHp IH l c Hg Hf i rest Hi Hs. rewrite parseline_S. destruct Hg as [l c Hb|l w l' c c' Hb Hl].
  - destruct (back_accepts f i l c rest IHp Hb ltac:(lia) Hi) as (i1 & Eb & Hi1); [apply (follows_sub _ _ _ Hs); set_solver|].
    destruct (parsepipe s f i) as [c0 i0| |]; [|discriminate Eb..]. cbn [pbind] in *. rewrite Eb. cbn [pbind].
    destruct (peek_one i1 _ 59 Hi1 eq_refl) as (i2 & -> & Hi2). rewrite (follows_head _ 59 _ Hs) by (done || set_solver). by exists i2.
  - rewrite length_app in Hf. simpl in Hf. rewrite <-app_assoc in Hi.
    destruct (back_accepts f i l c ((59, w) :: l' ++ rest) IHp Hb ltac:(lia) Hi eq_refl) as (i1 & Eb & Hi1).
    destruct (parsepipe s f i) as [c0 i0| |]; [|discriminate Eb..]. cbn [pbind] in *. rewrite Eb. cbn [pbind].
    destruct (peek_one i1 _ 59 Hi1 eq_refl) as (i2 & -> & Hi2). cbn [head_in]. rewrite bool_decide_eq_true_2 by set_solver.
    destruct (gettoken_at s H0 _ _ Hi2) as (i3 & -> & Hi3 & _). destruct (IH l' c' Hl ltac:(lia) i3 rest Hi3 Hs) as (i4 & -> & Hi4). by exists i4.
Qed.

Lemma accepts_none P k G F : (0 < k)%nat → accepts P 0 k G F.
Proof. intros Hk l c _ Hf. lia. Qed.
Lemma parser_accepts f : accepts (parseline s f) f 4 gline (follows [41]) ∧ accepts (parsepipe s f) f 3 gpipe (follows [41; 38; 59]) ∧
  accepts (parseexec s f) f 2 gexec stops ∧ ∀ f', f = S f' → accepts (parseline s f') f' 4 gline (follows [41]).
Proof using H0.
  induction f as [|f (Hl & Hp & He & Hb)]; [split_and!; [apply accepts_none; lia..|done]|].
  split_and!; [by apply line_accepts|by apply pipe_accepts|by apply exec_accepts|]. by intros f' [= <-].
Qed.

(** ** The parser returns *)

Definition returns (P : nat → pres cmd) (fuel k : nat) : Prop := ∀ i l, at_ i l → (4 * length l + k <= fuel)%nat → P i ≠ PFuel.

Lemma lands_returns (r : pres cmd) o : lands s r o → r ≠ PFuel.
Proof. intros Hl ->. destruct o as [[? ?]|]; simpl in Hl; naive_solver. Qed.

Lemma block_returns f : returns (parseline s f) f 4 → returns (parseblock s (S f)) (S f) 1.
Proof using H0.
  intros IH i l Hi Hf. rewrite parseblock_S. destruct (peek_one i _ 40 Hi eq_refl) as (i1 & -> & Hi1).
  destruct (head_in [40] l) eqn:Eh; [|done]. apply head_one_true in Eh as (w1 & l2 & ->); [|done]. cbn [negb]. simpl in Hf.
  destruct (gettoken_at s H0 _ _ Hi1) as (i2 & -> & Hi2 & _). specialize (IH i2 l2 Hi2 ltac:(lia)).
  destruct (parseline s f i2) as [c2 i3| |] eqn:E3; [|done..]. cbn [pbind]. destruct (proj1 (parser_reads f) _ _ _ _ Hi2 E3) as (l3 & l4 & -> & Hi3 & _).
  destruct (peek_one i3 l4 41 Hi3 eq_refl) as (i4 & -> & Hi4). destruct (head_in [41] l4) eqn:Eh; [|done].
  apply head_one_true in Eh as (w2 & l5 & ->); [|done]. cbn [negb]. destruct (gettoken_at s H0 _ _ Hi4) as (i5 & -> & Hi5 & _).
  pose proof (redirs_lands i5 l5 Hi5) as Hr. destruct (t_redirs l5) as [[rs l6]|]; [destruct Hr as (i6 & -> & _)|destruct Hr as [e ->]]; done.
Qed.
Lemma exec_returns f : returns (parseblock s f) f 1 → returns (parseexec s (S f)) (S f) 2.
Proof using H0.
  intros IH i l Hi Hf. destruct (head_in [40] l) eqn:Eh.
  - rewrite parseexec_S. destruct (peek_one i l 40 Hi eq_refl) as (i1 & -> & Hi1). rewrite Eh. apply (IH i1 l Hi1). lia.
  - exact (lands_returns _ _ (parseexec_simple f i l Hi Eh)).
Qed.
Lemma pipe_returns f : returns (parseexec s f) f 2 → returns (parsepipe s f) f 3 → returns (parsepipe s (S f)) (S f) 3.
Proof using H0.
  intros IHe IH i l Hi Hf. rewrite parsepipe_S. specialize (IHe i l Hi ltac:(lia)). destruct (parseexec s f i) as [c1 i1| |] eqn:E1; [|done..]. cbn [pbind].
  destruct (parser_reads f) as (_ & _ & He & _). destruct (He _ _ _ _ Hi E1) as (l1 & l2 & -> & Hi1 & _). rewrite length_app in Hf.
  destruct (peek_one i1 l2 124 Hi1 eq_refl) as (i2 & -> & Hi2). destruct (head_in [124] l2) eqn:Eh; [|done].
  apply head_one_true in Eh as (w & l3 & ->); [|done]. destruct (gettoken_at s H0 _ _ Hi2) as (i3 & -> & Hi3 & _). simpl in Hf.
  specialize (IH i3 l3 Hi3 ltac:(lia)). by destruct (parsepipe s f i3).
Qed.
Lemma line_returns f : returns (parsepipe s f) f 3 → returns (parseline s f) f 4 → returns (parseline s (S f)) (S f) 4.
Proof using H0.
  intros IHp IH i l Hi Hf. rewrite parseline_S. specialize (IHp i l Hi ltac:(lia)). destruct (parsepipe s f i) as [c1 i1| |] eqn:E1; [|done..]. cbn [pbind].
  destruct (parser_reads f) as (_ & Hp & _). destruct (Hp _ _ _ _ Hi E1) as (l1 & l2 & -> & Hi1 & _). rewrite length_app in Hf.
  pose proof (back_loop_run s H0 l2 i1 c1 _ Hi1 (at_fuel _ _ Hi1)) as Hb. destruct (t_backs l2 c1) as [c2 l3] eqn:Eb. destruct Hb as (i2 & -> & Hi2). cbn [pbind].
  destruct (t_backs_sound _ _ _ _ Eb) as (k & -> & _). rewrite length_app in Hf.
  destruct (peek_one i2 l3 59 Hi2 eq_refl) as (i3 & -> & Hi3). destruct (head_in [59] l3) eqn:Eh; [|done].
  apply head_one_true in Eh as (w & l4 & ->); [|done]. destruct (gettoken_at s H0 _ _ Hi3) as (i4 & -> & Hi4 & _). simpl in Hf.
  specialize (IH i4 l4 Hi4 ltac:(lia)). by destruct (parseline s f i4).
Qed.
Lemma parser_returns f : returns (parseline s f) f 4 ∧ returns (parsepipe s f) f 3 ∧ returns (parseexec s f) f 2 ∧ returns (parseblock s f) f 1.
Proof using H0.
  induction f as [|f (Hl & Hp & He & Hb)]; [split_and!; intros i l _ Hf; lia|].
  split_and!; [by apply line_returns|by apply pipe_returns|by apply exec_returns|by apply block_returns].
Qed.
End parser.

(** ** The tokens of a line *)

Section line.
Context (s : list Z) (H0 : 0 ∉ s).

(** A word: its characters are no white space and no symbols, and it ends where
    such a character, or the line, ends it. *)
Definition word_ok (w : word) : Prop := let '(q, e) := w in (q < e)%nat ∧ (e <= length s)%nat ∧
  (∀ k, (q <= k < e)%nat → is_word (ch s k) = true) ∧ (e = length s ∨ is_word (ch s e) = false).

Lemma ch_drop q k c : drop q s !! k = Some c → ch s (q + k) = c.
Proof. rewrite lookup_drop. unfold ch. by intros ->. Qed.

Lemma gettoken_word i q e i' : gettoken s i = (97, (q, e), i') → word_ok (q, e).
Proof using H0.
  intros E. pose proof (gettoken_cases s H0 i) as Hc. rewrite E in Hc. destruct Hc as (Hq & _ & [[? _]|(_ & Hqe & Hql & _)]); [done|]. revert E. unfold gettoken.
  rewrite <-Hq. destruct (ch s q =? 0) eqn:E0; [apply Z.eqb_eq in E0; rewrite E0; intros [=]|]. case_bool_decide as Hs; [intros [= E1 _ _]; rewrite E1 in Hs; set_solver|].
  destruct (Z.eqb_spec (ch s q) 62) as [E62|_]; [rewrite E62; by destruct (ch s (S q) =? 62)|]. intros [= Ee _]. simpl. subst e.
  pose proof (span_le is_word (drop q s)) as Hle. rewrite length_drop in Hle. split_and!; [done|lia| |].
  - intros k [Hk1 Hk2]. destruct (span_in is_word (drop q s) (k - q)) as (c & Hc & Hw); [lia|]. apply ch_drop in Hc.
    replace (q + (k - q))%nat with k in Hc by lia. by rewrite Hc.
  - destruct (drop q s !! span is_word (drop q s)) as [c|] eqn:Ec; [right|left].
    + rewrite (ch_drop _ _ _ Ec). by apply span_stop in Ec.
    + apply lookup_ge_None in Ec. rewrite length_drop in Ec. lia.
Qed.

Lemma tokens_words w : ∀ n i, (length s - i <= n)%nat → (97, w) ∈ tokens s i → word_ok w.
Proof using H0.
  induction n as [|n IH]; intros i Hn Hin.
  { pose proof (tokens_length s H0 i). destruct (tokens s i) eqn:E; [by apply elem_of_nil in Hin|simpl in *; lia]. }
  rewrite tokens_eq in Hin by done. pose proof (gettoken_cases s H0 i) as Hg. destruct (gettoken s i) as [[t [q e]] i'] eqn:Eg.
  destruct Hg as (Hq & -> & [(-> & _)|(Ht & Hqe & Hql & _)]); [by apply elem_of_nil in Hin|]. rewrite (proj2 (Z.eqb_neq t 0)) in Hin by done.
  apply elem_of_cons in Hin as [[= <- ->]|Hin]; [by apply gettoken_word in Eg|]. apply (IH (skip_ws s e)); [|done].
  pose proof (skip_ge s e). pose proof (skip_ge s i). lia.
Qed.

(** No tokens are left only at the end of the line. *)
Lemma peek_end i l : at_ s i l → (fst (peek s i []) = length s ↔ l = []).
Proof using H0.
  intros [<- Hi]. simpl. pose proof (skip_le s i Hi) as Hle. split; intros E.
  - rewrite <-tokens_skip, E by done. apply nil_length_inv. pose proof (tokens_length s H0 (length s)). lia.
  - rewrite tokens_eq in E by done. pose proof (gettoken_cases s H0 i) as Hg. destruct (gettoken s i) as [[t [q e]] i'].
    destruct Hg as (-> & -> & [(-> & _ & Hq)|(Ht & _)]); [lia|]. by rewrite (proj2 (Z.eqb_neq t 0)) in E.
Qed.

Lemma parsecmd_iff fuel c : (4 * length s + 4 <= fuel)%nat → (∃ i, parsecmd s fuel = POk c i) ↔ gline (tokens s 0) c.
Proof using H0.
  intros Hf. assert (at_ s 0 (tokens s 0)) as Hi by (split; [done|lia]). pose proof (tokens_length s H0 0) as Hl. unfold parsecmd. split.
  - intros [i E]. destruct (parseline s fuel 0) as [c1 i1| |] eqn:E1; [|discriminate E..]. cbn [pbind] in E.
    destruct (proj1 (parser_reads s H0 fuel) _ _ _ _ Hi E1) as (l1 & l2 & El & Hi1 & Hg). pose proof (peek_end i1 l2 Hi1) as Hp.
    destruct (peek s i1 []) as [i2 b]. simpl in Hp. destruct (Nat.eqb_spec i2 (length s)) as [E2|]; [|discriminate E]. simpl in E. injection E as -> _.
    apply Hp in E2 as ->. rewrite app_nil_r in El. by rewrite El.
  - intros Hg. destruct (proj1 (parser_accepts s H0 fuel) _ c Hg ltac:(lia) 0%nat []) as (i1 & -> & Hi1); [by rewrite app_nil_r|done|]. cbn [pbind].
    pose proof (peek_end i1 [] Hi1) as Hp. destruct (peek s i1 []) as [i2 b]. simpl in Hp. destruct Hp as [_ ->]; [|done]. rewrite Nat.eqb_refl. by eexists.
Qed.
Lemma parsecmd_returns fuel : (4 * length s + 4 <= fuel)%nat → parsecmd s fuel ≠ PFuel.
Proof using H0.
  intros Hf. unfold parsecmd. pose proof (tokens_length s H0 0) as Hl.
  pose proof (proj1 (parser_returns s H0 fuel) 0%nat (tokens s 0) ltac:(split; [done|lia]) ltac:(lia)) as Hr.
  destruct (parseline s fuel 0) as [c1 i1| |]; [|done..]. cbn [pbind]. destruct (peek s i1 []) as [i2 b]. by destruct (negb (i2 =? length s)%nat).
Qed.
End line.

(** ** Cutting the words out of the buffer *)

Fixpoint words (c : cmd) : list word :=
  match c with
  | EXEC argv => argv
  | REDIR c r => words c ++ [r_file r]
  | PIPE l r | LIST l r => words l ++ words r
  | BACK c => words c
  end.

Lemma nulterminate_cuts c buf : nulterminate c buf = foldl (flip cut) buf (words c).
Proof. revert buf. induction c; intros buf; simpl; rewrite ?foldl_app; simpl; congruence. Qed.

Lemma words_wrap c rs : words (wrap c rs) = words c ++ (r_file <$> rs).
Proof. unfold wrap. revert c. induction rs as [|r rs IH]; intros c; simpl; [by rewrite app_nil_r|]. rewrite IH. simpl. by rewrite <-app_assoc. Qed.

Lemma redir_of_file t w : r_file (redir_of t w) = w.
Proof. unfold redir_of. by repeat case_match. Qed.
Lemma gredirs_words l rs w : gredirs l rs → w ∈ r_file <$> rs → (97, w) ∈ l.
Proof. induction 1; simpl; rewrite ?redir_of_file; set_solver. Qed.
Lemma gitems_words l a rs w : gitems l a rs → w ∈ a ++ (r_file <$> rs) → (97, w) ∈ l.
Proof. induction 1; simpl; rewrite ?redir_of_file; set_solver. Qed.

Scheme gexec_mut := Induction for gexec Sort Prop
  with gpipe_mut := Induction for gpipe Sort Prop
  with gback_mut := Induction for gback Sort Prop
  with gline_mut := Induction for gline Sort Prop.

Lemma gline_words l c w : gline l c → w ∈ words c → (97, w) ∈ l.
Proof.
  intros Hg. refine (gline_mut (λ l c _, w ∈ words c → (97, w) ∈ l) (λ l c _, w ∈ words c → (97, w) ∈ l) (λ l c _, w ∈ words c → (97, w) ∈ l)
    (λ l c _, w ∈ words c → (97, w) ∈ l) _ _ _ _ _ _ _ _ l c Hg); clear l c Hg; simpl; intros; try set_solver.
  - rewrite words_wrap in *. by eapply gitems_words.
  - rewrite words_wrap in *. match goal with H : w ∈ _ ++ _ |- _ => apply elem_of_app in H as [H|H] end; [set_solver|].
    match goal with H : gredirs _ _ |- _ => eapply gredirs_words in H; [|done] end. set_solver.
Qed.

(** The C string at the start of a list of characters. *)
Fixpoint cstr (l : list Z) : list Z := match l with c :: l' => if c =? 0 then [] else c :: cstr l' | [] => [] end.

Lemma cuts_lookup ws buf k : foldl (flip cut) buf ws !! k =
  if bool_decide (k ∈ snd <$> ws) then (if bool_decide (k < length buf)%nat then Some 0 else None) else buf !! k.
Proof.
  revert buf. induction ws as [|w ws IH]; intros buf; [done|]. simpl. rewrite IH. unfold flip, cut. rewrite length_insert.
  case_bool_decide as H1; [rewrite (bool_decide_eq_true_2 (k ∈ _ :: _)) by set_solver; done|].
  destruct (decide (k = snd w)) as [->|Hk].
  - rewrite (bool_decide_eq_true_2 (_ ∈ _ :: _)) by set_solver. case_bool_decide as H2; [by rewrite list_lookup_insert_eq|].
    apply lookup_ge_None. rewrite length_insert. lia.
  - rewrite (bool_decide_eq_false_2 (_ ∈ _ :: _)) by set_solver. by rewrite list_lookup_insert_ne.
Qed.

Lemma cstr_word l n : (∀ k, (k < n)%nat → ∃ c, l !! k = Some c ∧ c ≠ 0) → l !! n = Some 0 → cstr l = take n l.
Proof.
  revert l. induction n as [|n IH]; intros l Hk Hn.
  - destruct l as [|c l]; [done|]. by injection Hn as ->.
  - destruct l as [|c l]; [done|]. simpl. destruct (Hk O ltac:(lia)) as (c' & [= <-] & Hc). rewrite (proj2 (Z.eqb_neq c 0)) by done.
    f_equal. apply IH; [|done]. intros k Hkn. exact (Hk (S k) ltac:(lia)).
Qed.

(** After the cuts, a word of the line is a C string of the buffer. *)
Lemma cuts_word s ws q e : 0 ∉ s → (∀ w, w ∈ ws → word_ok s w) → (q, e) ∈ ws →
  cstr (drop q (foldl (flip cut) (s ++ [0]) ws)) = take (e - q) (drop q s).
Proof.
  intros H0 Hok Hin. destruct (Hok _ Hin) as (Hqe & Hel & Hw & He). set (buf := foldl _ _ _).
  assert (∀ k, (k < e - q)%nat → drop q buf !! k = drop q s !! k) as Hk.
  { intros k Hk. rewrite !lookup_drop. unfold buf. rewrite cuts_lookup, lookup_app_l by lia. case_bool_decide as Hc; [exfalso|done].
    apply list_elem_of_fmap in Hc as ([q' e'] & Ee & Hin'). simpl in Ee. subst e'. destruct (Hok _ Hin') as (_ & _ & _ & [E|E]); [lia|].
    by rewrite Hw in E by lia. }
  rewrite (cstr_word _ (e - q)).
  - apply list_eq. intros k. destruct (decide (k < e - q)%nat) as [Hlt|Hge]; [rewrite !lookup_take_lt by done; by apply Hk|].
    rewrite !lookup_take_ge by lia. done.
  - intros k Hlt. rewrite Hk, lookup_drop by done. destruct (lookup_lt_is_Some_2 s (q + k) ltac:(lia)) as [c Hc]. exists c. split; [done|].
    intros ->. destruct H0. by eapply list_elem_of_lookup_2.
  - rewrite lookup_drop. replace (q + (e - q))%nat with e by lia. unfold buf. rewrite cuts_lookup, bool_decide_eq_true_2 by (apply list_elem_of_fmap; by exists (q, e)).
    rewrite bool_decide_eq_true_2; [done|]. rewrite length_app. simpl. lia.
Qed.

(** ** The parser *)

(** C31: on a line of any length, [parsecmd] returns a command or panics, and it
    returns exactly the lines of the shell's grammar, with the tree the grammar
    gives them: simple commands of fewer than [MAXARGS] words with redirections
    between them, parentheses, [|] binding tighter than [&] and [&] tighter
    than [;]. *)
Theorem parsecmd_grammar s fuel : 0 ∉ s → (4 * length s + 4 <= fuel)%nat →
  parsecmd s fuel ≠ PFuel ∧ ∀ c, (∃ i, parsecmd s fuel = POk c i) ↔ gline (tokens s 0) c.
Proof. intros H0 Hf. split; [by apply parsecmd_returns|]. intros c. by apply parsecmd_iff. Qed.

(** [a>f|(b;c)&] *)
Definition demo_line : list Z := [97; 62; 102; 124; 40; 98; 59; 99; 41; 38].
Definition demo_cmd : cmd := BACK (PIPE (REDIR (EXEC [(0, 1)%nat]) (Redir (2, 3)%nat 1537 1)) (LIST (EXEC [(5, 6)%nat]) (EXEC [(7, 8)%nat]))).

Lemma demo_line_nul : 0 ∉ demo_line.
Proof. refine (bool_decide_unpack _ _). by vm_compute. Qed.

Lemma parsecmd_grammar_witness : gline (tokens demo_line 0) demo_cmd.
Proof.
  apply (proj2 (parsecmd_grammar demo_line 44 demo_line_nul ltac:(simpl; lia)) demo_cmd). eexists. vm_compute. reflexivity.
Defined.

(** After [nulterminate], each word of a parsed command (an argument or the
    file of a redirection) is a C string of the buffer that starts where the
    parser found the word: exactly the characters of the word, none of them
    white space or a symbol, and no cut falls inside another word. *)
Lemma nulterminate_words s fuel c i w : 0 ∉ s → (4 * length s + 4 <= fuel)%nat → parsecmd s fuel = POk c i → w ∈ words c →
  let '(q, e) := w in
  cstr (drop q (nulterminate c (s ++ [0]))) = take (e - q) (drop q s) ∧ (q < e <= length s)%nat ∧ Forall (λ x, is_word x = true) (take (e - q) (drop q s)).
Proof.
  intros H0 Hf E Hw. assert (gline (tokens s 0) c) as Hg by (apply (parsecmd_iff s H0 fuel c Hf); by exists i).
  assert (∀ w, w ∈ words c → word_ok s w) as Hok.
  { intros w' Hw'. eapply (tokens_words s H0 w' (length s) 0); [lia|]. by eapply gline_words. }
  destruct w as [q e]. rewrite nulterminate_cuts. split; [by apply cuts_word|]. destruct (Hok _ Hw) as (Hqe & Hel & Hws & _). split; [lia|].
  apply Forall_lookup. intros k x Hx. apply lookup_take_Some in Hx as [Hx Hk]. apply ch_drop in Hx. rewrite <-Hx. apply Hws. lia.
Qed.
