(* ===== verification/ShRun.v ===== *)
(** * The shell: [runcmd] of [user/sh.c]

    [runcmd] as a program of system calls, the system calls on the descriptors
    of a process, and the theorem that every command of a pipeline, list or
    background job is started with exactly the descriptors its place in the
    command gives it. *)
From stdpp Require Import gmap.
From S2P Require Import Prelude Machine Sysfile Sh ShSpec.

(** ** [runcmd] *)

(** A program of system calls; [k] is what follows a call, given its result.  A
    successful [exec] does not return. *)
Inductive prog :=
| Exit (status : Z)
| Exec (argv : list word) (k : prog)
| Fork (k : Z → prog)
| Wait (k : prog)
| Close (fd : Z) (k : prog)
| Dup (fd : Z) (k : prog)
| Open (file : word) (mode : Z) (k : Z → prog)
| Pipe (k : option (Z * Z) → prog)
| Eprint (msg : string) (k : prog).    (** [fprintf(2, ...)] *)

Definition panic (s : string) : prog := Eprint s (Exit 1).
Definition fork1 (k : Z → prog) : prog := Fork (λ pid, if pid =? -1 then panic "fork" else k pid).

Fixpoint runcmd (c : cmd) : prog :=
  match c with
  | EXEC argv =>
      match argv with
      | [] => Exit 1
      | _ => Exec argv (Eprint "exec %s failed" (Exit 0))
      end
  | REDIR c r =>
      Close (r_fd r) (Open (r_file r) (r_mode r) (λ fd,
        if fd <? 0 then Eprint "open %s failed" (Exit 1) else runcmd c))
  | LIST l r => fork1 (λ pid, if pid =? 0 then runcmd l else Wait (runcmd r))
  | PIPE l r =>
      Pipe (λ p,
        match p with
        | None => panic "pipe"
        | Some (p0, p1) =>
            fork1 (λ pid, if pid =? 0 then Close 1 (Dup p1 (Close p0 (Close p1 (runcmd l)))) else
            fork1 (λ pid, if pid =? 0 then Close 0 (Dup p0 (Close p0 (Close p1 (runcmd r)))) else
            Close p0 (Close p1 (Wait (Wait (Exit 0))))))
        end)
  | BACK c => fork1 (λ pid, if pid =? 0 then runcmd c else Exit 0)
  end.

(** ** The system calls

    A pipe is named by the process that made it and by how many calls of
    [fork] and [pipe] the process made before; a process by its parent and the
    same number. *)
Inductive desc := DInit (n : Z) | DFile (file : word) (mode : Z) | DRead (p : list nat) | DWrite (p : list nat).
#[global] Instance desc_eq : EqDecision desc.
Proof. solve_decision. Defined.

(** [p->ofile] *)
Abbreviation fdtable := (gmap Z desc).

(** [fdalloc]: the lowest free descriptor *)
Definition lowest (t : fdtable) : option Z := head (filter (λ fd, t !! fd = None) (seqZ 0 (Z.of_nat NOFILE))).

(** What a process and its children do; [TFail] marks a call that failed. *)
Inductive tree :=
| TExit (status : Z)
| TExec (argv : list word) (t : fdtable)
| TFork (child rest : tree)
| TWait (rest : tree)
| TPrint (msg : string) (rest : tree)
| TFail (rest : tree).

(** [runs π n t p x]: process [π] with descriptors [t], after [n] calls, runs [p].
    Each call does what the kernel does, or fails. *)
Inductive runs : list nat → nat → fdtable → prog → tree → Prop :=
| r_exit π n t st : runs π n t (Exit st) (TExit st)
| r_exec π n t a k : runs π n t (Exec a k) (TExec a t)
| r_exec_fails π n t a k x : runs π n t k x → runs π n t (Exec a k) (TFail x)
| r_fork π n t k pid x y : 0 < pid → runs (n :: π) 0 t (k 0) x → runs π (S n) t (k pid) y → runs π n t (Fork k) (TFork x y)
| r_fork_fails π n t k x : runs π n t (k (-1)) x → runs π n t (Fork k) (TFail x)
| r_wait π n t k x : runs π n t k x → runs π n t (Wait k) (TWait x)
| r_close π n t fd k x : runs π n (delete fd t) k x → runs π n t (Close fd k) x
| r_dup π n t fd d fd' k x : t !! fd = Some d → lowest t = Some fd' → runs π n (<[fd' := d]> t) k x → runs π n t (Dup fd k) x
| r_dup_fails π n t fd k x : t !! fd = None ∨ lowest t = None → runs π n t k x → runs π n t (Dup fd k) (TFail x)
| r_open π n t f m fd k x : lowest t = Some fd → runs π n (<[fd := DFile f m]> t) (k fd) x → runs π n t (Open f m k) x
| r_open_fails π n t f m k x : runs π n t (k (-1)) x → runs π n t (Open f m k) (TFail x)
| r_pipe π n t p0 p1 k x : lowest t = Some p0 → lowest (<[p0 := DRead (n :: π)]> t) = Some p1 →
    runs π (S n) (<[p1 := DWrite (n :: π)]> (<[p0 := DRead (n :: π)]> t)) (k (Some (p0, p1))) x → runs π n t (Pipe k) x
| r_pipe_fails π n t k x : runs π n t (k None) x → runs π n t (Pipe k) (TFail x)
| r_print π n t s k x : runs π n t k x → runs π n t (Eprint s k) (TPrint s x).

(** ** What a command means *)

(** The processes a command starts, with their descriptors, and what the shell
    waits for. *)
Fixpoint plan (π : list nat) (n : nat) (t : fdtable) (c : cmd) : tree :=
  match c with
  | EXEC argv => match argv with [] => TExit 1 | _ => TExec argv t end
  | REDIR c r => plan π n (<[r_fd r := DFile (r_file r) (r_mode r)]> t) c
  | LIST l r => TFork (plan (n :: π) 0 t l) (TWait (plan π (S n) t r))
  | PIPE l r =>
      TFork (plan (S n :: π) 0 (<[1 := DWrite (n :: π)]> t) l)
        (TFork (plan (S (S n) :: π) 0 (<[0 := DRead (n :: π)]> t) r) (TWait (TWait (TExit 0))))
  | BACK c => TFork (plan (n :: π) 0 t c) (TExit 0)
  end.

Fixpoint execs (x : tree) : list (list word * fdtable) :=
  match x with
  | TExit _ => []
  | TExec a t => [(a, t)]
  | TFork x y => execs x ++ execs y
  | TWait x | TPrint _ x | TFail x => execs x
  end.
Fixpoint failed (x : tree) : bool :=
  match x with
  | TExit _ | TExec _ _ => false
  | TFork x y => failed x || failed y
  | TWait x | TPrint _ x => failed x
  | TFail _ => true
  end.

(** Standard input, output and error are open, and nothing else is. *)
Definition std (a b c : desc) : fdtable := <[0 := a]> (<[1 := b]> {[2 := c]}).

Lemma std_dom (t : fdtable) : dom t = {[0; 1; 2]} → ∃ a b c, t = std a b c.
Proof.
  intros Hd. assert (∀ k, k ∈ dom t → is_Some (t !! k)) as Hs by (intros k; apply elem_of_dom). rewrite Hd in Hs.
  destruct (Hs 0) as [a Ha], (Hs 1) as [b Hb], (Hs 2) as [c Hc]; [set_solver..|]. exists a, b, c. apply map_eq. intros k. unfold std.
  destruct (decide (k = 0)) as [->|]; [by rewrite lookup_insert_eq|]. rewrite lookup_insert_ne by done.
  destruct (decide (k = 1)) as [->|]; [by rewrite lookup_insert_eq|]. rewrite lookup_insert_ne by done.
  destruct (decide (k = 2)) as [->|]; [by rewrite lookup_singleton_eq|]. rewrite lookup_singleton_ne by done.
  apply not_elem_of_dom. rewrite Hd. set_solver.
Qed.

(** Redirections of the parser are of standard input and output. *)
Fixpoint std_redirs (c : cmd) : Prop :=
  match c with
  | EXEC _ => True
  | REDIR c r => (r_fd r = 0 ∨ r_fd r = 1) ∧ std_redirs c
  | PIPE l r | LIST l r => std_redirs l ∧ std_redirs r
  | BACK c => std_redirs c
  end.

Section facts.
Context (a b c d e : desc).
Lemma lowest_std : lowest (std a b c) = Some 3.
Proof. reflexivity. Qed.
Lemma lowest_std3 : lowest (<[3 := d]> (std a b c)) = Some 4.
Proof. reflexivity. Qed.
Lemma lowest_no0 : lowest (delete 0 (std a b c)) = Some 0.
Proof. reflexivity. Qed.
Lemma lowest_no1 : lowest (delete 1 (std a b c)) = Some 1.
Proof. reflexivity. Qed.
Lemma std_set0 : <[0 := d]> (delete 0 (std a b c)) = std d b c.
Proof. reflexivity. Qed.
Lemma std_set1 : <[1 := d]> (delete 1 (std a b c)) = std a d c.
Proof. reflexivity. Qed.

(** The descriptors of the two ends of a pipe, and of the shell. *)
Definition piped : fdtable := <[4 := e]> (<[3 := d]> (std a b c)).
Lemma piped_left : delete 1 piped !! 4 = Some e ∧ lowest (delete 1 piped) = Some 1 ∧ delete 4 (delete 3 (<[1 := e]> (delete 1 piped))) = std a e c.
Proof. done. Qed.
Lemma piped_right : delete 0 piped !! 3 = Some d ∧ lowest (delete 0 piped) = Some 0 ∧ delete 4 (delete 3 (<[0 := d]> (delete 0 piped))) = std d b c.
Proof. done. Qed.
Lemma piped_shell : delete 4 (delete 3 piped) = std a b c.
Proof. done. Qed.
Lemma std_insert0 : <[0 := d]> (std a b c) = std d b c.
Proof. reflexivity. Qed.
Lemma std_insert1 : <[1 := d]> (std a b c) = std a d c.
Proof. reflexivity. Qed.
End facts.

Lemma std_redir t r f m : dom t = {[0; 1; 2]} → r = 0 ∨ r = 1 → lowest (delete r t) = Some r ∧ <[r := DFile f m]> (delete r t) = <[r := DFile f m]> t ∧
  dom (<[r := DFile f m]> t : fdtable) = {[0; 1; 2]}.
Proof.
  intros Ht Hr. split_and!.
  - destruct (std_dom t Ht) as (a & b & c & ->). by destruct Hr as [->| ->].
  - by rewrite insert_delete_eq.
  - rewrite dom_insert_L, Ht. set_solver.
Qed.

Lemma fork1_inv π n t k x : runs π n t (fork1 k) x →
  (∃ pid y z, 0 < pid ∧ x = TFork y z ∧ runs (n :: π) 0 t (k 0) y ∧ runs π (S n) t (k pid) z) ∨ x = TFail (TPrint "fork" (TExit 1)).
Proof.
  unfold fork1. inversion 1 as [| | |? ? ? ? pid y z Hp Hy Hz|? ? ? ? y Hy| | | | | | | | |]; subst; [left|right].
  - exists pid, y, z. rewrite (proj2 (Z.eqb_neq pid (-1))) in Hz by lia. done.
  - inversion Hy; subst. match goal with H : runs _ _ _ (Exit 1) _ |- _ => by inversion H end.
Qed.
Lemma close_inv π n t fd k x : runs π n t (Close fd k) x → runs π n (delete fd t) k x.
Proof. by inversion 1. Qed.
Lemma dup_inv π n t fd k x d fd' : t !! fd = Some d → lowest t = Some fd' → runs π n t (Dup fd k) x → runs π n (<[fd' := d]> t) k x.
Proof. intros Hd Hl. inversion 1; subst; naive_solver. Qed.
Lemma exec_inv π n t a s st x : runs π n t (Exec a (Eprint s (Exit st))) x → x = TExec a t ∨ x = TFail (TPrint s (TExit st)).
Proof.
  inversion 1; subst; [by left|right]. match goal with H : runs _ _ _ (Eprint _ _) _ |- _ => inversion H; subst; clear H end.
  by match goal with H : runs _ _ _ (Exit _) _ |- _ => inversion H end.
Qed.
Lemma open_inv π n t f m k x fd : lowest t = Some fd → runs π n t (Open f m k) x →
  runs π n (<[fd := DFile f m]> t) (k fd) x ∨ ∃ y, x = TFail y ∧ runs π n t (k (-1)) y.
Proof. intros Hl. inversion 1; subst; [left|right]; naive_solver. Qed.
Lemma eprint_exit_inv π n t s st x : runs π n t (Eprint s (Exit st)) x → x = TPrint s (TExit st).
Proof. inversion 1; subst. by match goal with H : runs _ _ _ (Exit _) _ |- _ => inversion H end. Qed.

(** What a command does, whatever fails: it starts nothing but what the plan has,
    and if nothing fails, it is the plan. *)
Definition does (c : cmd) : Prop := ∀ π n t x, dom t = {[0; 1; 2]} → runs π n t (runcmd c) x →
  execs x `sublist_of` execs (plan π n t c) ∧ (failed x = false → x = plan π n t c).

Lemma does_exec a : does (EXEC a).
Proof.
  intros π n t x _. destruct a as [|w a]; simpl; [by inversion 1|]. intros [->| ->]%exec_inv; [done|]. split; [apply sublist_nil_l|done].
Qed.
Lemma does_redir c r : r_fd r = 0 ∨ r_fd r = 1 → does c → does (REDIR c r).
Proof.
  intros Hr IH π n t x Ht Hx%close_inv. destruct (std_redir t (r_fd r) (r_file r) (r_mode r) Ht Hr) as (Hl & Hi & Hd).
  destruct (open_inv _ _ _ _ _ _ _ _ Hl Hx) as [Hy|(y & -> & ->%eprint_exit_inv)].
  - rewrite Hi, (proj2 (Z.ltb_ge (r_fd r) 0)) in Hy by lia. by apply IH.
  - split; [apply sublist_nil_l|done].
Qed.
Lemma does_list l r : does l → does r → does (LIST l r).
Proof.
  intros Hl Hr π n t x Ht [(pid & y & z & Hp & -> & Hy & Hz)| ->]%fork1_inv; [|split; [apply sublist_nil_l|done]].
  rewrite (proj2 (Z.eqb_neq pid 0)) in Hz by lia. simpl in Hy, Hz. fold runcmd in Hy, Hz. inversion Hz; subst. destruct (Hl _ _ _ _ Ht Hy) as [S1 E1].
  match goal with H : runs _ _ _ (runcmd r) _ |- _ => destruct (Hr _ _ _ _ Ht H) as [S2 E2] end. simpl. split; [by apply sublist_app|].
  intros [F1 F2]%orb_false_iff. by rewrite E1, E2.
Qed.
Lemma does_back c : does c → does (BACK c).
Proof.
  intros IH π n t x Ht [(pid & y & z & Hp & -> & Hy & Hz)| ->]%fork1_inv; [|split; [apply sublist_nil_l|done]].
  rewrite (proj2 (Z.eqb_neq pid 0)) in Hz by lia. simpl in Hy, Hz. fold runcmd in Hy, Hz. inversion Hz; subst. destruct (IH _ _ _ _ Ht Hy) as [S1 E1]. simpl.
  rewrite !app_nil_r, orb_false_r. split; [done|]. intros F. by rewrite E1.
Qed.

(** The two children of a pipe. *)
Lemma pipe_left π n a b c d e l x : does l → runs π n (piped a b c d e) (Close 1 (Dup 4 (Close 3 (Close 4 (runcmd l))))) x →
  execs x `sublist_of` execs (plan π n (std a e c) l) ∧ (failed x = false → x = plan π n (std a e c) l).
Proof.
  intros IH Hx%close_inv. destruct (piped_left a b c d e) as (H1 & H2 & H3). apply (dup_inv _ _ _ _ _ _ _ _ H1 H2) in Hx.
  apply close_inv, close_inv in Hx. rewrite H3 in Hx. apply IH; [|done]. unfold std. rewrite !dom_insert_L, dom_singleton_L. set_solver.
Qed.
Lemma pipe_right π n a b c d e r x : does r → runs π n (piped a b c d e) (Close 0 (Dup 3 (Close 3 (Close 4 (runcmd r))))) x →
  execs x `sublist_of` execs (plan π n (std d b c) r) ∧ (failed x = false → x = plan π n (std d b c) r).
Proof.
  intros IH Hx%close_inv. destruct (piped_right a b c d e) as (H1 & H2 & H3). apply (dup_inv _ _ _ _ _ _ _ _ H1 H2) in Hx.
  apply close_inv, close_inv in Hx. rewrite H3 in Hx. apply IH; [|done]. unfold std. rewrite !dom_insert_L, dom_singleton_L. set_solver.
Qed.
Lemma pipe_shell π n t x : runs π n t (Close 3 (Close 4 (Wait (Wait (Exit 0))))) x → x = TWait (TWait (TExit 0)).
Proof.
  intros Hx%close_inv%close_inv. inversion Hx; subst. match goal with H : runs _ _ _ (Wait _) _ |- _ => inversion H; subst end.
  by match goal with H : runs _ _ _ (Exit _) _ |- _ => inversion H end.
Qed.

Lemma does_pipe l r : does l → does r → does (PIPE l r).
Proof.
  intros Hl Hr π n t x Ht Hx. destruct (std_dom t Ht) as (a & b & c & ->). simpl in Hx. fold runcmd in Hx.
  inversion Hx as [| | | | | | | | | | |? ? ? p0 p1 ? ? L0 L1 Hy|? ? ? ? ? Hy|]; subst; [|apply eprint_exit_inv in Hy as ->; split; [apply sublist_nil_l|done]].
  rewrite lowest_std in L0. injection L0 as <-. rewrite lowest_std3 in L1. injection L1 as <-. fold (piped a b c (DRead (n :: π)) (DWrite (n :: π))) in Hy. cbn [plan].
  rewrite std_insert0, std_insert1. clear Hx. apply fork1_inv in Hy as [(pid & y & z & Hp & -> & Hy & Hz)| ->]; [|split; [apply sublist_nil_l|done]].
  rewrite (proj2 (Z.eqb_neq pid 0)) in Hz by lia. apply pipe_left in Hy as [S1 E1]; [|done].
  apply fork1_inv in Hz as [(pid' & y' & z' & Hp' & -> & Hy' & Hz')| ->].
  - rewrite (proj2 (Z.eqb_neq pid' 0)) in Hz' by lia. apply pipe_right in Hy' as [S2 E2]; [|done]. apply pipe_shell in Hz' as ->. simpl.
    rewrite !app_nil_r, orb_false_r. split; [by apply sublist_app|]. intros [F1 F2]%orb_false_iff. by rewrite E1, E2.
  - simpl. split; [apply sublist_app; [done|apply sublist_nil_l]|]. by rewrite orb_true_r.
Qed.

Lemma runcmd_does c : std_redirs c → does c.
Proof.
  induction c as [a|c IH r|l IHl r IHr|l IHl r IHr|c IH]; simpl; intros H.
  - apply does_exec.
  - apply does_redir; [apply H|apply IH, H].
  - apply does_pipe; [apply IHl, H|apply IHr, H].
  - apply does_list; [apply IHl, H|apply IHr, H].
  - apply does_back. by apply IH.
Qed.

(** ** ... and the plan is a run *)

Lemma std_ok a b c : dom (std a b c) = {[0; 1; 2]}.
Proof. unfold std. rewrite !dom_insert_L, dom_singleton_L. set_solver. Qed.

Lemma plan_runs c : std_redirs c → ∀ π n t, dom t = {[0; 1; 2]} → runs π n t (runcmd c) (plan π n t c) ∧ failed (plan π n t c) = false.
Proof.
  induction c as [a|c IH r|l IHl r IHr|l IHl r IHr|c IH]; intros Hs π n t Ht; simpl in Hs |- *; fold runcmd.
  - destruct a; (split; [constructor|done]).
  - destruct (std_redir t (r_fd r) (r_file r) (r_mode r) Ht (proj1 Hs)) as (Hl & Hi & Hd). destruct (IH (proj2 Hs) π n _ Hd) as [R F]. split; [|done].
    apply r_close, (r_open _ _ _ _ _ (r_fd r)); [done|]. rewrite Hi, (proj2 (Z.ltb_ge (r_fd r) 0)) by (destruct Hs; lia). done.
  - destruct (std_dom t Ht) as (a & b & c & ->). rewrite std_insert0, std_insert1.
    destruct (IHl (proj1 Hs) (S n :: π) 0%nat _ (std_ok a (DWrite (n :: π)) c)) as [R1 F1], (IHr (proj2 Hs) (S (S n) :: π) 0%nat _ (std_ok (DRead (n :: π)) b c)) as [R2 F2].
    split; [|by rewrite F1, F2]. apply (r_pipe _ _ _ 3 4); [done|done|]. fold (piped a b c (DRead (n :: π)) (DWrite (n :: π))).
    destruct (piped_left a b c (DRead (n :: π)) (DWrite (n :: π))) as (H1 & H2 & H3), (piped_right a b c (DRead (n :: π)) (DWrite (n :: π))) as (H4 & H5 & H6).
    apply (r_fork _ _ _ _ 1); [done|apply r_close, (r_dup _ _ _ _ _ _ _ _ H1 H2), r_close, r_close; by rewrite H3|].
    apply (r_fork _ _ _ _ 2); [done|apply r_close, (r_dup _ _ _ _ _ _ _ _ H4 H5), r_close, r_close; by rewrite H6|]. apply r_close, r_close, r_wait, r_wait, r_exit.
  - destruct (IHl (proj1 Hs) (n :: π) 0%nat t Ht) as [R1 F1], (IHr (proj2 Hs) π (S n) t Ht) as [R2 F2]. split; [|by rewrite F1, F2].
    apply (r_fork _ _ _ _ 1); [done|done|]. by apply r_wait.
  - destruct (IH Hs (n :: π) 0%nat t Ht) as [R1 F1]. split; [|by rewrite F1]. apply (r_fork _ _ _ _ 1); [done|done|]. apply r_exit.
Qed.

Lemma plan_std c : std_redirs c → ∀ π n t, dom t = {[0; 1; 2]} → Forall (λ x, dom x.2 = {[0; 1; 2]}) (execs (plan π n t c)).
Proof.
  induction c as [a|c IH r|l IHl r IHr|l IHl r IHr|c IH]; intros Hs π n t Ht; simpl in Hs |- *.
  - destruct a; repeat constructor. done.
  - apply IH; [apply Hs|]. apply (std_redir t (r_fd r) _ _ Ht (proj1 Hs)).
  - rewrite app_nil_r. apply Forall_app. split; [apply IHl|apply IHr]; try apply Hs; rewrite dom_insert_L, Ht; set_solver.
  - destruct Hs. apply Forall_app. split; [by apply IHl|by apply IHr].
  - rewrite app_nil_r. by apply IH.
Qed.

(** Redirections of parsed commands. *)
Lemma wrap_std c rs : std_redirs c → Forall (λ r, r_fd r = 0 ∨ r_fd r = 1) rs → std_redirs (wrap c rs).
Proof. unfold wrap. intros Hc Hr. revert c Hc. induction Hr as [|r rs H _ IH]; intros c Hc; [done|]. simpl. by apply IH. Qed.

Lemma redir_of_std t w : r_fd (redir_of t w) = 0 ∨ r_fd (redir_of t w) = 1.
Proof. unfold redir_of. repeat case_match; auto. Qed.
Lemma gredirs_std l rs : gredirs l rs → Forall (λ r, r_fd r = 0 ∨ r_fd r = 1) rs.
Proof. induction 1; constructor; auto using redir_of_std. Qed.
Lemma gitems_std l a rs : gitems l a rs → Forall (λ r, r_fd r = 0 ∨ r_fd r = 1) rs.
Proof. induction 1; [constructor|done|constructor; auto using redir_of_std]. Qed.
Lemma gline_std l c : gline l c → std_redirs c.
Proof.
  intros Hg. refine (gline_mut (λ _ c _, std_redirs c) (λ _ c _, std_redirs c) (λ _ c _, std_redirs c) (λ _ c _, std_redirs c) _ _ _ _ _ _ _ _ l c Hg);
    clear l c Hg; simpl; intros; try done; apply wrap_std; try done; eauto using gredirs_std, gitems_std.
Qed.

(** ** Running a line *)

(** A parsed line, run by a shell with its three standard descriptors, starts
    the commands of the line and nothing else, each with the descriptors of its
    place in the line: a redirection replaces standard input or output, the
    commands of a pipe share exactly the two ends of a fresh pipe, and no other
    descriptor (such as the end of another pipe) reaches any command.  This
    holds whatever calls of [fork], [open], [pipe] or [exec] fail; when none
    fails, the processes and the calls of [wait] between them are exactly those
    of the line. *)
Lemma runcmd_wires s fuel c i π n t : 0 ∉ s → (4 * length s + 4 <= fuel)%nat → parsecmd s fuel = POk c i → dom t = {[0; 1; 2]} →
  (∀ x, runs π n t (runcmd c) x → execs x `sublist_of` execs (plan π n t c) ∧ (failed x = false → x = plan π n t c)) ∧
  runs π n t (runcmd c) (plan π n t c) ∧ failed (plan π n t c) = false ∧
  Forall (λ x, dom x.2 = {[0; 1; 2]}) (execs (plan π n t c)).
Proof.
  intros H0 Hf E Ht. assert (std_redirs c) as Hs by (eapply gline_std, (parsecmd_iff s H0 fuel c Hf); by exists i). split.
  - intros x. by apply runcmd_does.
  - destruct (plan_runs c Hs π n t Ht). split_and!; [done|done|]. by apply plan_std.
Qed.
