(* ===== verification/ShMain.v ===== *)
(** * The shell: [getcmd] and [main] of [user/sh.c]

    [main] opens the three standard descriptors, then reads lines into its
    buffer and either changes its directory or forks a child for the line.  The
    results of [open], [chdir] and [fork] are the environment's.  The theorem
    says what a session does with the whole of its input, by way of
    [gets] (Ulib.v), [parsecmd] (ShSpec.v) and [runcmd] (ShRun.v). *)
From stdpp Require Import gmap.
From S2P Require Import Prelude Machine Cstring Sysfile Ulib Sh ShSpec ShRun.

(** ** [getcmd] *)

(** [inp] is what standard input delivers; the prompt is an event of the session below. *)
Definition getcmd (m : mem) (buf nbuf : Z) (inp : list Z) : Z * mem * list Z :=
  let m := umemset m buf 0 nbuf in
  let '(m, inp) := gets m buf nbuf inp in
  (if m buf =? 0 then -1 else 0, m, inp).

(** ** [main] *)

(** The string at [p], of at most [k] bytes. *)
Fixpoint cstring (k : nat) (m : mem) (p : Z) : list Z :=
  match k with
  | O => []
  | S k' => if m p =? 0 then [] else m p :: cstring k' m (p + 1)
  end.

(** [while((fd = open("console", O_RDWR)) >= 0)]: [fails i] is whether the [i]-th call fails. *)
Fixpoint open_loop (fuel : nat) (console : desc) (fails : nat → bool) (i : nat) (t : fdtable) : option fdtable :=
  match fuel with
  | O => None
  | S f =>
      if fails i then Some t else
      match lowest t with
      | None => Some t
      | Some fd =>
          let t := <[fd := console]> t in
          if fd >=? 3 then Some (delete fd t) else open_loop f console fails (S i) t
      end
  end.

(** [sizeof(buf)] *)
Definition NBUF : Z := 100.

(** What [main] does with the line in its buffer; a directory is a path. *)
Inductive action :=
| Cd (dir : list Z)
| Run (line : list Z).

Definition main_body (m : mem) (buf : Z) : mem * action :=
  if (m buf =? 99) && (m (buf + 1) =? 100) && (m (buf + 2) =? 32) then
    let m := wr m (buf + (default 0 (ustrlen (Z.to_nat NBUF) m buf) - 1)) 0 in
    (m, Cd (cstring (Z.to_nat NBUF) m (buf + 3)))
  else (m, Run (cstring (Z.to_nat NBUF) m buf)).

(** [runcmd(parsecmd(buf))]; the fuel is enough for a line of the buffer. *)
Definition child (line : list Z) : prog :=
  match parsecmd line (4 * Z.to_nat NBUF + 4) with
  | POk c _ => runcmd c
  | PErr msg => panic msg
  | PFuel => Exit 0
  end.

(** What can be seen of the shell: its calls, its messages, and all that a child does. *)
Inductive event :=
| Prompt
| Chdir (dir : list Z)
| CannotCd (dir : list Z)
| Forked (line : list Z) (x : tree)
| Waited
| ForkFailed
| Exited (status : Z).

(** The loop of [main]: the process [π] with descriptors [t], after [n] forks. *)
Inductive session (buf : Z) (π : list nat) (t : fdtable) : nat → mem → list Z → list event → Prop :=
| s_eof n m m' inp inp' : getcmd m buf NBUF inp = (-1, m', inp') →
    session buf π t n m inp [Prompt; Exited 0]
| s_cd n m m1 m2 inp inp' dir es : getcmd m buf NBUF inp = (0, m1, inp') → main_body m1 buf = (m2, Cd dir) →
    session buf π t n m2 inp' es → session buf π t n m inp (Prompt :: Chdir dir :: es)
| s_cd_fails n m m1 m2 inp inp' dir es : getcmd m buf NBUF inp = (0, m1, inp') → main_body m1 buf = (m2, Cd dir) →
    session buf π t n m2 inp' es → session buf π t n m inp (Prompt :: Chdir dir :: CannotCd dir :: es)
| s_run n m m1 m2 inp inp' l x es : getcmd m buf NBUF inp = (0, m1, inp') → main_body m1 buf = (m2, Run l) →
    runs (n :: π) 0 t (child l) x →
    session buf π t (S n) m2 inp' es → session buf π t n m inp (Prompt :: Forked l x :: Waited :: es)
| s_fork_fails n m m1 m2 inp inp' l : getcmd m buf NBUF inp = (0, m1, inp') → main_body m1 buf = (m2, Run l) →
    session buf π t n m inp [Prompt; ForkFailed; Exited 1].

(** ** The three descriptors *)

Lemma lowest_first (t : fdtable) fd : 0 <= fd < Z.of_nat NOFILE → t !! fd = None → (∀ j, 0 <= j < fd → is_Some (t !! j)) → lowest t = Some fd.
Proof.
  intros Hf Hn Hs. unfold lowest. replace (Z.of_nat NOFILE) with (fd + Z.succ (Z.pred (Z.of_nat NOFILE - fd))) by lia.
  rewrite seqZ_app, filter_app by lia. rewrite (seqZ_cons (0 + fd)) by lia.
  assert (filter (λ j, t !! j = None) (seqZ 0 fd) = []) as ->.
  { apply elem_of_nil_inv. intros j [Hj [H1 H2]%elem_of_seqZ]%list_elem_of_filter. destruct (Hs j) as [d Hd]; [lia|]. congruence. }
  rewrite filter_cons_True by (by rewrite Z.add_0_l). simpl. f_equal.
Qed.

Lemma open_fills console d : (d <= 3)%nat → ∀ t i f, (∀ j, 0 <= j < 3 - Z.of_nat d → is_Some (t !! j)) → t !! 3 = None →
  ∃ t', open_loop (S d + f) console (λ _, false) i t = Some t' ∧ t ⊆ t' ∧ (∀ j, 0 <= j < 3 → is_Some (t' !! j)) ∧ (∀ j, ¬ 0 <= j < 3 → t' !! j = t !! j).
Proof.
  induction d as [|d IH]; intros Hd t i f Hs H3.
  - exists t. simpl. rewrite (lowest_first t 3) by (try done; change NOFILE with 16%nat; lia). simpl.
    rewrite delete_insert_id by done. done.
  - set (k := 3 - Z.of_nat (S d)). destruct (t !! k) as [e|] eqn:Ek.
    + destruct (IH ltac:(lia) t i (S f)) as (t' & E & H); [|done|].
      { intros j ?. destruct (decide (j = k)) as [->|]; [by rewrite Ek|]. apply Hs. lia. }
      exists t'. split; [|done]. rewrite <- E. f_equal. lia.
    + cbn [Nat.add open_loop]. rewrite (lowest_first t k) by (try done; change NOFILE with 16%nat; lia).
      rewrite Z.geb_leb, (proj2 (Z.leb_gt 3 k)) by lia.
      destruct (IH ltac:(lia) (<[k := console]> t) (S i) f) as (t' & E & H1 & H2 & H4).
      { intros j ?. destruct (decide (j = k)) as [->|]; [by rewrite lookup_insert_eq|]. rewrite lookup_insert_ne by done. apply Hs. lia. }
      { rewrite lookup_insert_ne by lia. done. }
      exists t'. split; [done|]. split_and!; [|done|].
      * transitivity (<[k := console]> t); [by apply insert_subseteq|done].
      * intros j ?. rewrite H4 by done. apply lookup_insert_ne. lia.
Qed.

Lemma open_three console (t : fdtable) : dom t ⊆ {[0; 1; 2]} →
  ∃ t', open_loop 4 console (λ _, false) 0 t = Some t' ∧ t ⊆ t' ∧ dom t' = {[0; 1; 2]}.
Proof.
  intros Hd. assert (∀ j, ¬ 0 <= j < 3 → t !! j = None) as Hn.
  { intros j ?. apply not_elem_of_dom. intros Hj%Hd. set_unfold. lia. }
  destruct (open_fills console 3 ltac:(lia) t 0%nat 0%nat) as (t' & E & H1 & H2 & H3); [intros; lia|by apply Hn; lia|].
  exists t'. split_and!; [done|done|]. apply set_eq. intros j. rewrite elem_of_dom. split.
  - intros Hj. destruct (decide (0 <= j < 3)); [set_unfold; lia|]. rewrite H3, Hn in Hj by done. by destruct Hj.
  - intros. apply H2. set_unfold. lia.
Qed.

(** ** The buffer *)

(** A string is in memory. *)
Definition stored (m : mem) (p : Z) (l : list Z) : Prop :=
  0 ∉ l ∧ (∀ i x, l !! i = Some x → m (p + Z.of_nat i) = x) ∧ m (p + Z.of_nat (length l)) = 0.

Lemma stored_cons m p x l : stored m p (x :: l) → m p = x ∧ x ≠ 0 ∧ stored m (p + 1) l.
Proof.
  intros (H0 & Hi & He). split_and!; [by rewrite <- (Hi O x eq_refl), Z.add_0_r|set_solver|]. split_and!; [set_solver| |].
  - intros i y Hy. rewrite <- (Hi (S i) y Hy). f_equal. lia.
  - rewrite <- He. f_equal. simpl. lia.
Qed.
Lemma stored_nil m p : stored m p [] → m p = 0.
Proof. intros (_ & _ & H). by rewrite Z.add_0_r in H. Qed.

Lemma cstring_stored k m p l : stored m p l → (length l <= k)%nat → cstring k m p = l.
Proof.
  revert p l. induction k as [|k IH]; intros p [|x l] Hm Hl; simpl in Hl; try done; try lia.
  - simpl. by rewrite (stored_nil _ _ Hm).
  - apply stored_cons in Hm as (E & Hx & Hm). simpl. rewrite E, (proj2 (Z.eqb_neq x 0)) by done. f_equal. apply IH; [done|lia].
Qed.

Lemma ustrlen_stored k m p l n : stored m (p + n) l → (length l < k)%nat → 0 <= n → n + Z.of_nat (length l) < 2 ^ 31 →
  ustrlen_loop k m p n = Some (n + Z.of_nat (length l)).
Proof.
  revert n l. induction k as [|k IH]; intros n [|x l] Hm Hl Hn Hb; simpl in Hl, Hb; try lia; simpl.
  - rewrite (stored_nil _ _ Hm). simpl. rewrite u32_id by lia. f_equal. lia.
  - apply stored_cons in Hm as (E & Hx & Hm). unfold truth. rewrite E, (proj2 (Z.eqb_neq x 0)), i32_id by (done || lia). simpl.
    rewrite (IH _ l); [f_equal; lia| |lia|lia|lia]. by rewrite Z.add_assoc.
Qed.

(** What [getcmd] puts into the buffer. *)
Definition chunk (inp : list Z) : list Z := take (Z.to_nat (NBUF - 1)) (line inp).

Lemma line_take inp : line inp = take (length (line inp)) inp.
Proof. induction inp as [|c inp IH]; [done|]. simpl. destruct (_ || _); simpl; [done|]. by f_equal. Qed.
Lemma chunk_take inp : chunk inp = take (length (chunk inp)) inp.
Proof. unfold chunk. rewrite length_take. rewrite line_take at 1. by rewrite take_take. Qed.
Lemma chunk_drop inp : inp = chunk inp ++ drop (length (chunk inp)) inp.
Proof. rewrite chunk_take at 1. by rewrite take_drop. Qed.
Lemma chunk_length inp : (length (chunk inp) < Z.to_nat NBUF)%nat.
Proof. unfold chunk. rewrite length_take. change NBUF with 100. lia. Qed.

Lemma getcmd_line m buf inp : 0 ∉ inp → ∃ m',
  getcmd m buf NBUF inp = (if bool_decide (inp = []) then -1 else 0, m', drop (length (chunk inp)) inp) ∧ stored m' buf (chunk inp).
Proof.
  intros H0. unfold getcmd. destruct (gets_line (umemset m buf 0 NBUF) buf NBUF inp) as (m' & E & Hl & Hm); [done|].
  fold (chunk inp) in E, Hl, Hm. rewrite E. exists m'. assert (stored m' buf (chunk inp)) as Hs.
  { split_and!; [rewrite chunk_take; by intros ?%subseteq_take| |by rewrite Hm, Z.eqb_refl].
    intros i x Hx. pose proof (lookup_lt_Some _ _ _ Hx). rewrite Hm. zcases. replace (Z.to_nat _) with i by lia. by apply list_lookup_total_correct. }
  split; [|done]. f_equal. f_equal. destruct inp as [|c inp].
  - simpl. apply stored_nil in Hs. by rewrite Hs.
  - assert (chunk (c :: inp) = c :: take 98 (if (c =? 10) || (c =? 13) then [] else line inp)) as Hc by done.
    rewrite Hc in Hs. apply stored_cons in Hs as (-> & Hz & _). by rewrite (proj2 (Z.eqb_neq c 0)).
Qed.

(** ** A line *)

Definition is_cd (l : list Z) : bool :=
  match l with c :: d :: s :: _ => (c =? 99) && (d =? 100) && (s =? 32) | _ => false end.

Lemma cd_test m buf l : stored m buf l → (m buf =? 99) && (m (buf + 1) =? 100) && (m (buf + 2) =? 32) = is_cd l.
Proof.
  intros Hs. destruct l as [|c l]; [by rewrite (stored_nil _ _ Hs)|]. apply stored_cons in Hs as (-> & _ & Hs).
  destruct l as [|d l]; [rewrite (stored_nil _ _ Hs); simpl; by rewrite andb_false_r|]. apply stored_cons in Hs as (-> & _ & Hs).
  replace (buf + 1 + 1) with (buf + 2) in Hs by lia. destruct l as [|x l]; [rewrite (stored_nil _ _ Hs); simpl; by rewrite andb_false_r|].
  by apply stored_cons in Hs as (-> & _ & Hs).
Qed.

(** The byte before the NUL goes. *)
Lemma stored_chop m p l : stored m p l → stored (wr m (p + Z.of_nat (length l) - 1) 0) p (removelast l).
Proof.
  destruct l as [|x l _] using rev_ind; intros (H0 & Hi & He).
  - split_and!; [set_solver|done|]. simpl in *. unfold wr. zcases.
  - rewrite removelast_last, length_app. split_and!; [set_solver| |].
    + intros i y Hy. pose proof (lookup_lt_Some _ _ _ Hy). unfold wr. simpl. zcases. apply Hi. by apply lookup_app_l_Some.
    + unfold wr. simpl. zcases.
Qed.

Lemma main_body_line m buf l : stored m buf l → (length l < Z.to_nat NBUF)%nat →
  ∃ m', main_body m buf = (m', if is_cd l then Cd (removelast (drop 3 l)) else Run l).
Proof.
  intros Hs Hl. unfold main_body. rewrite (cd_test m buf l Hs). destruct (is_cd l) eqn:Ec.
  - eexists. f_equal. f_equal. unfold ustrlen. rewrite (ustrlen_stored _ _ _ l) by (rewrite ?Z.add_0_r; done || change NBUF with 100 in Hl; lia).
    destruct l as [|c [|d [|x l]]]; try done. simpl in Hl. cbn [default length drop from_option id]. rewrite drop_0.
    apply stored_cons in Hs as (_ & _ & Hs). apply stored_cons in Hs as (_ & _ & Hs). apply stored_cons in Hs as (_ & _ & Hs).
    replace (buf + 1 + 1 + 1) with (buf + 3) in Hs by lia. apply cstring_stored.
    + replace (buf + (0 + Z.of_nat (S (S (S (length l)))) - 1)) with (buf + 3 + Z.of_nat (length l) - 1) by lia. by apply stored_chop.
    + destruct l as [|y l _] using rev_ind; [simpl; lia|]. rewrite removelast_last. rewrite length_app in Hl. lia.
  - exists m. f_equal. f_equal. apply cstring_stored; [done|lia].
Qed.

(** What the child of a line does when no call fails. *)
Definition line_tree (π : list nat) (t : fdtable) (l : list Z) : tree :=
  match parsecmd l (4 * Z.to_nat NBUF + 4) with
  | POk c _ => plan π 0 t c
  | PErr msg => TPrint msg (TExit 1)
  | PFuel => TExit 0
  end.

Section line.
Context (π : list nat) (t : fdtable) (l : list Z).
Hypothesis Ht : dom t = {[0; 1; 2]}.
Hypothesis H0 : 0 ∉ l.
Hypothesis Hl : (length l < Z.to_nat NBUF)%nat.

Lemma parsed_std c i : parsecmd l (4 * Z.to_nat NBUF + 4) = POk c i → std_redirs c.
Proof using H0 Hl. intros E. eapply gline_std, (parsecmd_iff l H0 (4 * Z.to_nat NBUF + 4)); [lia|]. by exists i. Qed.

Lemma child_does x : runs π 0 t (child l) x → execs x `sublist_of` execs (line_tree π t l) ∧ (failed x = false → x = line_tree π t l).
Proof using Ht H0 Hl.
  unfold child, line_tree. destruct (parsecmd l _) as [c i|msg|] eqn:E.
  - by apply runcmd_does; [eapply parsed_std|].
  - by intros ->%eprint_exit_inv.
  - by inversion 1.
Qed.
Lemma child_runs : runs π 0 t (child l) (line_tree π t l) ∧ failed (line_tree π t l) = false.
Proof using Ht H0 Hl.
  unfold child, line_tree. destruct (parsecmd l _) as [c i|msg|] eqn:E.
  - apply plan_runs; [by eapply parsed_std|done].
  - split; [|done]. apply r_print, r_exit.
  - split; [|done]. apply r_exit.
Qed.
Lemma child_std : Forall (λ x, dom x.2 = {[0; 1; 2]}) (execs (line_tree π t l)).
Proof using Ht H0 Hl.
  unfold line_tree. destruct (parsecmd l _) as [c i|msg|] eqn:E; [|constructor|constructor]. apply plan_std; [by eapply parsed_std|done].
Qed.
End line.

(** ** A session *)

Lemma fmap_sublist {A B} (f : A → B) l k : l `sublist_of` k → (f <$> l) `sublist_of` (f <$> k).
Proof. induction 1; [constructor|by apply sublist_skip|by apply sublist_cons]. Qed.

(** What a session does with the lines [ls] when no call fails. *)
Fixpoint ideal (π : list nat) (t : fdtable) (n : nat) (ls : list (list Z)) : list event :=
  match ls with
  | [] => [Prompt; Exited 0]
  | l :: ls =>
      if is_cd l then Prompt :: Chdir (removelast (drop 3 l)) :: ideal π t n ls
      else Prompt :: Forked l (line_tree (n :: π) t l) :: Waited :: ideal π t (S n) ls
  end.

(** The changes of directory and the programs started, in order; an argument of a program is a part of its line. *)
Definition effect (e : event) : list (list Z + list Z * (list word * fdtable)) :=
  match e with
  | Chdir dir => [inl dir]
  | Forked l x => (λ y, inr (l, y)) <$> execs x
  | _ => []
  end.
Definition effects (es : list event) := es ≫= effect.

Definition smooth (es : list event) : bool :=
  forallb (λ e, match e with CannotCd _ | ForkFailed => false | Forked _ x => negb (failed x) | _ => true end) es.

(** The lines as the buffer gets them. *)
Inductive splits : list Z → list (list Z) → Prop :=
| split_nil : splits [] []
| split_line inp ls : inp ≠ [] → splits (drop (length (chunk inp)) inp) ls → splits inp (chunk inp :: ls).

Section session.
Context (buf : Z) (π : list nat) (t : fdtable).
Hypothesis Ht : dom t = {[0; 1; 2]}.

Lemma chunk_nul inp : 0 ∉ inp → 0 ∉ chunk inp ∧ 0 ∉ drop (length (chunk inp)) inp.
Proof. rewrite (chunk_drop inp) at 1. by rewrite not_elem_of_app. Qed.

Lemma iteration m inp : 0 ∉ inp → ∃ m1 m2,
  getcmd m buf NBUF inp = (if bool_decide (inp = []) then -1 else 0, m1, drop (length (chunk inp)) inp) ∧
  main_body m1 buf = (m2, if is_cd (chunk inp) then Cd (removelast (drop 3 (chunk inp))) else Run (chunk inp)).
Proof.
  intros H0. destruct (getcmd_line m buf inp H0) as (m1 & E & Hs). destruct (main_body_line m1 buf _ Hs (chunk_length inp)) as [m2 E2]. by exists m1, m2.
Qed.

Definition follows (ls : list (list Z)) (n : nat) (es : list event) : Prop :=
  effects es `sublist_of` effects (ideal π t n ls) ∧ (smooth es = true → es = ideal π t n ls).

Lemma session_does inp ls : splits inp ls → 0 ∉ inp → ∀ n m es, session buf π t n m inp es → follows ls n es.
Proof using Ht.
  induction 1 as [|inp ls Hi _ IH]; intros H0 n m es Hes.
  { destruct (iteration m [] H0) as (m1 & m2 & E1 & E2). rewrite bool_decide_eq_true_2 in E1 by done.
    destruct Hes; rewrite E1 in *; simplify_eq. by split. }
  destruct (iteration m inp H0) as (m1 & m2 & E1 & E2), (chunk_nul inp H0) as [Hc Hr]. rewrite bool_decide_eq_false_2 in E1 by done. specialize (IH Hr).
  unfold follows in *. cbn [ideal]. destruct Hes as [|? ? ? ? ? ? ? es G B Hes|? ? ? ? ? ? ? es G B Hes|? ? ? ? ? ? l x es G B Hx Hes|? ? ? ? ? ? ? G B]; rewrite E1 in *; simplify_eq;
    try (rewrite E2 in B; destruct (is_cd (chunk inp)); simplify_eq).
  - destruct (IH _ _ _ Hes) as [S1 E]. split; [by apply sublist_skip|]. simpl. intros F. by rewrite E.
  - destruct (IH _ _ _ Hes) as [S1 E]. split; [by apply sublist_skip|done].
  - destruct (IH _ _ _ Hes) as [S1 E], (child_does (n :: π) t (chunk inp) Ht Hc (chunk_length inp) x Hx) as [S2 Ex]. split.
    + unfold effects. cbn [mbind list_bind effect]. simpl. apply sublist_app; [by apply fmap_sublist|done].
    + simpl. intros [F1%negb_true_iff F2]%andb_true_iff. by rewrite Ex, E.
  - split; [apply sublist_nil_l|done].
Qed.

Lemma session_runs inp ls : splits inp ls → 0 ∉ inp → ∀ n m, session buf π t n m inp (ideal π t n ls) ∧ smooth (ideal π t n ls) = true.
Proof using Ht.
  induction 1 as [|inp ls Hi _ IH]; intros H0 n m.
  { destruct (iteration m [] H0) as (m1 & m2 & E1 & E2). split; [by eapply s_eof|done]. }
  destruct (iteration m inp H0) as (m1 & m2 & E1 & E2), (chunk_nul inp H0) as [Hc Hr]. rewrite bool_decide_eq_false_2 in E1 by done.
  cbn [ideal]. destruct (is_cd (chunk inp)).
  - destruct (IH Hr n m2). split; [by eapply s_cd|done].
  - destruct (IH Hr (S n) m2), (child_runs (n :: π) t (chunk inp) Ht Hc (chunk_length inp)) as [R F]. split; [by eapply s_run|]. simpl. by rewrite F.
Qed.

Definition std_effect (e : list Z + list Z * (list word * fdtable)) : Prop :=
  match e with inl _ => True | inr (_, (_, t')) => dom t' = {[0; 1; 2]} end.

Lemma session_std inp ls : splits inp ls → 0 ∉ inp → ∀ n, Forall std_effect (effects (ideal π t n ls)).
Proof using Ht.
  induction 1 as [|inp ls Hi _ IH]; intros H0 n; [constructor|]. destruct (chunk_nul inp H0) as [Hc Hr]. cbn [ideal].
  destruct (is_cd (chunk inp)); simpl; [constructor; [done|by apply IH]|]. apply Forall_app. split; [|by apply IH].
  apply Forall_fmap. eapply Forall_impl; [by apply (child_std (n :: π) t (chunk inp) Ht Hc (chunk_length inp))|]. by intros [a t'].
Qed.
End session.

(** A line that fits the buffer, with its end. *)
Definition shell_line (l : list Z) : Prop :=
  ∃ b, l = b ++ [10] ∧ Forall (λ c, c ≠ 0 ∧ c ≠ 10 ∧ c ≠ 13) b ∧ Z.of_nat (length b) < NBUF - 1.

Lemma line_app b rest : Forall (λ c, c ≠ 0 ∧ c ≠ 10 ∧ c ≠ 13) b → line ((b ++ [10]) ++ rest) = b ++ [10].
Proof.
  induction 1 as [|c b (H0 & H1 & H2) _ IH]; [done|]. simpl. rewrite (proj2 (Z.eqb_neq c 10)), (proj2 (Z.eqb_neq c 13)) by done. simpl. by f_equal.
Qed.
Lemma shell_line_chunk l rest : shell_line l → chunk (l ++ rest) = l.
Proof.
  intros (b & -> & Hb & Hl). unfold chunk. rewrite line_app by done. apply take_ge. rewrite length_app. simpl. lia.
Qed.
Lemma shell_lines_split ls : Forall shell_line ls → splits (concat ls) ls ∧ 0 ∉ concat ls.
Proof.
  induction 1 as [|l ls Hl _ [IH H0]]; [split; [constructor|set_solver]|]. simpl. pose proof (shell_line_chunk l (concat ls) Hl) as Hc.
  split.
  - rewrite <- Hc at 2. constructor.
    + destruct Hl as (b & -> & _). by destruct b.
    + by rewrite Hc, drop_app_length.
  - apply not_elem_of_app. split; [|done]. destruct Hl as (b & -> & Hb & _). rewrite Forall_forall in Hb. intros [Hx|Hx]%elem_of_app; [naive_solver|set_solver].
Qed.

(** C32: the shell, started with any of its three standard descriptors open, opens
    the others and keeps those it has.  Given lines that fit its buffer, it
    handles each line once, in order, until the end of its input: a line [cd
    dir] changes the shell's own directory to [dir], every other line is run by
    a child, for which the shell waits.  Whatever calls of [fork], [chdir],
    [open], [pipe] or [exec] fail, the session changes directory and starts
    programs only as the lines say and in their order, and each program has
    exactly three descriptors; when none fails, it is the session the lines
    describe, and such a session exists. *)
Theorem shell_session console t0 buf π n m ls : dom t0 ⊆ {[0; 1; 2]} → Forall shell_line ls →
  ∃ t, open_loop 4 console (λ _, false) 0 t0 = Some t ∧ t0 ⊆ t ∧ dom t = {[0; 1; 2]} ∧
    (∀ es, session buf π t n m (concat ls) es →
      effects es `sublist_of` effects (ideal π t n ls) ∧ (smooth es = true → es = ideal π t n ls)) ∧
    session buf π t n m (concat ls) (ideal π t n ls) ∧ smooth (ideal π t n ls) = true ∧
    Forall std_effect (effects (ideal π t n ls)).
Proof.
  intros Hd Hls. destruct (open_three console t0 Hd) as (t & E & Hs & Ht), (shell_lines_split ls Hls) as [Hsp H0].
  exists t. split_and!; [done|done|done| | | |].
  - intros es. by apply (session_does buf π t Ht (concat ls)).
  - by apply (session_runs buf π t Ht (concat ls)).
  - by apply (session_runs buf π t Ht (concat ls) ls Hsp H0 n m).
  - by apply (session_std π t Ht (concat ls)).
Qed.

(** [cd d] and [a|b] *)
Definition demo_session : list (list Z) := [[99; 100; 32; 100; 10]; [97; 124; 98; 10]].

Lemma shell_session_witness : let t := std (DInit 0) (DInit 1) (DInit 1) in
  session 0 [] t 0 (λ _, 0) (concat demo_session) (ideal [] t 0 demo_session) ∧
  effects (ideal [] t 0 demo_session) =
    [inl [100]; inr ([97; 124; 98; 10], ([(0, 1)%nat], std (DInit 0) (DWrite [0; 0]%nat) (DInit 1)));
     inr ([97; 124; 98; 10], ([(2, 3)%nat], std (DRead [0; 0]%nat) (DInit 1) (DInit 1)))].
Proof.
  intros t. destruct (shell_session (DInit 1) {[0 := DInit 0]} 0 [] 0 (λ _, 0) demo_session) as (t' & E & _ & _ & _ & Hs & _).
  - rewrite dom_singleton_L. set_solver.
  - repeat constructor; [exists [99; 100; 32; 100]|exists [97; 124; 98]]; (split_and!; [done|repeat constructor; lia|done]).
  - assert (t' = t) as -> by (vm_compute in E; injection E as <-; by vm_compute). split; [done|by vm_compute].
Defined.
